(** * Magic Christmas Tree: particle choreography and interaction engine

    A shallow embedding of the JavaScript sources
    (js/entities/ornaments.js, js/utils/geometry-helpers.js,
    js/entities/snow.js, js/animations/{gather,scatter,transitions}.js,
    js/interactions/hand-tracking.js, js/main.js) and the properties the
    specification states about them.

    Conventions of the embedding.
    - A finite JavaScript number is a real number ([R]); rounding and
      overflow of IEEE doubles are idealised away.  Where the code can
      produce a non-finite value (the snow field divides by a distance),
      numbers are the extended type [num] with [NaN] and the infinities.
    - [Math.random()] reads the next draw of a tape ([list R]); running
      out of tape is the only way a sampling function fails ([None]).
    - Time is a real number of seconds, the unit of gsap; [setTimeout]
      delays and [Date.now()] are in milliseconds as in the source.
    - JavaScript objects that are mutated in place (meshes, the velocity
      objects, the state wrappers) are fields of an explicit state that is
      threaded through the calls. *)

From Stdlib Require Import Reals Lra ZArith Lia.
From stdpp Require Import base list strings.

Local Open Scope R_scope.

(** ** Numbers *)

(** Boolean comparisons on reals, as the code's [<] and [>]. *)
Definition Rltb (a b : R) : bool := if Rlt_dec a b then true else false.

Definition Rgtb (a b : R) : bool := Rltb b a.

(** [Math.pow(x, y)] for a base [x >= 0] and an exponent [y > 0], the only
    way the sources call it: [0] at [x = 0], [exp (y * ln x)] above. *)
Definition Math_pow (x y : R) : R := if Rlt_dec 0 x then Rpower x y else 0.

(** [THREE.Vector3] *)
Module V3.
Record t : Type := mk { x : R; y : R; z : R }.
End V3.

(** ** The random source *)

(** A computation that draws from the tape. *)
Definition Rand (A : Type) : Type := list R -> option (A * list R).

Definition rand_ret {A} (a : A) : Rand A := fun tape => Some (a, tape).

Definition rand_bind {A B} (m : Rand A) (k : A -> Rand B) : Rand B :=
  fun tape => match m tape with
              | Some (a, tape') => k a tape'
              | None => None
              end.

Notation "'let*' x ':=' m 'in' k" := (rand_bind m (fun x => k))
  (at level 10, x name, m at level 100, k at level 200).

(** [Math.random()] *)
Definition Math_random : Rand R :=
  fun tape => match tape with
              | u :: rest => Some (u, rest)
              | [] => None
              end.

(** ** Configuration (js/config.js) *)

Record HandTrackingConfig : Type := {
  gestureDebounceTime : R
}.

Record Config : Type := {
  ornamentCount : nat;
  snowCount : nat;
  treeHeight : R;
  treeBaseRadius : R;
  scatterRadius : R;
  animationDuration : R;
  animationEase : string;
  handTracking : HandTrackingConfig;
  snowInteractionRadius : R;
  snowWaveRadius : R;
  snowSpiralRadius : R
}.

(** The values of js/config.js. *)
Definition CONFIG : Config := {|
  ornamentCount := 400;
  snowCount := 700;
  treeHeight := 20;
  treeBaseRadius := 8;
  scatterRadius := 50;
  animationDuration := 1.8;
  animationEase := "back.out(1.2)";
  handTracking := {| gestureDebounceTime := 1000 |};
  snowInteractionRadius := 5;
  snowWaveRadius := 15;
  snowSpiralRadius := 8
|}.

(** ** Placement (js/entities/ornaments.js, js/utils/geometry-helpers.js) *)

Module Placement.

(** [calculateTreePosition(index, total, CONFIG)].  The azimuth and the
    radial jitter are the two draws; the height is drawn from nothing. *)
Definition calculateTreePosition (index total : nat) (CONFIG : Config)
  : Rand V3.t :=
  let H := treeHeight CONFIG in
  let R_base := treeBaseRadius CONFIG in
  let t := INR index / INR total in
  let t_weighted := Math_pow t 1.7 in
  let y_local := t_weighted * H in
  let y := y_local - H / 2 in
  let r_at_y := R_base * (1 - y_local / H) in
  let* u_theta := Math_random in
  let theta := u_theta * PI * 2 in
  let* u_r := Math_random in
  let r_random :=
    if Rltb y (-5) then r_at_y * (0.7 + u_r * 0.5)
    else if Rgtb y 5 then r_at_y * (0.85 + u_r * 0.3)
    else r_at_y * (0.8 + u_r * 0.4) in
  rand_ret (V3.mk (r_random * cos theta) y (r_random * sin theta)).

(** The body of the [do { ... } while (x*x + y*y + z*z > radius*radius)]
    loop shared by [calculateScatterPosition] and [randomInSphere]: three
    draws per round, redrawn while the candidate is outside the sphere.
    The recursion is on the tape, which every round shortens. *)
Fixpoint rejection_loop (radius : R) (tape : list R)
  : option (V3.t * list R) :=
  match tape with
  | u1 :: u2 :: u3 :: rest =>
      let x := (u1 - 0.5) * 2 * radius in
      let y := (u2 - 0.5) * 2 * radius in
      let z := (u3 - 0.5) * 2 * radius in
      if Rgtb (x * x + y * y + z * z) (radius * radius)
      then rejection_loop radius rest
      else Some (V3.mk x y z, rest)
  | _ => None
  end.

(** [calculateScatterPosition(CONFIG)] *)
Definition calculateScatterPosition (CONFIG : Config) : Rand V3.t :=
  let radius := scatterRadius CONFIG in
  rejection_loop radius.

(** [randomInSphere(radius)] of geometry-helpers.js *)
Definition randomInSphere (radius : R) : Rand V3.t :=
  rejection_loop radius.

End Placement.

(** ** Gesture classifier (js/interactions/hand-tracking.js) *)

Module Gesture.

(** The strings ['fist'], ['open'], ['partial'] and ['none']. *)
Inductive t : Type := fist | open | partial | none.

Definition eqb (a b : t) : bool :=
  match a, b with
  | fist, fist | open, open | partial, partial | none, none => true
  | _, _ => false
  end.

(** A MediaPipe landmark; the depth coordinate is never read. *)
Record Landmark : Type := { x : R; y : R }.

Definition fingerTips : list nat := [4; 8; 12; 16; 20]%nat.
Definition fingerPIPs : list nat := [3; 6; 10; 14; 18]%nat.
Definition fingerMCPs : list nat := [2; 5; 9; 13; 17]%nat.

(** One round of the [for (let i = 1; i < 5; i++)] loop.  Reading [.y] of
    a landmark that is not there throws, which is [None] here. *)
Definition finger_round (landmarks : list Landmark) (fingersExtended : nat)
  (i : nat) : option nat :=
  tip ← landmarks !! (nth i fingerTips 0%nat);
  pip ← landmarks !! (nth i fingerPIPs 0%nat);
  mcp ← landmarks !! (nth i fingerMCPs 0%nat);
  let tipY := y tip in
  let pipY := y pip in
  let mcpY := y mcp in
  Some (if Rltb tipY (pipY - 0.02) then S fingersExtended
        else fingersExtended).

Fixpoint finger_loop (landmarks : list Landmark) (fingersExtended : nat)
  (rounds : list nat) : option nat :=
  match rounds with
  | [] => Some fingersExtended
  | i :: rest =>
      n ← finger_round landmarks fingersExtended i;
      finger_loop landmarks n rest
  end.

(** [detectGesture(landmarks)] *)
Definition detectGesture (landmarks : list Landmark) : option t :=
  thumbTip ← landmarks !! 4%nat;
  palmCenter ← landmarks !! 0%nat;
  let thumbExtended := Rgtb (Rabs (x thumbTip - x palmCenter)) 0.1 in
  let fingersExtended := if thumbExtended then 1%nat else 0%nat in
  fingersExtended ← finger_loop landmarks fingersExtended [1; 2; 3; 4]%nat;
  Some (if (4 <=? fingersExtended)%nat then open
        else if (fingersExtended <=? 1)%nat then fist
        else partial).

End Gesture.

(** ** Numbers that may be non-finite *)

Module Num.

(** A JavaScript number: a finite value, an infinity or NaN.  The sign of
    zero is not tracked; the only divisor in the sources is a square
    root, whose zero is the positive one. *)
Inductive num : Type := Fin (r : R) | PInf | NInf | NaN.

Definition sign (r : R) : comparison :=
  if Rlt_dec 0 r then Gt else if Rlt_dec r 0 then Lt else Eq.

Definition isFinite (a : num) : bool :=
  match a with Fin _ => true | _ => false end.

Definition neg (a : num) : num :=
  match a with
  | Fin r => Fin (- r)
  | PInf => NInf
  | NInf => PInf
  | NaN => NaN
  end.

Definition add (a b : num) : num :=
  match a, b with
  | NaN, _ => NaN
  | _, NaN => NaN
  | Fin r, Fin s => Fin (r + s)
  | PInf, NInf => NaN
  | NInf, PInf => NaN
  | PInf, _ => PInf
  | _, PInf => PInf
  | NInf, _ => NInf
  | _, NInf => NInf
  end.

Definition sub (a b : num) : num := add a (neg b).

(** An infinity of sign [positive] times the finite [r]. *)
Definition mul_inf (positive : bool) (r : R) : num :=
  match sign r with
  | Gt => if positive then PInf else NInf
  | Lt => if positive then NInf else PInf
  | Eq => NaN
  end.

Definition mul (a b : num) : num :=
  match a, b with
  | NaN, _ => NaN
  | _, NaN => NaN
  | Fin r, Fin s => Fin (r * s)
  | Fin r, PInf => mul_inf true r
  | PInf, Fin r => mul_inf true r
  | Fin r, NInf => mul_inf false r
  | NInf, Fin r => mul_inf false r
  | PInf, PInf => PInf
  | NInf, NInf => PInf
  | PInf, NInf => NInf
  | NInf, PInf => NInf
  end.

Definition div (a b : num) : num :=
  match a, b with
  | NaN, _ => NaN
  | _, NaN => NaN
  | Fin r, Fin s =>
      match sign s with
      | Eq => match sign r with
              | Eq => NaN
              | Gt => PInf
              | Lt => NInf
              end
      | _ => Fin (r / s)
      end
  | Fin _, PInf => Fin 0
  | Fin _, NInf => Fin 0
  | PInf, Fin s => if Rlt_dec s 0 then NInf else PInf
  | NInf, Fin s => if Rlt_dec s 0 then PInf else NInf
  | PInf, PInf => NaN
  | PInf, NInf => NaN
  | NInf, PInf => NaN
  | NInf, NInf => NaN
  end.

(** [Math.sqrt] *)
Definition sqrt (a : num) : num :=
  match a with
  | Fin r => if Rlt_dec r 0 then NaN else Fin (R_sqrt.sqrt r)
  | PInf => PInf
  | NInf => NaN
  | NaN => NaN
  end.

(** [a < b]; false as soon as one side is NaN. *)
Definition ltb (a b : num) : bool :=
  match a, b with
  | Fin r, Fin s => Rltb r s
  | NInf, Fin _ => true
  | NInf, PInf => true
  | Fin _, PInf => true
  | _, _ => false
  end.

(** [Math.cos] and [Math.sin]: NaN outside the finite numbers. *)
Definition cos (a : num) : num :=
  match a with Fin r => Fin (Rtrigo_def.cos r) | _ => NaN end.

Definition sin (a : num) : num :=
  match a with Fin r => Fin (Rtrigo_def.sin r) | _ => NaN end.

(** [Math.atan2(y, x)] on finite arguments. *)
Definition Ratan2 (y x : R) : R :=
  match sign x with
  | Gt => atan (y / x)
  | Lt => if Rlt_dec y 0 then atan (y / x) - PI else atan (y / x) + PI
  | Eq => match sign y with
          | Gt => PI / 2
          | Lt => - (PI / 2)
          | Eq => 0
          end
  end.

(** [Math.atan2(y, x)] *)
Definition atan2 (y x : num) : num :=
  match y, x with
  | NaN, _ => NaN
  | _, NaN => NaN
  | Fin r, Fin s => Fin (Ratan2 r s)
  | Fin _, PInf => Fin 0
  | Fin r, NInf => if Rlt_dec r 0 then Fin (- PI) else Fin PI
  | PInf, Fin _ => Fin (PI / 2)
  | NInf, Fin _ => Fin (- (PI / 2))
  | PInf, PInf => Fin (PI / 4)
  | NInf, PInf => Fin (- (PI / 4))
  | PInf, NInf => Fin (3 * PI / 4)
  | NInf, NInf => Fin (- (3 * PI / 4))
  end.

End Num.

Declare Scope num_scope.
Delimit Scope num_scope with num.
Bind Scope num_scope with Num.num.
Infix "+" := Num.add : num_scope.
Infix "-" := Num.sub : num_scope.
Infix "*" := Num.mul : num_scope.
Infix "/" := Num.div : num_scope.
Infix "<?" := Num.ltb : num_scope.
Notation "- a" := (Num.neg a) : num_scope.

Coercion Num.Fin : R >-> Num.num.

(** ** Snow field (js/entities/snow.js) *)

(** A velocity object [{x, y, z}] of [snowVelocities]. *)
Module Vel.
Record t : Type := mk { x : Num.num; y : Num.num; z : Num.num }.
End Vel.

Definition rand_lift {A} (o : option A) : Rand A :=
  fun tape => match o with
              | Some a => Some (a, tape)
              | None => None
              end.

(** [for (let i = 0; i < n; i++) body], the state threaded through the
    rounds listed in [rounds]. *)
Fixpoint for_each {S} (body : nat -> S -> Rand S) (rounds : list nat) (s : S)
  : Rand S :=
  match rounds with
  | [] => rand_ret s
  | i :: rest => let* s' := body i s in for_each body rest s'
  end.

Module Snow.

Import Num.

(** [positions[k]] of the [Float32Array]: a read outside the array yields
    [undefined], which arithmetic turns into NaN. *)
Definition read (positions : list num) (k : nat) : num :=
  default NaN (positions !! k).

Definition readZ (positions : list num) (k : Z) : num :=
  if (k <? 0)%Z then NaN else read positions (Z.to_nat k).

(** [snowVelocities[k]] for a computed index. *)
Definition lookupZ {A} (l : list A) (k : Z) : option A :=
  if (k <? 0)%Z then None else l !! Z.to_nat k.

(** The body of the loop of [updateSnowSystem].  [snowVelocities[i]] that is
    not there makes [velocity.x] throw ([None]); a write outside the typed
    array is dropped, as [<[ _ := _ ]>] does. *)
Definition update_particle (handDetected : bool) (handPosition : V3.t)
  (CONFIG : Config) (i : nat) (st : list num * list Vel.t)
  : Rand (list num * list Vel.t) :=
  let '(positions, snowVelocities) := st in
  let i3 := (i * 3)%nat in
  let* velocity := rand_lift (snowVelocities !! i) in
  let positions :=
    <[i3 := (read positions i3 + Vel.x velocity)%num]> positions in
  let positions :=
    <[(i3 + 1)%nat := (read positions (i3 + 1) + Vel.y velocity)%num]>
      positions in
  let positions :=
    <[(i3 + 2)%nat := (read positions (i3 + 2) + Vel.z velocity)%num]>
      positions in
  let velocity :=
    if handDetected then
      let dx := (read positions i3 - Fin (V3.x handPosition))%num in
      let dy := (read positions (i3 + 1) - Fin (V3.y handPosition))%num in
      let dz := (read positions (i3 + 2) - Fin (V3.z handPosition))%num in
      let distance := Num.sqrt (dx * dx + dy * dy + dz * dz)%num in
      if (distance <? Fin (snowInteractionRadius CONFIG))%num then
        let force := ((Fin (snowInteractionRadius CONFIG) - distance)
                      / Fin (snowInteractionRadius CONFIG))%num in
        Vel.mk (Vel.x velocity + dx / distance * force * Fin 0.2)%num
               (Vel.y velocity)
               (Vel.z velocity + dz / distance * force * Fin 0.2)%num
      else velocity
    else velocity in
  let velocity :=
    Vel.mk (Vel.x velocity * Fin 0.98)%num
           (Vel.y velocity)
           (Vel.z velocity * Fin 0.98)%num in
  if (read positions (i3 + 1) <? Fin (-10))%num then
    let* u1 := Math_random in
    let positions := <[i3 := Fin ((u1 - 0.5) * 100)]> positions in
    let* u2 := Math_random in
    let positions := <[(i3 + 1)%nat := Fin (u2 * 30 + 50)]> positions in
    let* u3 := Math_random in
    let positions := <[(i3 + 2)%nat := Fin ((u3 - 0.5) * 100)]> positions in
    let* u4 := Math_random in
    let velocity := Vel.mk (Fin 0) (Fin (- (u4 * 0.06 + 0.02))) (Fin 0) in
    rand_ret (positions, <[i := velocity]> snowVelocities)
  else
    rand_ret (positions, <[i := velocity]> snowVelocities).

(** [updateSnowSystem(snowParticles, snowVelocities, snowCount,
    handDetected, handPosition, CONFIG)].  [snowParticles] is the position
    array of the points object, [None] while it is still [null]. *)
Definition updateSnowSystem (snowParticles : option (list num))
  (snowVelocities : list Vel.t) (snowCount : nat) (handDetected : bool)
  (handPosition : V3.t) (CONFIG : Config)
  : Rand (option (list num) * list Vel.t) :=
  match snowParticles with
  | None => rand_ret (None, snowVelocities)
  | Some positions =>
      let* st := for_each (update_particle handDetected handPosition CONFIG)
                   (seq 0 snowCount) (positions, snowVelocities) in
      rand_ret (Some (fst st), snd st)
  end.

(** The body of the loop of [createSnowWave]: one particle is drawn per
    round, whatever the earlier rounds drew. *)
Definition wave_round (positions : list num) (snowCount : nat)
  (position : V3.t) (CONFIG : Config) (i : nat)
  (snowVelocities : list Vel.t) : Rand (list Vel.t) :=
  let* u := Math_random in
  let randomIndex := Zfloor (u * INR snowCount) in
  let i3 := (randomIndex * 3)%Z in
  let dx := (readZ positions i3 - Fin (V3.x position))%num in
  let dy := (readZ positions (i3 + 1) - Fin (V3.y position))%num in
  let dz := (readZ positions (i3 + 2) - Fin (V3.z position))%num in
  let distance := Num.sqrt (dx * dx + dy * dy + dz * dz)%num in
  if (distance <? Fin (snowWaveRadius CONFIG))%num then
    let* velocity := rand_lift (lookupZ snowVelocities randomIndex) in
    let force := Fin 0.5 in
    let velocity :=
      Vel.mk (Vel.x velocity + dx / distance * force)%num
             (Vel.y velocity + Fin 0.3)%num
             (Vel.z velocity + dz / distance * force)%num in
    rand_ret (<[Z.to_nat randomIndex := velocity]> snowVelocities)
  else rand_ret snowVelocities.

(** [createSnowWave(snowParticles, snowVelocities, snowCount, position,
    CONFIG)] *)
Definition createSnowWave (snowParticles : option (list num))
  (snowVelocities : list Vel.t) (snowCount : nat) (position : V3.t)
  (CONFIG : Config) : Rand (list Vel.t) :=
  match snowParticles with
  | None => rand_ret snowVelocities
  | Some positions =>
      for_each (wave_round positions snowCount position CONFIG)
        (seq 0 (Nat.min 200 snowCount)) snowVelocities
  end.

(** The body of the loop of [createSnowSpiral]; [time] is
    [Date.now() * 0.003]. *)
Definition spiral_round (positions : list num) (position : V3.t)
  (CONFIG : Config) (time : R) (i : nat) (snowVelocities : list Vel.t)
  : Rand (list Vel.t) :=
  let i3 := (i * 3)%nat in
  let dx := (read positions i3 - Fin (V3.x position))%num in
  let dy := (read positions (i3 + 1) - Fin (V3.y position))%num in
  let dz := (read positions (i3 + 2) - Fin (V3.z position))%num in
  let distance := Num.sqrt (dx * dx + dy * dy + dz * dz)%num in
  if (distance <? Fin (snowSpiralRadius CONFIG))%num then
    let* velocity := rand_lift (snowVelocities !! i) in
    let angle := (Num.atan2 dz dx + Fin 0.1)%num in
    let force := ((Fin (snowSpiralRadius CONFIG) - distance)
                  / Fin (snowSpiralRadius CONFIG) * Fin 0.1)%num in
    let velocity :=
      Vel.mk (Vel.x velocity + Num.cos angle * force)%num
             (Vel.y velocity
              + Fin (Rtrigo_def.sin (time + INR i * 0.1) * 0.05))%num
             (Vel.z velocity + Num.sin angle * force)%num in
    rand_ret (<[i := velocity]> snowVelocities)
  else rand_ret snowVelocities.

(** [createSnowSpiral(snowParticles, snowVelocities, snowCount, position,
    CONFIG)], with the reading of the clock passed in. *)
Definition createSnowSpiral (snowParticles : option (list num))
  (snowVelocities : list Vel.t) (snowCount : nat) (position : V3.t)
  (CONFIG : Config) (Date_now : R) : Rand (list Vel.t) :=
  match snowParticles with
  | None => rand_ret snowVelocities
  | Some positions =>
      let time := Date_now * 0.003 in
      for_each (spiral_round positions position CONFIG time)
        (seq 0 snowCount) snowVelocities
  end.

End Snow.

(** ** Scene objects and the schedulers (gsap, setTimeout, promises) *)

(** An ornament mesh: its position and the two targets kept in
    [mesh.userData].  Rotation, geometry and material play no part in a
    transition. *)
Record Mesh : Type := {
  position : V3.t;
  treePosition : V3.t;
  scatterPosition : V3.t
}.

Record Star : Type := {
  position_y : R;
  rotation_y : R;
  originalY : R;
  scatterY : R
}.

Record Ribbon : Type := { visible : bool; opacity : R }.

Record Color : Type := { red : R; green : R; blue : R }.

Record Scene : Type := {
  ornaments : list Mesh;
  topStar : Star;
  spiralRibbon : Ribbon;
  starLight : option Color
}.

(** What the caller of [gatherAll] or [scatterAll] does with the promise:
    nothing ([Detached], the call in [init]), or [await] it and run the
    rest of [transitionState] ([AfterAwait]). *)
Inductive Continuation : Type :=
| Detached
| AfterAwait (toGathered : bool).

(** The closures the sources hand to [setTimeout] and to [onComplete]. *)
Inductive Callback : Type :=
| RevealRibbon (resolve : Continuation)
| Resolve (resolve : Continuation)
| HideRibbon (resolve : Continuation)
| EnableButton (toGathered : bool).

(** The target of a [gsap.to] call together with the end values. *)
Inductive Vars : Type :=
| MeshPosition (index : nat) (v : V3.t)
| LightColor (c : Color)
| StarPositionY (y : R)
| StarRotationY (y : R)
| RibbonOpacity (o : R).

(** A tween: [start] is the creation time plus the delay; [from] is filled
    in at the first rendering, when gsap reads the start values. *)
Record Tween : Type := {
  vars : Vars;
  start : R;
  duration : R;
  ease : string;
  from : option Vars;
  onComplete : option Callback
}.

Record Button : Type := { disabled : bool; showsScatter : bool }.

(** Everything a transition reads or writes. [animating] is
    [animationState.animating], [isGathered] is [isGathered.value]. *)
Record World : Type := {
  scene : Scene;
  now : R;
  tweens : list Tween;
  timers : list (R * Callback);
  isGathered : bool;
  animating : bool;
  toggleBtn : Button;
  tape : list R
}.

Definition with_scene (w : World) (sc : Scene) : World :=
  {| scene := sc; now := now w; tweens := tweens w; timers := timers w;
     isGathered := isGathered w; animating := animating w;
     toggleBtn := toggleBtn w; tape := tape w |}.

Definition with_now (w : World) (t : R) : World :=
  {| scene := scene w; now := t; tweens := tweens w; timers := timers w;
     isGathered := isGathered w; animating := animating w;
     toggleBtn := toggleBtn w; tape := tape w |}.

Definition with_tweens (w : World) (tws : list Tween) : World :=
  {| scene := scene w; now := now w; tweens := tws; timers := timers w;
     isGathered := isGathered w; animating := animating w;
     toggleBtn := toggleBtn w; tape := tape w |}.

Definition with_timers (w : World) (tms : list (R * Callback)) : World :=
  {| scene := scene w; now := now w; tweens := tweens w; timers := tms;
     isGathered := isGathered w; animating := animating w;
     toggleBtn := toggleBtn w; tape := tape w |}.

Definition with_isGathered (w : World) (b : bool) : World :=
  {| scene := scene w; now := now w; tweens := tweens w; timers := timers w;
     isGathered := b; animating := animating w;
     toggleBtn := toggleBtn w; tape := tape w |}.

Definition with_animating (w : World) (b : bool) : World :=
  {| scene := scene w; now := now w; tweens := tweens w; timers := timers w;
     isGathered := isGathered w; animating := b;
     toggleBtn := toggleBtn w; tape := tape w |}.

Definition with_toggleBtn (w : World) (b : Button) : World :=
  {| scene := scene w; now := now w; tweens := tweens w; timers := timers w;
     isGathered := isGathered w; animating := animating w;
     toggleBtn := b; tape := tape w |}.

Definition with_tape (w : World) (tp : list R) : World :=
  {| scene := scene w; now := now w; tweens := tweens w; timers := timers w;
     isGathered := isGathered w; animating := animating w;
     toggleBtn := toggleBtn w; tape := tp |}.

Definition with_ornaments (sc : Scene) (ms : list Mesh) : Scene :=
  {| ornaments := ms; topStar := topStar sc;
     spiralRibbon := spiralRibbon sc; starLight := starLight sc |}.

Definition with_position (m : Mesh) (p : V3.t) : Mesh :=
  {| position := p; treePosition := treePosition m;
     scatterPosition := scatterPosition m |}.

Definition with_scatterPosition (m : Mesh) (p : V3.t) : Mesh :=
  {| position := position m; treePosition := treePosition m;
     scatterPosition := p |}.

Module Gsap.

(** The values the properties named by [v] hold in the scene now. *)
Definition current (sc : Scene) (v : Vars) : Vars :=
  match v with
  | MeshPosition index p =>
      MeshPosition index
        (default p (position <$> ornaments sc !! index))
  | LightColor c => LightColor (default c (starLight sc))
  | StarPositionY _ => StarPositionY (position_y (topStar sc))
  | StarRotationY _ => StarRotationY (rotation_y (topStar sc))
  | RibbonOpacity _ => RibbonOpacity (opacity (spiralRibbon sc))
  end.

(** Writes the values of [v] into the properties it names. *)
Definition assign (sc : Scene) (v : Vars) : Scene :=
  match v with
  | MeshPosition index p =>
      with_ornaments sc
        (alter (fun m => with_position m p) index (ornaments sc))
  | LightColor c =>
      {| ornaments := ornaments sc; topStar := topStar sc;
         spiralRibbon := spiralRibbon sc;
         starLight := (fun _ => c) <$> starLight sc |}
  | StarPositionY y =>
      {| ornaments := ornaments sc;
         topStar := {| position_y := y;
                       rotation_y := rotation_y (topStar sc);
                       originalY := originalY (topStar sc);
                       scatterY := scatterY (topStar sc) |};
         spiralRibbon := spiralRibbon sc; starLight := starLight sc |}
  | StarRotationY y =>
      {| ornaments := ornaments sc;
         topStar := {| position_y := position_y (topStar sc);
                       rotation_y := y;
                       originalY := originalY (topStar sc);
                       scatterY := scatterY (topStar sc) |};
         spiralRibbon := spiralRibbon sc; starLight := starLight sc |}
  | RibbonOpacity o =>
      {| ornaments := ornaments sc; topStar := topStar sc;
         spiralRibbon := {| visible := visible (spiralRibbon sc);
                            opacity := o |};
         starLight := starLight sc |}
  end.

Definition lerp (a b ratio : R) : R := a + (b - a) * ratio.

(** The values between [a] and [b] at the eased progress [ratio]. *)
Definition mix (a b : Vars) (ratio : R) : Vars :=
  match a, b with
  | MeshPosition _ p, MeshPosition index q =>
      MeshPosition index
        (V3.mk (lerp (V3.x p) (V3.x q) ratio)
               (lerp (V3.y p) (V3.y q) ratio)
               (lerp (V3.z p) (V3.z q) ratio))
  | LightColor c, LightColor d =>
      LightColor {| red := lerp (red c) (red d) ratio;
                    green := lerp (green c) (green d) ratio;
                    blue := lerp (blue c) (blue d) ratio |}
  | StarPositionY y, StarPositionY y' => StarPositionY (lerp y y' ratio)
  | StarRotationY y, StarRotationY y' => StarRotationY (lerp y y' ratio)
  | RibbonOpacity o, RibbonOpacity o' => RibbonOpacity (lerp o o' ratio)
  | _, _ => b
  end.

End Gsap.

(** ** Transitions (js/animations/gather.js, scatter.js, transitions.js) *)

Section Transitions.

(** [gsap.parseEase]: the easing curve an ease string names. *)
Variable parseEase : string -> R -> R.

(** [gsap.to(target, { ...vars, duration, delay, ease, onComplete })] *)
Definition gsap_to (v : Vars) (duration delay : R) (ease : string)
  (onComplete : option Callback) (w : World) : World :=
  with_tweens w
    (tweens w ++ [ {| vars := v; start := now w + delay;
                      duration := duration; ease := ease; from := None;
                      onComplete := onComplete |} ]).

(** [setTimeout(callback, ms)] *)
Definition setTimeout (callback : Callback) (ms : R) (w : World) : World :=
  with_timers w (timers w ++ [(now w + ms / 1000, callback)]).

(** The ease gsap uses when a tween names none. *)
Definition defaultEase : string := "power1.out".

(** [ornaments.forEach((mesh, index) => ...)]: the rounds run over the
    indices of the array, each on the world the earlier ones left. *)
Fixpoint forEach (body : nat -> World -> option World) (indices : list nat)
  (w : World) : option World :=
  match indices with
  | [] => Some w
  | index :: rest => w' ← body index w; forEach body rest w'
  end.

(** The arrow function [gatherAll] runs on every ornament. *)
Definition gather_mesh (CONFIG : Config) (index : nat) (w : World)
  : option World :=
  mesh ← ornaments (scene w) !! index;
  let delay := INR index * 0.002 in
  Some (gsap_to (MeshPosition index (treePosition mesh))
          (animationDuration CONFIG) delay (animationEase CONFIG) None w).

(** [gatherAll(ornaments, topStar, spiralRibbon, starLight, CONFIG)]; the
    promise it returns is settled by calling [resolve]. *)
Definition gatherAll (CONFIG : Config) (resolve : Continuation) (w : World)
  : option World :=
  let w :=
    match starLight (scene w) with
    | Some _ =>
        gsap_to (LightColor {| red := 255 / 255; green := 215 / 255;
                               blue := 0 / 255 |})
          0.5 0 defaultEase None w
    | None => w
    end in
  w ← forEach (gather_mesh CONFIG) (seq 0 (length (ornaments (scene w)))) w;
  let w := gsap_to (StarPositionY (originalY (topStar (scene w))))
             (animationDuration CONFIG) 0 (animationEase CONFIG) None w in
  let w := gsap_to (StarRotationY (PI * 4))
             (animationDuration CONFIG) 0 "power2.out" None w in
  Some (setTimeout (RevealRibbon resolve) (animationDuration CONFIG * 500) w).

(** The arrow function [scatterAll] runs on every ornament: a fresh
    scatter position is drawn, kept in the mesh, and tweened to. *)
Definition scatter_mesh (CONFIG : Config) (index : nat) (w : World)
  : option World :=
  '(p, tape') ← Placement.calculateScatterPosition CONFIG (tape w);
  let w := with_tape w tape' in
  let w := with_scene w
             (with_ornaments (scene w)
                (alter (fun m => with_scatterPosition m p) index
                   (ornaments (scene w)))) in
  let delay := INR index * 0.002 in
  Some (gsap_to (MeshPosition index p)
          (animationDuration CONFIG) delay (animationEase CONFIG) None w).

(** [scatterAll(ornaments, topStar, spiralRibbon, starLight, CONFIG)] *)
Definition scatterAll (CONFIG : Config) (resolve : Continuation) (w : World)
  : option World :=
  let w :=
    match starLight (scene w) with
    | Some _ =>
        gsap_to (LightColor {| red := 225 / 255; green := 245 / 255;
                               blue := 254 / 255 |})
          0.5 0 defaultEase None w
    | None => w
    end in
  w ← forEach (scatter_mesh CONFIG) (seq 0 (length (ornaments (scene w)))) w;
  let w := gsap_to (StarPositionY (scatterY (topStar (scene w))))
             (animationDuration CONFIG) 0 (animationEase CONFIG) None w in
  Some (gsap_to (RibbonOpacity 0) 0.3 0 defaultEase
          (Some (HideRibbon resolve)) w).

(** [transitionState(toGathered, ornaments, topStar, spiralRibbon,
    starLight, CONFIG, animationState)] up to its [await]; what follows the
    [await] is [resume (AfterAwait toGathered)]. *)
Definition transitionState (toGathered : bool) (CONFIG : Config) (w : World)
  : option World :=
  if animating w then Some w
  else
    let w := with_animating w true in
    let w := with_toggleBtn w {| disabled := true;
                                 showsScatter := showsScatter (toggleBtn w) |} in
    if toGathered then gatherAll CONFIG (AfterAwait toGathered) w
    else scatterAll CONFIG (AfterAwait toGathered) w.

(** What runs once the promise is resolved. *)
Definition resume (CONFIG : Config) (k : Continuation) (w : World) : World :=
  match k with
  | Detached => w
  | AfterAwait toGathered =>
      setTimeout (EnableButton toGathered) (animationDuration CONFIG * 1000) w
  end.

Definition with_ribbon (w : World) (rb : Ribbon) : World :=
  with_scene w {| ornaments := ornaments (scene w);
                  topStar := topStar (scene w);
                  spiralRibbon := rb;
                  starLight := starLight (scene w) |}.

(** Runs a scheduled closure. *)
Definition fire (CONFIG : Config) (callback : Callback) (w : World) : World :=
  match callback with
  | RevealRibbon resolve =>
      let w := with_ribbon w {| visible := true; opacity := 0 |} in
      gsap_to (RibbonOpacity 0.9) 0.5 0 defaultEase (Some (Resolve resolve)) w
  | Resolve resolve => resume CONFIG resolve w
  | HideRibbon resolve =>
      let w := with_ribbon w {| visible := false;
                                opacity := opacity (spiralRibbon (scene w)) |} in
      resume CONFIG resolve w
  | EnableButton toGathered =>
      let w := with_animating w false in
      with_toggleBtn w {| disabled := false; showsScatter := toGathered |}
  end.

(** [updateButtonState(isGathered)] *)
Definition updateButtonState (isGathered : bool) (w : World) : World :=
  with_toggleBtn w {| disabled := disabled (toggleBtn w);
                      showsScatter := isGathered |}.

(** One rendering of a tween at time [t]: untouched before its start, the
    eased mix while it runs, the end values (and its [onComplete]) once the
    duration is over.  The result is the scene, the tween if it lives on,
    and the callback to run. *)
Definition render_tween (t : R) (tw : Tween) (sc : Scene)
  : Scene * option Tween * option Callback :=
  if Rltb t (start tw) then (sc, Some tw, None)
  else if Rltb t (start tw + duration tw) then
    let a := default (Gsap.current sc (vars tw)) (from tw) in
    let ratio := parseEase (ease tw) ((t - start tw) / duration tw) in
    (Gsap.assign sc (Gsap.mix a (vars tw) ratio),
     Some {| vars := vars tw; start := start tw; duration := duration tw;
             ease := ease tw; from := Some a; onComplete := onComplete tw |},
     None)
  else (Gsap.assign sc (vars tw), None, onComplete tw).

(** One tick of gsap's ticker: every tween renders, in creation order. *)
Fixpoint render_all (t : R) (tws : list Tween) (sc : Scene)
  : Scene * list Tween * list Callback :=
  match tws with
  | [] => (sc, [], [])
  | tw :: rest =>
      let '(sc1, keep, cb) := render_tween t tw sc in
      let '(sc2, keeps, cbs) := render_all t rest sc1 in
      (sc2, option_list keep ++ keeps, option_list cb ++ cbs)
  end.

Definition fire_all (CONFIG : Config) (cbs : list Callback) (w : World)
  : World :=
  foldl (fun w cb => fire CONFIG cb w) w cbs.

(** The world at time [t], when nothing was due before [t]: the clock
    moves, the timers due by [t] run, then the tweens render and the
    completed ones call back. *)
Definition tick (CONFIG : Config) (t : R) (w : World) : World :=
  let w := with_now w t in
  let due := filter (fun tm => Rltb t (fst tm) = false) (timers w) in
  let later := filter (fun tm => Rltb t (fst tm) = true) (timers w) in
  let w := with_timers w later in
  let w := fire_all CONFIG (snd <$> due) w in
  let '(sc, keep, cbs) := render_all t (tweens w) (scene w) in
  let w := with_tweens (with_scene w sc) keep in
  fire_all CONFIG cbs w.

(** The times at which something is scheduled to run: the timers, and the
    ends of the tweens that carry an [onComplete]. *)
Definition event_times (w : World) : list R :=
  (fst <$> timers w)
  ++ omap (fun tw => match onComplete tw with
                     | Some _ => Some (start tw + duration tw)
                     | None => None
                     end) (tweens w).

(** The earliest scheduled time that is not after [t]. *)
Definition next_event (t : R) (w : World) : option R :=
  match filter (fun te => Rltb t te = false) (event_times w) with
  | [] => None
  | te :: rest => Some (foldl Rmin te rest)
  end.

(** How many closures can still follow from a scheduled one. *)
Definition rank (callback : Callback) : nat :=
  match callback with
  | RevealRibbon _ => 3
  | Resolve _ => 2
  | HideRibbon _ => 2
  | EnableButton _ => 1
  end.

Definition pending_rank (w : World) : nat :=
  list_sum (rank ∘ snd <$> timers w)
  + list_sum (from_option rank 0%nat ∘ onComplete <$> tweens w).

(** Runs the scheduled closures in the order of their times up to [t],
    each at its own time, then renders at [t]. *)
Fixpoint advance_fuel (CONFIG : Config) (fuel : nat) (t : R) (w : World)
  : World :=
  match next_event t w with
  | None => tick CONFIG t w
  | Some te =>
      match fuel with
      | O => w
      | S fuel' =>
          advance_fuel CONFIG fuel' t (tick CONFIG (Rmax (now w) te) w)
      end
  end.

(** The world after the clock has moved to [t]: an animation frame at
    [t].  A time that is not ahead of the clock changes nothing. *)
Definition advance (CONFIG : Config) (t : R) (w : World) : World :=
  if Rltb t (now w) then w
  else advance_fuel CONFIG (pending_rank w) t w.

(** [toggleState()] of main.js *)
Definition toggleState (CONFIG : Config) (w : World) : option World :=
  let w := with_isGathered w (negb (isGathered w)) in
  transitionState (isGathered w) CONFIG w.

End Transitions.

(** ** Hand tracking (js/interactions/hand-tracking.js) *)

(** [handTrackingState] *)
Record HandTrackingState : Type := {
  detected : bool;
  hand_position : V3.t;
  gesture : Gesture.t
}.

(** What [onHandResults] asks of the rest of the program. *)
Inductive Call : Type :=
| CallTransitionState (toGathered : bool)
| CallCreateSnowWave
| CallCreateSnowSpiral.

(** The world together with the snow field and the variables of the
    hand-tracking module.  [calls] is a record of the calls made by
    [onHandResults], oldest first; the program does not read it. *)
Record App : Type := {
  world : World;
  snowParticles : option (list Num.num);
  snowVelocities : list Vel.t;
  handTrackingState : HandTrackingState;
  lastGesture : option Gesture.t;
  lastGestureTime : R;
  calls : list Call
}.

Definition with_world (a : App) (w : World) : App :=
  {| world := w; snowParticles := snowParticles a;
     snowVelocities := snowVelocities a;
     handTrackingState := handTrackingState a;
     lastGesture := lastGesture a; lastGestureTime := lastGestureTime a;
     calls := calls a |}.

Definition with_snowVelocities (a : App) (vs : list Vel.t) : App :=
  {| world := world a; snowParticles := snowParticles a;
     snowVelocities := vs;
     handTrackingState := handTrackingState a;
     lastGesture := lastGesture a; lastGestureTime := lastGestureTime a;
     calls := calls a |}.

Definition with_handTrackingState (a : App) (h : HandTrackingState) : App :=
  {| world := world a; snowParticles := snowParticles a;
     snowVelocities := snowVelocities a;
     handTrackingState := h;
     lastGesture := lastGesture a; lastGestureTime := lastGestureTime a;
     calls := calls a |}.

Definition with_lastGesture (a : App) (g : option Gesture.t) : App :=
  {| world := world a; snowParticles := snowParticles a;
     snowVelocities := snowVelocities a;
     handTrackingState := handTrackingState a;
     lastGesture := g; lastGestureTime := lastGestureTime a;
     calls := calls a |}.

Definition with_lastGestureTime (a : App) (t : R) : App :=
  {| world := world a; snowParticles := snowParticles a;
     snowVelocities := snowVelocities a;
     handTrackingState := handTrackingState a;
     lastGesture := lastGesture a; lastGestureTime := t;
     calls := calls a |}.

Definition record_call (c : Call) (a : App) : App :=
  {| world := world a; snowParticles := snowParticles a;
     snowVelocities := snowVelocities a;
     handTrackingState := handTrackingState a;
     lastGesture := lastGesture a; lastGestureTime := lastGestureTime a;
     calls := calls a ++ [c] |}.

Module HandTracking.

(** [Date.now()], in milliseconds. *)
Definition Date_now (a : App) : R := now (world a) * 1000.

(** The call [transitionState(toGathered, ...)] as [onHandResults] makes
    it. *)
Definition call_transitionState (toGathered : bool) (CONFIG : Config)
  (a : App) : option App :=
  w ← transitionState toGathered CONFIG (world a);
  Some (record_call (CallTransitionState toGathered) (with_world a w)).

(** The call [createSnowWave(snowParticles, snowVelocities, snowCount,
    handTrackingState.position, CONFIG)]. *)
Definition call_createSnowWave (CONFIG : Config) (a : App) : option App :=
  '(vs, tape') ← Snow.createSnowWave (snowParticles a) (snowVelocities a)
                   (snowCount CONFIG) (hand_position (handTrackingState a))
                   CONFIG (tape (world a));
  Some (record_call CallCreateSnowWave
          (with_snowVelocities (with_world a (with_tape (world a) tape')) vs)).

(** The call [createSnowSpiral(...)]. *)
Definition call_createSnowSpiral (CONFIG : Config) (a : App) : option App :=
  '(vs, tape') ← Snow.createSnowSpiral (snowParticles a) (snowVelocities a)
                   (snowCount CONFIG) (hand_position (handTrackingState a))
                   CONFIG (Date_now a) (tape (world a));
  Some (record_call CallCreateSnowSpiral
          (with_snowVelocities (with_world a (with_tape (world a) tape')) vs)).

Definition same_gesture (g : Gesture.t) (last : option Gesture.t) : bool :=
  match last with
  | Some g' => Gesture.eqb g g'
  | None => false
  end.

(** The three-way [if] inside the debounce gate of [onHandResults]. *)
Definition trigger (CONFIG : Config) (gesture : Gesture.t)
  (currentTime : R) (a : App) : option App :=
  if Gesture.eqb gesture Gesture.fist
     && negb (isGathered (world a)) && negb (animating (world a))
  then
    let a := with_world a (with_isGathered (world a) true) in
    a ← call_transitionState true CONFIG a;
    let a := with_world a (updateButtonState true (world a)) in
    Some (with_lastGestureTime a currentTime)
  else if Gesture.eqb gesture Gesture.open
          && isGathered (world a) && negb (animating (world a))
  then
    let a := with_world a (with_isGathered (world a) false) in
    a ← call_transitionState false CONFIG a;
    let a := with_world a (updateButtonState false (world a)) in
    a ← call_createSnowWave CONFIG a;
    Some (with_lastGestureTime a currentTime)
  else if Gesture.eqb gesture Gesture.open
  then
    a ← call_createSnowWave CONFIG a;
    Some (with_lastGestureTime a currentTime)
  else Some a.

(** [onHandResults(results, canvasElement, canvasCtx, dependencies)];
    [multiHandLandmarks] is [results.multiHandLandmarks], empty when no
    hand is seen.  Drawing on the canvas and the gesture label are left
    out. *)
Definition onHandResults (multiHandLandmarks : list (list Gesture.Landmark))
  (CONFIG : Config) (a : App) : option App :=
  match multiHandLandmarks with
  | landmarks :: _ =>
      palmCenter ← landmarks !! 9%nat;
      let position :=
        V3.mk ((Gesture.x palmCenter - 0.5) * 80)
              ((0.5 - Gesture.y palmCenter) * 60)
              20 in
      let a := with_handTrackingState a
                 {| detected := true; hand_position := position;
                    gesture := gesture (handTrackingState a) |} in
      gesture ← Gesture.detectGesture landmarks;
      let a := with_handTrackingState a
                 {| detected := true; hand_position := position;
                    gesture := gesture |} in
      let currentTime := Date_now a in
      a ← (if Gesture.eqb gesture Gesture.fist
           then call_createSnowSpiral CONFIG a
           else Some a);
      if negb (same_gesture gesture (lastGesture a))
         && Rgtb (currentTime - lastGestureTime a)
                 (gestureDebounceTime (handTracking CONFIG))
      then
        a ← trigger CONFIG gesture currentTime a;
        Some (with_lastGesture a (Some gesture))
      else Some a
  | [] =>
      Some (with_handTrackingState a
              {| detected := false;
                 hand_position := hand_position (handTrackingState a);
                 gesture := gesture (handTrackingState a) |})
  end.

End HandTracking.

(** * Properties *)

(** ** Comparisons *)

Lemma Rltb_true (a b : R) : Rltb a b = true <-> a < b.
Proof. unfold Rltb. destruct (Rlt_dec a b); split; (lra || discriminate || auto). Qed.

Lemma Rltb_false (a b : R) : Rltb a b = false <-> b <= a.
Proof. unfold Rltb. destruct (Rlt_dec a b); split; (lra || discriminate || auto). Qed.

Lemma Rltb_lt (a b : R) : a < b -> Rltb a b = true.
Proof. apply Rltb_true. Qed.

Lemma Rltb_ge (a b : R) : b <= a -> Rltb a b = false.
Proof. apply Rltb_false. Qed.

(** ** Placement *)

Lemma Math_pow_nonneg (x e : R) : 0 <= Math_pow x e.
Proof.
  unfold Math_pow. destruct (Rlt_dec 0 x); [|lra].
  unfold Rpower. left. apply exp_pos.
Qed.

(** The power curve is non-decreasing on the non-negative numbers. *)
Lemma Math_pow_mono (a b e : R) :
  0 <= a <= b -> 0 < e -> Math_pow a e <= Math_pow b e.
Proof.
  intros [Ha Hab] He. unfold Math_pow.
  destruct (Rlt_dec 0 a) as [Hpa|Hna].
  - destruct (Rlt_dec 0 b); [|lra].
    apply Rle_Rpower_l; lra.
  - destruct (Rlt_dec 0 b); [|lra].
    unfold Rpower. left. apply exp_pos.
Qed.

Lemma ratio_nonneg (i n : nat) : (0 < n)%nat -> 0 <= INR i / INR n.
Proof.
  intros Hn. apply Rmult_le_pos; [apply pos_INR|].
  left. apply Rinv_0_lt_compat. apply lt_0_INR. lia.
Qed.

(** With two draws on the tape [calculateTreePosition] returns, and the
    height it returns is the power curve of the rank. *)
Lemma calculateTreePosition_y (index total : nat) (CONFIG : Config)
  (u_theta u_r : R) (rest : list R) :
  exists p,
    Placement.calculateTreePosition index total CONFIG (u_theta :: u_r :: rest)
      = Some (p, rest)
    /\ V3.y p = Math_pow (INR index / INR total) 1.7 * treeHeight CONFIG
                - treeHeight CONFIG / 2.
Proof.
  unfold Placement.calculateTreePosition, rand_bind, Math_random, rand_ret.
  eexists. split; [reflexivity|]. reflexivity.
Qed.

(** C7. For ranks [i1/n1 <= i2/n2] (totals positive, tree height not
    negative) the heights returned by [calculateTreePosition] are ordered
    the same way, [y = (index/total)^1.7 * H - H/2], whatever the azimuth
    and jitter draws are. *)
Theorem treePosition_y_monotone (CONFIG : Config) (i1 n1 i2 n2 : nat)
  (a1 b1 a2 b2 : R) (rest1 rest2 : list R) :
  (0 < n1)%nat -> (0 < n2)%nat -> 0 <= treeHeight CONFIG ->
  INR i1 / INR n1 <= INR i2 / INR n2 ->
  exists p1 p2,
    Placement.calculateTreePosition i1 n1 CONFIG (a1 :: b1 :: rest1)
      = Some (p1, rest1)
    /\ Placement.calculateTreePosition i2 n2 CONFIG (a2 :: b2 :: rest2)
       = Some (p2, rest2)
    /\ V3.y p1 = Math_pow (INR i1 / INR n1) 1.7 * treeHeight CONFIG
                 - treeHeight CONFIG / 2
    /\ V3.y p2 = Math_pow (INR i2 / INR n2) 1.7 * treeHeight CONFIG
                 - treeHeight CONFIG / 2
    /\ V3.y p1 <= V3.y p2.
Proof.
  intros Hn1 Hn2 HH Hle.
  destruct (calculateTreePosition_y i1 n1 CONFIG a1 b1 rest1) as (p1 & E1 & Y1).
  destruct (calculateTreePosition_y i2 n2 CONFIG a2 b2 rest2) as (p2 & E2 & Y2).
  exists p1, p2. repeat split; try assumption.
  rewrite Y1, Y2.
  assert (Math_pow (INR i1 / INR n1) 1.7 <= Math_pow (INR i2 / INR n2) 1.7).
  { apply Math_pow_mono; [split; [apply ratio_nonneg; assumption|assumption]|lra]. }
  nra.
Qed.

Lemma treePosition_y_monotone_witness :
  exists p1 p2,
    Placement.calculateTreePosition 100 400 CONFIG [0.25; 0.5]
      = Some (p1, [])
    /\ Placement.calculateTreePosition 300 400 CONFIG [0.75; 0.1]
       = Some (p2, [])
    /\ V3.y p1 = Math_pow (INR 100 / INR 400) 1.7 * treeHeight CONFIG
                 - treeHeight CONFIG / 2
    /\ V3.y p2 = Math_pow (INR 300 / INR 400) 1.7 * treeHeight CONFIG
                 - treeHeight CONFIG / 2
    /\ V3.y p1 <= V3.y p2.
Proof.
  apply (treePosition_y_monotone CONFIG 100 400 300 400 0.25 0.5 0.75 0.1 [] []).
  - lia.
  - lia.
  - simpl. lra.
  - rewrite !INR_IZR_INZ.
    change (Z.of_nat 100) with 100%Z. change (Z.of_nat 300) with 300%Z.
    change (Z.of_nat 400) with 400%Z. lra.
Defined.

(** A round of the rejection loop: an inside candidate is returned, an
    outside one is dropped and the loop goes on with the rest of the tape. *)
Lemma rejection_loop_round (radius u1 u2 u3 : R) (rest : list R) :
  let x := (u1 - 0.5) * 2 * radius in
  let y := (u2 - 0.5) * 2 * radius in
  let z := (u3 - 0.5) * 2 * radius in
  Placement.rejection_loop radius (u1 :: u2 :: u3 :: rest)
  = if Rgtb (x * x + y * y + z * z) (radius * radius)
    then Placement.rejection_loop radius rest
    else Some (V3.mk x y z, rest).
Proof. reflexivity. Qed.

Lemma rejection_loop_inside (radius : R) (tape rest : list R) (p : V3.t) :
  Placement.rejection_loop radius tape = Some (p, rest) ->
  V3.x p * V3.x p + V3.y p * V3.y p + V3.z p * V3.z p <= radius * radius.
Proof.
  revert p rest.
  induction tape as [tape IH] using (induction_ltof1 _ (@length R)).
  intros p rest H.
  destruct tape as [|u1 [|u2 [|u3 tape']]]; try discriminate.
  rewrite rejection_loop_round in H. cbv zeta in H.
  destruct (Rgtb _ _) eqn:E.
  - eapply IH; [|exact H]. unfold ltof. simpl. lia.
  - injection H as <- <-. simpl.
    unfold Rgtb in E. apply Rltb_false in E. exact E.
Qed.

(** The loop returns the first candidate that is inside the sphere: after
    [3 * k] draws of rejected candidates comes the accepted one. *)
Lemma rejection_loop_first_inside (radius u1 u2 u3 : R) (rest : list R) :
  let x := (u1 - 0.5) * 2 * radius in
  let y := (u2 - 0.5) * 2 * radius in
  let z := (u3 - 0.5) * 2 * radius in
  x * x + y * y + z * z <= radius * radius ->
  Placement.rejection_loop radius (u1 :: u2 :: u3 :: rest)
  = Some (V3.mk x y z, rest).
Proof.
  intros x y z H. rewrite rejection_loop_round. cbv zeta.
  unfold Rgtb. rewrite Rltb_ge; [reflexivity|exact H].
Qed.

(** The loop returns by round [k] when the candidate of round [k], the
    draws [3k], [3k + 1] and [3k + 2] of the tape, is inside the sphere:
    an earlier round may have returned already, so some round [j <= k]
    does, having taken [3 * (j + 1)] draws. *)
Lemma rejection_loop_returns (radius : R) (k : nat) :
  forall (tape : list R) (u1 u2 u3 : R),
  tape !! (3 * k)%nat = Some u1 -> tape !! (3 * k + 1)%nat = Some u2 ->
  tape !! (3 * k + 2)%nat = Some u3 ->
  (let x := (u1 - 0.5) * 2 * radius in
   let y := (u2 - 0.5) * 2 * radius in
   let z := (u3 - 0.5) * 2 * radius in
   x * x + y * y + z * z <= radius * radius) ->
  exists p rest j,
    Placement.rejection_loop radius tape = Some (p, rest)
    /\ (j <= k)%nat /\ length tape = (3 * S j + length rest)%nat.
Proof.
  induction k as [|k IH]; intros tape u1 u2 u3 H1 H2 H3 Hin.
  - destruct tape as [|a [|b [|c rest]]]; try discriminate.
    cbn in H1, H2, H3. injection H1 as ->. injection H2 as ->.
    injection H3 as ->.
    eexists _, rest, 0%nat.
    split; [apply rejection_loop_first_inside; exact Hin|].
    split; [lia|cbn [length]; lia].
  - assert (Hl : (3 * S k + 2 < length tape)%nat)
      by (apply lookup_lt_Some in H3; exact H3).
    destruct tape as [|a [|b [|c tape']]]; cbn [length] in Hl; try lia.
    rewrite rejection_loop_round. cbv zeta.
    destruct (Rgtb _ _).
    + replace (3 * S k)%nat with (S (S (S (3 * k)))) in H1, H2, H3 by lia.
      replace (S (S (S (3 * k))) + 1)%nat with (S (S (S (3 * k + 1))))
        in H2 by lia.
      replace (S (S (S (3 * k))) + 2)%nat with (S (S (S (3 * k + 2))))
        in H3 by lia.
      cbn [lookup list_lookup] in H1, H2, H3.
      destruct (IH tape' u1 u2 u3 H1 H2 H3 Hin) as (p & rest & j & E & Hj & L).
      exists p, rest, (S j). split; [exact E|].
      split; [lia|cbn [length]; lia].
    + eexists _, tape', 0%nat. split; [reflexivity|].
      split; [lia|cbn [length]; lia].
Qed.

(** C6. Whatever the draws are, a vector returned by
    [calculateScatterPosition] (and by [randomInSphere]) has a squared norm
    of at most the squared radius; and a vector is returned: as soon as
    the draws hold a candidate inside the sphere, in round [k], the call
    returns, by that round at the latest, with three draws taken for
    every round it ran.  (A loop fed only candidates outside the sphere
    never ends.) *)
Theorem scatterPosition_inside_sphere (CONFIG : Config) (radius : R)
  (tape : list R) :
  (forall p rest,
     Placement.calculateScatterPosition CONFIG tape = Some (p, rest) ->
     V3.x p * V3.x p + V3.y p * V3.y p + V3.z p * V3.z p
     <= scatterRadius CONFIG * scatterRadius CONFIG)
  /\ (forall p rest,
        Placement.randomInSphere radius tape = Some (p, rest) ->
        V3.x p * V3.x p + V3.y p * V3.y p + V3.z p * V3.z p
        <= radius * radius)
  /\ (forall k u1 u2 u3,
        tape !! (3 * k)%nat = Some u1 -> tape !! (3 * k + 1)%nat = Some u2 ->
        tape !! (3 * k + 2)%nat = Some u3 ->
        (let r := scatterRadius CONFIG in
         let x := (u1 - 0.5) * 2 * r in
         let y := (u2 - 0.5) * 2 * r in
         let z := (u3 - 0.5) * 2 * r in
         x * x + y * y + z * z <= r * r) ->
        exists p rest j,
          Placement.calculateScatterPosition CONFIG tape = Some (p, rest)
          /\ (j <= k)%nat /\ length tape = (3 * S j + length rest)%nat
          /\ V3.x p * V3.x p + V3.y p * V3.y p + V3.z p * V3.z p
             <= scatterRadius CONFIG * scatterRadius CONFIG)
  /\ (forall k u1 u2 u3,
        tape !! (3 * k)%nat = Some u1 -> tape !! (3 * k + 1)%nat = Some u2 ->
        tape !! (3 * k + 2)%nat = Some u3 ->
        (let x := (u1 - 0.5) * 2 * radius in
         let y := (u2 - 0.5) * 2 * radius in
         let z := (u3 - 0.5) * 2 * radius in
         x * x + y * y + z * z <= radius * radius) ->
        exists p rest j,
          Placement.randomInSphere radius tape = Some (p, rest)
          /\ (j <= k)%nat /\ length tape = (3 * S j + length rest)%nat
          /\ V3.x p * V3.x p + V3.y p * V3.y p + V3.z p * V3.z p
             <= radius * radius).
Proof.
  unfold Placement.calculateScatterPosition, Placement.randomInSphere.
  split; [intros p rest H; eapply rejection_loop_inside; exact H|].
  split; [intros p rest H; eapply rejection_loop_inside; exact H|].
  split.
  - intros k u1 u2 u3 H1 H2 H3 Hin.
    destruct (rejection_loop_returns (scatterRadius CONFIG) k tape u1 u2 u3
                H1 H2 H3 Hin) as (p & rest & j & E & Hj & L).
    exists p, rest, j. split; [exact E|]. split; [exact Hj|].
    split; [exact L|]. eapply rejection_loop_inside; exact E.
  - intros k u1 u2 u3 H1 H2 H3 Hin.
    destruct (rejection_loop_returns radius k tape u1 u2 u3 H1 H2 H3 Hin)
      as (p & rest & j & E & Hj & L).
    exists p, rest, j. split; [exact E|]. split; [exact Hj|].
    split; [exact L|]. eapply rejection_loop_inside; exact E.
Qed.

(** A tape whose first candidate is the corner of the cube (rejected) and
    whose second is the centre of the sphere (accepted). *)
Definition tape_corner_then_centre : list R := [1; 1; 1; 0.5; 0.5; 0.5; 0.25].

Lemma scatter_corner_then_centre (radius : R) :
  0 < radius ->
  Placement.rejection_loop radius tape_corner_then_centre
  = Some (V3.mk ((0.5 - 0.5) * 2 * radius) ((0.5 - 0.5) * 2 * radius)
            ((0.5 - 0.5) * 2 * radius), [0.25]).
Proof.
  intros Hr. unfold tape_corner_then_centre.
  rewrite rejection_loop_round. cbv zeta.
  unfold Rgtb at 1. rewrite Rltb_lt by nra.
  apply rejection_loop_first_inside. nra.
Qed.

(** On that tape both functions return, in the second round, the centre
    of the sphere, and leave the last draw. *)
Lemma scatterPosition_inside_sphere_witness :
  let centre := V3.mk ((0.5 - 0.5) * 2 * 50) ((0.5 - 0.5) * 2 * 50)
                  ((0.5 - 0.5) * 2 * 50) in
  Placement.calculateScatterPosition CONFIG tape_corner_then_centre
  = Some (centre, [0.25])
  /\ Placement.randomInSphere 50 tape_corner_then_centre
     = Some (centre, [0.25])
  /\ V3.x centre * V3.x centre + V3.y centre * V3.y centre
     + V3.z centre * V3.z centre
     <= scatterRadius CONFIG * scatterRadius CONFIG.
Proof.
  intros centre.
  destruct (scatterPosition_inside_sphere CONFIG 50 tape_corner_then_centre)
    as (_ & _ & H1 & H2).
  pose proof (scatter_corner_then_centre 50 ltac:(lra)) as Ec.
  destruct (H1 1%nat 0.5 0.5 0.5) as (p & rest & j & E & _ & _ & Hin);
    [reflexivity|reflexivity|reflexivity|simpl; lra|].
  destruct (H2 1%nat 0.5 0.5 0.5) as (p' & rest' & j' & E' & _);
    [reflexivity|reflexivity|reflexivity|simpl; lra|].
  assert (Hp : (p, rest) = (centre, [0.25])).
  { unfold Placement.calculateScatterPosition in E.
    change (scatterRadius CONFIG) with 50 in E.
    rewrite Ec in E. injection E as <- <-. reflexivity. }
  assert (Hp' : (p', rest') = (centre, [0.25])).
  { unfold Placement.randomInSphere in E'.
    rewrite Ec in E'. injection E' as <- <-. reflexivity. }
  injection Hp as -> ->. injection Hp' as -> ->.
  split; [exact E|]. split; [exact E'|exact Hin].
Defined.

(** ** Gesture classifier *)

(** The classifier as the specification words it. *)
Module GestureSpec.

Definition origin : Gesture.Landmark := {| Gesture.x := 0; Gesture.y := 0 |}.

(** Landmark [k] of a frame. *)
Definition at_ (frame : list Gesture.Landmark) (k : nat) : Gesture.Landmark :=
  nth k frame origin.

(** The thumb is extended when its tip (4) is horizontally more than 0.1
    away from the wrist (0). *)
Definition thumb_extended (frame : list Gesture.Landmark) : Prop :=
  Rabs (Gesture.x (at_ frame 4) - Gesture.x (at_ frame 0)) > 0.1.

(** A finger is extended when its tip is above its PIP joint by more than
    0.02, that is when its y is smaller by more than 0.02. *)
Definition finger_extended (frame : list Gesture.Landmark) (tip pip : nat)
  : Prop :=
  Gesture.y (at_ frame tip) < Gesture.y (at_ frame pip) - 0.02.

Definition count (P : Prop) `{Decision P} : nat := if decide P then 1 else 0.

#[local] Instance thumb_extended_dec frame : Decision (thumb_extended frame).
Proof. unfold thumb_extended, Rgt. apply Rlt_dec. Defined.

#[local] Instance finger_extended_dec frame tip pip :
  Decision (finger_extended frame tip pip).
Proof. unfold finger_extended. apply Rlt_dec. Defined.

(** The number of extended fingers: thumb, index (8/6), middle (12/10),
    ring (16/14), pinky (20/18). *)
Definition extended_count (frame : list Gesture.Landmark) : nat :=
  count (thumb_extended frame)
  + count (finger_extended frame 8 6)
  + count (finger_extended frame 12 10)
  + count (finger_extended frame 16 14)
  + count (finger_extended frame 20 18).

(** At least four extended fingers is Open, at most one is Fist, anything
    else is Partial. *)
Definition classify (n : nat) : Gesture.t :=
  if decide (4 <= n)%nat then Gesture.open
  else if decide (n <= 1)%nat then Gesture.fist
  else Gesture.partial.

End GestureSpec.

Lemma count_Rltb (a b : R) `{Decision (a < b)} :
  (if Rltb a b then 1%nat else 0%nat) = GestureSpec.count (a < b).
Proof.
  unfold GestureSpec.count, Rltb.
  destruct (Rlt_dec a b), (decide (a < b)); (reflexivity || contradiction).
Qed.

(** On a frame of 21 landmarks [detectGesture] does not throw and returns
    the class of the count of extended fingers. *)
Lemma detectGesture_classify (frame : list Gesture.Landmark) :
  length frame = 21%nat ->
  Gesture.detectGesture frame
  = Some (GestureSpec.classify (GestureSpec.extended_count frame)).
Proof.
  intros Hlen.
  do 21 (destruct frame as [|? frame]; [discriminate Hlen|]).
  destruct frame; [|discriminate Hlen]. clear Hlen.
  unfold Gesture.detectGesture, GestureSpec.extended_count.
  unfold GestureSpec.thumb_extended, GestureSpec.finger_extended,
    GestureSpec.at_, GestureSpec.count.
  cbn [lookup list_lookup nth mbind option_bind Gesture.finger_loop
       Gesture.finger_round Gesture.fingerTips Gesture.fingerPIPs
       Gesture.fingerMCPs Gesture.y Gesture.x].
  unfold Rgtb, Rltb.
  repeat match goal with
         | |- context [decide ?P] => destruct (decide P)
         end;
  repeat match goal with
         | |- context [Rlt_dec ?a ?b] => destruct (Rlt_dec a b)
         end;
  try reflexivity;
  unfold Rgt in *; contradiction.
Qed.

(** C5. On every frame of 21 landmarks [detectGesture] counts the thumb as
    extended iff its tip is horizontally more than 0.1 from the wrist, each
    other finger iff its tip's y is below its PIP's y minus 0.02, and
    returns Open for a count of at least 4, Fist for at most 1, Partial
    otherwise; with all four fingers and the thumb extended it returns
    Open, with all five folded it returns Fist. *)
Theorem detectGesture_spec (frame : list Gesture.Landmark) :
  length frame = 21%nat ->
  Gesture.detectGesture frame
  = Some (GestureSpec.classify (GestureSpec.extended_count frame))
  /\ (GestureSpec.thumb_extended frame ->
      GestureSpec.finger_extended frame 8 6 ->
      GestureSpec.finger_extended frame 12 10 ->
      GestureSpec.finger_extended frame 16 14 ->
      GestureSpec.finger_extended frame 20 18 ->
      Gesture.detectGesture frame = Some Gesture.open)
  /\ (~ GestureSpec.thumb_extended frame ->
      ~ GestureSpec.finger_extended frame 8 6 ->
      ~ GestureSpec.finger_extended frame 12 10 ->
      ~ GestureSpec.finger_extended frame 16 14 ->
      ~ GestureSpec.finger_extended frame 20 18 ->
      Gesture.detectGesture frame = Some Gesture.fist).
Proof.
  intros Hlen. rewrite (detectGesture_classify frame Hlen).
  unfold GestureSpec.extended_count, GestureSpec.count.
  split; [reflexivity|split]; intros;
    repeat match goal with
           | |- context [decide ?P] => destruct (decide P); try contradiction
           end; reflexivity.
Qed.

(** A frame with every landmark at the centre of the image: all folded. *)
Definition frame_folded : list Gesture.Landmark :=
  replicate 21 {| Gesture.x := 0.5; Gesture.y := 0.5 |}.

Lemma detectGesture_spec_witness :
  Gesture.detectGesture frame_folded
  = Some (GestureSpec.classify (GestureSpec.extended_count frame_folded))
  /\ (GestureSpec.thumb_extended frame_folded ->
      GestureSpec.finger_extended frame_folded 8 6 ->
      GestureSpec.finger_extended frame_folded 12 10 ->
      GestureSpec.finger_extended frame_folded 16 14 ->
      GestureSpec.finger_extended frame_folded 20 18 ->
      Gesture.detectGesture frame_folded = Some Gesture.open)
  /\ (~ GestureSpec.thumb_extended frame_folded ->
      ~ GestureSpec.finger_extended frame_folded 8 6 ->
      ~ GestureSpec.finger_extended frame_folded 12 10 ->
      ~ GestureSpec.finger_extended frame_folded 16 14 ->
      ~ GestureSpec.finger_extended frame_folded 20 18 ->
      Gesture.detectGesture frame_folded = Some Gesture.fist).
Proof. apply (detectGesture_spec frame_folded). reflexivity. Defined.

(** ** Snow field *)

Lemma sign_zero (r : R) : r = 0 -> Num.sign r = Eq.
Proof.
  intros ->. unfold Num.sign.
  destruct (Rlt_dec 0 0); [lra|]. destruct (Rlt_dec 0 0); [lra|reflexivity].
Qed.

Lemma sign_pos (r : R) : 0 < r -> Num.sign r = Gt.
Proof. intros H. unfold Num.sign. destruct (Rlt_dec 0 r); [reflexivity|lra]. Qed.

Lemma sign_neg (r : R) : r < 0 -> Num.sign r = Lt.
Proof.
  intros H. unfold Num.sign.
  destruct (Rlt_dec 0 r); [lra|]. destruct (Rlt_dec r 0); [reflexivity|lra].
Qed.

(** Zero divided by zero is NaN. *)
Lemma div_zero_zero (a b : R) :
  a = 0 -> b = 0 -> Num.div (Num.Fin a) (Num.Fin b) = Num.NaN.
Proof. intros Ha Hb. simpl. rewrite (sign_zero b Hb), (sign_zero a Ha). reflexivity. Qed.

Lemma div_finite (a b : R) :
  b <> 0 -> Num.div (Num.Fin a) (Num.Fin b) = Num.Fin (a / b).
Proof.
  intros Hb. simpl. unfold Num.sign.
  destruct (Rlt_dec 0 b); [reflexivity|].
  destruct (Rlt_dec b 0); [reflexivity|]. lra.
Qed.

Lemma sqrt_finite (r : R) :
  0 <= r -> Num.sqrt (Num.Fin r) = Num.Fin (sqrt r).
Proof. intros H. simpl. destruct (Rlt_dec r 0); [lra|reflexivity]. Qed.

(** NaN absorbs: a sum or a product with NaN is NaN. *)
Lemma add_NaN_r (a : Num.num) : Num.add a Num.NaN = Num.NaN.
Proof. destruct a; reflexivity. Qed.

Lemma mul_NaN_l (a : Num.num) : Num.mul Num.NaN a = Num.NaN.
Proof. reflexivity. Qed.

Lemma sum_squares_nonneg (a b c : R) : 0 <= a * a + b * b + c * c.
Proof. nra. Qed.

(** The random index of a round is an index of the field. *)
Lemma random_index_range (u : R) (n : nat) :
  0 <= u < 1 -> (0 < n)%nat ->
  (0 <= Zfloor (u * INR n) < Z.of_nat n)%Z.
Proof.
  intros [H0 H1] Hn.
  assert (Hn' : 0 < INR n) by (apply lt_0_INR; lia).
  destruct (Zfloor_bound (u * INR n)) as [Hlo Hhi].
  split.
  - assert (IZR (-1) < IZR (Zfloor (u * INR n))) as H.
    { change (IZR (-1)) with (-1). nra. }
    apply lt_IZR in H. lia.
  - apply lt_IZR. rewrite <- INR_IZR_INZ. nra.
Qed.

Module WaveSpec.

Import Num.

(** The displacement of particle [j] from the wave origin and its length,
    as [createSnowWave] computes them. *)
Definition dx (positions : list num) (position : V3.t) (j : nat) : num :=
  (Snow.read positions (j * 3) - Fin (V3.x position))%num.

Definition dy (positions : list num) (position : V3.t) (j : nat) : num :=
  (Snow.read positions (j * 3 + 1) - Fin (V3.y position))%num.

Definition dz (positions : list num) (position : V3.t) (j : nat) : num :=
  (Snow.read positions (j * 3 + 2) - Fin (V3.z position))%num.

Definition distance (positions : list num) (position : V3.t) (j : nat) : num :=
  Num.sqrt (dx positions position j * dx positions position j
            + dy positions position j * dy positions position j
            + dz positions position j * dz positions position j)%num.

(** The velocity of particle [j] after one impulse of the wave. *)
Definition impulse (positions : list num) (position : V3.t) (j : nat)
  (v : Vel.t) : Vel.t :=
  Vel.mk (Vel.x v + dx positions position j / distance positions position j
                    * Fin 0.5)%num
         (Vel.y v + Fin 0.3)%num
         (Vel.z v + dz positions position j / distance positions position j
                    * Fin 0.5)%num.

(** The particle a draw selects. *)
Definition drawn (snowCount : nat) (u : R) : nat :=
  Z.to_nat (Zfloor (u * INR snowCount)).

(** How many of the draws select particle [i]. *)
Definition hits (snowCount i : nat) (draws : list R) : nat :=
  length (filter (fun u => drawn snowCount u = i) draws).

End WaveSpec.

(** A round of [createSnowWave] whose draw is a number of [[0, 1)]: the
    particle the draw selects gets the impulse if it is within the wave
    radius, and nothing else changes. *)
Lemma wave_round_spec (positions : list Num.num) (snowCount : nat)
  (position : V3.t) (CONFIG : Config) (r : nat) (vels : list Vel.t)
  (u : R) (tape : list R) :
  length vels = snowCount -> 0 <= u < 1 -> (0 < snowCount)%nat ->
  Snow.wave_round positions snowCount position CONFIG r vels (u :: tape)
  = Some (if Num.ltb (WaveSpec.distance positions position
                        (WaveSpec.drawn snowCount u))
                     (Num.Fin (snowWaveRadius CONFIG))
          then alter (WaveSpec.impulse positions position
                        (WaveSpec.drawn snowCount u))
                 (WaveSpec.drawn snowCount u) vels
          else vels, tape).
Proof.
  intros Hlen Hu Hn.
  destruct (random_index_range u snowCount Hu Hn) as [Hlo Hhi].
  unfold Snow.wave_round, rand_bind, Math_random.
  unfold WaveSpec.distance, WaveSpec.dx, WaveSpec.dy, WaveSpec.dz,
    WaveSpec.drawn.
  set (j := Zfloor (u * INR snowCount)) in *.
  assert (R0 : Snow.readZ positions (j * 3) = Snow.read positions (Z.to_nat j * 3)).
  { unfold Snow.readZ. destruct (Z.ltb_spec (j * 3) 0); [lia|].
    f_equal. lia. }
  assert (R1 : Snow.readZ positions (j * 3 + 1)
               = Snow.read positions (Z.to_nat j * 3 + 1)).
  { unfold Snow.readZ. destruct (Z.ltb_spec (j * 3 + 1) 0); [lia|].
    f_equal. lia. }
  assert (R2 : Snow.readZ positions (j * 3 + 2)
               = Snow.read positions (Z.to_nat j * 3 + 2)).
  { unfold Snow.readZ. destruct (Z.ltb_spec (j * 3 + 2) 0); [lia|].
    f_equal. lia. }
  rewrite R0, R1, R2.
  destruct (Num.ltb _ _) eqn:E; [|reflexivity].
  unfold Snow.lookupZ. destruct (Z.ltb_spec j 0); [lia|].
  destruct (lookup_lt_is_Some_2 vels (Z.to_nat j)) as [v Hv]; [lia|].
  unfold rand_lift, rand_ret. rewrite Hv.
  f_equal. f_equal.
  unfold WaveSpec.impulse, WaveSpec.distance, WaveSpec.dx, WaveSpec.dy,
    WaveSpec.dz.
  apply list_eq. intros k.
  destruct (decide (k = Z.to_nat j)) as [->|Hk].
  - rewrite list_lookup_insert_eq by (apply lookup_lt_is_Some; eauto).
    rewrite list_lookup_alter_eq, Hv. reflexivity.
  - rewrite list_lookup_insert_ne by congruence.
    rewrite list_lookup_alter_ne by congruence. reflexivity.
Qed.

Module WaveLoop.

Import Num.

(** Whether particle [j] is within the wave radius, as the code tests it. *)
Definition in_wave (positions : list num) (position : V3.t) (CONFIG : Config)
  (j : nat) : bool :=
  (WaveSpec.distance positions position j <? Fin (snowWaveRadius CONFIG))%num.

(** The effect of one draw, then of a list of draws, on the velocities. *)
Definition apply_draw (positions : list num) (snowCount : nat)
  (position : V3.t) (CONFIG : Config) (vels : list Vel.t) (u : R)
  : list Vel.t :=
  if in_wave positions position CONFIG (WaveSpec.drawn snowCount u)
  then alter (WaveSpec.impulse positions position (WaveSpec.drawn snowCount u))
         (WaveSpec.drawn snowCount u) vels
  else vels.

Definition apply_draws (positions : list num) (snowCount : nat)
  (position : V3.t) (CONFIG : Config) (draws : list R) (vels : list Vel.t)
  : list Vel.t :=
  foldl (apply_draw positions snowCount position CONFIG) vels draws.

End WaveLoop.

Lemma apply_draw_length positions snowCount position CONFIG vels u :
  length (WaveLoop.apply_draw positions snowCount position CONFIG vels u)
  = length vels.
Proof.
  unfold WaveLoop.apply_draw. destruct (WaveLoop.in_wave _ _ _ _); [|reflexivity].
  apply length_alter.
Qed.

(** The loop of [createSnowWave] consumes one draw per round and applies
    the draws in order; it returns whenever the tape holds a draw of
    [[0, 1)] for every round. *)
Lemma wave_loop_spec (positions : list Num.num) (snowCount : nat)
  (position : V3.t) (CONFIG : Config) (rounds : list nat) :
  forall (vels : list Vel.t) (tape : list R),
  length vels = snowCount -> (0 < snowCount)%nat ->
  (length rounds <= length tape)%nat ->
  Forall (fun u => 0 <= u < 1) tape ->
  for_each (Snow.wave_round positions snowCount position CONFIG) rounds vels tape
  = Some (WaveLoop.apply_draws positions snowCount position CONFIG
            (take (length rounds) tape) vels,
          drop (length rounds) tape).
Proof.
  induction rounds as [|r rounds IH]; intros vels tape Hlen Hn Htape Hrange.
  - reflexivity.
  - destruct tape as [|u tape]; [simpl in Htape; lia|].
    apply Forall_cons in Hrange as [Hu Hrange].
    cbn [for_each]. unfold rand_bind.
    rewrite (wave_round_spec positions snowCount position CONFIG r vels u tape
               Hlen Hu Hn).
    fold (WaveLoop.in_wave positions position CONFIG (WaveSpec.drawn snowCount u)).
    fold (WaveLoop.apply_draw positions snowCount position CONFIG vels u).
    rewrite IH.
    + reflexivity.
    + rewrite apply_draw_length. exact Hlen.
    + exact Hn.
    + simpl in Htape. lia.
    + exact Hrange.
Qed.

(** The velocity of a particle within the radius after the draws: one
    impulse per draw that selected it. *)
Lemma apply_draws_lookup positions snowCount position CONFIG (i : nat)
  (draws : list R) :
  WaveLoop.in_wave positions position CONFIG i = true ->
  forall vels : list Vel.t,
  WaveLoop.apply_draws positions snowCount position CONFIG draws vels !! i
  = Nat.iter (WaveSpec.hits snowCount i draws)
      (WaveSpec.impulse positions position i) <$> vels !! i.
Proof.
  intros Hin. unfold WaveLoop.apply_draws.
  induction draws as [|u draws IH]; intros vels.
  - simpl. destruct (vels !! i); reflexivity.
  - cbn [foldl]. rewrite IH. unfold WaveSpec.hits.
    rewrite filter_cons. unfold WaveLoop.apply_draw.
    destruct (decide (WaveSpec.drawn snowCount u = i)) as [->|Hne].
    + rewrite Hin. rewrite list_lookup_alter_eq.
      destruct (vels !! i) as [v|]; [|reflexivity].
      cbn [fmap option_fmap option_map length]. f_equal.
      symmetry. apply Nat.iter_succ_r.
    + destruct (WaveLoop.in_wave positions position CONFIG
                  (WaveSpec.drawn snowCount u)); cbv iota.
      * rewrite list_lookup_alter_ne by exact Hne. reflexivity.
      * reflexivity.
Qed.

(** Particles outside the radius keep their velocity. *)
Lemma apply_draws_lookup_outside positions snowCount position CONFIG (i : nat)
  (draws : list R) :
  WaveLoop.in_wave positions position CONFIG i = false ->
  forall vels : list Vel.t,
  WaveLoop.apply_draws positions snowCount position CONFIG draws vels !! i
  = vels !! i.
Proof.
  intros Hout. unfold WaveLoop.apply_draws.
  induction draws as [|u draws IH]; intros vels; [reflexivity|].
  cbn [foldl]. rewrite IH. unfold WaveLoop.apply_draw.
  destruct (decide (WaveSpec.drawn snowCount u = i)) as [->|Hne].
  - rewrite Hout. reflexivity.
  - destruct (WaveLoop.in_wave positions position CONFIG
                (WaveSpec.drawn snowCount u)); cbv iota; [|reflexivity].
    rewrite list_lookup_alter_ne by exact Hne. reflexivity.
Qed.

Lemma impulse_y positions position (i : nat) (v : Vel.t) :
  Vel.y (WaveSpec.impulse positions position i v)
  = Num.add (Vel.y v) (Num.Fin 0.3).
Proof. reflexivity. Qed.

(** The vertical velocity after [k] impulses. *)
Lemma impulse_iter_y positions position (i k : nat) (v : Vel.t) (vy : R) :
  Vel.y v = Num.Fin vy ->
  Vel.y (Nat.iter k (WaveSpec.impulse positions position i) v)
  = Num.Fin (vy + 0.3 * INR k).
Proof.
  intros Hv. induction k as [|k IH].
  - simpl. rewrite Hv. f_equal. lra.
  - rewrite S_INR, Nat.iter_succ, impulse_y, IH.
    simpl. f_equal. lra.
Qed.

(** The distance of a particle with finite coordinates. *)
Lemma distance_finite (positions : list Num.num) (position : V3.t) (j : nat)
  (px py pz : R) :
  positions !! (j * 3)%nat = Some (Num.Fin px) ->
  positions !! (j * 3 + 1)%nat = Some (Num.Fin py) ->
  positions !! (j * 3 + 2)%nat = Some (Num.Fin pz) ->
  WaveSpec.dx positions position j = Num.Fin (px - V3.x position)
  /\ WaveSpec.dz positions position j = Num.Fin (pz - V3.z position)
  /\ WaveSpec.distance positions position j
     = Num.Fin (sqrt ((px - V3.x position) * (px - V3.x position)
                      + (py - V3.y position) * (py - V3.y position)
                      + (pz - V3.z position) * (pz - V3.z position))).
Proof.
  intros Hx Hy Hz.
  unfold WaveSpec.distance, WaveSpec.dx, WaveSpec.dy, WaveSpec.dz, Snow.read.
  rewrite Hx, Hy, Hz. cbn [default from_option id Num.sub Num.neg Num.add Num.mul].
  repeat split; try reflexivity.
  apply sqrt_finite. apply sum_squares_nonneg.
Qed.

Lemma sqrt_lt_bound (x r : R) : 0 <= x -> 0 < r -> x < r * r -> sqrt x < r.
Proof.
  intros Hx Hr Hlt. rewrite <- (sqrt_square r) by lra.
  apply sqrt_lt_1; nra.
Qed.

Lemma sqrt_ge_bound (x r : R) : 0 <= r -> r * r <= x -> r <= sqrt x.
Proof.
  intros Hr Hle. rewrite <- (sqrt_square r) at 1 by lra.
  apply sqrt_le_1; nra.
Qed.



(** A field of two particles: the first at distance 7.5 from the origin,
    half the wave radius of js/config.js, the second far outside. *)
Definition field_positions : list Num.num :=
  [Num.Fin 7.5; Num.Fin 0; Num.Fin 0; Num.Fin 100; Num.Fin 0; Num.Fin 0].

Definition falling : Vel.t := Vel.mk (Num.Fin 0) (Num.Fin (-0.05)) (Num.Fin 0).

Definition field_velocities : list Vel.t := [falling; falling].

Definition wave_origin : V3.t := V3.mk 0 0 0.

Lemma drawn_first : WaveSpec.drawn 2 0.25 = 0%nat.
Proof.
  unfold WaveSpec.drawn. rewrite (Zfloor_eq 0); [reflexivity|].
  simpl. lra.
Qed.

Lemma drawn_second : WaveSpec.drawn 2 0.75 = 1%nat.
Proof.
  unfold WaveSpec.drawn. rewrite (Zfloor_eq 1); [reflexivity|].
  simpl. lra.
Qed.

Lemma field_distance_first :
  sqrt ((7.5 - 0) * (7.5 - 0) + (0 - 0) * (0 - 0) + (0 - 0) * (0 - 0))
  = snowWaveRadius CONFIG / 2.
Proof.
  replace ((7.5 - 0) * (7.5 - 0) + (0 - 0) * (0 - 0) + (0 - 0) * (0 - 0))
    with (7.5 * 7.5) by lra.
  rewrite sqrt_square by lra. simpl. lra.
Qed.

Lemma field_first_in_wave :
  WaveLoop.in_wave field_positions wave_origin CONFIG 0 = true.
Proof.
  unfold WaveLoop.in_wave.
  destruct (distance_finite field_positions wave_origin 0 7.5 0 0)
    as (_ & _ & ->); try reflexivity.
  cbn [Num.ltb V3.x V3.y V3.z wave_origin].
  rewrite field_distance_first. apply Rltb_lt. simpl. lra.
Qed.

Lemma field_second_outside :
  WaveLoop.in_wave field_positions wave_origin CONFIG 1 = false.
Proof.
  unfold WaveLoop.in_wave.
  destruct (distance_finite field_positions wave_origin 1 100 0 0)
    as (_ & _ & ->); try reflexivity.
  cbn [Num.ltb V3.x V3.y V3.z wave_origin].
  apply Rltb_ge. apply sqrt_ge_bound; simpl; lra.
Qed.

Lemma field_tape_range (u : R) :
  0 <= u < 1 -> Forall (fun u => 0 <= u < 1) [u; u].
Proof. intros H. apply Forall_cons; split; [exact H|]. apply Forall_cons; split; [exact H|]. apply Forall_nil_2. Qed.

(** A wave whose two draws both select the far particle leaves every
    velocity as it was, the one of the particle at half the radius too. *)
Lemma wave_misses_particle :
  Snow.createSnowWave (Some field_positions) field_velocities 2 wave_origin
    CONFIG [0.75; 0.75]
  = Some (field_velocities, []).
Proof.
  unfold Snow.createSnowWave. change (Nat.min 200 2) with 2%nat.
  rewrite wave_loop_spec;
    [|reflexivity|lia|simpl; lia|apply field_tape_range; lra].
  cbn [length seq take drop]. f_equal. f_equal.
  unfold WaveLoop.apply_draws. cbn [foldl].
  unfold WaveLoop.apply_draw. rewrite drawn_second, field_second_outside.
  reflexivity.
Qed.

(** A wave whose two draws both select the near particle gives it the
    impulse twice. *)
Lemma wave_hits_particle_twice :
  exists vels' v',
    Snow.createSnowWave (Some field_positions) field_velocities 2 wave_origin
      CONFIG [0.25; 0.25]
    = Some (vels', [])
    /\ vels' !! 0%nat = Some v'
    /\ Vel.y v' = Num.Fin (-0.05 + 0.3 * 2).
Proof.
  unfold Snow.createSnowWave. change (Nat.min 200 2) with 2%nat.
  rewrite wave_loop_spec;
    [|reflexivity|lia|simpl; lia|apply field_tape_range; lra].
  cbn [length seq take drop].
  eexists _, _. split; [reflexivity|].
  rewrite apply_draws_lookup by apply field_first_in_wave.
  split; [reflexivity|].
  rewrite (impulse_iter_y _ _ _ _ _ (-0.05)) by reflexivity.
  f_equal. f_equal. unfold WaveSpec.hits.
  rewrite !filter_cons, drawn_first.
  destruct (decide (0%nat = 0%nat)); [|congruence]. simpl. lra.
Qed.



(** C10. [createSnowWave] draws [min(200, snowCount)] indices, each
    [floor(random * snowCount)] whatever was drawn before: a particle
    within the wave radius ends with its vertical velocity raised by 0.3
    times the number of draws that selected it.  That number can be two
    (the boost is then 0.6) and it can be zero (a particle within the
    radius is left as it was). *)
Theorem createSnowWave_draws_with_replacement :
  (forall (positions : list Num.num) (vels : list Vel.t) (snowCount : nat)
          (position : V3.t) (CONFIG : Config) (tape : list R) (i : nat)
          (v : Vel.t) (vy : R),
     length vels = snowCount -> (0 < snowCount)%nat ->
     (Nat.min 200 snowCount <= length tape)%nat ->
     Forall (fun u => 0 <= u < 1) tape ->
     WaveLoop.in_wave positions position CONFIG i = true ->
     vels !! i = Some v -> Vel.y v = Num.Fin vy ->
     exists vels' v',
       Snow.createSnowWave (Some positions) vels snowCount position CONFIG tape
       = Some (vels', drop (Nat.min 200 snowCount) tape)
       /\ vels' !! i = Some v'
       /\ Vel.y v'
          = Num.Fin (vy + 0.3 * INR (WaveSpec.hits snowCount i
                                       (take (Nat.min 200 snowCount) tape))))
  /\ (exists vels' v',
        Snow.createSnowWave (Some field_positions) field_velocities 2
          wave_origin CONFIG [0.25; 0.25] = Some (vels', [])
        /\ vels' !! 0%nat = Some v'
        /\ Vel.y v' = Num.Fin (-0.05 + 0.3 * 2))
  /\ (WaveLoop.in_wave field_positions wave_origin CONFIG 0 = true
      /\ Snow.createSnowWave (Some field_positions) field_velocities 2
           wave_origin CONFIG [0.75; 0.75] = Some (field_velocities, [])).
Proof.
  split; [|split].
  - intros positions vels snowCount position CONFIG tape i v vy
      Hlen Hn Htape Hrange Hin Hv Hvy.
    unfold Snow.createSnowWave.
    rewrite wave_loop_spec; rewrite ?length_seq; try assumption.
    eexists _, _. split; [reflexivity|].
    rewrite apply_draws_lookup by exact Hin. rewrite Hv.
    split; [reflexivity|].
    apply impulse_iter_y. exact Hvy.
  - apply wave_hits_particle_twice.
  - split; [apply field_first_in_wave|apply wave_misses_particle].
Qed.

(** *** A particle exactly at the hand *)

(** One particle, at the hand anchor [(0, 0, 20)]. *)
Definition anchored_positions : list Num.num :=
  [Num.Fin 0; Num.Fin 0; Num.Fin 20].

Definition hand_anchor : V3.t := V3.mk 0 0 20.

Lemma anchored_distance :
  sqrt ((0 - 0) * (0 - 0) + (0 - 0) * (0 - 0) + (20 - 20) * (20 - 20)) = 0.
Proof.
  replace ((0 - 0) * (0 - 0) + (0 - 0) * (0 - 0) + (20 - 20) * (20 - 20))
    with 0 by lra.
  apply sqrt_0.
Qed.

Lemma drawn_only : WaveSpec.drawn 1 0.5 = 0%nat.
Proof.
  unfold WaveSpec.drawn. rewrite (Zfloor_eq 0); [reflexivity|].
  simpl. lra.
Qed.

(** The wave. The particle drawn sits exactly at the wave origin: its
    distance is zero, zero is below the wave radius, and the unguarded
    [dx / distance] is [0 / 0]: [createSnowWave] writes NaN into the
    horizontal velocity of the particle. *)
Lemma createSnowWave_at_origin :
  Snow.createSnowWave (Some anchored_positions) [falling] 1 hand_anchor
    CONFIG [0.5]
  = Some ([Vel.mk Num.NaN (Num.Fin (-0.05 + 0.3)) Num.NaN], []).
Proof.
  unfold Snow.createSnowWave. change (Nat.min 200 1) with 1%nat.
  rewrite wave_loop_spec; [|reflexivity|lia|simpl; lia|].
  2:{ apply Forall_cons; split; [lra|apply Forall_nil_2]. }
  cbn [length seq take drop]. f_equal. f_equal.
  unfold WaveLoop.apply_draws. cbn [foldl].
  unfold WaveLoop.apply_draw, WaveLoop.in_wave. rewrite drawn_only.
  destruct (distance_finite anchored_positions hand_anchor 0 0 0 20)
    as (Edx & Edz & Ed); try reflexivity.
  cbn [V3.x V3.y V3.z hand_anchor] in Edx, Edz, Ed.
  rewrite anchored_distance in Ed.
  rewrite Ed. cbn [Num.ltb]. rewrite Rltb_lt by (simpl; lra).
  cbn [alter list_alter]. f_equal.
  unfold WaveSpec.impulse. rewrite Edx, Edz, Ed.
  rewrite !div_zero_zero by lra.
  reflexivity.
Qed.

Lemma read_insert_eq (l : list Num.num) (k : nat) (a : Num.num) :
  (k < length l)%nat -> Snow.read (<[k := a]> l) k = a.
Proof.
  intros H. unfold Snow.read. rewrite list_lookup_insert_eq by exact H.
  reflexivity.
Qed.

Lemma read_insert_ne (l : list Num.num) (k j : nat) (a : Num.num) :
  k <> j -> Snow.read (<[k := a]> l) j = Snow.read l j.
Proof.
  intros H. unfold Snow.read. rewrite list_lookup_insert_ne by exact H.
  reflexivity.
Qed.

Lemma read_Some (l : list Num.num) (k : nat) (a : Num.num) :
  l !! k = Some a -> Snow.read l k = a.
Proof. intros H. unfold Snow.read. rewrite H. reflexivity. Qed.

(** A round of [updateSnowSystem] for a particle that its velocity carries
    exactly onto the detected hand (and not below the floor): the distance
    is zero, which is below any positive interaction radius, [dx / distance]
    is [0 / 0], and the horizontal velocity becomes NaN. *)
Lemma update_particle_at_hand (CONFIG : Config) (positions : list Num.num)
  (vels : list Vel.t) (i : nat) (hand : V3.t) (tape : list R)
  (px py pz vx vy vz : R) :
  positions !! (i * 3)%nat = Some (Num.Fin px) ->
  positions !! (i * 3 + 1)%nat = Some (Num.Fin py) ->
  positions !! (i * 3 + 2)%nat = Some (Num.Fin pz) ->
  vels !! i = Some (Vel.mk (Num.Fin vx) (Num.Fin vy) (Num.Fin vz)) ->
  px + vx = V3.x hand -> py + vy = V3.y hand -> pz + vz = V3.z hand ->
  0 < snowInteractionRadius CONFIG -> -10 <= py + vy ->
  Snow.update_particle true hand CONFIG i (positions, vels) tape
  = Some ((<[(i * 3 + 2)%nat := Num.Fin (pz + vz)]>
             (<[(i * 3 + 1)%nat := Num.Fin (py + vy)]>
                (<[(i * 3)%nat := Num.Fin (px + vx)]> positions)),
           <[i := Vel.mk Num.NaN (Num.Fin vy) Num.NaN]> vels), tape).
Proof.
  intros Hx Hy Hz Hv Ex Ey Ez HR Hfloor.
  assert (L0 : (i * 3 < length positions)%nat)
    by (apply lookup_lt_is_Some; eauto).
  assert (L1 : (i * 3 + 1 < length positions)%nat)
    by (apply lookup_lt_is_Some; eauto).
  assert (L2 : (i * 3 + 2 < length positions)%nat)
    by (apply lookup_lt_is_Some; eauto).
  unfold Snow.update_particle, rand_bind, rand_lift. rewrite Hv.
  cbv zeta. cbn [Vel.x Vel.y Vel.z].
  rewrite (read_Some _ _ _ Hx).
  rewrite !(read_insert_ne _ (i * 3) (i * 3 + 1)) by lia.
  rewrite (read_Some _ _ _ Hy).
  rewrite !(read_insert_ne _ (i * 3 + 1) (i * 3 + 2)) by lia.
  rewrite !(read_insert_ne _ (i * 3) (i * 3 + 2)) by lia.
  rewrite (read_Some _ _ _ Hz).
  rewrite !(read_insert_ne _ (i * 3 + 2) (i * 3 + 1)) by lia.
  rewrite !(read_insert_ne _ (i * 3 + 2) (i * 3)) by lia.
  rewrite !(read_insert_ne _ (i * 3 + 1) (i * 3)) by lia.
  rewrite !read_insert_eq by (rewrite ?length_insert; lia).
  cbn [Num.add Num.sub Num.neg Num.mul].
  rewrite sqrt_finite by nra.
  replace ((px + vx + - V3.x hand) * (px + vx + - V3.x hand)
           + (py + vy + - V3.y hand) * (py + vy + - V3.y hand)
           + (pz + vz + - V3.z hand) * (pz + vz + - V3.z hand))
    with 0 by nra.
  rewrite sqrt_0. cbn [Num.ltb].
  rewrite (Rltb_lt 0 (snowInteractionRadius CONFIG)) by exact HR.
  rewrite !div_zero_zero by lra.
  cbn [Vel.x Vel.y Vel.z Num.add Num.mul].
  rewrite (Rltb_ge (py + vy) (-10)) by exact Hfloor.
  reflexivity.
Qed.

(** The frame update. After the move the particle sits exactly at the
    detected hand: the distance is zero, below the interaction radius, and
    [updateSnowSystem] writes NaN into the horizontal velocity of the
    particle; the decay keeps it NaN. *)
Lemma updateSnowSystem_at_hand :
  Snow.updateSnowSystem (Some [Num.Fin 0; Num.Fin 0.0625; Num.Fin 20])
    [Vel.mk (Num.Fin 0) (Num.Fin (-0.0625)) (Num.Fin 0)] 1 true hand_anchor
    CONFIG []
  = Some ((Some [Num.Fin (0 + 0); Num.Fin (0.0625 + -0.0625);
                 Num.Fin (20 + 0)],
           [Vel.mk Num.NaN (Num.Fin (-0.0625)) Num.NaN]), []).
Proof.
  unfold Snow.updateSnowSystem. cbn [seq for_each]. unfold rand_bind.
  rewrite (update_particle_at_hand CONFIG _ _ 0 hand_anchor []
             0 0.0625 20 0 (-0.0625) 0);
    try reflexivity; simpl; lra.
Qed.

(** C2. Neither force calculation guards a distance of zero.  With one
    particle that the frame's move brings exactly onto the detected hand,
    [updateSnowSystem] returns a velocity whose x and z components are NaN
    (not finite); with one particle exactly at the wave origin,
    [createSnowWave] does the same.  Zero distance is not treated as no
    force. *)
Theorem zero_distance_writes_NaN :
  (exists positions' v',
     Snow.updateSnowSystem (Some [Num.Fin 0; Num.Fin 0.0625; Num.Fin 20])
       [Vel.mk (Num.Fin 0) (Num.Fin (-0.0625)) (Num.Fin 0)] 1 true
       hand_anchor CONFIG []
     = Some ((positions', [v']), [])
     /\ Num.isFinite (Vel.x v') = false
     /\ Num.isFinite (Vel.z v') = false)
  /\ (exists v',
        Snow.createSnowWave (Some anchored_positions) [falling] 1 hand_anchor
          CONFIG [0.5]
        = Some ([v'], [])
        /\ Num.isFinite (Vel.x v') = false
        /\ Num.isFinite (Vel.z v') = false).
Proof.
  split.
  - eexists _, _. split; [apply updateSnowSystem_at_hand|].
    split; reflexivity.
  - eexists. split; [apply createSnowWave_at_origin|].
    split; reflexivity.
Qed.

(** ** Transitions: the schedule *)

(** The part of the world that decides when closures run: the clock, the
    timers, the tweens that carry an [onComplete] (start, duration and
    closure) and the guard. *)
Record Sched : Type := {
  s_now : R;
  s_timers : list (R * Callback);
  s_pending : list (R * R * Callback);
  s_animating : bool
}.

Definition pending (tws : list Tween) : list (R * R * Callback) :=
  omap (fun tw => (fun cb => (start tw, duration tw, cb)) <$> onComplete tw)
    tws.

Definition sched_of (w : World) : Sched :=
  {| s_now := now w; s_timers := timers w;
     s_pending := pending (tweens w); s_animating := animating w |}.

(** A tween completes at [t] when [t] is neither before its start nor
    before its end. *)
Definition completes (t : R) (e : R * R * Callback) : bool :=
  negb (Rltb t (e.1.1)) && negb (Rltb t (e.1.1 + e.1.2)).

Module SchedModel.

Definition resume (CONFIG : Config) (k : Continuation) (s : Sched) : Sched :=
  match k with
  | Detached => s
  | AfterAwait toGathered =>
      {| s_now := s_now s;
         s_timers := s_timers s
                     ++ [(s_now s + animationDuration CONFIG * 1000 / 1000,
                          EnableButton toGathered)];
         s_pending := s_pending s; s_animating := s_animating s |}
  end.

Definition fire (CONFIG : Config) (cb : Callback) (s : Sched) : Sched :=
  match cb with
  | RevealRibbon k =>
      {| s_now := s_now s; s_timers := s_timers s;
         s_pending := s_pending s ++ [(s_now s + 0, 0.5, Resolve k)];
         s_animating := s_animating s |}
  | Resolve k => resume CONFIG k s
  | HideRibbon k => resume CONFIG k s
  | EnableButton _ =>
      {| s_now := s_now s; s_timers := s_timers s;
         s_pending := s_pending s; s_animating := false |}
  end.

Definition fire_all (CONFIG : Config) (cbs : list Callback) (s : Sched)
  : Sched :=
  foldl (fun s cb => fire CONFIG cb s) s cbs.

Definition tick (CONFIG : Config) (t : R) (s : Sched) : Sched :=
  let due := filter (fun tm => Rltb t (fst tm) = false) (s_timers s) in
  let later := filter (fun tm => Rltb t (fst tm) = true) (s_timers s) in
  let s := {| s_now := t; s_timers := later; s_pending := s_pending s;
              s_animating := s_animating s |} in
  let s := fire_all CONFIG (snd <$> due) s in
  let cbs := snd <$> filter (fun e => completes t e = true) (s_pending s) in
  let keep := filter (fun e => completes t e = false) (s_pending s) in
  let s := {| s_now := s_now s; s_timers := s_timers s; s_pending := keep;
              s_animating := s_animating s |} in
  fire_all CONFIG cbs s.

Definition event_times (s : Sched) : list R :=
  (fst <$> s_timers s) ++ ((fun e => e.1.1 + e.1.2) <$> s_pending s).

Definition next_event (t : R) (s : Sched) : option R :=
  match filter (fun te => Rltb t te = false) (event_times s) with
  | [] => None
  | te :: rest => Some (foldl Rmin te rest)
  end.

Definition pending_rank (s : Sched) : nat :=
  list_sum (rank ∘ snd <$> s_timers s)
  + list_sum (rank ∘ snd <$> s_pending s).

Fixpoint advance_fuel (CONFIG : Config) (fuel : nat) (t : R) (s : Sched)
  : Sched :=
  match next_event t s with
  | None => tick CONFIG t s
  | Some te =>
      match fuel with
      | O => s
      | S fuel' => advance_fuel CONFIG fuel' t (tick CONFIG (Rmax (s_now s) te) s)
      end
  end.

Definition advance (CONFIG : Config) (t : R) (s : Sched) : Sched :=
  if Rltb t (s_now s) then s
  else advance_fuel CONFIG (pending_rank s) t s.

End SchedModel.

Lemma pending_app (tws tws' : list Tween) :
  pending (tws ++ tws') = pending tws ++ pending tws'.
Proof. unfold pending. apply omap_app. Qed.

Lemma sched_of_fire (CONFIG : Config) (cb : Callback) (w : World) :
  sched_of (fire CONFIG cb w) = SchedModel.fire CONFIG cb (sched_of w).
Proof.
  destruct cb as [k|k|k|b]; try (destruct k); unfold sched_of; cbn;
    rewrite ?pending_app; try reflexivity.
Qed.

Lemma sched_of_fire_all (CONFIG : Config) (cbs : list Callback) :
  forall w : World,
  sched_of (fire_all CONFIG cbs w) = SchedModel.fire_all CONFIG cbs (sched_of w).
Proof.
  induction cbs as [|cb cbs IH]; intros w; [reflexivity|].
  cbn [fire_all SchedModel.fire_all foldl].
  unfold fire_all, SchedModel.fire_all in IH. rewrite IH, sched_of_fire.
  reflexivity.
Qed.

Section Engine.

Variable parseEase : string -> R -> R.

(** The three cases of a rendering. *)
Lemma render_tween_cases (t : R) (tw : Tween) (sc : Scene) :
  (Rltb t (start tw) = true
   /\ render_tween parseEase t tw sc = (sc, Some tw, None))
  \/ (Rltb t (start tw) = false /\ Rltb t (start tw + duration tw) = true
      /\ exists a ratio,
           render_tween parseEase t tw sc
           = (Gsap.assign sc (Gsap.mix a (vars tw) ratio),
              Some {| vars := vars tw; start := start tw;
                      duration := duration tw; ease := ease tw;
                      from := Some a; onComplete := onComplete tw |},
              None))
  \/ (Rltb t (start tw) = false /\ Rltb t (start tw + duration tw) = false
      /\ render_tween parseEase t tw sc
         = (Gsap.assign sc (vars tw), None, onComplete tw)).
Proof.
  unfold render_tween.
  destruct (Rltb t (start tw)); [left; auto|].
  destruct (Rltb t (start tw + duration tw)).
  - right; left. repeat split. eexists _, _. reflexivity.
  - right; right. auto.
Qed.

(** The callbacks a tick collects are those of the tweens that complete. *)
Lemma render_all_callbacks (t : R) (tws : list Tween) :
  forall sc : Scene,
  (render_all parseEase t tws sc).2
  = snd <$> filter (fun e => completes t e = true) (pending tws).
Proof.
  induction tws as [|tw tws IH]; intros sc; [reflexivity|].
  cbn [render_all].
  destruct (render_tween parseEase t tw sc) as [[sc1 k] cb] eqn:E.
  specialize (IH sc1).
  destruct (render_all parseEase t tws sc1) as [[sc2 keeps] cbs].
  cbn [snd] in *. subst cbs.
  change (tw :: tws) with ([tw] ++ tws). rewrite pending_app, filter_app, fmap_app.
  f_equal.
  unfold pending. cbn [omap list_omap].
  destruct (render_tween_cases t tw sc) as [(H1 & E')|[(H1 & H2 & a & r & E')|(H1 & H2 & E')]];
    rewrite E' in E; injection E as <- <- <-;
    destruct (onComplete tw) as [c|]; cbn [fmap option_fmap option_map];
    try reflexivity;
    rewrite filter_cons; unfold completes; cbn [fst snd]; rewrite H1, ?H2;
    cbn [negb andb];
    match goal with
    | |- context [decide ?P] => destruct (decide P); try discriminate;
                                  try congruence
    end; reflexivity.
Qed.

(** The tweens a tick keeps carry the closures of those that do not
    complete. *)
Lemma render_all_pending (t : R) (tws : list Tween) :
  forall sc : Scene,
  pending (render_all parseEase t tws sc).1.2
  = filter (fun e => completes t e = false) (pending tws).
Proof.
  induction tws as [|tw tws IH]; intros sc; [reflexivity|].
  cbn [render_all].
  destruct (render_tween parseEase t tw sc) as [[sc1 k] cb] eqn:E.
  specialize (IH sc1).
  destruct (render_all parseEase t tws sc1) as [[sc2 keeps] cbs].
  cbn [fst snd] in *.
  change (tw :: tws) with ([tw] ++ tws).
  rewrite !pending_app, filter_app, IH. f_equal.
  destruct (render_tween_cases t tw sc) as [(H1 & E')|[(H1 & H2 & a & r & E')|(H1 & H2 & E')]];
    rewrite E' in E; injection E as <- <- <-;
    destruct tw as [v s d e f [c|]]; cbn [start duration] in *;
    unfold pending;
    cbn [omap list_omap option_list fmap option_fmap option_map start
         duration onComplete];
    try reflexivity;
    rewrite filter_cons; unfold completes; cbn [fst snd]; rewrite H1, ?H2;
    cbn [negb andb];
    match goal with
    | |- context [decide ?P] => destruct (decide P); try discriminate;
                                  try congruence
    end; reflexivity.
Qed.

(** The schedule of the world after a tick is the tick of its schedule. *)
Lemma sched_of_tick (CONFIG : Config) (t : R) (w : World) :
  sched_of (tick parseEase CONFIG t w) = SchedModel.tick CONFIG t (sched_of w).
Proof.
  unfold tick, SchedModel.tick.
  cbn [timers with_now with_timers now tweens animating sched_of
       s_timers s_pending s_animating s_now].
  set (w1 := fire_all CONFIG _ _).
  destruct (render_all parseEase t (tweens w1) (scene w1)) as [[sc keep] cbs] eqn:E.
  rewrite sched_of_fire_all.
  assert (Hcbs := render_all_callbacks t (tweens w1) (scene w1)).
  assert (Hkeep := render_all_pending t (tweens w1) (scene w1)).
  rewrite E in Hcbs, Hkeep. cbn [fst snd] in Hcbs, Hkeep.
  assert (S1 : sched_of w1
               = SchedModel.fire_all CONFIG
                   (snd <$> filter (fun tm => Rltb t tm.1 = false) (timers w))
                   {| s_now := t;
                      s_timers := filter (fun tm => Rltb t tm.1 = true) (timers w);
                      s_pending := pending (tweens w);
                      s_animating := animating w |}).
  { unfold w1. rewrite sched_of_fire_all. reflexivity. }
  rewrite <- S1. rewrite Hcbs. f_equal.
  unfold sched_of.
  cbn [s_now s_timers s_pending s_animating now timers tweens animating
       with_tweens with_scene].
  rewrite Hkeep. reflexivity.
Qed.

Lemma event_times_sched (w : World) :
  event_times w = SchedModel.event_times (sched_of w).
Proof.
  unfold event_times, SchedModel.event_times, sched_of, pending.
  cbn [s_timers s_pending]. f_equal.
  induction (tweens w) as [|tw tws IH]; [reflexivity|].
  cbn [omap list_omap fmap list_fmap]. rewrite IH.
  destruct (onComplete tw); reflexivity.
Qed.

Lemma next_event_sched (t : R) (w : World) :
  next_event t w = SchedModel.next_event t (sched_of w).
Proof.
  unfold next_event, SchedModel.next_event. rewrite event_times_sched.
  reflexivity.
Qed.

Lemma pending_rank_sched (w : World) :
  pending_rank w = SchedModel.pending_rank (sched_of w).
Proof.
  unfold pending_rank, SchedModel.pending_rank, sched_of, pending.
  cbn [s_timers s_pending]. f_equal.
  induction (tweens w) as [|tw tws IH]; [reflexivity|].
  destruct tw as [v s d e f [c|]]; simpl; [f_equal|]; exact IH.
Qed.

Lemma sched_of_advance_fuel (CONFIG : Config) (fuel : nat) (t : R) :
  forall w : World,
  sched_of (advance_fuel parseEase CONFIG fuel t w)
  = SchedModel.advance_fuel CONFIG fuel t (sched_of w).
Proof.
  induction fuel as [|fuel IH]; intros w;
    cbn [advance_fuel SchedModel.advance_fuel];
    rewrite next_event_sched;
    destruct (SchedModel.next_event t (sched_of w)) as [te|];
    try reflexivity; try apply sched_of_tick.
  rewrite IH, sched_of_tick. reflexivity.
Qed.

(** The schedule of the world after a frame is the frame of its
    schedule: when closures run does not depend on the scene. *)
Lemma sched_of_advance (CONFIG : Config) (t : R) (w : World) :
  sched_of (advance parseEase CONFIG t w)
  = SchedModel.advance CONFIG t (sched_of w).
Proof.
  unfold advance, SchedModel.advance. cbn [sched_of s_now].
  destruct (Rltb t (now w)); [reflexivity|].
  rewrite sched_of_advance_fuel, pending_rank_sched. reflexivity.
Qed.

(** *** The timeline of a gather request *)

(** A gather requested at [t0] reveals the ribbon at [reveal_time], its
    promise resolves at [resolve_time], and the guard is released at
    [release_time]: [t0 + 1.5 * animationDuration + 0.5]. *)
Definition reveal_time (CONFIG : Config) (t0 : R) : R :=
  t0 + animationDuration CONFIG * 500 / 1000.

Definition resolve_time (CONFIG : Config) (t0 : R) : R :=
  reveal_time CONFIG t0 + 0 + 0.5.

Definition release_time (CONFIG : Config) (t0 : R) : R :=
  resolve_time CONFIG t0 + animationDuration CONFIG * 1000 / 1000.

Lemma release_time_eq (CONFIG : Config) (t0 : R) :
  release_time CONFIG t0 = t0 + 1.5 * animationDuration CONFIG + 0.5.
Proof. unfold release_time, resolve_time, reveal_time. lra. Qed.

(** The four stretches of the timeline, as the schedule shows them. *)
Inductive GatherPhase (CONFIG : Config) (t0 : R) (b : bool) (s : Sched)
  : Prop :=
| BeforeReveal :
    s_now s < reveal_time CONFIG t0 ->
    s_timers s = [(reveal_time CONFIG t0, RevealRibbon (AfterAwait b))] ->
    s_pending s = [] -> s_animating s = true ->
    GatherPhase CONFIG t0 b s
| Revealing :
    reveal_time CONFIG t0 <= s_now s < resolve_time CONFIG t0 ->
    s_timers s = [] ->
    s_pending s = [(reveal_time CONFIG t0 + 0, 0.5, Resolve (AfterAwait b))] ->
    s_animating s = true ->
    GatherPhase CONFIG t0 b s
| Holding :
    resolve_time CONFIG t0 <= s_now s < release_time CONFIG t0 ->
    s_timers s = [(release_time CONFIG t0, EnableButton b)] ->
    s_pending s = [] -> s_animating s = true ->
    GatherPhase CONFIG t0 b s
| Released :
    release_time CONFIG t0 <= s_now s ->
    s_timers s = [] -> s_pending s = [] -> s_animating s = false ->
    GatherPhase CONFIG t0 b s.

Ltac rltb :=
  repeat match goal with
         | |- context [Rltb ?a ?b] =>
             first [ rewrite (Rltb_lt a b) by lra
                   | rewrite (Rltb_ge a b) by lra ]
         end.

Ltac sched_step :=
  cbn [filter list_filter fmap list_fmap app foldl fst snd
       SchedModel.fire_all SchedModel.fire SchedModel.resume
       s_now s_timers s_pending s_animating completes negb andb];
  unfold completes; cbn [fst snd];
  rltb; cbn [negb andb];
  repeat first [ rewrite decide_True by reflexivity
               | rewrite decide_False by discriminate ];
  cbn [filter list_filter fmap list_fmap app foldl fst snd
       SchedModel.fire_all SchedModel.fire SchedModel.resume
       s_now s_timers s_pending s_animating completes negb andb].

Ltac sched_eval := do 3 sched_step.

Lemma advance_released (CONFIG : Config) (t0 : R) (b : bool) (fuel : nat)
  (t : R) (s : Sched) :
  s_now s <= t ->
  release_time CONFIG t0 <= s_now s ->
  s_timers s = [] -> s_pending s = [] -> s_animating s = false ->
  let s' := SchedModel.advance_fuel CONFIG fuel t s in
  GatherPhase CONFIG t0 b s' /\ s_now s' = t.
Proof.
  intros Ht Hnow Htm Hpd Han s'. subst s'.
  assert (E : SchedModel.advance_fuel CONFIG fuel t s
              = {| s_now := t; s_timers := []; s_pending := [];
                   s_animating := false |}).
  { destruct fuel; cbn [SchedModel.advance_fuel];
      unfold SchedModel.next_event, SchedModel.event_times, SchedModel.tick;
      rewrite Htm, Hpd, Han; reflexivity. }
  rewrite E. split; [|reflexivity].
  apply Released; cbn [s_now s_timers s_pending s_animating]; try reflexivity.
  lra.
Qed.

Lemma advance_fuel_idle (CONFIG : Config) (fuel : nat) (t : R) (s : Sched) :
  SchedModel.next_event t s = None ->
  SchedModel.advance_fuel CONFIG fuel t s = SchedModel.tick CONFIG t s.
Proof. intros H. destruct fuel; cbn [SchedModel.advance_fuel]; rewrite H; reflexivity. Qed.

Lemma advance_fuel_event (CONFIG : Config) (fuel : nat) (t te : R) (s : Sched) :
  SchedModel.next_event t s = Some te ->
  SchedModel.advance_fuel CONFIG (S fuel) t s
  = SchedModel.advance_fuel CONFIG fuel t
      (SchedModel.tick CONFIG (Rmax (s_now s) te) s).
Proof. intros H. cbn [SchedModel.advance_fuel]. rewrite H. reflexivity. Qed.

Lemma advance_holding (CONFIG : Config) (t0 : R) (b : bool) (fuel : nat)
  (t : R) (s : Sched) :
  0 < animationDuration CONFIG -> (1 <= fuel)%nat ->
  s_now s <= t ->
  resolve_time CONFIG t0 <= s_now s < release_time CONFIG t0 ->
  s_timers s = [(release_time CONFIG t0, EnableButton b)] ->
  s_pending s = [] -> s_animating s = true ->
  let s' := SchedModel.advance_fuel CONFIG fuel t s in
  GatherPhase CONFIG t0 b s' /\ s_now s' = t.
Proof.
  intros HD Hfuel Ht Hnow Htm Hpd Han s'. subst s'.
  destruct (Rlt_dec t (release_time CONFIG t0)) as [Hlt|Hge].
  - rewrite advance_fuel_idle.
    + unfold SchedModel.tick. rewrite Htm, Hpd, Han. sched_eval.
      split; [|reflexivity].
      apply Holding; cbn [s_now s_timers s_pending s_animating];
        try reflexivity. lra.
    + unfold SchedModel.next_event, SchedModel.event_times.
      rewrite Htm, Hpd. sched_eval. reflexivity.
  - destruct fuel as [|fuel]; [lia|].
    rewrite (advance_fuel_event _ _ _ (release_time CONFIG t0)).
    + rewrite Rmax_right by lra.
      apply advance_released.
      * unfold SchedModel.tick. rewrite Htm, Hpd, Han. sched_eval. lra.
      * unfold SchedModel.tick. rewrite Htm, Hpd, Han. sched_eval. lra.
      * unfold SchedModel.tick. rewrite Htm, Hpd, Han. sched_eval. reflexivity.
      * unfold SchedModel.tick. rewrite Htm, Hpd, Han. sched_eval. reflexivity.
      * unfold SchedModel.tick. rewrite Htm, Hpd, Han. sched_eval. reflexivity.
    + unfold SchedModel.next_event, SchedModel.event_times.
      rewrite Htm, Hpd. sched_eval. reflexivity.
Qed.

Lemma advance_revealing (CONFIG : Config) (t0 : R) (b : bool) (fuel : nat)
  (t : R) (s : Sched) :
  0 < animationDuration CONFIG -> (2 <= fuel)%nat ->
  s_now s <= t ->
  reveal_time CONFIG t0 <= s_now s < resolve_time CONFIG t0 ->
  s_timers s = [] ->
  s_pending s = [(reveal_time CONFIG t0 + 0, 0.5, Resolve (AfterAwait b))] ->
  s_animating s = true ->
  let s' := SchedModel.advance_fuel CONFIG fuel t s in
  GatherPhase CONFIG t0 b s' /\ s_now s' = t.
Proof.
  intros HD Hfuel Ht Hnow Htm Hpd Han s'. subst s'.
  destruct (Rlt_dec t (resolve_time CONFIG t0)) as [Hlt|Hge].
  - rewrite advance_fuel_idle.
    + unfold SchedModel.tick. rewrite Htm, Hpd, Han.
      unfold resolve_time in *. sched_eval.
      split; [|reflexivity].
      apply Revealing; cbn [s_now s_timers s_pending s_animating];
        try reflexivity. unfold resolve_time. lra.
    + unfold SchedModel.next_event, SchedModel.event_times.
      rewrite Htm, Hpd. unfold resolve_time in *. sched_eval. reflexivity.
  - destruct fuel as [|fuel]; [lia|].
    rewrite (advance_fuel_event _ _ _ (resolve_time CONFIG t0)).
    + rewrite Rmax_right by lra.
      assert (E : SchedModel.tick CONFIG (resolve_time CONFIG t0) s
                  = {| s_now := resolve_time CONFIG t0;
                       s_timers := [(release_time CONFIG t0, EnableButton b)];
                       s_pending := []; s_animating := true |}).
      { unfold SchedModel.tick. rewrite Htm, Hpd, Han.
        unfold release_time, resolve_time in *. sched_eval. reflexivity. }
      rewrite E.
      apply advance_holding; cbn [s_now s_timers s_pending s_animating];
        try reflexivity; try assumption; try lia; try lra.
      unfold release_time. lra.
    + unfold SchedModel.next_event, SchedModel.event_times.
      rewrite Htm, Hpd. unfold resolve_time in *. sched_eval. reflexivity.
Qed.

Lemma advance_before_reveal (CONFIG : Config) (t0 : R) (b : bool) (fuel : nat)
  (t : R) (s : Sched) :
  0 < animationDuration CONFIG -> (3 <= fuel)%nat ->
  s_now s <= t ->
  s_now s < reveal_time CONFIG t0 ->
  s_timers s = [(reveal_time CONFIG t0, RevealRibbon (AfterAwait b))] ->
  s_pending s = [] -> s_animating s = true ->
  let s' := SchedModel.advance_fuel CONFIG fuel t s in
  GatherPhase CONFIG t0 b s' /\ s_now s' = t.
Proof.
  intros HD Hfuel Ht Hnow Htm Hpd Han s'. subst s'.
  destruct (Rlt_dec t (reveal_time CONFIG t0)) as [Hlt|Hge].
  - rewrite advance_fuel_idle.
    + unfold SchedModel.tick. rewrite Htm, Hpd, Han. sched_eval.
      split; [|reflexivity].
      apply BeforeReveal; cbn [s_now s_timers s_pending s_animating];
        try reflexivity. lra.
    + unfold SchedModel.next_event, SchedModel.event_times.
      rewrite Htm, Hpd. sched_eval. reflexivity.
  - destruct fuel as [|fuel]; [lia|].
    rewrite (advance_fuel_event _ _ _ (reveal_time CONFIG t0)).
    + rewrite Rmax_right by lra.
      assert (E : SchedModel.tick CONFIG (reveal_time CONFIG t0) s
                  = {| s_now := reveal_time CONFIG t0;
                       s_timers := [];
                       s_pending := [(reveal_time CONFIG t0 + 0, 0.5,
                                      Resolve (AfterAwait b))];
                       s_animating := true |}).
      { unfold SchedModel.tick. rewrite Htm, Hpd, Han. sched_eval.
        reflexivity. }
      rewrite E.
      apply advance_revealing; cbn [s_now s_timers s_pending s_animating];
        try reflexivity; try assumption; try lia; try lra.
      unfold resolve_time. lra.
    + unfold SchedModel.next_event, SchedModel.event_times.
      rewrite Htm, Hpd. sched_eval. reflexivity.
Qed.

(** A frame keeps the schedule on the timeline and moves the clock to the
    time of the frame (an earlier time is ignored). *)
Lemma advance_phase (CONFIG : Config) (t0 : R) (b : bool) (t : R) (s : Sched) :
  0 < animationDuration CONFIG ->
  GatherPhase CONFIG t0 b s ->
  GatherPhase CONFIG t0 b (SchedModel.advance CONFIG t s)
  /\ s_now (SchedModel.advance CONFIG t s) = Rmax (s_now s) t.
Proof.
  intros HD Hs. unfold SchedModel.advance.
  destruct (Rltb t (s_now s)) eqn:E.
  - apply Rltb_true in E. rewrite Rmax_left by lra. auto.
  - apply Rltb_false in E. rewrite Rmax_right by lra.
    destruct Hs as [Hnow Htm Hpd Han|Hnow Htm Hpd Han|Hnow Htm Hpd Han
                   |Hnow Htm Hpd Han].
    + apply advance_before_reveal; try assumption.
      unfold SchedModel.pending_rank. rewrite Htm, Hpd. cbn. lia.
    + apply advance_revealing; try assumption.
      unfold SchedModel.pending_rank. rewrite Htm, Hpd. cbn. lia.
    + apply advance_holding; try assumption.
      unfold SchedModel.pending_rank. rewrite Htm, Hpd. cbn. lia.
    + apply advance_released; assumption.
Qed.

(** On the timeline the guard is set exactly before the release time. *)
Lemma phase_guard (CONFIG : Config) (t0 : R) (b : bool) (s : Sched) :
  0 < animationDuration CONFIG ->
  GatherPhase CONFIG t0 b s ->
  (s_now s < release_time CONFIG t0 -> s_animating s = true)
  /\ (release_time CONFIG t0 <= s_now s -> s_animating s = false).
Proof.
  intros HD [Hnow _ _ Han|Hnow _ _ Han|Hnow _ _ Han|Hnow _ _ Han];
    unfold release_time, resolve_time, reveal_time in *;
    split; intros H; (exact Han || lra).
Qed.

(** *** Ornaments under the tweens *)

(** The ornament a tween moves, if it moves one. *)
Definition target_index (v : Vars) : option nat :=
  match v with
  | MeshPosition index _ => Some index
  | _ => None
  end.

Lemma target_index_mix (a b : Vars) (ratio : R) :
  target_index (Gsap.mix a b ratio) = target_index b.
Proof. destruct a, b; reflexivity. Qed.

Lemma target_index_Some (v : Vars) (i : nat) :
  target_index v = Some i <-> exists p, v = MeshPosition i p.
Proof.
  split.
  - destruct v; try discriminate. intros [= ->]. eauto.
  - intros [p ->]. reflexivity.
Qed.

Lemma assign_lookup_other (sc : Scene) (v : Vars) (i : nat) :
  target_index v <> Some i ->
  ornaments (Gsap.assign sc v) !! i = ornaments sc !! i.
Proof.
  intros H. destruct v as [j p| | | |]; try reflexivity.
  cbn [Gsap.assign with_ornaments ornaments].
  apply list_lookup_alter_ne. intros ->. apply H. reflexivity.
Qed.

Lemma assign_lookup_same (sc : Scene) (i : nat) (p : V3.t) :
  ornaments (Gsap.assign sc (MeshPosition i p)) !! i
  = (fun m => with_position m p) <$> ornaments sc !! i.
Proof. cbn [Gsap.assign with_ornaments ornaments]. apply list_lookup_alter_eq. Qed.

Lemma assign_treePositions (sc : Scene) (v : Vars) :
  treePosition <$> ornaments (Gsap.assign sc v)
  = treePosition <$> ornaments sc.
Proof.
  destruct v as [j p| | | |]; try reflexivity.
  cbn [Gsap.assign with_ornaments ornaments].
  apply list_eq. intros k. rewrite !list_lookup_fmap.
  destruct (decide (j = k)) as [->|Hne].
  - rewrite list_lookup_alter_eq. destruct (ornaments sc !! k); reflexivity.
  - rewrite list_lookup_alter_ne by exact Hne. reflexivity.
Qed.

Lemma render_tween_treePositions (t : R) (tw : Tween) (sc : Scene) :
  treePosition <$> ornaments (render_tween parseEase t tw sc).1.1
  = treePosition <$> ornaments sc.
Proof.
  destruct (render_tween_cases t tw sc)
    as [(_ & ->)|[(_ & _ & a & r & ->)|(_ & _ & ->)]];
    cbn [fst]; [reflexivity|apply assign_treePositions..].
Qed.

Lemma render_all_treePositions (t : R) (tws : list Tween) :
  forall sc : Scene,
  treePosition <$> ornaments (render_all parseEase t tws sc).1.1
  = treePosition <$> ornaments sc.
Proof.
  induction tws as [|tw tws IH]; intros sc; [reflexivity|].
  cbn [render_all].
  pose proof (render_tween_treePositions t tw sc) as H1.
  destruct (render_tween parseEase t tw sc) as [[sc1 k] cb].
  specialize (IH sc1).
  destruct (render_all parseEase t tws sc1) as [[sc2 keeps] cbs].
  cbn [fst] in *. congruence.
Qed.

(** A tween that a tick keeps is one of the tweens rendered, with the same
    target, start and duration, and it is not over at the time of the
    tick. *)
Lemma render_all_kept (t : R) (tws : list Tween) :
  forall (sc : Scene) (tw' : Tween),
  tw' ∈ (render_all parseEase t tws sc).1.2 ->
  exists tw, tw ∈ tws /\ vars tw' = vars tw /\ start tw' = start tw
             /\ duration tw' = duration tw
             /\ (t < start tw \/ t < start tw + duration tw).
Proof.
  induction tws as [|tw tws IH]; intros sc tw' Hin.
  - cbn in Hin. apply elem_of_nil in Hin. contradiction.
  - cbn [render_all] in Hin.
    destruct (render_tween_cases t tw sc)
      as [(H1 & E)|[(H1 & H2 & a & r & E)|(H1 & H2 & E)]];
      rewrite E in Hin;
      specialize (IH (render_tween parseEase t tw sc).1.1 tw');
      rewrite E in IH; cbn [fst] in IH;
      destruct (render_all parseEase t tws _) as [[sc2 keeps] cbs];
      cbn [fst snd option_list app] in Hin, IH.
    + apply elem_of_cons in Hin as [->|Hin].
      * exists tw. apply Rltb_true in H1.
        split; [apply list_elem_of_here|]. auto.
      * destruct (IH Hin) as (tw0 & Hin0 & H0). exists tw0.
        split; [apply list_elem_of_further; exact Hin0|exact H0].
    + apply elem_of_cons in Hin as [->|Hin].
      * exists tw. apply Rltb_true in H2.
        split; [apply list_elem_of_here|]. cbn. auto.
      * destruct (IH Hin) as (tw0 & Hin0 & H0). exists tw0.
        split; [apply list_elem_of_further; exact Hin0|exact H0].
    + destruct (IH Hin) as (tw0 & Hin0 & H0). exists tw0.
      split; [apply list_elem_of_further; exact Hin0|exact H0].
Qed.

(** The tweens agree with the targets kept in the meshes. *)
Definition targets_ok (ms : list Mesh) (tws : list Tween) : Prop :=
  forall tw i p m, tw ∈ tws -> vars tw = MeshPosition i p ->
                   ms !! i = Some m -> treePosition m = p.

Lemma targets_ok_treePositions (ms ms' : list Mesh) (tws : list Tween) :
  treePosition <$> ms' = treePosition <$> ms ->
  targets_ok ms tws -> targets_ok ms' tws.
Proof.
  intros Heq Hok tw i p m' Hin Hv Hm'.
  assert (H : (treePosition <$> ms') !! i = Some (treePosition m'))
    by (rewrite list_lookup_fmap, Hm'; reflexivity).
  rewrite Heq, list_lookup_fmap in H.
  destruct (ms !! i) as [m|] eqn:Em; [|discriminate].
  injection H as H. rewrite <- H. eapply Hok; eauto.
Qed.

(** After a tick every ornament either still has a tween, or sits on its
    target, or was moved by no tween at all. *)
Lemma render_all_settled (t : R) (tws : list Tween) :
  forall sc : Scene,
  targets_ok (ornaments sc) tws ->
  forall (i : nat) (m' : Mesh),
  ornaments (render_all parseEase t tws sc).1.1 !! i = Some m' ->
  (exists tw' p, tw' ∈ (render_all parseEase t tws sc).1.2
                 /\ vars tw' = MeshPosition i p)
  \/ position m' = treePosition m'
  \/ ((forall tw, tw ∈ tws -> target_index (vars tw) <> Some i)
      /\ ornaments sc !! i = Some m').
Proof.
  induction tws as [|tw tws IH]; intros sc Hok i m' Hm'.
  - right; right. split; [|exact Hm'].
    intros tw Hin. apply elem_of_nil in Hin. contradiction.
  - cbn [render_all] in *.
    pose proof (render_tween_treePositions t tw sc) as Htp.
    pose proof (render_tween_cases t tw sc) as Hcases.
    destruct (render_tween parseEase t tw sc) as [[sc1 k] cb] eqn:E.
    cbn [fst] in Htp.
    assert (Hok1 : targets_ok (ornaments sc1) tws).
    { apply (targets_ok_treePositions (ornaments sc)); [exact Htp|].
      intros tw0 j p m Hin. apply Hok. apply list_elem_of_further. exact Hin. }
    specialize (IH sc1 Hok1 i m').
    destruct (render_all parseEase t tws sc1) as [[sc2 keeps] cbs].
    cbn [fst snd] in *.
    destruct (IH Hm') as [(tw' & p & Hin & Hv)|[Hat|[Hnone Hm1]]].
    + left. exists tw', p. split; [|exact Hv].
      apply elem_of_app. right. exact Hin.
    + right; left. exact Hat.
    + destruct (decide (target_index (vars tw) = Some i)) as [Hi|Hi].
      * apply target_index_Some in Hi as [p Hv].
        destruct Hcases as [(_ & E')|[(_ & _ & a & r & E')|(_ & _ & E')]];
          injection E' as -> -> ->.
        -- left. exists tw, p. split; [|exact Hv]. apply list_elem_of_here.
        -- left. eexists _, p. split; [apply list_elem_of_here|exact Hv].
        -- right; left. rewrite Hv, assign_lookup_same in Hm1.
           destruct (ornaments sc !! i) as [m|] eqn:Em; [|discriminate].
           injection Hm1 as <-. cbn.
           symmetry. eapply Hok; [apply list_elem_of_here|exact Hv|exact Em].
      * right; right. split.
        -- intros tw0 Hin. apply elem_of_cons in Hin as [->|Hin];
             [exact Hi|apply Hnone; exact Hin].
        -- destruct Hcases as [(_ & E')|[(_ & _ & a & r & E')|(_ & _ & E')]];
             injection E' as -> -> ->.
           ++ exact Hm1.
           ++ rewrite assign_lookup_other in Hm1; [exact Hm1|].
              rewrite target_index_mix. exact Hi.
           ++ rewrite assign_lookup_other in Hm1; [exact Hm1|exact Hi].
Qed.

(** The tweens on ornaments run towards the targets kept in the meshes and
    end by [t_end]; an ornament without a tween sits on its target. *)
Record Settling (t_end : R) (targets : list V3.t) (w : World) : Prop := {
  settling_targets : treePosition <$> ornaments (scene w) = targets;
  settling_tweens : targets_ok (ornaments (scene w)) (tweens w);
  settling_ends :
    forall tw i p, tw ∈ tweens w -> vars tw = MeshPosition i p ->
                   0 <= duration tw /\ start tw + duration tw <= t_end;
  settling_settled :
    forall i m, ornaments (scene w) !! i = Some m ->
                (exists tw p, tw ∈ tweens w /\ vars tw = MeshPosition i p)
                \/ position m = treePosition m
}.

(** No tween on an ornament is over yet. *)
Definition in_motion (w : World) : Prop :=
  forall tw i p, tw ∈ tweens w -> vars tw = MeshPosition i p ->
                 now w < start tw + duration tw.

(** Closures leave the ornaments alone and start no tween on them. *)
Lemma fire_frame (CONFIG : Config) (cb : Callback) (w : World) :
  ornaments (scene (fire CONFIG cb w)) = ornaments (scene w)
  /\ now (fire CONFIG cb w) = now w
  /\ isGathered (fire CONFIG cb w) = isGathered w
  /\ exists extra, tweens (fire CONFIG cb w) = tweens w ++ extra
                   /\ forall tw, tw ∈ extra -> target_index (vars tw) = None.
Proof.
  destruct cb as [k|k|k|b]; try destruct k; cbn;
    repeat split; try reflexivity;
    try (exists []; rewrite app_nil_r; split; [reflexivity|];
         intros tw H; apply elem_of_nil in H; contradiction).
  all: eexists; split; [reflexivity|];
    intros tw H; apply list_elem_of_singleton in H; subst tw; reflexivity.
Qed.

Lemma settling_extra (t_end : R) (targets : list V3.t) (w w' : World)
  (extra : list Tween) :
  ornaments (scene w') = ornaments (scene w) ->
  tweens w' = tweens w ++ extra ->
  (forall tw, tw ∈ extra -> target_index (vars tw) = None) ->
  Settling t_end targets w -> Settling t_end targets w'.
Proof.
  intros Ho Ht Hex [H1 H2 H3 H4].
  assert (Hmesh : forall tw i p, tw ∈ tweens w' -> vars tw = MeshPosition i p ->
                                 tw ∈ tweens w).
  { intros tw i p Hin Hv. rewrite Ht in Hin.
    apply elem_of_app in Hin as [Hin|Hin]; [exact Hin|].
    apply Hex in Hin. rewrite Hv in Hin. discriminate. }
  split.
  - rewrite Ho. exact H1.
  - rewrite Ho. intros tw i p m Hin Hv. eapply H2; eauto.
  - intros tw i p Hin Hv. eapply H3; eauto.
  - rewrite Ho. intros i m Hm.
    destruct (H4 i m Hm) as [(tw & p & Hin & Hv)|Hat]; [left|right; exact Hat].
    exists tw, p. split; [|exact Hv]. rewrite Ht. apply elem_of_app. auto.
Qed.

Lemma in_motion_extra (w w' : World) (extra : list Tween) :
  now w' = now w ->
  tweens w' = tweens w ++ extra ->
  (forall tw, tw ∈ extra -> target_index (vars tw) = None) ->
  in_motion w -> in_motion w'.
Proof.
  intros Hn Ht Hex H tw i p Hin Hv. rewrite Hn.
  rewrite Ht in Hin. apply elem_of_app in Hin as [Hin|Hin].
  - eapply H; eauto.
  - apply Hex in Hin. rewrite Hv in Hin. discriminate.
Qed.

Lemma fire_all_settling (CONFIG : Config) (t_end : R) (targets : list V3.t)
  (cbs : list Callback) :
  forall w : World,
  Settling t_end targets w ->
  Settling t_end targets (fire_all CONFIG cbs w)
  /\ now (fire_all CONFIG cbs w) = now w
  /\ isGathered (fire_all CONFIG cbs w) = isGathered w
  /\ (in_motion w -> in_motion (fire_all CONFIG cbs w)).
Proof.
  induction cbs as [|cb cbs IH]; intros w Hs; [auto|].
  cbn [fire_all foldl]. unfold fire_all in IH.
  destruct (fire_frame CONFIG cb w) as (Ho & Hn & Hg & extra & Ht & Hex).
  destruct (IH (fire CONFIG cb w)) as (IH1 & IH2 & IH3 & IH4).
  { eapply settling_extra; eauto. }
  split; [exact IH1|]. split; [congruence|]. split; [congruence|].
  intros Hm. apply IH4. eapply in_motion_extra; eauto.
Qed.

(** A tick keeps the ornaments settling, and after it no tween on an
    ornament is over. *)
Lemma tick_settling (CONFIG : Config) (t_end : R) (targets : list V3.t)
  (t : R) (w : World) :
  Settling t_end targets w ->
  Settling t_end targets (tick parseEase CONFIG t w)
  /\ in_motion (tick parseEase CONFIG t w)
  /\ now (tick parseEase CONFIG t w) = t
  /\ isGathered (tick parseEase CONFIG t w) = isGathered w.
Proof.
  intros Hs. unfold tick.
  set (w0 := with_timers (with_now w t) _).
  assert (Hs0 : Settling t_end targets w0) by (destruct Hs; split; assumption).
  destruct (fire_all_settling CONFIG t_end targets
              (snd <$> filter (fun tm => Rltb t tm.1 = false)
                         (timers (with_now w t))) w0 Hs0)
    as (Hs1 & Hn1 & Hg1 & _).
  set (w1 := fire_all CONFIG _ w0) in *.
  pose proof (render_all_treePositions t (tweens w1) (scene w1)) as Htp.
  pose proof (render_all_kept t (tweens w1) (scene w1)) as Hkept.
  pose proof (render_all_settled t (tweens w1) (scene w1)
                (settling_tweens _ _ _ Hs1)) as Hset.
  destruct (render_all parseEase t (tweens w1) (scene w1)) as [[sc keep] cbs].
  cbn [fst snd] in *.
  set (w2 := with_tweens (with_scene w1 sc) keep).
  assert (Hs2 : Settling t_end targets w2).
  { destruct Hs1 as [H1 H2 H3 H4]. split; cbn [w2 scene tweens with_tweens with_scene].
    - rewrite Htp. exact H1.
    - apply (targets_ok_treePositions (ornaments (scene w1))); [exact Htp|].
      intros tw i p m Hin Hv Hm.
      destruct (Hkept tw Hin) as (tw0 & Hin0 & Ev & _).
      eapply H2; [exact Hin0|rewrite <- Ev; exact Hv|exact Hm].
    - intros tw i p Hin Hv.
      destruct (Hkept tw Hin) as (tw0 & Hin0 & Ev & Es & Ed & _).
      rewrite Es, Ed. eapply H3; [exact Hin0|rewrite <- Ev; exact Hv].
    - intros i m Hm.
      destruct (Hset i m Hm) as [Hk|[Hat|[Hnone Hm1]]]; [left; exact Hk|right; exact Hat|].
      destruct (H4 i m Hm1) as [(tw & p & Hin & Hv)|Hat]; [|right; exact Hat].
      exfalso. apply (Hnone tw Hin). rewrite Hv. reflexivity. }
  assert (Hm2 : in_motion w2).
  { intros tw i p Hin Hv. cbn [w2 now tweens with_tweens with_scene] in *.
    destruct (Hkept tw Hin) as (tw0 & Hin0 & Ev & Es & Ed & Halive).
    destruct (settling_ends _ _ _ Hs1 tw0 i p Hin0) as [Hd _];
      [rewrite <- Ev; exact Hv|].
    rewrite Hn1, Es, Ed. cbn [w0 now with_timers with_now].
    destruct Halive; lra. }
  destruct (fire_all_settling CONFIG t_end targets cbs w2 Hs2)
    as (Hs3 & Hn3 & Hg3 & Hm3).
  split; [exact Hs3|]. split; [apply Hm3; exact Hm2|]. split.
  - rewrite Hn3. cbn [w2 now with_tweens with_scene]. rewrite Hn1. reflexivity.
  - rewrite Hg3. cbn [w2 isGathered with_tweens with_scene]. rewrite Hg1.
    reflexivity.
Qed.

Lemma advance_fuel_settling (CONFIG : Config) (t_end : R)
  (targets : list V3.t) (fuel : nat) (t : R) :
  forall w : World,
  Settling t_end targets w -> in_motion w ->
  Settling t_end targets (advance_fuel parseEase CONFIG fuel t w)
  /\ in_motion (advance_fuel parseEase CONFIG fuel t w)
  /\ isGathered (advance_fuel parseEase CONFIG fuel t w) = isGathered w.
Proof.
  induction fuel as [|fuel IH]; intros w Hs Hm; cbn [advance_fuel];
    destruct (next_event t w) as [te|].
  - auto.
  - destruct (tick_settling CONFIG t_end targets t w Hs) as (H1 & H2 & _ & H4).
    auto.
  - destruct (tick_settling CONFIG t_end targets (Rmax (now w) te) w Hs)
      as (H1 & H2 & _ & H4).
    destruct (IH _ H1 H2) as (H5 & H6 & H7).
    split; [exact H5|]. split; [exact H6|]. congruence.
  - destruct (tick_settling CONFIG t_end targets t w Hs) as (H1 & H2 & _ & H4).
    auto.
Qed.

(** A frame keeps the ornaments settling and does not touch
    [isGathered]. *)
Lemma advance_settling (CONFIG : Config) (t_end : R) (targets : list V3.t)
  (t : R) (w : World) :
  Settling t_end targets w -> in_motion w ->
  Settling t_end targets (advance parseEase CONFIG t w)
  /\ in_motion (advance parseEase CONFIG t w)
  /\ isGathered (advance parseEase CONFIG t w) = isGathered w.
Proof.
  intros Hs Hm. unfold advance. destruct (Rltb t (now w)); [auto|].
  apply advance_fuel_settling; assumption.
Qed.

(** Once the clock has passed the end of the last tween, every ornament
    sits on the target kept in its mesh. *)
Lemma settled_positions (t_end : R) (targets : list V3.t) (w : World) :
  Settling t_end targets w -> in_motion w -> t_end <= now w ->
  forall i m, ornaments (scene w) !! i = Some m ->
              position m = treePosition m /\ targets !! i = Some (position m).
Proof.
  intros Hs Hm Hend i m Hi.
  assert (Hat : position m = treePosition m).
  { destruct (settling_settled _ _ _ Hs i m Hi) as [(tw & p & Hin & Hv)|Hat];
      [|exact Hat].
    pose proof (Hm tw i p Hin Hv) as H1.
    destruct (settling_ends _ _ _ Hs tw i p Hin Hv) as [_ H2]. lra. }
  split; [exact Hat|].
  rewrite <- (settling_targets _ _ _ Hs), list_lookup_fmap, Hi, Hat.
  reflexivity.
Qed.

(** *** A gather request on a world at rest *)

(** The tween [gatherAll] starts on ornament [i]. *)
Definition mesh_tween (CONFIG : Config) (t0 : R) (i : nat) (p : V3.t) : Tween :=
  {| vars := MeshPosition i p; start := t0 + INR i * 0.002;
     duration := animationDuration CONFIG; ease := animationEase CONFIG;
     from := None; onComplete := None |}.

Lemma gather_mesh_Some (CONFIG : Config) (i : nat) (w : World) (m : Mesh) :
  ornaments (scene w) !! i = Some m ->
  gather_mesh CONFIG i w
  = Some (gsap_to (MeshPosition i (treePosition m)) (animationDuration CONFIG)
            (INR i * 0.002) (animationEase CONFIG) None w).
Proof. intros H. unfold gather_mesh. rewrite H. reflexivity. Qed.

Lemma forEach_gather (CONFIG : Config) (indices : list nat) :
  forall w : World,
  (forall i, i ∈ indices -> (i < length (ornaments (scene w)))%nat) ->
  exists tws,
    forEach (gather_mesh CONFIG) indices w
    = Some (with_tweens w (tweens w ++ tws))
    /\ Forall2 (fun i tw => exists m, ornaments (scene w) !! i = Some m
                            /\ tw = mesh_tween CONFIG (now w) i (treePosition m))
         indices tws.
Proof.
  induction indices as [|i indices IH]; intros w Hlt.
  - exists []. split; [|constructor].
    cbn [forEach]. rewrite app_nil_r. destruct w; reflexivity.
  - destruct (lookup_lt_is_Some_2 (ornaments (scene w)) i) as [m Hm].
    { apply Hlt. apply list_elem_of_here. }
    cbn [forEach]. rewrite (gather_mesh_Some CONFIG i w m Hm).
    cbn [mbind option_bind].
    set (w1 := gsap_to _ _ _ _ _ w).
    destruct (IH w1) as (tws & E & HF).
    { intros j Hj. apply Hlt. apply list_elem_of_further. exact Hj. }
    exists (mesh_tween CONFIG (now w) i (treePosition m) :: tws).
    split.
    + rewrite E. unfold w1, gsap_to.
      cbn [with_tweens tweens scene now timers isGathered animating
           toggleBtn tape].
      rewrite <- app_assoc. reflexivity.
    + constructor; [exists m; auto|exact HF].
Qed.

(** The world just after [gatherAll] on a world without tweens and
    timers: the scene is as it was, the only timer is the one that reveals
    the ribbon, no tween carries a closure, and every ornament has a
    tween to its tree position that ends by [t_end]. *)
Lemma gatherAll_at_rest (CONFIG : Config) (k : Continuation) (w : World) :
  0 < animationDuration CONFIG ->
  tweens w = [] -> timers w = [] ->
  exists w',
    gatherAll CONFIG k w = Some w'
    /\ now w' = now w /\ isGathered w' = isGathered w
    /\ animating w' = animating w
    /\ timers w' = [(reveal_time CONFIG (now w), RevealRibbon k)]
    /\ pending (tweens w') = []
    /\ Settling (now w + INR (length (ornaments (scene w)) - 1) * 0.002
                 + animationDuration CONFIG)
         (treePosition <$> ornaments (scene w)) w'
    /\ in_motion w'.
Proof.
  intros HD Htw Htm. unfold gatherAll.
  set (wl := match starLight (scene w) with
             | Some _ => gsap_to _ _ _ _ _ w
             | None => w
             end).
  assert (Hwl : scene wl = scene w /\ now wl = now w
                /\ isGathered wl = isGathered w /\ animating wl = animating w
                /\ timers wl = [] /\ pending (tweens wl) = []
                /\ forall tw, tw ∈ tweens wl -> target_index (vars tw) = None).
  { unfold wl. destruct (starLight (scene w)); cbn; rewrite ?Htw, ?Htm;
      repeat split; try reflexivity; intros tw Hin.
    - apply list_elem_of_singleton in Hin. subst tw. reflexivity.
    - apply elem_of_nil in Hin. contradiction. }
  destruct Hwl as (Hsc & Hnow & Hg & Han & Htm' & Hpd & Hlight).
  destruct (forEach_gather CONFIG (seq 0 (length (ornaments (scene wl)))) wl)
    as (tws & E & HF).
  { intros i Hi. apply elem_of_seq in Hi. lia. }
  rewrite E. cbn [mbind option_bind].
  set (star_pos := {| vars := StarPositionY (originalY (topStar (scene w)));
                      start := now w + 0;
                      duration := animationDuration CONFIG;
                      ease := animationEase CONFIG; from := None;
                      onComplete := None |}).
  set (star_rot := {| vars := StarRotationY (PI * 4); start := now w + 0;
                      duration := animationDuration CONFIG;
                      ease := "power2.out"; from := None;
                      onComplete := None |}).
  eexists. split; [reflexivity|].
  set (w' := setTimeout _ _ _).
  assert (Hsc' : scene w' = scene w) by (unfold w'; cbn; exact Hsc).
  assert (Hnow' : now w' = now w) by (unfold w'; cbn; exact Hnow).
  assert (Htw' : tweens w' = ((tweens wl ++ tws) ++ [star_pos]) ++ [star_rot]).
  { unfold w'. cbn. rewrite Hsc, Hnow. reflexivity. }
  assert (Htm'' : timers w' = [(reveal_time CONFIG (now w), RevealRibbon k)]).
  { unfold w'. cbn. rewrite Htm', Hnow. reflexivity. }
  split; [exact Hnow'|]. split; [unfold w'; cbn; exact Hg|].
  split; [unfold w'; cbn; exact Han|]. split; [exact Htm''|].
  assert (Hmesh : forall tw i p,
            tw ∈ tweens w' -> vars tw = MeshPosition i p ->
            exists j m, seq 0 (length (ornaments (scene w))) !! j = Some i
                        /\ ornaments (scene w) !! i = Some m
                        /\ tw = mesh_tween CONFIG (now w) i (treePosition m)).
  { intros tw i p Hin Hv. rewrite Htw' in Hin.
    rewrite !elem_of_app in Hin.
    destruct Hin as [[[Hin|Hin]|Hin]|Hin].
    - apply Hlight in Hin. rewrite Hv in Hin. discriminate.
    - apply list_elem_of_lookup in Hin as [j Hj].
      destruct (Forall2_lookup_r _ _ _ _ _ HF Hj) as (i' & Hi' & m & Hm & ->).
      cbn in Hv. injection Hv as -> _.
      rewrite Hsc, Hnow in *. eauto.
    - apply list_elem_of_singleton in Hin. subst tw. discriminate.
    - apply list_elem_of_singleton in Hin. subst tw. discriminate. }
  split.
  { rewrite Htw', !pending_app, Hpd. cbn.
    assert (Hp : pending tws = []).
    { clear -HF. induction HF as [|i tw js tws (m & _ & ->) _ IH]; [reflexivity|].
      exact IH. }
    rewrite Hp. reflexivity. }
  split.
  - split; rewrite ?Hsc'.
    + reflexivity.
    + intros tw i p m Hin Hv Hm.
      destruct (Hmesh tw i p Hin Hv) as (j & m' & _ & Hm' & ->).
      cbn in Hv. injection Hv as <-. congruence.
    + intros tw i p Hin Hv.
      destruct (Hmesh tw i p Hin Hv) as (j & m' & Hj & Hm' & ->).
      cbn [duration start mesh_tween]. split; [lra|].
      apply lookup_seq in Hj as [Hij Hj].
      assert (INR i <= INR (length (ornaments (scene w)) - 1))
        by (apply le_INR; lia).
      lra.
    + intros i m Hm. left.
      assert (Hi : (i < length (ornaments (scene w)))%nat)
        by (apply lookup_lt_is_Some; eauto).
      assert (Hs : seq 0 (length (ornaments (scene wl))) !! i = Some i).
      { rewrite Hsc. apply lookup_seq. split; [reflexivity|exact Hi]. }
      destruct (Forall2_lookup_l _ _ _ _ _ HF Hs) as (tw & Htw0 & m' & Hm' & ->).
      exists (mesh_tween CONFIG (now wl) i (treePosition m')), (treePosition m').
      split; [|reflexivity].
      rewrite Htw', !elem_of_app. left; left; right.
      apply list_elem_of_lookup. eauto.
  - intros tw i p Hin Hv. rewrite Hnow'.
    destruct (Hmesh tw i p Hin Hv) as (j & m' & _ & _ & ->).
    cbn [duration start mesh_tween].
    pose proof (pos_INR i). lra.
Qed.

(** The animation frames at the times [ts], in order. *)
Definition frames (CONFIG : Config) (ts : list R) (w : World) : World :=
  foldl (fun w t => advance parseEase CONFIG t w) w ts.

(** The time at which the last ornament tween of a transition requested
    at [t0] ends: the duration plus the largest stagger delay. *)
Definition full_duration_end (CONFIG : Config) (t0 : R) (n : nat) : R :=
  t0 + INR (n - 1) * 0.002 + animationDuration CONFIG.

(** A gather requested at [t0] is under way (or over). *)
Record Gathering (CONFIG : Config) (t0 : R) (targets : list V3.t)
  (w : World) : Prop := {
  gathering_phase : GatherPhase CONFIG t0 true (sched_of w);
  gathering_settling :
    Settling (full_duration_end CONFIG t0 (length targets)) targets w;
  gathering_motion : in_motion w
}.

Lemma gathering_advance (CONFIG : Config) (t0 : R) (targets : list V3.t)
  (t : R) (w : World) :
  0 < animationDuration CONFIG ->
  Gathering CONFIG t0 targets w ->
  Gathering CONFIG t0 targets (advance parseEase CONFIG t w)
  /\ now (advance parseEase CONFIG t w) = Rmax (now w) t
  /\ isGathered (advance parseEase CONFIG t w) = isGathered w.
Proof.
  intros HD [Hp Hs Hm].
  destruct (advance_phase CONFIG t0 true t (sched_of w) HD Hp) as [Hp' Hn'].
  rewrite <- sched_of_advance in Hp', Hn'.
  destruct (advance_settling CONFIG _ targets t w Hs Hm) as (Hs' & Hm' & Hg').
  split; [split; assumption|]. split; [exact Hn'|exact Hg'].
Qed.

Lemma gathering_frames (CONFIG : Config) (t0 : R) (targets : list V3.t)
  (ts : list R) :
  0 < animationDuration CONFIG ->
  forall w : World,
  Gathering CONFIG t0 targets w ->
  Gathering CONFIG t0 targets (frames CONFIG ts w)
  /\ now (frames CONFIG ts w) = foldl Rmax (now w) ts
  /\ isGathered (frames CONFIG ts w) = isGathered w.
Proof.
  intros HD. induction ts as [|t ts IH]; intros w Hw; [auto|].
  cbn [frames foldl].
  destruct (gathering_advance CONFIG t0 targets t w HD Hw) as (H1 & H2 & H3).
  destruct (IH _ H1) as (H4 & H5 & H6). unfold frames in *.
  split; [exact H4|]. split; congruence.
Qed.

(** What is observable while a gather is under way: the guard is set
    exactly before the release time, and the ornaments sit on their tree
    positions from the end of the last tween on. *)
Lemma gathering_observed (CONFIG : Config) (t0 : R) (targets : list V3.t)
  (w : World) :
  0 < animationDuration CONFIG ->
  Gathering CONFIG t0 targets w ->
  (now w < release_time CONFIG t0 -> animating w = true)
  /\ (release_time CONFIG t0 <= now w -> animating w = false)
  /\ (full_duration_end CONFIG t0 (length targets) <= now w ->
      forall i m, ornaments (scene w) !! i = Some m ->
                  position m = treePosition m
                  /\ targets !! i = Some (position m)).
Proof.
  intros HD [Hp Hs Hm].
  destruct (phase_guard CONFIG t0 true (sched_of w) HD Hp) as [H1 H2].
  split; [exact H1|]. split; [exact H2|].
  intros Hend. apply (settled_positions _ _ _ Hs Hm Hend).
Qed.

(** A gather request on a world at rest starts the timeline. *)
Lemma transitionState_gather_at_rest (CONFIG : Config) (w : World) :
  0 < animationDuration CONFIG ->
  tweens w = [] -> timers w = [] -> animating w = false ->
  exists w1,
    transitionState true CONFIG w = Some w1
    /\ Gathering CONFIG (now w) (treePosition <$> ornaments (scene w)) w1
    /\ now w1 = now w /\ isGathered w1 = isGathered w.
Proof.
  intros HD Htw Htm Han. unfold transitionState. rewrite Han.
  set (w0 := with_toggleBtn _ _).
  destruct (gatherAll_at_rest CONFIG (AfterAwait true) w0 HD Htw Htm)
    as (w1 & E & Hn & Hg & Ha & Ht & Hp & Hs & Hm).
  exists w1. split; [exact E|]. split; [|split; assumption].
  split.
  - apply BeforeReveal; cbn [sched_of s_now s_timers s_pending s_animating].
    + rewrite Hn. cbn. unfold reveal_time. lra.
    + exact Ht.
    + exact Hp.
    + rewrite Ha. reflexivity.
  - unfold full_duration_end. rewrite length_fmap. exact Hs.
  - exact Hm.
Qed.

(** The timeline of a gather request made at rest, seen at any later
    frames [ts]: the guard is set exactly before
    [t0 + 1.5 * duration + 0.5]; the ornaments sit on their tree positions
    from [t0 + duration + 0.002 * (n - 1)] on; the clock is the latest of
    the frame times. *)
Lemma gather_timeline (CONFIG : Config) (w : World) (ts : list R) :
  0 < animationDuration CONFIG ->
  tweens w = [] -> timers w = [] -> animating w = false ->
  exists w1,
    transitionState true CONFIG w = Some w1
    /\ now (frames CONFIG ts w1) = foldl Rmax (now w) ts
    /\ isGathered (frames CONFIG ts w1) = isGathered w
    /\ (now (frames CONFIG ts w1)
        < now w + 1.5 * animationDuration CONFIG + 0.5 ->
        animating (frames CONFIG ts w1) = true)
    /\ (now w + 1.5 * animationDuration CONFIG + 0.5
        <= now (frames CONFIG ts w1) ->
        animating (frames CONFIG ts w1) = false)
    /\ (full_duration_end CONFIG (now w) (length (ornaments (scene w)))
        <= now (frames CONFIG ts w1) ->
        forall i m, ornaments (scene (frames CONFIG ts w1)) !! i = Some m ->
                    position m = treePosition m
                    /\ treePosition <$> ornaments (scene w) !! i
                       = Some (position m)).
Proof.
  intros HD Htw Htm Han.
  destruct (transitionState_gather_at_rest CONFIG w HD Htw Htm Han)
    as (w1 & E & Hg & Hn & Hi).
  exists w1. split; [exact E|].
  destruct (gathering_frames CONFIG _ _ ts HD w1 Hg) as (Hg' & Hn' & Hi').
  destruct (gathering_observed CONFIG _ _ _ HD Hg') as (O1 & O2 & O3).
  rewrite release_time_eq in O1, O2. rewrite length_fmap in O3.
  split; [congruence|]. split; [congruence|].
  split; [exact O1|]. split; [exact O2|].
  intros Hend i m Hm. destruct (O3 Hend i m Hm) as [P1 P2].
  split; [exact P1|]. rewrite <- list_lookup_fmap. exact P2.
Qed.

End Engine.

(** *** The gather scenario *)

(** A linear easing curve, for the closed examples. *)
Definition linear_ease : string -> R -> R := fun _ p => p.

Definition mesh_at_rest : Mesh :=
  {| position := V3.mk 30 0 0; treePosition := V3.mk 0 1 0;
     scatterPosition := V3.mk 30 0 0 |}.

(** A scattered world at rest with 400 ornaments, the clock at 0. *)
Definition world400 : World :=
  {| scene := {| ornaments := replicate 400 mesh_at_rest;
                 topStar := {| position_y := 25; rotation_y := 0;
                               originalY := 11; scatterY := 25 |};
                 spiralRibbon := {| visible := false; opacity := 0 |};
                 starLight := Some {| red := 1; green := 1; blue := 1 |} |};
     now := 0; tweens := []; timers := [];
     isGathered := false; animating := false;
     toggleBtn := {| disabled := false; showsScatter := false |};
     tape := [] |}.

Lemma world400_stagger :
  INR (length (ornaments (scene world400)) - 1) * 0.002 = 0.798.
Proof.
  cbn [world400 scene ornaments]. rewrite length_replicate.
  change (400 - 1)%nat with 399%nat. rewrite INR_IZR_INZ.
  change (Z.of_nat 399) with 399%Z. lra.
Qed.

(** C3, as the code has it. A gather requested on a world at rest, with
    [n] ornaments and a stagger [0.002 * (n - 1)] of at most
    [duration / 2 + 0.5]: the guard is released at
    [t0 + 1.5 * duration + 0.5], which is not before the end of the last
    ornament tween, [t0 + duration + 0.002 * (n - 1)]; before the release
    the guard is set; from the end of the last tween on (so from the
    release on) every ornament sits on its gather target. *)
Theorem gather_settles_then_releases (parseEase : string -> R -> R)
  (CONFIG : Config) (w : World) (ts : list R) :
  0 < animationDuration CONFIG ->
  tweens w = [] -> timers w = [] -> animating w = false ->
  INR (length (ornaments (scene w)) - 1) * 0.002
  <= animationDuration CONFIG / 2 + 0.5 ->
  exists w1,
    transitionState true CONFIG w = Some w1
    /\ full_duration_end CONFIG (now w) (length (ornaments (scene w)))
       <= now w + 1.5 * animationDuration CONFIG + 0.5
    /\ (now (frames parseEase CONFIG ts w1)
        < now w + 1.5 * animationDuration CONFIG + 0.5 ->
        animating (frames parseEase CONFIG ts w1) = true)
    /\ (now w + 1.5 * animationDuration CONFIG + 0.5
        <= now (frames parseEase CONFIG ts w1) ->
        animating (frames parseEase CONFIG ts w1) = false)
    /\ (full_duration_end CONFIG (now w) (length (ornaments (scene w)))
        <= now (frames parseEase CONFIG ts w1) ->
        forall i m,
          ornaments (scene (frames parseEase CONFIG ts w1)) !! i = Some m ->
          position m = treePosition m
          /\ treePosition <$> ornaments (scene w) !! i = Some (position m)).
Proof.
  intros HD Htw Htm Han Hst.
  destruct (gather_timeline parseEase CONFIG w ts HD Htw Htm Han)
    as (w1 & E & _ & _ & G1 & G2 & P).
  exists w1. split; [exact E|].
  split; [unfold full_duration_end; lra|]. auto.
Qed.

Lemma gather_settles_then_releases_witness :
  exists w1,
    transitionState true CONFIG world400 = Some w1
    /\ full_duration_end CONFIG (now world400)
         (length (ornaments (scene world400)))
       <= now world400 + 1.5 * animationDuration CONFIG + 0.5
    /\ (now (frames linear_ease CONFIG [1; 3.2] w1)
        < now world400 + 1.5 * animationDuration CONFIG + 0.5 ->
        animating (frames linear_ease CONFIG [1; 3.2] w1) = true)
    /\ (now world400 + 1.5 * animationDuration CONFIG + 0.5
        <= now (frames linear_ease CONFIG [1; 3.2] w1) ->
        animating (frames linear_ease CONFIG [1; 3.2] w1) = false)
    /\ (full_duration_end CONFIG (now world400)
          (length (ornaments (scene world400)))
        <= now (frames linear_ease CONFIG [1; 3.2] w1) ->
        forall i m,
          ornaments (scene (frames linear_ease CONFIG [1; 3.2] w1)) !! i
          = Some m ->
          position m = treePosition m
          /\ treePosition <$> ornaments (scene world400) !! i
             = Some (position m)).
Proof.
  apply (gather_settles_then_releases linear_ease CONFIG world400 [1; 3.2]).
  - simpl. lra.
  - reflexivity.
  - reflexivity.
  - reflexivity.
  - rewrite world400_stagger. simpl. lra.
Defined.

(** The claim C3 as worded fails: with the 400 ornaments and the duration
    of js/config.js the last tween ends at 2.598 s; at the frame at 2.6 s
    the full duration has elapsed and every ornament is on its target, but
    the guard is still set (it is released at 3.2 s). *)
Lemma gather_guard_outlasts_full_duration :
  exists w1,
    transitionState true CONFIG world400 = Some w1
    /\ full_duration_end CONFIG (now world400)
         (length (ornaments (scene world400)))
       <= now (frames linear_ease CONFIG [2.6] w1)
    /\ (forall i m,
          ornaments (scene (frames linear_ease CONFIG [2.6] w1)) !! i = Some m ->
          position m = treePosition m)
    /\ animating (frames linear_ease CONFIG [2.6] w1) = true.
Proof.
  destruct (gather_timeline linear_ease CONFIG world400 [2.6])
    as (w1 & E & Hn & _ & G1 & _ & P); try reflexivity; [simpl; lra|].
  exists w1. split; [exact E|].
  assert (Hnow : now (frames linear_ease CONFIG [2.6] w1) = 2.6).
  { rewrite Hn. cbn [foldl world400 now]. apply Rmax_right. lra. }
  assert (Hfull : full_duration_end CONFIG (now world400)
                    (length (ornaments (scene world400))) <= 2.6).
  { unfold full_duration_end. rewrite world400_stagger. simpl. lra. }
  rewrite Hnow in *.
  split; [exact Hfull|]. split.
  - intros i m Hm. apply (P Hfull i m Hm).
  - apply G1. simpl. lra.
Qed.

(** ** The re-entrancy guard *)

Lemma forEach_preserves (P : World -> Prop) (body : nat -> World -> option World) :
  (forall i w w', body i w = Some w' -> P w -> P w') ->
  forall (indices : list nat) (w w' : World),
  forEach body indices w = Some w' -> P w -> P w'.
Proof.
  intros Hbody indices. induction indices as [|i indices IH]; intros w w' E HP.
  - injection E as <-. exact HP.
  - cbn [forEach] in E. destruct (body i w) as [w1|] eqn:E1; [|discriminate].
    cbn [mbind option_bind] in E. eapply IH; [exact E|]. eapply Hbody; eauto.
Qed.

(** Starting a tween without [onComplete] changes neither the schedule
    nor [isGathered]. *)
Lemma gsap_to_plain (v : Vars) (d dl : R) (e : string) (w : World) :
  sched_of (gsap_to v d dl e None w) = sched_of w
  /\ isGathered (gsap_to v d dl e None w) = isGathered w.
Proof.
  unfold sched_of. cbn. rewrite pending_app. cbn. rewrite app_nil_r. auto.
Qed.

Lemma gather_mesh_plain (CONFIG : Config) (i : nat) (w w' : World) :
  gather_mesh CONFIG i w = Some w' ->
  sched_of w' = sched_of w /\ isGathered w' = isGathered w.
Proof.
  unfold gather_mesh. destruct (ornaments (scene w) !! i); [|discriminate].
  intros [= <-]. apply gsap_to_plain.
Qed.

Lemma scatter_mesh_plain (CONFIG : Config) (i : nat) (w w' : World) :
  scatter_mesh CONFIG i w = Some w' ->
  sched_of w' = sched_of w /\ isGathered w' = isGathered w.
Proof.
  unfold scatter_mesh.
  destruct (Placement.calculateScatterPosition CONFIG (tape w)) as [[p tape']|];
    [|discriminate].
  intros [= <-].
  match goal with |- context [gsap_to ?v ?d ?dl ?e None ?w0] =>
    destruct (gsap_to_plain v d dl e w0) as [-> ->] end.
  auto.
Qed.

Lemma light_tween_plain (c : Color) (w : World) :
  let w' := match starLight (scene w) with
            | Some _ => gsap_to (LightColor c) 0.5 0 defaultEase None w
            | None => w
            end in
  sched_of w' = sched_of w /\ isGathered w' = isGathered w.
Proof.
  destruct (starLight (scene w)); cbv zeta; [apply gsap_to_plain|auto].
Qed.

Lemma sched_of_eq (w w' : World) :
  sched_of w' = sched_of w ->
  now w' = now w /\ timers w' = timers w
  /\ pending (tweens w') = pending (tweens w) /\ animating w' = animating w.
Proof. unfold sched_of. intros [= -> -> -> ->]. auto. Qed.

(** [gatherAll] always returns; all it adds to the schedule is the timer
    that reveals the ribbon. *)
Lemma gatherAll_sched (CONFIG : Config) (k : Continuation) (w : World) :
  exists w',
    gatherAll CONFIG k w = Some w'
    /\ isGathered w' = isGathered w
    /\ sched_of w'
       = {| s_now := now w;
            s_timers := timers w ++ [(reveal_time CONFIG (now w), RevealRibbon k)];
            s_pending := pending (tweens w);
            s_animating := animating w |}.
Proof.
  unfold gatherAll.
  match goal with |- context [match starLight (scene w) with
                              | Some _ => gsap_to (LightColor ?c) _ _ _ _ _
                              | None => _ end] =>
    destruct (light_tween_plain c w) as [Hs Hg] end.
  cbv zeta in Hs, Hg.
  set (wl := match starLight (scene w) with Some _ => _ | None => w end) in *.
  destruct (forEach_gather CONFIG (seq 0 (length (ornaments (scene wl)))) wl)
    as (tws & E & _).
  { intros i Hi. apply elem_of_seq in Hi. lia. }
  pose proof (forEach_preserves
                (fun w' => sched_of w' = sched_of w /\ isGathered w' = isGathered w)
                (gather_mesh CONFIG)) as Hpres.
  specialize (Hpres ltac:(intros i w1 w2 E1 [H1 H2];
                          destruct (gather_mesh_plain CONFIG i w1 w2 E1);
                          split; congruence)
                    _ _ _ E (conj Hs Hg)).
  destruct Hpres as [Hs' Hg'].
  rewrite E. cbn [mbind option_bind].
  eexists. split; [reflexivity|].
  set (w2 := with_tweens wl (tweens wl ++ tws)) in *.
  match goal with |- context [setTimeout ?cb ?ms (gsap_to ?v2 ?d2 ?dl2 ?e2 None
                                (gsap_to ?v1 ?d1 ?dl1 ?e1 None w2))] =>
    destruct (gsap_to_plain v1 d1 dl1 e1 w2) as [A1 A2];
    destruct (gsap_to_plain v2 d2 dl2 e2 (gsap_to v1 d1 dl1 e1 None w2))
      as [B1 B2];
    set (w3 := gsap_to v2 d2 dl2 e2 None (gsap_to v1 d1 dl1 e1 None w2)) in *
  end.
  assert (S3 : sched_of w3 = sched_of w) by congruence.
  split; [cbn; congruence|].
  apply sched_of_eq in S3 as (N3 & T3 & P3 & G3).
  unfold sched_of. cbn [setTimeout with_timers now timers tweens animating].
  rewrite N3, T3, P3, G3. reflexivity.
Qed.

(** All [scatterAll] adds to the schedule, when it returns, is the ribbon
    tween whose completion resolves the promise. *)
Lemma scatterAll_sched (CONFIG : Config) (k : Continuation) (w w' : World) :
  scatterAll CONFIG k w = Some w' ->
  isGathered w' = isGathered w
  /\ sched_of w'
     = {| s_now := now w;
          s_timers := timers w;
          s_pending := pending (tweens w) ++ [(now w + 0, 0.3, HideRibbon k)];
          s_animating := animating w |}.
Proof.
  unfold scatterAll.
  match goal with |- context [match starLight (scene w) with
                              | Some _ => gsap_to (LightColor ?c) _ _ _ _ _
                              | None => _ end] =>
    destruct (light_tween_plain c w) as [Hs Hg] end.
  cbv zeta in Hs, Hg.
  set (wl := match starLight (scene w) with Some _ => _ | None => w end) in *.
  destruct (forEach (scatter_mesh CONFIG) _ wl) as [w2|] eqn:E; [|discriminate].
  pose proof (forEach_preserves
                (fun w' => sched_of w' = sched_of w /\ isGathered w' = isGathered w)
                (scatter_mesh CONFIG)) as Hpres.
  specialize (Hpres ltac:(intros i w1 w3 E1 [H1 H2];
                          destruct (scatter_mesh_plain CONFIG i w1 w3 E1);
                          split; congruence)
                    _ _ _ E (conj Hs Hg)).
  destruct Hpres as [Hs' Hg'].
  cbn [mbind option_bind]. intros [= <-].
  match goal with |- context [gsap_to ?v2 ?d2 ?dl2 ?e2 (Some ?cb)
                                (gsap_to ?v1 ?d1 ?dl1 ?e1 None w2)] =>
    destruct (gsap_to_plain v1 d1 dl1 e1 w2) as [A1 A2];
    set (w3 := gsap_to v1 d1 dl1 e1 None w2) in *
  end.
  assert (S3 : sched_of w3 = sched_of w) by congruence.
  split; [cbn; congruence|].
  apply sched_of_eq in S3 as (N3 & T3 & P3 & G3).
  unfold sched_of. cbn [gsap_to with_tweens now timers tweens animating].
  rewrite pending_app, N3, T3, P3, G3. reflexivity.
Qed.

(** Whether a scheduled closure leads to the release of the guard: the
    release itself, or a step of a transition that is awaited. *)
Definition releases (cb : Callback) : nat :=
  match cb with
  | RevealRibbon (AfterAwait _) => 1
  | Resolve (AfterAwait _) => 1
  | HideRibbon (AfterAwait _) => 1
  | EnableButton _ => 1
  | _ => 0
  end.

(** The number of transitions in flight: the scheduled closures that lead
    to a release of the guard. *)
Definition in_flight (s : Sched) : nat :=
  list_sum (releases ∘ snd <$> s_timers s)
  + list_sum (releases ∘ snd <$> s_pending s).

Definition guard_count (s : Sched) : nat := if s_animating s then 1 else 0.

(** The guard is set exactly when one transition is in flight, and no
    more than one ever is. *)
Definition Balanced (s : Sched) : Prop := in_flight s = guard_count s.

Lemma list_sum_cons (x : nat) (l : list nat) :
  list_sum (x :: l) = (x + list_sum l)%nat.
Proof. reflexivity. Qed.

Lemma list_sum_nil : list_sum [] = 0%nat.
Proof. reflexivity. Qed.

Lemma fire_all_balanced (CONFIG : Config) (cbs : list Callback) :
  forall s : Sched,
  (list_sum (releases <$> cbs) + in_flight s)%nat = guard_count s ->
  Balanced (SchedModel.fire_all CONFIG cbs s).
Proof.
  induction cbs as [|cb cbs IH]; intros s H; [exact H|].
  cbn [SchedModel.fire_all foldl]. apply IH. clear IH.
  cbn [fmap list_fmap] in H. rewrite list_sum_cons in H.
  unfold in_flight, guard_count in *.
  destruct cb as [k|k|k|b]; try destruct k;
    cbn [SchedModel.fire SchedModel.resume s_timers s_pending s_animating
         releases] in *;
    rewrite ?fmap_app, ?list_sum_app;
    cbn [fmap list_fmap compose snd releases] in *;
    rewrite ?list_sum_cons, ?list_sum_nil;
    try lia.
  destruct (s_animating s); lia.
Qed.

Lemma list_sum_filter_split {A} (f : A -> nat) (p : A -> bool) (l : list A) :
  (list_sum (f <$> filter (fun x => p x = true) l)
   + list_sum (f <$> filter (fun x => p x = false) l))%nat
  = list_sum (f <$> l).
Proof.
  induction l as [|x l IH]; [reflexivity|].
  rewrite !filter_cons. cbn [fmap list_fmap]. rewrite list_sum_cons.
  destruct (p x);
    repeat first [ rewrite decide_True by reflexivity
                 | rewrite decide_False by discriminate ];
    cbn [fmap list_fmap]; rewrite ?list_sum_cons; lia.
Qed.

(** A tick keeps the guard and the transitions in flight in step. *)
Lemma tick_balanced (CONFIG : Config) (t : R) (s : Sched) :
  Balanced s -> Balanced (SchedModel.tick CONFIG t s).
Proof.
  intros H. unfold SchedModel.tick.
  set (s1 := SchedModel.fire_all CONFIG
               (snd <$> filter (fun tm => Rltb t tm.1 = false) (s_timers s))
               {| s_now := t;
                  s_timers := filter (fun tm => Rltb t tm.1 = true) (s_timers s);
                  s_pending := s_pending s;
                  s_animating := s_animating s |}).
  assert (H1 : Balanced s1).
  { apply fire_all_balanced. unfold Balanced, in_flight, guard_count in *.
    cbn [s_timers s_pending s_animating].
    rewrite <- list_fmap_compose.
    pose proof (list_sum_filter_split (releases ∘ snd)
                  (fun tm => Rltb t tm.1) (s_timers s)) as Hsplit.
    lia. }
  apply fire_all_balanced. unfold Balanced, in_flight, guard_count in *.
  cbn [s_timers s_pending s_animating].
  rewrite <- list_fmap_compose.
  pose proof (list_sum_filter_split (releases ∘ snd) (completes t)
                (s_pending s1)) as Hsplit.
  lia.
Qed.

Lemma advance_balanced (CONFIG : Config) (t : R) (s : Sched) :
  Balanced s -> Balanced (SchedModel.advance CONFIG t s).
Proof.
  intros H. unfold SchedModel.advance. destruct (Rltb t (s_now s)); [exact H|].
  generalize (SchedModel.pending_rank s). intros fuel. revert s H.
  induction fuel as [|fuel IH]; intros s H; cbn [SchedModel.advance_fuel];
    destruct (SchedModel.next_event t s); try exact H;
    try (apply tick_balanced; exact H).
  apply IH. apply tick_balanced. exact H.
Qed.

(** A request keeps them in step: it is refused while the guard is set,
    and otherwise sets the guard and schedules one release. *)
Lemma transitionState_balanced (toGathered : bool) (CONFIG : Config)
  (w w' : World) :
  transitionState toGathered CONFIG w = Some w' ->
  Balanced (sched_of w) -> Balanced (sched_of w').
Proof.
  unfold transitionState. destruct (animating w) eqn:Han.
  - intros [= <-]. auto.
  - set (w0 := with_toggleBtn _ _).
    assert (H0 : sched_of w0
                 = {| s_now := now w; s_timers := timers w;
                      s_pending := pending (tweens w); s_animating := true |})
      by reflexivity.
    intros E HB. unfold Balanced, in_flight, guard_count in *.
    cbn [sched_of s_timers s_pending s_animating] in HB. rewrite Han in HB.
    destruct toGathered.
    + destruct (gatherAll_sched CONFIG (AfterAwait true) w0) as (w1 & E1 & _ & S1).
      rewrite E1 in E. injection E as <-. rewrite S1.
      cbn [s_timers s_pending s_animating w0 timers tweens with_toggleBtn
           with_animating].
      rewrite fmap_app, list_sum_app. cbn. lia.
    + destruct (scatterAll_sched CONFIG (AfterAwait false) w0 w' E) as [_ S1].
      rewrite S1.
      cbn [s_timers s_pending s_animating w0 timers tweens with_toggleBtn
           with_animating].
      rewrite fmap_app, list_sum_app. cbn. lia.
Qed.

(** What can happen to the world: a toggle, a request, a frame. *)
Inductive Command : Type :=
| Toggle
| Request (toGathered : bool)
| Frame (t : R).

Definition step (parseEase : string -> R -> R) (CONFIG : Config)
  (c : Command) (w : World) : option World :=
  match c with
  | Toggle => toggleState CONFIG w
  | Request toGathered => transitionState toGathered CONFIG w
  | Frame t => Some (advance parseEase CONFIG t w)
  end.

Fixpoint run (parseEase : string -> R -> R) (CONFIG : Config)
  (cs : list Command) (w : World) : option World :=
  match cs with
  | [] => Some w
  | c :: cs' => w' ← step parseEase CONFIG c w; run parseEase CONFIG cs' w'
  end.

Lemma run_balanced (parseEase : string -> R -> R) (CONFIG : Config)
  (cs : list Command) :
  forall w w' : World,
  run parseEase CONFIG cs w = Some w' ->
  Balanced (sched_of w) -> Balanced (sched_of w').
Proof.
  induction cs as [|c cs IH]; intros w w' E HB.
  - injection E as <-. exact HB.
  - cbn [run] in E.
    destruct (step parseEase CONFIG c w) as [w1|] eqn:E1; [|discriminate].
    cbn [mbind option_bind] in E. apply (IH w1 w' E).
    destruct c as [|b|t]; cbn [step] in E1.
    + unfold toggleState in E1.
      apply (transitionState_balanced _ _ _ _ E1). exact HB.
    + apply (transitionState_balanced _ _ _ _ E1). exact HB.
    + injection E1 as <-. rewrite sched_of_advance.
      apply advance_balanced. exact HB.
Qed.

(** A request made while the guard is set returns the world as it is. *)
Lemma transitionState_refused (toGathered : bool) (CONFIG : Config) (w : World) :
  animating w = true -> transitionState toGathered CONFIG w = Some w.
Proof. intros H. unfold transitionState. rewrite H. reflexivity. Qed.

(** A gather request made while the guard is clear is accepted and sets
    the guard. *)
Lemma transitionState_gather_accepted (CONFIG : Config) (w : World) :
  animating w = false ->
  exists w1, transitionState true CONFIG w = Some w1
             /\ animating w1 = true
             /\ isGathered w1 = isGathered w.
Proof.
  intros H. unfold transitionState. rewrite H.
  match goal with |- context [gatherAll CONFIG ?k ?w0] =>
    destruct (gatherAll_sched CONFIG k w0) as (w1 & E & Hg & S) end.
  exists w1. split; [exact E|]. split; [|exact Hg].
  apply (f_equal s_animating) in S. exact S.
Qed.

(** C1. A call of [transitionState] made while the guard is set returns
    at once and leaves the world as it is: no tween is started, no
    position and not the guard are touched.  A gather request followed at
    once by a scatter request leaves the guard set and the world as the
    gather request left it.  Over any sequence of toggles, requests and
    frames the number of transitions in flight is at most one, and it is
    one exactly while the guard is set. *)
Theorem transition_guard_rejects_reentry :
  (forall (toGathered : bool) (CONFIG : Config) (w : World),
     animating w = true -> transitionState toGathered CONFIG w = Some w)
  /\ (forall (CONFIG : Config) (w : World),
        animating w = false ->
        exists w1, transitionState true CONFIG w = Some w1
                   /\ animating w1 = true
                   /\ transitionState false CONFIG w1 = Some w1)
  /\ (forall (parseEase : string -> R -> R) (CONFIG : Config)
             (cs : list Command) (w0 w : World),
        Balanced (sched_of w0) ->
        run parseEase CONFIG cs w0 = Some w ->
        (in_flight (sched_of w) <= 1)%nat
        /\ (in_flight (sched_of w) = 1%nat <-> animating w = true)).
Proof.
  split; [exact transitionState_refused|]. split.
  - intros CONFIG w H.
    destruct (transitionState_gather_accepted CONFIG w H) as (w1 & E & Ha & _).
    exists w1. split; [exact E|]. split; [exact Ha|].
    apply transitionState_refused. exact Ha.
  - intros parseEase CONFIG cs w0 w HB E.
    pose proof (run_balanced parseEase CONFIG cs w0 w E HB) as H.
    unfold Balanced, guard_count in H. cbn [sched_of s_animating] in H.
    destruct (animating w); rewrite H; split; try lia; split; intros; (lia || discriminate || reflexivity).
Qed.

(** [isGathered] does not matter to a gather under way. *)
Lemma gathering_with_isGathered (CONFIG : Config) (t0 : R)
  (targets : list V3.t) (w : World) (b : bool) :
  Gathering CONFIG t0 targets w ->
  Gathering CONFIG t0 targets (with_isGathered w b).
Proof.
  intros [Hp [H1 H2 H3 H4] Hm]. split; [exact Hp| |exact Hm].
  split; assumption.
Qed.

Lemma transitionState_isGathered (toGathered : bool) (CONFIG : Config)
  (w w' : World) :
  transitionState toGathered CONFIG w = Some w' ->
  isGathered w' = isGathered w.
Proof.
  unfold transitionState. destruct (animating w).
  - intros [= <-]. reflexivity.
  - destruct toGathered.
    + match goal with |- context [gatherAll CONFIG ?k ?w0] =>
        destruct (gatherAll_sched CONFIG k w0) as (w1 & E & Hg & _) end.
      rewrite E. intros [= <-]. exact Hg.
    + intros E. apply scatterAll_sched in E as [Hg _]. exact Hg.
Qed.

(** ** Gestures and the debounce gate *)

(** What a call made by [onHandResults] leaves untouched. *)
Record SameControl (a a' : App) : Prop := {
  same_lastGesture : lastGesture a' = lastGesture a;
  same_lastGestureTime : lastGestureTime a' = lastGestureTime a;
  same_isGathered : isGathered (world a') = isGathered (world a);
  same_animating : animating (world a') = animating (world a)
}.

Lemma call_createSnowSpiral_calls (CONFIG : Config) (a a' : App) :
  HandTracking.call_createSnowSpiral CONFIG a = Some a' ->
  calls a' = calls a ++ [CallCreateSnowSpiral] /\ SameControl a a'.
Proof.
  unfold HandTracking.call_createSnowSpiral.
  destruct (Snow.createSnowSpiral _ _ _ _ _ _ _) as [[vs tape']|];
    [|discriminate].
  intros [= <-]. split; [reflexivity|]. split; reflexivity.
Qed.

Lemma call_createSnowWave_calls (CONFIG : Config) (a a' : App) :
  HandTracking.call_createSnowWave CONFIG a = Some a' ->
  calls a' = calls a ++ [CallCreateSnowWave] /\ SameControl a a'.
Proof.
  unfold HandTracking.call_createSnowWave.
  destruct (Snow.createSnowWave _ _ _ _ _ _) as [[vs tape']|];
    [|discriminate].
  intros [= <-]. split; [reflexivity|]. split; reflexivity.
Qed.

Lemma call_transitionState_calls (toGathered : bool) (CONFIG : Config)
  (a a' : App) :
  HandTracking.call_transitionState toGathered CONFIG a = Some a' ->
  calls a' = calls a ++ [CallTransitionState toGathered]
  /\ lastGesture a' = lastGesture a
  /\ lastGestureTime a' = lastGestureTime a
  /\ isGathered (world a') = isGathered (world a).
Proof.
  unfold HandTracking.call_transitionState.
  destruct (transitionState toGathered CONFIG (world a)) as [w|] eqn:E;
    [|discriminate].
  intros [= <-]. repeat split.
  cbn. eapply transitionState_isGathered. exact E.
Qed.

(** The calls that change the choreography or start a wave: everything
    but the spiral of a held fist. *)
Definition discrete (c : Call) : bool :=
  match c with
  | CallCreateSnowSpiral => false
  | _ => true
  end.

Definition is_gather_request (c : Call) : bool :=
  match c with
  | CallTransitionState true => true
  | _ => false
  end.

Definition discrete_actions (cs : list Call) : list Call :=
  List.filter discrete cs.

Definition gather_requests (cs : list Call) : nat :=
  length (List.filter is_gather_request cs).

(** The calls the three-way [if] makes. *)
Lemma trigger_calls (CONFIG : Config) (g : Gesture.t) (t : R) (a a' : App) :
  HandTracking.trigger CONFIG g t a = Some a' ->
  lastGesture a' = lastGesture a
  /\ exists added,
       calls a' = calls a ++ added
       /\ (gather_requests added <= 1)%nat
       /\ (animating (world a) = true ->
           isGathered (world a') = isGathered (world a)).
Proof.
  unfold HandTracking.trigger.
  destruct (Gesture.eqb g Gesture.fist && negb (isGathered (world a))
            && negb (animating (world a))) eqn:B1.
  - destruct (HandTracking.call_transitionState true CONFIG _) as [a1|] eqn:E1;
      [|discriminate].
    cbn [mbind option_bind]. intros [= <-].
    apply call_transitionState_calls in E1 as (C1 & L1 & _ & _).
    split; [exact L1|]. exists [CallTransitionState true].
    split; [exact C1|]. split; [cbn; lia|].
    intros Han. rewrite Han, andb_false_r in B1. discriminate.
  - destruct (Gesture.eqb g Gesture.open && isGathered (world a)
              && negb (animating (world a))) eqn:B2.
    + destruct (HandTracking.call_transitionState false CONFIG _) as [a1|] eqn:E1;
        [|discriminate].
      cbn [mbind option_bind].
      destruct (HandTracking.call_createSnowWave CONFIG _) as [a2|] eqn:E2;
        [|discriminate].
      cbn [mbind option_bind]. intros [= <-].
      apply call_transitionState_calls in E1 as (C1 & L1 & _ & _).
      apply call_createSnowWave_calls in E2 as (C2 & [L2 _ _ _]).
      split; [cbn in *; congruence|].
      exists [CallTransitionState false; CallCreateSnowWave].
      split; [cbn in *; rewrite C2, C1, <- app_assoc; reflexivity|].
      split; [cbn; lia|].
      intros Han. rewrite Han, andb_false_r in B2. discriminate.
    + destruct (Gesture.eqb g Gesture.open).
      * destruct (HandTracking.call_createSnowWave CONFIG a) as [a2|] eqn:E2;
          [|discriminate].
        cbn [mbind option_bind]. intros [= <-].
        apply call_createSnowWave_calls in E2 as (C2 & [L2 _ G2 _]).
        split; [exact L2|]. exists [CallCreateSnowWave].
        split; [exact C2|]. split; [cbn; lia|]. intros _. exact G2.
      * intros [= <-]. split; [reflexivity|]. exists [].
        split; [rewrite app_nil_r; reflexivity|]. split; [cbn; lia|].
        reflexivity.
Qed.

Lemma gather_requests_app (cs cs' : list Call) :
  gather_requests (cs ++ cs') = (gather_requests cs + gather_requests cs')%nat.
Proof. unfold gather_requests. rewrite List.filter_app, length_app. reflexivity. Qed.

Lemma discrete_actions_app (cs cs' : list Call) :
  discrete_actions (cs ++ cs') = discrete_actions cs ++ discrete_actions cs'.
Proof. apply List.filter_app. Qed.

(** The calls of a frame in which a hand classified as [g] is seen: the
    spiral when [g] is a fist, then either nothing (the gate is closed, the
    last gesture stays) or the calls of the three-way [if] (the gate is
    open: [g] is not the last gesture and more than the debounce time has
    passed since the last action; [g] becomes the last gesture). *)
Lemma onHandResults_calls (CONFIG : Config) (landmarks : list Gesture.Landmark)
  (rest : list (list Gesture.Landmark)) (g : Gesture.t) (a a' : App) :
  Gesture.detectGesture landmarks = Some g ->
  HandTracking.onHandResults (landmarks :: rest) CONFIG a = Some a' ->
  exists spiral added,
    calls a' = calls a ++ spiral ++ added
    /\ discrete_actions spiral = [] /\ gather_requests spiral = 0%nat
    /\ (gather_requests added <= 1)%nat
    /\ (animating (world a) = true ->
        isGathered (world a') = isGathered (world a))
    /\ ((added = [] /\ lastGesture a' = lastGesture a)
        \/ (lastGesture a <> Some g
            /\ HandTracking.Date_now a - lastGestureTime a
               > gestureDebounceTime (handTracking CONFIG)
            /\ lastGesture a' = Some g)).
Proof.
  intros Hg. unfold HandTracking.onHandResults.
  destruct (landmarks !! 9%nat) as [palm|]; [|discriminate].
  cbn [mbind option_bind]. rewrite Hg. cbn [mbind option_bind].
  set (a0 := with_handTrackingState _ _).
  assert (H0 : calls a0 = calls a /\ SameControl a a0
               /\ HandTracking.Date_now a0 = HandTracking.Date_now a)
    by (split; [reflexivity|split; [split; reflexivity|reflexivity]]).
  destruct H0 as (C0 & [L0 T0 G0 A0] & N0).
  assert (Hsp : forall a1,
            (if Gesture.eqb g Gesture.fist
             then HandTracking.call_createSnowSpiral CONFIG a0
             else Some a0) = Some a1 ->
            exists spiral, calls a1 = calls a ++ spiral
                           /\ discrete_actions spiral = []
                           /\ gather_requests spiral = 0%nat
                           /\ SameControl a a1).
  { intros a1. destruct (Gesture.eqb g Gesture.fist).
    - intros E. apply call_createSnowSpiral_calls in E as (C1 & [L1 T1 G1 A1]).
      exists [CallCreateSnowSpiral]. rewrite C1, C0.
      repeat split; congruence.
    - intros [= <-]. exists []. rewrite app_nil_r.
      repeat split; congruence. }
  destruct (if Gesture.eqb g Gesture.fist then _ else _) as [a1|]; [|discriminate].
  cbn [mbind option_bind].
  destruct (Hsp a1 eq_refl) as (spiral & C1 & D1 & R1 & [L1 T1 G1 A1]).
  intros E. exists spiral.
  destruct (negb (HandTracking.same_gesture g (lastGesture a1))
            && Rgtb (HandTracking.Date_now a0 - lastGestureTime a1)
                 (gestureDebounceTime (handTracking CONFIG))) eqn:Gate.
  - destruct (HandTracking.trigger CONFIG g (HandTracking.Date_now a0) a1)
      as [a2|] eqn:E2; [|discriminate].
    cbn [mbind option_bind] in E. injection E as <-.
    apply trigger_calls in E2 as (L2 & added & C2 & R2 & G2).
    exists added. cbn [calls with_lastGesture world lastGesture].
    split; [rewrite C2, C1, app_assoc; reflexivity|].
    split; [exact D1|]. split; [exact R1|]. split; [exact R2|].
    split; [intros Han; rewrite G2 by congruence; exact G1|].
    right. apply andb_true_iff in Gate as [Gate1 Gate2].
    split; [|split; [|reflexivity]].
    + rewrite L1 in Gate1. intros Hl. rewrite Hl in Gate1. cbn in Gate1.
      destruct g; discriminate.
    + unfold Rgtb in Gate2. apply Rltb_true in Gate2.
      rewrite T1, N0 in Gate2. exact Gate2.
  - injection E as <-. exists []. rewrite app_nil_r.
    split; [exact C1|]. split; [exact D1|]. split; [exact R1|].
    split; [cbn; lia|]. split; [intros _; exact G1|].
    left. split; [reflexivity|exact L1].
Qed.

Lemma discrete_actions_nil_app (spiral added : list Call) :
  discrete_actions spiral = [] ->
  discrete_actions (spiral ++ added) = discrete_actions added.
Proof. intros H. rewrite discrete_actions_app, H. reflexivity. Qed.

(** C4. A frame in which a gesture is classified triggers a discrete
    action (a transition request or a wave) only if the gesture is not the
    last gesture let through ([lastGesture]) and more than
    [gestureDebounceTime] has passed since the last triggered action
    ([lastGestureTime]); a frame that classifies the last gesture again
    triggers none; and of two consecutive classifications of one gesture,
    however far apart and whatever the world does in between, at most one
    triggers a gather request. *)
Theorem debounce_single_gather :
  (forall (CONFIG : Config) (landmarks : list Gesture.Landmark)
          (rest : list (list Gesture.Landmark)) (g : Gesture.t) (a a' : App),
     Gesture.detectGesture landmarks = Some g ->
     HandTracking.onHandResults (landmarks :: rest) CONFIG a = Some a' ->
     exists added,
       calls a' = calls a ++ added
       /\ (discrete_actions added <> [] ->
           lastGesture a <> Some g
           /\ HandTracking.Date_now a - lastGestureTime a
              > gestureDebounceTime (handTracking CONFIG)))
  /\ (forall (CONFIG : Config) (landmarks : list Gesture.Landmark)
             (rest : list (list Gesture.Landmark)) (g : Gesture.t) (a a' : App),
        Gesture.detectGesture landmarks = Some g ->
        lastGesture a = Some g ->
        HandTracking.onHandResults (landmarks :: rest) CONFIG a = Some a' ->
        exists added,
          calls a' = calls a ++ added
          /\ discrete_actions added = []
          /\ lastGesture a' = Some g)
  /\ (forall (CONFIG : Config) (landmarks1 landmarks2 : list Gesture.Landmark)
             (rest1 rest2 : list (list Gesture.Landmark)) (g : Gesture.t)
             (a0 a1 a1' a2 : App),
        Gesture.detectGesture landmarks1 = Some g ->
        Gesture.detectGesture landmarks2 = Some g ->
        HandTracking.onHandResults (landmarks1 :: rest1) CONFIG a0 = Some a1 ->
        lastGesture a1' = lastGesture a1 -> calls a1' = calls a1 ->
        HandTracking.onHandResults (landmarks2 :: rest2) CONFIG a1' = Some a2 ->
        exists added,
          calls a2 = calls a0 ++ added
          /\ (gather_requests added <= 1)%nat).
Proof.
  split; [|split].
  - intros CONFIG landmarks rest g a a' Hg E.
    destruct (onHandResults_calls CONFIG landmarks rest g a a' Hg E)
      as (spiral & added & C & D & _ & _ & _ & Hgate).
    exists (spiral ++ added). split; [exact C|].
    rewrite (discrete_actions_nil_app _ _ D). intros Hne.
    destruct Hgate as [[-> _]|(H1 & H2 & _)]; [contradiction|auto].
  - intros CONFIG landmarks rest g a a' Hg Hl E.
    destruct (onHandResults_calls CONFIG landmarks rest g a a' Hg E)
      as (spiral & added & C & D & _ & _ & _ & Hgate).
    exists (spiral ++ added). split; [exact C|].
    rewrite (discrete_actions_nil_app _ _ D).
    destruct Hgate as [[-> Hl']|(H1 & _ & _)]; [|contradiction].
    split; [reflexivity|congruence].
  - intros CONFIG lm1 lm2 rest1 rest2 g a0 a1 a1' a2 Hg1 Hg2 E1 Hl Hc E2.
    destruct (onHandResults_calls CONFIG lm1 rest1 g a0 a1 Hg1 E1)
      as (s1 & ad1 & C1 & _ & R1 & B1 & _ & Hgate1).
    destruct (onHandResults_calls CONFIG lm2 rest2 g a1' a2 Hg2 E2)
      as (s2 & ad2 & C2 & _ & R2 & B2 & _ & Hgate2).
    exists ((s1 ++ ad1) ++ s2 ++ ad2).
    split; [rewrite C2, Hc, C1, <- !app_assoc; reflexivity|].
    rewrite !gather_requests_app, R1, R2.
    destruct Hgate1 as [[-> _]|(_ & _ & Hl1)].
    + cbn. lia.
    + destruct Hgate2 as [[-> _]|(Hne & _ & _)]; [cbn; lia|].
      exfalso. apply Hne. congruence.
Qed.

(** The gesture path: with the guard set, a frame of hand results
    leaves [isGathered] as it is. *)
Lemma onHandResults_guarded (CONFIG : Config)
  (multiHandLandmarks : list (list Gesture.Landmark)) (a a' : App) :
  animating (world a) = true ->
  HandTracking.onHandResults multiHandLandmarks CONFIG a = Some a' ->
  isGathered (world a') = isGathered (world a).
Proof.
  intros Han E. destruct multiHandLandmarks as [|landmarks rest].
  - injection E as <-. reflexivity.
  - destruct (Gesture.detectGesture landmarks) as [g|] eqn:Hg.
    + destruct (onHandResults_calls CONFIG landmarks rest g a a' Hg E)
        as (_ & _ & _ & _ & _ & _ & H & _).
      apply H. exact Han.
    + unfold HandTracking.onHandResults in E.
      destruct (landmarks !! 9%nat); [|discriminate].
      cbn [mbind option_bind] in E. rewrite Hg in E. discriminate.
Qed.

(** ** The toggle *)

Lemma toggleState_flips (CONFIG : Config) (w w' : World) :
  toggleState CONFIG w = Some w' -> isGathered w' = negb (isGathered w).
Proof.
  unfold toggleState. intros E.
  apply transitionState_isGathered in E. exact E.
Qed.

Lemma toggleState_in_flight (CONFIG : Config) (w : World) :
  animating w = true ->
  toggleState CONFIG w = Some (with_isGathered w (negb (isGathered w))).
Proof. intros H. unfold toggleState. apply transitionState_refused. exact H. Qed.

(** A toggle on a scattered world at rest starts a gather; a second toggle
    while it is in flight flips [isGathered] back and animates nothing; at
    every later frame the state says scattered, and from the end of the
    last tween on every ornament sits on its tree position. *)
Lemma toggle_twice_disagrees (parseEase : string -> R -> R) (CONFIG : Config)
  (w : World) (ts : list R) :
  0 < animationDuration CONFIG ->
  tweens w = [] -> timers w = [] -> animating w = false ->
  isGathered w = false ->
  exists w1 w2,
    toggleState CONFIG w = Some w1
    /\ isGathered w1 = true /\ animating w1 = true
    /\ toggleState CONFIG w1 = Some w2
    /\ tweens w2 = tweens w1 /\ scene w2 = scene w1
    /\ now (frames parseEase CONFIG ts w2) = foldl Rmax (now w) ts
    /\ isGathered (frames parseEase CONFIG ts w2) = false
    /\ (full_duration_end CONFIG (now w) (length (ornaments (scene w)))
        <= now (frames parseEase CONFIG ts w2) ->
        forall i m,
          ornaments (scene (frames parseEase CONFIG ts w2)) !! i = Some m ->
          position m = treePosition m).
Proof.
  intros HD Htw Htm Han Hg.
  unfold toggleState at 1. rewrite Hg. cbn [negb with_isGathered isGathered].
  set (w0 := with_isGathered w true).
  destruct (transitionState_gather_at_rest CONFIG w0 HD Htw Htm Han)
    as (w1 & E & HG & Hn & Hi).
  assert (Ha1 : animating w1 = true).
  { destruct (gathering_observed CONFIG _ _ _ HD HG) as (O1 & _ & _).
    apply O1. rewrite Hn, release_time_eq. cbn [w0 now with_isGathered]. lra. }
  exists w1, (with_isGathered w1 (negb (isGathered w1))).
  split; [exact E|]. split; [exact Hi|]. split; [exact Ha1|].
  split; [apply toggleState_in_flight; exact Ha1|].
  split; [reflexivity|]. split; [reflexivity|].
  pose proof (gathering_with_isGathered CONFIG _ _ w1 (negb (isGathered w1)) HG)
    as HG2.
  destruct (gathering_frames parseEase CONFIG _ _ ts HD _ HG2) as (HG' & Hn' & Hi').
  split; [rewrite Hn'; cbn [now with_isGathered]; rewrite Hn; reflexivity|].
  split.
  - rewrite Hi'. cbn [isGathered with_isGathered]. rewrite Hi. reflexivity.
  - destruct (gathering_observed CONFIG _ _ _ HD HG') as (_ & _ & O3).
    rewrite length_fmap in O3. intros Hend i m Hm.
    apply (O3 Hend i m Hm).
Qed.

(** C9. [toggleState] flips [isGathered] before the guard is looked at:
    every toggle that returns has flipped it; a toggle made while the
    guard is set flips it and does nothing else; after a toggle and a
    second one in flight the state says scattered at every later frame
    while the ornaments gather into the tree and stay there; the gesture
    path leaves [isGathered] alone while the guard is set. *)
Theorem toggle_flips_before_guard :
  (forall (CONFIG : Config) (w w' : World),
     toggleState CONFIG w = Some w' -> isGathered w' = negb (isGathered w))
  /\ (forall (CONFIG : Config) (w : World),
        animating w = true ->
        toggleState CONFIG w = Some (with_isGathered w (negb (isGathered w))))
  /\ (forall (parseEase : string -> R -> R) (CONFIG : Config) (w : World)
             (ts : list R),
        0 < animationDuration CONFIG ->
        tweens w = [] -> timers w = [] -> animating w = false ->
        isGathered w = false ->
        exists w1 w2,
          toggleState CONFIG w = Some w1
          /\ isGathered w1 = true /\ animating w1 = true
          /\ toggleState CONFIG w1 = Some w2
          /\ tweens w2 = tweens w1 /\ scene w2 = scene w1
          /\ now (frames parseEase CONFIG ts w2) = foldl Rmax (now w) ts
          /\ isGathered (frames parseEase CONFIG ts w2) = false
          /\ (full_duration_end CONFIG (now w) (length (ornaments (scene w)))
              <= now (frames parseEase CONFIG ts w2) ->
              forall i m,
                ornaments (scene (frames parseEase CONFIG ts w2)) !! i = Some m ->
                position m = treePosition m))
  /\ (forall (CONFIG : Config)
             (multiHandLandmarks : list (list Gesture.Landmark)) (a a' : App),
        animating (world a) = true ->
        HandTracking.onHandResults multiHandLandmarks CONFIG a = Some a' ->
        isGathered (world a') = isGathered (world a)).
Proof.
  split; [exact toggleState_flips|].
  split; [exact toggleState_in_flight|].
  split; [exact toggle_twice_disagrees|exact onHandResults_guarded].
Qed.

(** On the world of 400 ornaments: two toggles, then frames up to 10 s;
    the state says scattered and the tree stands. *)
Lemma toggle_flips_before_guard_witness :
  exists w1 w2,
    toggleState CONFIG world400 = Some w1
    /\ toggleState CONFIG w1 = Some w2
    /\ isGathered (frames linear_ease CONFIG [0.5; 10] w2) = false
    /\ (forall i m,
          ornaments (scene (frames linear_ease CONFIG [0.5; 10] w2)) !! i
          = Some m ->
          position m = treePosition m).
Proof.
  destruct toggle_flips_before_guard as (_ & _ & H & _).
  destruct (H linear_ease CONFIG world400 [0.5; 10])
    as (w1 & w2 & E1 & _ & _ & E2 & _ & _ & Hn & Hg & Hp).
  - simpl. lra.
  - reflexivity.
  - reflexivity.
  - reflexivity.
  - reflexivity.
  - exists w1, w2. split; [exact E1|]. split; [exact E2|]. split; [exact Hg|].
    apply Hp. rewrite Hn. unfold full_duration_end.
    rewrite world400_stagger. cbn [foldl now world400].
    rewrite (Rmax_right 0 0.5) by lra. rewrite Rmax_right by lra.
    simpl. lra.
Defined.

(** *** Two fists 100 ms apart *)

Lemma detectGesture_folded : Gesture.detectGesture frame_folded = Some Gesture.fist.
Proof.
  rewrite detectGesture_classify by reflexivity.
  unfold GestureSpec.extended_count, GestureSpec.count,
    GestureSpec.thumb_extended, GestureSpec.finger_extended, GestureSpec.at_.
  cbn [frame_folded replicate nth Gesture.x Gesture.y].
  repeat match goal with
         | |- context [decide ?P] => destruct (decide P) as [H|H];
                                       [exfalso; revert H|clear H]
         end;
    try reflexivity.
  all: try (unfold Rgt; rewrite Rminus_diag, Rabs_R0; lra).
  all: lra.
Qed.

(** A first fist, with the gate open, on a scattered world with the guard
    clear and no snow field: the spiral, then one gather request. *)
Lemma onHandResults_first_fist (CONFIG : Config)
  (landmarks : list Gesture.Landmark) (rest : list (list Gesture.Landmark))
  (palm : Gesture.Landmark) (a : App) :
  landmarks !! 9%nat = Some palm ->
  Gesture.detectGesture landmarks = Some Gesture.fist ->
  snowParticles a = None ->
  lastGesture a = None ->
  HandTracking.Date_now a - lastGestureTime a
  > gestureDebounceTime (handTracking CONFIG) ->
  isGathered (world a) = false -> animating (world a) = false ->
  exists a',
    HandTracking.onHandResults (landmarks :: rest) CONFIG a = Some a'
    /\ calls a' = calls a ++ [CallCreateSnowSpiral; CallTransitionState true]
    /\ lastGesture a' = Some Gesture.fist
    /\ snowParticles a' = None
    /\ isGathered (world a') = true.
Proof.
  intros Hpalm Hg Hsnow Hlast Hgate Hig Han.
  unfold HandTracking.onHandResults. rewrite Hpalm.
  cbn [mbind option_bind]. rewrite Hg. cbn [mbind option_bind Gesture.eqb].
  unfold HandTracking.call_createSnowSpiral at 1.
  cbn [snowParticles with_handTrackingState]. rewrite Hsnow.
  cbn [Snow.createSnowSpiral rand_ret mbind option_bind].
  cbn [lastGesture record_call with_snowVelocities with_world
       with_handTrackingState lastGestureTime].
  rewrite Hlast. cbn [HandTracking.same_gesture negb andb].
  unfold Rgtb. rewrite Rltb_lt by exact Hgate.
  unfold HandTracking.trigger.
  cbn [Gesture.eqb world record_call with_snowVelocities with_world
       with_handTrackingState isGathered animating with_tape andb].
  rewrite Hig, Han. cbn [negb andb].
  unfold HandTracking.call_transitionState.
  match goal with |- context [transitionState true CONFIG ?w0] =>
    destruct (transitionState_gather_accepted CONFIG w0) as (w1 & E & _ & Hi);
      [exact Han|]
  end.
  cbn [world with_world] in *. rewrite E. cbn [mbind option_bind].
  eexists. split; [reflexivity|].
  cbn [calls lastGesture snowParticles world isGathered record_call
       with_lastGesture with_lastGestureTime with_world with_snowVelocities
       with_handTrackingState updateButtonState with_toggleBtn].
  rewrite <- app_assoc. repeat split; try reflexivity; try assumption.
Qed.

(** The same fist again: the spiral and nothing else. *)
Lemma onHandResults_fist_again (CONFIG : Config)
  (landmarks : list Gesture.Landmark) (rest : list (list Gesture.Landmark))
  (palm : Gesture.Landmark) (a : App) :
  landmarks !! 9%nat = Some palm ->
  Gesture.detectGesture landmarks = Some Gesture.fist ->
  snowParticles a = None ->
  lastGesture a = Some Gesture.fist ->
  exists a',
    HandTracking.onHandResults (landmarks :: rest) CONFIG a = Some a'
    /\ calls a' = calls a ++ [CallCreateSnowSpiral].
Proof.
  intros Hpalm Hg Hsnow Hlast.
  unfold HandTracking.onHandResults. rewrite Hpalm.
  cbn [mbind option_bind]. rewrite Hg. cbn [mbind option_bind Gesture.eqb].
  unfold HandTracking.call_createSnowSpiral at 1.
  cbn [snowParticles with_handTrackingState]. rewrite Hsnow.
  cbn [Snow.createSnowSpiral rand_ret mbind option_bind].
  cbn [lastGesture record_call with_snowVelocities with_world
       with_handTrackingState lastGestureTime].
  rewrite Hlast. cbn [HandTracking.same_gesture Gesture.eqb negb andb].
  eexists. split; reflexivity.
Qed.

(** The state of the program two seconds after start: scattered, at rest,
    no gesture seen yet, the snow field not yet created. *)
Definition app_at_2s : App :=
  {| world := with_now world400 2;
     snowParticles := None; snowVelocities := [];
     handTrackingState := {| detected := false; hand_position := V3.mk 0 0 0;
                             gesture := Gesture.none |};
     lastGesture := None; lastGestureTime := 0; calls := [] |}.

(** Two fists 100 ms apart with the debounce time 1000 of js/config.js:
    both frames return, and together they make one gather request. *)
Lemma debounce_single_gather_witness :
  exists a1 a2 added,
    HandTracking.onHandResults [frame_folded] CONFIG app_at_2s = Some a1
    /\ HandTracking.onHandResults [frame_folded] CONFIG
         (with_world a1 (advance linear_ease CONFIG 2.1 (world a1)))
       = Some a2
    /\ calls a2 = calls app_at_2s ++ added
    /\ (gather_requests added <= 1)%nat
    /\ calls a2 = [CallCreateSnowSpiral; CallTransitionState true;
                   CallCreateSnowSpiral].
Proof.
  destruct (onHandResults_first_fist CONFIG frame_folded []
              {| Gesture.x := 0.5; Gesture.y := 0.5 |} app_at_2s)
    as (a1 & E1 & C1 & L1 & S1 & _); try reflexivity.
  { apply detectGesture_folded. }
  { unfold HandTracking.Date_now. cbn. lra. }
  destruct (onHandResults_fist_again CONFIG frame_folded []
              {| Gesture.x := 0.5; Gesture.y := 0.5 |}
              (with_world a1 (advance linear_ease CONFIG 2.1 (world a1))))
    as (a2 & E2 & C2); try reflexivity; try assumption.
  { apply detectGesture_folded. }
  destruct debounce_single_gather as (_ & _ & H).
  destruct (H CONFIG frame_folded frame_folded [] [] Gesture.fist
              app_at_2s a1
              (with_world a1 (advance linear_ease CONFIG 2.1 (world a1))) a2
              detectGesture_folded detectGesture_folded E1 eq_refl eq_refl E2)
    as (added & C & B).
  exists a1, a2, added. repeat split; try assumption.
  rewrite C2. cbn [calls with_world]. rewrite C1. reflexivity.
Defined.

(** * The rest of the sources *)

(** ** Placement: where [calculateTreePosition] can put an ornament *)

Lemma Math_pow_one (e : R) : Math_pow 1 e = 1.
Proof.
  unfold Math_pow. destruct (Rlt_dec 0 1) as [_|H]; [|lra].
  unfold Rpower. rewrite ln_1, Rmult_0_r. apply exp_0.
Qed.

Lemma Math_pow_le_1 (x e : R) : 0 <= x <= 1 -> 0 < e -> Math_pow x e <= 1.
Proof.
  intros Hx He. rewrite <- (Math_pow_one e).
  apply Math_pow_mono; [lra|exact He].
Qed.

Lemma ratio_le_1 (i n : nat) : (i <= n)%nat -> (0 < n)%nat -> INR i / INR n <= 1.
Proof.
  intros Hi Hn.
  assert (H0 : 0 < INR n) by (apply lt_0_INR; lia).
  assert (H1 : INR i <= INR n) by (apply le_INR; exact Hi).
  apply (Rmult_le_reg_r (INR n)); [exact H0|].
  unfold Rdiv. rewrite Rmult_assoc, Rinv_l by lra. lra.
Qed.

(** A point [(r cos theta, _, r sin theta)] is at distance [|r|] from the
    axis. *)
Lemma polar_square (r theta : R) :
  r * cos theta * (r * cos theta) + r * sin theta * (r * sin theta) = r * r.
Proof.
  pose proof (sin2_cos2 theta) as H. unfold Rsqr in H.
  replace (r * cos theta * (r * cos theta) + r * sin theta * (r * sin theta))
    with (r * r * (sin theta * sin theta + cos theta * cos theta)) by ring.
  rewrite H. ring.
Qed.

(** A jitter factor between 0.7 and 1.2 keeps the radius between 0.7 and
    1.2 times the radius of the cone. *)
Lemma jitter_square (r f : R) :
  0.7 <= f <= 1.2 ->
  0.7 * r * (0.7 * r) <= r * f * (r * f) <= 1.2 * r * (1.2 * r).
Proof.
  intros Hf.
  assert (H0 : 0 <= r * r) by nra.
  assert (H1 : 0.49 <= f * f) by nra.
  assert (H2 : f * f <= 1.44) by nra.
  split; nra.
Qed.

(** Every ornament of the tree lies within the envelope of the cone: its
    height is between [-H/2] and [H/2], and its distance from the axis is
    between 0.7 and 1.2 times the radius [R_base * (1 - t^1.7)] of the
    cone at its height, whatever the azimuth draw and for every jitter
    draw of [[0, 1)]. *)
Theorem treePosition_within_envelope (CONFIG : Config) (index total : nat)
  (u_theta u_r : R) (rest : list R) :
  (index <= total)%nat -> (0 < total)%nat ->
  0 < treeHeight CONFIG -> 0 <= u_r < 1 ->
  let r_at_y := treeBaseRadius CONFIG
                * (1 - Math_pow (INR index / INR total) 1.7) in
  exists p,
    Placement.calculateTreePosition index total CONFIG
      (u_theta :: u_r :: rest) = Some (p, rest)
    /\ - (treeHeight CONFIG / 2) <= V3.y p <= treeHeight CONFIG / 2
    /\ 0.7 * r_at_y * (0.7 * r_at_y)
       <= V3.x p * V3.x p + V3.z p * V3.z p
       <= 1.2 * r_at_y * (1.2 * r_at_y).
Proof.
  intros Hi Hn HH Hu r_at_y.
  unfold Placement.calculateTreePosition, rand_bind, Math_random, rand_ret.
  eexists. split; [reflexivity|].
  cbn [V3.x V3.y V3.z].
  set (tw := Math_pow (INR index / INR total) 1.7) in *.
  assert (Htw : 0 <= tw <= 1).
  { split; [apply Math_pow_nonneg|].
    apply Math_pow_le_1; [|lra].
    split; [apply ratio_nonneg; exact Hn|apply ratio_le_1; assumption]. }
  assert (Hr : treeBaseRadius CONFIG * (1 - tw * treeHeight CONFIG / treeHeight CONFIG)
               = r_at_y).
  { unfold r_at_y. f_equal. f_equal. field. lra. }
  rewrite Hr. split.
  - split; nra.
  - rewrite polar_square.
    destruct (Rltb _ (-5)); [apply jitter_square; lra|].
    destruct (Rgtb _ 5); apply jitter_square; lra.
Qed.

Lemma treePosition_within_envelope_witness :
  exists p,
    Placement.calculateTreePosition 100 400 CONFIG [0.5; 0.5] = Some (p, [])
    /\ - (treeHeight CONFIG / 2) <= V3.y p <= treeHeight CONFIG / 2.
Proof.
  destruct (treePosition_within_envelope CONFIG 100 400 0.5 0.5 [])
    as (p & E & Hy & _).
  - lia.
  - lia.
  - simpl. lra.
  - lra.
  - exists p. split; [exact E|exact Hy].
Defined.

(** ** [randomOnCone] (js/utils/geometry-helpers.js) *)

Module Geometry.

(** [randomOnCone(height, baseRadius, t)] *)
Definition randomOnCone (height baseRadius t : R) : Rand V3.t :=
  let y_local := t * height in
  let y := y_local - height / 2 in
  let r := baseRadius * (1 - y_local / height) in
  let* u := Math_random in
  let theta := u * PI * 2 in
  let x := r * cos theta in
  let z := r * sin theta in
  rand_ret (V3.mk x y z).

End Geometry.

(** [randomOnCone] returns a point of the cone surface: for a height that
    is not zero, the point is at height [(t - 1/2) * height] and at
    distance [|baseRadius * (1 - t)|] from the axis, whatever the draw,
    and one draw is taken from the tape. *)
Theorem randomOnCone_on_surface (height baseRadius t u : R) (rest : list R) :
  height <> 0 ->
  exists p,
    Geometry.randomOnCone height baseRadius t (u :: rest) = Some (p, rest)
    /\ V3.y p = (t - 1 / 2) * height
    /\ V3.x p * V3.x p + V3.z p * V3.z p
       = baseRadius * (1 - t) * (baseRadius * (1 - t)).
Proof.
  intros Hh.
  unfold Geometry.randomOnCone, rand_bind, Math_random, rand_ret.
  eexists. split; [reflexivity|]. cbn [V3.x V3.y V3.z].
  split; [lra|].
  rewrite polar_square.
  replace (t * height / height) with t by (field; exact Hh).
  reflexivity.
Qed.

Lemma randomOnCone_on_surface_witness :
  exists p,
    Geometry.randomOnCone 20 8 0.5 [0.25] = Some (p, [])
    /\ V3.y p = (0.5 - 1 / 2) * 20
    /\ V3.x p * V3.x p + V3.z p * V3.z p = 8 * (1 - 0.5) * (8 * (1 - 0.5)).
Proof. apply (randomOnCone_on_surface 20 8 0.5 0.25 []). lra. Defined.

(** ** Loops over the tape *)

(** A property that every round of a [for] loop carries from [i] to
    [i + 1] holds at the end of the loop, if the loop returns. *)
Lemma for_each_invariant {St : Type} (body : nat -> St -> Rand St)
  (P : nat -> St -> list R -> Prop) (n : nat) :
  forall a : nat,
  (forall i s tape s' tape',
     (a <= i < a + n)%nat -> P i s tape ->
     body i s tape = Some (s', tape') -> P (S i) s' tape') ->
  forall s tape s' tape',
  P a s tape -> for_each body (seq a n) s tape = Some (s', tape') ->
  P (a + n)%nat s' tape'.
Proof.
  induction n as [|n IH]; intros a Hbody s tape s' tape' HP E.
  - cbn in E. injection E as <- <-. rewrite Nat.add_0_r. exact HP.
  - cbn [seq for_each] in E. unfold rand_bind in E.
    destruct (body a s tape) as [[s1 tape1]|] eqn:E1; [|discriminate].
    replace (a + S n)%nat with (S a + n)%nat by lia.
    apply (IH (S a)) with (s := s1) (tape := tape1).
    + intros i s0 tape0 s0' tape0' Hi. apply Hbody. lia.
    + apply (Hbody a s tape); [lia|exact HP|exact E1].
    + exact E.
Qed.

(** A loop whose rounds each take [k] draws returns on a tape of [k * n]
    draws or more, and takes [k * n] of them. *)
Lemma for_each_returns {St : Type} (body : nat -> St -> Rand St)
  (P : nat -> St -> list R -> Prop) (k n : nat) :
  forall a : nat,
  (forall i s tape,
     (a <= i < a + n)%nat -> P i s tape -> (k <= length tape)%nat ->
     exists s' tape', body i s tape = Some (s', tape')
                      /\ P (S i) s' tape'
                      /\ length tape = (k + length tape')%nat) ->
  forall s tape,
  P a s tape -> (k * n <= length tape)%nat ->
  exists s' tape', for_each body (seq a n) s tape = Some (s', tape')
                   /\ P (a + n)%nat s' tape'
                   /\ length tape = (k * n + length tape')%nat.
Proof.
  induction n as [|n IH]; intros a Hbody s tape HP Hlen.
  - exists s, tape. rewrite Nat.add_0_r. split; [reflexivity|].
    split; [exact HP|lia].
  - destruct (Hbody a s tape) as (s1 & tape1 & E1 & HP1 & L1);
      [lia|exact HP|lia|].
    destruct (IH (S a)) with (s := s1) (tape := tape1)
      as (s' & tape' & E & HP' & L').
    + intros i s0 tape0 Hi. apply Hbody. lia.
    + exact HP1.
    + lia.
    + exists s', tape'. cbn [seq for_each]. unfold rand_bind. rewrite E1.
      split; [exact E|].
      replace (a + S n)%nat with (S a + n)%nat by lia.
      split; [exact HP'|lia].
Qed.

Ltac lookup_insert :=
  repeat first
    [ rewrite list_lookup_insert_ne by lia
    | rewrite list_lookup_insert_eq by (rewrite ?length_insert; lia) ].

(** ** The star and its dust (js/entities/star.js) *)

(** The counts of js/config.js that the transitions and the snow field do
    not read, beside the configuration they do read. *)
Record Colors : Type := {
  colors_red : Z;
  colors_green : Z;
  colors_gold : Z;
  colors_brown : Z;
  colors_white : Z
}.

Record SceneConfig : Type := {
  config :> Config;
  starDustCount : nat;
  spiralDotCount : nat;
  colors : Colors
}.

(** The values of js/config.js. *)
Definition SCENE_CONFIG : SceneConfig :=
  {| config := CONFIG; starDustCount := 1000; spiralDotCount := 200;
     colors := {| colors_red := 0xD42426; colors_green := 0x1B5E20;
                  colors_gold := 0xFFD700; colors_brown := 0x4E342E;
                  colors_white := 0xFFFFFF |} |}.

Module Star.

(** The calls made on the [THREE.Shape]. *)
Inductive PathCommand : Type :=
| moveTo (x y : R)
| lineTo (x y : R).

(** What [createStarGeometry] hands to [THREE.ExtrudeGeometry]: the shape
    and the depth of the extrusion (the bevel settings are constants). *)
Record StarGeometry : Type := {
  shape : list PathCommand;
  depth : R
}.

(** The body of the loop [for (let i = 0; i <= points * 2; i++)]. *)
Definition vertex_round (outerRadius innerRadius : R) (points : nat)
  (shape : list PathCommand) (i : nat) : list PathCommand :=
  let angle := INR i / INR (points * 2) * PI * 2 in
  let radius := if (i mod 2 =? 0)%nat then outerRadius else innerRadius in
  let x := cos angle * radius in
  let y := sin angle * radius in
  if (i =? 0)%nat then shape ++ [moveTo x y] else shape ++ [lineTo x y].

(** [createStarGeometry(outerRadius, innerRadius, points, depth)] *)
Definition createStarGeometry (outerRadius innerRadius : R) (points : nat)
  (depth : R) : StarGeometry :=
  {| shape := foldl (vertex_round outerRadius innerRadius points) []
                (seq 0 (points * 2 + 1));
     depth := depth |}.

(** The typed arrays of the star dust and the copy kept in [userData]. *)
Record StarDust : Type := {
  positions : list Num.num;
  colors : list R;
  sizes : list R;
  originalPositions : list Num.num
}.

(** The body of the loop of [createStarDust]: five draws per particle. *)
Definition dust_round (i : nat) (st : list Num.num * list R * list R)
  : Rand (list Num.num * list R * list R) :=
  let '(positions, colors, sizes) := st in
  let i3 := (i * 3)%nat in
  let* u := Math_random in
  let radius := 30 + u * 40 in
  let* u := Math_random in
  let theta := u * PI * 2 in
  let* u := Math_random in
  let phi := u * PI in
  let positions := <[i3 := Num.Fin (radius * sin phi * cos theta)]> positions in
  let positions := <[(i3 + 1)%nat := Num.Fin (radius * cos phi)]> positions in
  let positions :=
    <[(i3 + 2)%nat := Num.Fin (radius * sin phi * sin theta)]> positions in
  let* u := Math_random in
  let brightness := 0.8 + u * 0.2 in
  let colors := <[i3 := brightness]> colors in
  let colors := <[(i3 + 1)%nat := brightness]> colors in
  let colors := <[(i3 + 2)%nat := brightness * 0.8]> colors in
  let* u := Math_random in
  let sizes := <[i := u * 2 + 0.5]> sizes in
  rand_ret (positions, colors, sizes).

(** [createStarDust(scene, CONFIG)] *)
Definition createStarDust (CONFIG : SceneConfig) : Rand StarDust :=
  let n := starDustCount CONFIG in
  let positions := replicate (n * 3) (Num.Fin 0) in
  let colors := replicate (n * 3) 0 in
  let sizes := replicate n 0 in
  let* st := for_each dust_round (seq 0 n) (positions, colors, sizes) in
  let '(positions, colors, sizes) := st in
  rand_ret {| positions := positions; colors := colors; sizes := sizes;
              originalPositions := positions |}.

(** The three writes of one round of [updateStarDust]; a read outside
    [original] yields NaN, a write outside [positions] is dropped. *)
Definition dust_move (original : list Num.num) (time : R) (i : nat)
  (positions : list Num.num) : list Num.num :=
  let positions :=
    <[i := (Snow.read original i + Num.Fin (sin (time + INR i) * 0.5))%num]>
      positions in
  let positions :=
    <[(i + 1)%nat := (Snow.read original (i + 1)
                      + Num.Fin (cos (time + INR i) * 0.5))%num]>
      positions in
  <[(i + 2)%nat := (Snow.read original (i + 2)
                    + Num.Fin (sin (time + INR i * 0.5) * 0.5))%num]>
    positions.

(** [for (let i = 0; i < positions.length; i += 3)]; the fuel bounds the
    number of rounds. *)
Fixpoint dust_loop (fuel : nat) (original : list Num.num) (time : R) (i : nat)
  (positions : list Num.num) : list Num.num :=
  match fuel with
  | O => positions
  | S fuel' =>
      if (i <? length positions)%nat
      then dust_loop fuel' original time (i + 3)
             (dust_move original time i positions)
      else positions
  end.

(** [updateStarDust(starDust, time)]; [None] is a [starDust] that is not
    there yet. *)
Definition updateStarDust (starDust : option StarDust) (time : R)
  : option StarDust :=
  match starDust with
  | None => None
  | Some sd =>
      Some {| positions := dust_loop (length (positions sd))
                             (originalPositions sd) time 0 (positions sd);
              colors := colors sd; sizes := sizes sd;
              originalPositions := originalPositions sd |}
  end.

(** The offset [updateStarDust] adds to coordinate [o] of the particle
    whose block starts at [i]. *)
Definition sway (time : R) (i o : nat) : R :=
  match o with
  | O => sin (time + INR i) * 0.5
  | 1%nat => cos (time + INR i) * 0.5
  | _ => sin (time + INR i * 0.5) * 0.5
  end.

End Star.

(** *** The outline of the star *)

Lemma vertex_loop_length (outer inner : R) (points : nat) (rounds : list nat) :
  forall sh : list Star.PathCommand,
  length (foldl (Star.vertex_round outer inner points) sh rounds)
  = (length sh + length rounds)%nat.
Proof.
  induction rounds as [|i rounds IH]; intros sh; cbn [foldl length]; [lia|].
  rewrite IH. unfold Star.vertex_round.
  destruct (i =? 0)%nat; rewrite length_app; cbn [length]; lia.
Qed.

Lemma vertex_loop_lookup (outer inner : R) (points : nat) (n : nat) :
  forall (a : nat) (sh : list Star.PathCommand) (j : nat),
  length sh = a -> (j < n)%nat ->
  foldl (Star.vertex_round outer inner points) sh (seq a n) !! (a + j)%nat
  = Some (let angle := INR (a + j) / INR (points * 2) * PI * 2 in
          let radius := if ((a + j) mod 2 =? 0)%nat then outer else inner in
          if (a + j =? 0)%nat
          then Star.moveTo (cos angle * radius) (sin angle * radius)
          else Star.lineTo (cos angle * radius) (sin angle * radius)).
Proof.
  induction n as [|n IH]; intros a sh j Hlen Hj; [lia|].
  cbn [seq foldl].
  destruct j as [|j].
  - rewrite Nat.add_0_r.
    assert (Hkeep : forall (rounds : list nat) (sh' : list Star.PathCommand) c,
               sh' !! a = Some c ->
               foldl (Star.vertex_round outer inner points) sh' rounds !! a
               = Some c).
    { induction rounds as [|i rounds IHr]; intros sh' c Hc; [exact Hc|].
      cbn [foldl]. apply IHr. unfold Star.vertex_round.
      destruct (i =? 0)%nat; apply lookup_app_l_Some; exact Hc. }
    apply Hkeep. unfold Star.vertex_round. cbv zeta.
    destruct (a =? 0)%nat;
      (rewrite lookup_app_r by lia);
      replace (a - length sh)%nat with 0%nat by lia; reflexivity.
  - replace (a + S j)%nat with (S a + j)%nat by lia.
    apply IH; [|lia].
    unfold Star.vertex_round.
    destruct (a =? 0)%nat; rewrite length_app; cbn [length]; lia.
Qed.

(** The outline [createStarGeometry] draws, for a positive number of
    points: [2 * points + 1] vertices, the first by [moveTo] and the
    others by [lineTo]; a vertex of even rank is at distance
    [|outerRadius|] from the centre and one of odd rank at distance
    [|innerRadius|]; the outline starts at [(outerRadius, 0)] and its last
    vertex is that point again, so the outline is closed. *)
Theorem createStarGeometry_outline (outerRadius innerRadius : R)
  (points : nat) (depth : R) :
  (0 < points)%nat ->
  let sh := Star.shape
              (Star.createStarGeometry outerRadius innerRadius points depth) in
  length sh = (2 * points + 1)%nat
  /\ sh !! 0%nat = Some (Star.moveTo outerRadius 0)
  /\ sh !! (2 * points)%nat = Some (Star.lineTo outerRadius 0)
  /\ (forall i, (0 < i <= 2 * points)%nat ->
        exists x y,
          sh !! i = Some (Star.lineTo x y)
          /\ x * x + y * y
             = if (i mod 2 =? 0)%nat then outerRadius * outerRadius
               else innerRadius * innerRadius).
Proof.
  intros Hp sh. subst sh. cbn [Star.createStarGeometry Star.shape].
  split; [rewrite vertex_loop_length, length_seq; cbn [length]; lia|].
  assert (Hnz : INR (points * 2) <> 0).
  { apply not_0_INR. lia. }
  split; [|split].
  - pose proof (vertex_loop_lookup outerRadius innerRadius points
                  (points * 2 + 1) 0 [] 0 eq_refl) as H.
    cbn [Nat.add] in H. rewrite H by lia. cbv zeta.
    change (0 mod 2 =? 0)%nat with true. cbn [Nat.eqb].
    replace (INR 0 / INR (points * 2) * PI * 2) with 0
      by (cbn [INR]; field; exact Hnz).
    rewrite cos_0, sin_0. f_equal. f_equal; lra.
  - replace (2 * points)%nat with (points * 2)%nat by lia.
    pose proof (vertex_loop_lookup outerRadius innerRadius points
                  (points * 2 + 1) 0 [] (points * 2) eq_refl) as H.
    cbn [Nat.add] in H. rewrite H by lia. cbv zeta.
    rewrite Nat.Div0.mod_mul. cbn [Nat.eqb].
    destruct (points * 2 =? 0)%nat eqn:E; [apply Nat.eqb_eq in E; lia|].
    replace (INR (points * 2) / INR (points * 2) * PI * 2) with (2 * PI)
      by (field; exact Hnz).
    rewrite cos_2PI, sin_2PI. f_equal. f_equal; lra.
  - intros i Hi.
    pose proof (vertex_loop_lookup outerRadius innerRadius points
                  (points * 2 + 1) 0 [] i eq_refl) as H.
    cbn [Nat.add] in H. rewrite H by lia. cbv zeta.
    destruct (i =? 0)%nat eqn:E; [apply Nat.eqb_eq in E; lia|].
    eexists _, _. split; [reflexivity|].
    set (angle := INR i / INR (points * 2) * PI * 2).
    pose proof (sin2_cos2 angle) as Hsc. unfold Rsqr in Hsc.
    destruct (i mod 2 =? 0)%nat.
    + replace (cos angle * outerRadius * (cos angle * outerRadius)
               + sin angle * outerRadius * (sin angle * outerRadius))
        with (outerRadius * outerRadius
              * (sin angle * sin angle + cos angle * cos angle)) by ring.
      rewrite Hsc. ring.
    + replace (cos angle * innerRadius * (cos angle * innerRadius)
               + sin angle * innerRadius * (sin angle * innerRadius))
        with (innerRadius * innerRadius
              * (sin angle * sin angle + cos angle * cos angle)) by ring.
      rewrite Hsc. ring.
Qed.

(** The star of [createTopStar]: five points, radii 1.5 and 0.75. *)
Lemma createStarGeometry_outline_witness :
  let sh := Star.shape (Star.createStarGeometry 1.5 0.75 5 0.3) in
  length sh = 11%nat
  /\ sh !! 0%nat = Some (Star.moveTo 1.5 0)
  /\ sh !! 10%nat = Some (Star.lineTo 1.5 0).
Proof.
  destruct (createStarGeometry_outline 1.5 0.75 5 0.3) as (H1 & H2 & H3 & _).
  - lia.
  - split; [exact H1|]. split; [exact H2|exact H3].
Defined.

(** *** The star dust *)

Lemma spherical_square (r phi theta : R) :
  r * sin phi * cos theta * (r * sin phi * cos theta)
  + r * cos phi * (r * cos phi)
  + r * sin phi * sin theta * (r * sin phi * sin theta)
  = r * r.
Proof.
  pose proof (sin2_cos2 phi) as H1. pose proof (sin2_cos2 theta) as H2.
  unfold Rsqr in H1, H2.
  replace (r * sin phi * cos theta * (r * sin phi * cos theta)
           + r * cos phi * (r * cos phi)
           + r * sin phi * sin theta * (r * sin phi * sin theta))
    with (r * r * (sin phi * sin phi
                   * (sin theta * sin theta + cos theta * cos theta)
                   + cos phi * cos phi)) by ring.
  rewrite H2, Rmult_1_r, H1. ring.
Qed.

(** What [createStarDust] has written for particle [i]. *)
Definition dust_particle_ok (st : list Num.num * list R * list R) (i : nat)
  : Prop :=
  exists x y z radius brightness size : R,
    st.1.1 !! (i * 3)%nat = Some (Num.Fin x)
    /\ st.1.1 !! (i * 3 + 1)%nat = Some (Num.Fin y)
    /\ st.1.1 !! (i * 3 + 2)%nat = Some (Num.Fin z)
    /\ 30 <= radius < 70 /\ x * x + y * y + z * z = radius * radius
    /\ st.1.2 !! (i * 3)%nat = Some brightness
    /\ st.1.2 !! (i * 3 + 1)%nat = Some brightness
    /\ st.1.2 !! (i * 3 + 2)%nat = Some (brightness * 0.8)
    /\ 0.8 <= brightness < 1
    /\ st.2 !! i = Some size /\ 0.5 <= size < 2.5.

Definition dust_filled (n k : nat) (st : list Num.num * list R * list R)
  (tape : list R) : Prop :=
  length st.1.1 = (n * 3)%nat /\ length st.1.2 = (n * 3)%nat
  /\ length st.2 = n
  /\ Forall (fun u => 0 <= u < 1) tape
  /\ forall i, (i < k)%nat -> dust_particle_ok st i.

Lemma dust_round_filled (n i : nat) (st : list Num.num * list R * list R)
  (tape : list R) :
  (i < n)%nat -> dust_filled n i st tape -> (5 <= length tape)%nat ->
  exists st' tape',
    Star.dust_round i st tape = Some (st', tape')
    /\ dust_filled n (S i) st' tape'
    /\ length tape = (5 + length tape')%nat.
Proof.
  intros Hi (L1 & L2 & L3 & Hr & Hok) Hlen.
  destruct st as [[ps cs] ss]. cbn [fst snd] in *.
  destruct tape as [|u1 [|u2 [|u3 [|u4 [|u5 tape]]]]];
    try (cbn [length] in Hlen; lia).
  apply Forall_cons in Hr as [R1 Hr]. apply Forall_cons in Hr as [R2 Hr].
  apply Forall_cons in Hr as [R3 Hr]. apply Forall_cons in Hr as [R4 Hr].
  apply Forall_cons in Hr as [R5 Hr].
  unfold Star.dust_round, rand_bind, Math_random, rand_ret.
  eexists _, _. split; [reflexivity|]. split; [|cbn [length]; lia].
  split; [cbn [fst snd]; rewrite !length_insert; exact L1|].
  split; [cbn [fst snd]; rewrite !length_insert; exact L2|].
  split; [cbn [fst snd]; rewrite !length_insert; exact L3|].
  split; [exact Hr|].
  intros j Hj. unfold dust_particle_ok. cbn [fst snd].
  destruct (decide (j = i)) as [->|Hne].
  - exists ((30 + u1 * 40) * sin (u3 * PI) * cos (u2 * PI * 2)),
      ((30 + u1 * 40) * cos (u3 * PI)),
      ((30 + u1 * 40) * sin (u3 * PI) * sin (u2 * PI * 2)),
      (30 + u1 * 40), (0.8 + u4 * 0.2), (u5 * 2 + 0.5).
    lookup_insert.
    repeat split; try reflexivity; try lra.
    apply spherical_square.
  - destruct (Hok j) as (x & y & z & r & b & s & H); [lia|].
    exists x, y, z, r, b, s. lookup_insert. exact H.
Qed.

(** [createStarDust] on a tape of draws of [[0, 1)] that holds five draws
    per particle: it returns and takes exactly those draws; the arrays have
    3, 3 and 1 entries per particle; every particle lies at a distance
    between 30 and 70 from the centre, has a grey level between 0.8 and 1
    with the blue channel at 0.8 of it, and a size between 0.5 and 2.5;
    the copy kept as [originalPositions] is the array of positions. *)
Theorem createStarDust_shell (CONFIG : SceneConfig) (tape : list R) :
  Forall (fun u => 0 <= u < 1) tape ->
  (5 * starDustCount CONFIG <= length tape)%nat ->
  exists sd tape',
    Star.createStarDust CONFIG tape = Some (sd, tape')
    /\ length tape = (5 * starDustCount CONFIG + length tape')%nat
    /\ length (Star.positions sd) = (starDustCount CONFIG * 3)%nat
    /\ length (Star.colors sd) = (starDustCount CONFIG * 3)%nat
    /\ length (Star.sizes sd) = starDustCount CONFIG
    /\ Star.originalPositions sd = Star.positions sd
    /\ forall i, (i < starDustCount CONFIG)%nat ->
         dust_particle_ok (Star.positions sd, Star.colors sd, Star.sizes sd) i.
Proof.
  intros Hr Hlen. unfold Star.createStarDust. cbv zeta.
  set (n := starDustCount CONFIG) in *.
  destruct (for_each_returns Star.dust_round (dust_filled n) 5 n 0)
    with (s := (replicate (n * 3) (Num.Fin 0), replicate (n * 3) 0,
                replicate n 0))
         (tape := tape)
    as (st & tape' & E & (L1 & L2 & L3 & _ & Hok) & L).
  - intros i st tape0 Hi HP Hl. apply dust_round_filled; [lia|exact HP|exact Hl].
  - split; [cbn [fst snd]; apply length_replicate|].
    split; [cbn [fst snd]; apply length_replicate|].
    split; [cbn [fst snd]; apply length_replicate|].
    split; [exact Hr|]. intros i Hi. lia.
  - exact Hlen.
  - unfold rand_bind at 1. rewrite E. destruct st as [[ps cs] ss].
    cbn [fst snd] in *. unfold rand_ret.
    eexists _, _. split; [reflexivity|]. cbn [Star.positions Star.colors
      Star.sizes Star.originalPositions].
    repeat split; try assumption.
Qed.

Lemma createStarDust_shell_witness :
  exists sd tape',
    Star.createStarDust
      {| config := CONFIG; starDustCount := 2; spiralDotCount := 200;
         colors := colors SCENE_CONFIG |}
      (replicate 10 0.5) = Some (sd, tape')
    /\ length (Star.positions sd) = 6%nat
    /\ dust_particle_ok (Star.positions sd, Star.colors sd, Star.sizes sd) 1.
Proof.
  destruct (createStarDust_shell
              {| config := CONFIG; starDustCount := 2; spiralDotCount := 200;
                 colors := colors SCENE_CONFIG |}
              (replicate 10 0.5))
    as (sd & tape' & E & _ & L & _ & _ & _ & H).
  - apply Forall_replicate. lra.
  - cbn. lia.
  - exists sd, tape'. split; [exact E|]. split; [exact L|].
    apply H. cbn. lia.
Defined.

(** The loop of [updateStarDust] started at the block [i = 3 * j]: blocks
    before [j] are left as they are, the others are rewritten from
    [original]. *)
Lemma dust_loop_lookup (original : list Num.num) (time : R) (fuel : nat) :
  forall (j : nat) (ps : list Num.num) (k : nat),
  (length ps <= 3 * j + 3 * fuel)%nat ->
  (k < length ps)%nat ->
  Star.dust_loop fuel original time (3 * j) ps !! k
  = if (k <? 3 * j)%nat then ps !! k
    else Some (Snow.read original k
               + Num.Fin (Star.sway time (3 * (k / 3)) (k mod 3)))%num.
Proof.
  induction fuel as [|fuel IH]; intros j ps k Hfuel Hk.
  - destruct (Nat.ltb_spec k (3 * j)); [reflexivity|lia].
  - cbn [Star.dust_loop].
    destruct (Nat.ltb_spec (3 * j) (length ps)) as [Hlt|Hge].
    + replace (3 * j + 3)%nat with (3 * S j)%nat by lia.
      assert (Hlen : length (Star.dust_move original time (3 * j) ps)
                     = length ps).
      { unfold Star.dust_move. rewrite !length_insert. reflexivity. }
      rewrite IH by (rewrite Hlen; lia).
      destruct (Nat.ltb_spec k (3 * S j)) as [H1|H1];
        destruct (Nat.ltb_spec k (3 * j)) as [H2|H2]; try lia.
      * unfold Star.dust_move. lookup_insert. reflexivity.
      * assert (Hdiv : (k / 3 = j)%nat).
        { symmetry. apply (Nat.div_unique k 3 j (k - 3 * j)); lia. }
        assert (Hmod : (k mod 3 = k - 3 * j)%nat).
        { symmetry. apply (Nat.mod_unique k 3 j (k - 3 * j)); lia. }
        rewrite Hdiv, Hmod.
        assert (Hcase : (k = 3 * j \/ k = 3 * j + 1 \/ k = 3 * j + 2)%nat)
          by lia.
        unfold Star.dust_move.
        destruct Hcase as [-> | [-> | ->]].
        -- replace (3 * j - 3 * j)%nat with 0%nat by lia.
           lookup_insert. reflexivity.
        -- replace (3 * j + 1 - 3 * j)%nat with 1%nat by lia.
           lookup_insert. reflexivity.
        -- replace (3 * j + 2 - 3 * j)%nat with 2%nat by lia.
           lookup_insert. reflexivity.
      * reflexivity.
    + destruct (Nat.ltb_spec k (3 * j)); [reflexivity|lia].
Qed.

Lemma sway_bound (time : R) (i o : nat) : -0.5 <= Star.sway time i o <= 0.5.
Proof.
  unfold Star.sway. destruct o as [|[|o]].
  - pose proof (SIN_bound (time + INR i)). lra.
  - pose proof (COS_bound (time + INR i)). lra.
  - pose proof (SIN_bound (time + INR i * 0.5)). lra.
Qed.

(** [updateStarDust] never lets the dust drift: whatever the positions
    were, every coordinate becomes the original coordinate plus an offset
    of at most 0.5 that depends on the time and the index only; two calls
    at the same time give the same positions, and the originals are kept. *)
Theorem updateStarDust_stays_near (sd : Star.StarDust) (time : R) :
  length (Star.originalPositions sd) = length (Star.positions sd) ->
  exists sd',
    Star.updateStarDust (Some sd) time = Some sd'
    /\ Star.originalPositions sd' = Star.originalPositions sd
    /\ length (Star.positions sd') = length (Star.positions sd)
    /\ (forall k r, Star.originalPositions sd !! k = Some (Num.Fin r) ->
          Star.positions sd' !! k
          = Some (Num.Fin (r + Star.sway time (3 * (k / 3)) (k mod 3)))
          /\ -0.5 <= Star.sway time (3 * (k / 3)) (k mod 3) <= 0.5)
    /\ Star.updateStarDust (Some sd') time = Some sd'.
Proof.
  intros Hlen. cbn [Star.updateStarDust].
  eexists. split; [reflexivity|].
  cbn [Star.positions Star.originalPositions Star.colors Star.sizes].
  assert (Hlook : forall ps k,
             length ps = length (Star.positions sd) ->
             (k < length ps)%nat ->
             Star.dust_loop (length ps) (Star.originalPositions sd) time 0 ps
             !! k
             = Some (Snow.read (Star.originalPositions sd) k
                     + Num.Fin (Star.sway time (3 * (k / 3)) (k mod 3)))%num).
  { intros ps k Hps Hk.
    rewrite (dust_loop_lookup _ time (length ps) 0 ps k) by lia.
    reflexivity. }
  assert (Hl : forall ps,
             length (Star.dust_loop (length ps) (Star.originalPositions sd)
                       time 0 ps) = length ps).
  { intros ps. generalize (length ps) at 1 as fuel. generalize 0%nat as i.
    intros i fuel. revert i ps.
    induction fuel as [|fuel IH]; intros i ps; [reflexivity|].
    cbn [Star.dust_loop]. destruct (i <? length ps)%nat; [|reflexivity].
    rewrite IH. unfold Star.dust_move. rewrite !length_insert. reflexivity. }
  split; [reflexivity|]. split; [apply Hl|]. split.
  - intros k r Hk. split; [|apply sway_bound].
    assert (Hk' : (k < length (Star.positions sd))%nat).
    { rewrite <- Hlen. apply lookup_lt_is_Some. eauto. }
    rewrite Hlook by (reflexivity || exact Hk').
    rewrite (read_Some _ _ _ Hk). reflexivity.
  - f_equal. destruct sd as [ps cs ss os].
    cbn [Star.positions Star.originalPositions Star.colors Star.sizes] in *.
    f_equal. apply list_eq. intros k.
    set (ps' := Star.dust_loop (length ps) os time 0 ps).
    assert (Hps' : length ps' = length ps) by apply Hl.
    destruct (Nat.lt_ge_cases k (length ps)) as [Hk|Hk].
    + rewrite (Hlook ps' k Hps') by lia.
      unfold ps'. rewrite (Hlook ps k eq_refl Hk). reflexivity.
    + rewrite !lookup_ge_None_2; [reflexivity|fold ps'; lia|].
      rewrite Hl. lia.
Qed.

Lemma updateStarDust_stays_near_witness :
  exists sd',
    Star.updateStarDust
      (Some {| Star.positions := [Num.Fin 7; Num.Fin 7; Num.Fin 7];
               Star.colors := [1; 1; 0.8]; Star.sizes := [1];
               Star.originalPositions := [Num.Fin 30; Num.Fin 0; Num.Fin 40] |})
      2 = Some sd'
    /\ length (Star.positions sd') = 3%nat.
Proof.
  destruct (updateStarDust_stays_near
              {| Star.positions := [Num.Fin 7; Num.Fin 7; Num.Fin 7];
                 Star.colors := [1; 1; 0.8]; Star.sizes := [1];
                 Star.originalPositions := [Num.Fin 30; Num.Fin 0; Num.Fin 40] |}
              2)
    as (sd' & E & _ & L & _).
  - reflexivity.
  - exists sd'. split; [exact E|exact L].
Defined.

(** ** The spiral ribbon (js/entities/spiral-ribbon.js) *)

(** [Math.abs] *)
Definition Math_abs (a : Num.num) : Num.num :=
  match a with
  | Num.Fin r => Num.Fin (Rabs r)
  | Num.PInf | Num.NInf => Num.PInf
  | Num.NaN => Num.NaN
  end.

(** The whole part of a real number, towards zero. *)
Definition Math_trunc (x : R) : Z :=
  if Rlt_dec x 0 then Zceil x else Zfloor x.

(** [a % b] on finite numbers: the remainder of the division truncated
    towards zero, NaN for [b = 0]. *)
Definition Math_rem (a b : R) : Num.num :=
  if Req_dec_T b 0 then Num.NaN
  else Num.Fin (a - b * IZR (Math_trunc (a / b))).

(** [Math.pow(a, n)] for a whole exponent [n > 0]. *)
Definition Math_pow_int (a : Num.num) (n : nat) : Num.num :=
  match a with
  | Num.Fin r => Num.Fin (r ^ n)
  | Num.PInf => Num.PInf
  | Num.NInf => if Nat.even n then Num.PInf else Num.NInf
  | Num.NaN => Num.NaN
  end.

Module SpiralRibbon.

Import Num.

(** The [THREE.Points] of the ribbon: the three attribute arrays of its
    geometry, the copy of the positions kept in [userData], and the two
    visibility flags. *)
Record Points : Type := {
  position_array : list num;
  size_array : list num;
  alpha_array : list num;
  treePositions : list num;
  userData_visible : bool;
  visible : bool
}.

(** The body of the first loop of [createSpiralRibbon]. *)
Definition point_round (CONFIG : SceneConfig) (points : list V3.t) (i : nat)
  : list V3.t :=
  let H := treeHeight CONFIG in
  let R_base := treeBaseRadius CONFIG in
  let turns := 5 in
  let t := INR i / INR (spiralDotCount CONFIG) in
  let y_local := t * H in
  let y := y_local - H / 2 in
  let r := R_base * (1 - y_local / H) * 0.9 in
  let theta := t * turns * PI * 2 in
  let x := r * Rtrigo_def.cos theta in
  let z := r * Rtrigo_def.sin theta in
  points ++ [V3.mk x y z].

(** [new THREE.BufferGeometry().setFromPoints(points)]: the coordinates
    of the points, three per point. *)
Definition setFromPoints (points : list V3.t) : list num :=
  flat_map (fun p => [Fin (V3.x p); Fin (V3.y p); Fin (V3.z p)]) points.

(** The body of the second loop of [createSpiralRibbon]. *)
Definition attribute_round (st : list num * list num) (i : nat)
  : list num * list num :=
  let '(sizes, alphas) := st in
  (<[i := Fin 0.5]> sizes, <[i := Fin 0.5]> alphas).

(** [createSpiralRibbon(scene, CONFIG)] *)
Definition createSpiralRibbon (CONFIG : SceneConfig) : Points :=
  let points := foldl (point_round CONFIG) [] (seq 0 (spiralDotCount CONFIG)) in
  let positions := setFromPoints points in
  let sizes := replicate (spiralDotCount CONFIG) (Fin 0) in
  let alphas := replicate (spiralDotCount CONFIG) (Fin 0) in
  let '(sizes, alphas) :=
    foldl attribute_round (sizes, alphas) (seq 0 (spiralDotCount CONFIG)) in
  {| position_array := positions; size_array := sizes; alpha_array := alphas;
     treePositions := positions; userData_visible := false;
     visible := false |}.

(** The centre of the light that runs along the ribbon at [time]. *)
Definition wavePosition (CONFIG : SceneConfig) (time : R) : num :=
  let H := treeHeight CONFIG in
  let speed := 0.8 in
  let waveLength := 5 in
  (Math_rem (time * speed) (H + waveLength) - Fin (H / 2) - Fin waveLength)%num.

(** The body of the loop of [updateSpiralRibbon]. *)
Definition light_round (positions : list num) (wavePosition : num)
  (st : list num * list num) (i : nat) : list num * list num :=
  let '(sizes, alphas) := st in
  let waveLength := 5 in
  let y := Snow.read positions (i * 3 + 1) in
  let distance := Math_abs (y - wavePosition)%num in
  let intensity :=
    if (distance <? Fin (waveLength / 2))%num
    then Math_pow_int (Fin 1 - distance / Fin (waveLength / 2))%num 3
    else Fin 0 in
  (<[i := (Fin 0.5 + intensity * Fin 2.5)%num]> sizes,
   <[i := (Fin 0.5 + intensity * Fin 0.5)%num]> alphas).

(** [updateSpiralRibbon(spiralRibbon, time, CONFIG)] *)
Definition updateSpiralRibbon (spiralRibbon : Points) (time : R)
  (CONFIG : SceneConfig) : Points :=
  if negb (visible spiralRibbon) then spiralRibbon
  else
    let positions := position_array spiralRibbon in
    let '(sizes, alphas) :=
      foldl (light_round positions (wavePosition CONFIG time))
        (size_array spiralRibbon, alpha_array spiralRibbon)
        (seq 0 (spiralDotCount CONFIG)) in
    {| position_array := positions; size_array := sizes;
       alpha_array := alphas; treePositions := treePositions spiralRibbon;
       userData_visible := userData_visible spiralRibbon;
       visible := visible spiralRibbon |}.

(** The intensity of the light on dot [i]. *)
Definition intensity (positions : list num) (wavePosition : num) (i : nat)
  : num :=
  let distance := Math_abs (Snow.read positions (i * 3 + 1) - wavePosition)%num in
  if (distance <? Fin (5 / 2))%num
  then Math_pow_int (Fin 1 - distance / Fin (5 / 2))%num 3
  else Fin 0.

End SpiralRibbon.

(** A loop that pushes one element per round builds the list of the
    elements in the order of the rounds. *)
Lemma foldl_push {A : Type} (f : nat -> A) (rounds : list nat) :
  forall acc : list A,
  foldl (fun acc i => acc ++ [f i]) acc rounds = acc ++ (f <$> rounds).
Proof.
  induction rounds as [|i rounds IH]; intros acc; cbn [foldl fmap list_fmap].
  - rewrite app_nil_r. reflexivity.
  - rewrite IH, <- app_assoc. reflexivity.
Qed.

Lemma setFromPoints_lookup (points : list V3.t) :
  forall (i : nat) (p : V3.t),
  points !! i = Some p ->
  SpiralRibbon.setFromPoints points !! (i * 3)%nat = Some (Num.Fin (V3.x p))
  /\ SpiralRibbon.setFromPoints points !! (i * 3 + 1)%nat
     = Some (Num.Fin (V3.y p))
  /\ SpiralRibbon.setFromPoints points !! (i * 3 + 2)%nat
     = Some (Num.Fin (V3.z p)).
Proof.
  induction points as [|q points IH]; intros i p Hp; [discriminate|].
  destruct i as [|i].
  - injection Hp as ->. repeat split; reflexivity.
  - cbn in Hp. destruct (IH i p Hp) as (H1 & H2 & H3).
    unfold SpiralRibbon.setFromPoints in *. cbn [flat_map].
    replace (S i * 3)%nat with (S (S (S (i * 3)))) by lia.
    cbn [app Nat.add lookup list_lookup]. 
    repeat split; assumption.
Qed.

Lemma setFromPoints_length (points : list V3.t) :
  length (SpiralRibbon.setFromPoints points) = (length points * 3)%nat.
Proof.
  induction points as [|q points IH]; [reflexivity|].
  unfold SpiralRibbon.setFromPoints in *. cbn [flat_map length app].
  rewrite IH. lia.
Qed.

(** A write into a typed array changes the entry if it is there. *)
Lemma lookup_insert_written {A : Type} (l : list A) (i : nat) (v : A) :
  <[i := v]> l !! i = (fun _ => v) <$> l !! i.
Proof.
  destruct (l !! i) as [x|] eqn:E; cbn.
  - apply list_lookup_insert_eq. apply lookup_lt_is_Some. eauto.
  - apply lookup_ge_None_2. rewrite length_insert.
    apply lookup_ge_None_1. exact E.
Qed.

(** The loops of the attribute arrays: a round writes entry [i] and no
    other. *)
Lemma write_loop_lookup (f g : nat -> Num.num)
  (round : list Num.num * list Num.num -> nat -> list Num.num * list Num.num) :
  (forall st i, round st i = (<[i := f i]> st.1, <[i := g i]> st.2)) ->
  forall (n a : nat) (st : list Num.num * list Num.num) (k : nat),
  length (foldl round st (seq a n)).1 = length st.1
  /\ length (foldl round st (seq a n)).2 = length st.2
  /\ (foldl round st (seq a n)).1 !! k
     = (if decide (a <= k < a + n)%nat
        then (fun _ => f k) <$> st.1 !! k else st.1 !! k)
  /\ (foldl round st (seq a n)).2 !! k
     = (if decide (a <= k < a + n)%nat
        then (fun _ => g k) <$> st.2 !! k else st.2 !! k).
Proof.
  intros Hround. induction n as [|n IH]; intros a st k.
  - cbn [seq foldl]. rewrite !decide_False by lia.
    split; [reflexivity|]. split; [reflexivity|]. split; reflexivity.
  - cbn [seq foldl]. destruct (IH (S a) (round st a) k) as (L1 & L2 & H1 & H2).
    rewrite L1, L2, H1, H2, Hround. cbn [fst snd]. rewrite !length_insert.
    split; [reflexivity|]. split; [reflexivity|].
    destruct (decide (S a <= k < S a + n)%nat) as [Hin|Hout].
    + rewrite !decide_True by lia.
      rewrite !list_lookup_insert_ne by lia. split; reflexivity.
    + destruct (decide (k = a)) as [->|Hne].
      * rewrite !decide_True by lia.
        rewrite !lookup_insert_written. split; reflexivity.
      * rewrite !decide_False by lia.
        rewrite !list_lookup_insert_ne by lia. split; reflexivity.
Qed.

(** The ribbon [createSpiralRibbon] builds, for a positive number of dots
    and a tree height that is not zero: three coordinates per dot; dot [i]
    is at height [(i / n - 1/2) * H] and at distance
    [0.9 * |R_base| * (1 - i / n)] from the axis, nine tenths of the
    radius of the cone at that height; every size and alpha starts at
    0.5; the positions are copied to [userData.treePositions]; and the
    ribbon is created invisible. *)
Theorem createSpiralRibbon_inside_cone (CONFIG : SceneConfig) :
  (0 < spiralDotCount CONFIG)%nat -> treeHeight CONFIG <> 0 ->
  let ribbon := SpiralRibbon.createSpiralRibbon CONFIG in
  SpiralRibbon.visible ribbon = false
  /\ SpiralRibbon.treePositions ribbon = SpiralRibbon.position_array ribbon
  /\ length (SpiralRibbon.position_array ribbon)
     = (spiralDotCount CONFIG * 3)%nat
  /\ forall i, (i < spiralDotCount CONFIG)%nat ->
       let t := INR i / INR (spiralDotCount CONFIG) in
       SpiralRibbon.size_array ribbon !! i = Some (Num.Fin 0.5)
       /\ SpiralRibbon.alpha_array ribbon !! i = Some (Num.Fin 0.5)
       /\ exists x z,
            SpiralRibbon.position_array ribbon !! (i * 3)%nat
            = Some (Num.Fin x)
            /\ SpiralRibbon.position_array ribbon !! (i * 3 + 1)%nat
               = Some (Num.Fin ((t - 1 / 2) * treeHeight CONFIG))
            /\ SpiralRibbon.position_array ribbon !! (i * 3 + 2)%nat
               = Some (Num.Fin z)
            /\ x * x + z * z
               = 0.9 * (treeBaseRadius CONFIG * (1 - t))
                 * (0.9 * (treeBaseRadius CONFIG * (1 - t))).
Proof.
  intros Hn HH ribbon. subst ribbon. unfold SpiralRibbon.createSpiralRibbon.
  cbv zeta.
  set (n := spiralDotCount CONFIG) in *.
  pose proof (write_loop_lookup (fun _ => Num.Fin 0.5) (fun _ => Num.Fin 0.5)
                SpiralRibbon.attribute_round) as Hw.
  specialize (Hw ltac:(intros [s a] i; reflexivity) n 0%nat
                (replicate n (Num.Fin 0), replicate n (Num.Fin 0))).
  destruct (foldl SpiralRibbon.attribute_round _ _) as [sizes alphas] eqn:E.
  cbn [SpiralRibbon.visible SpiralRibbon.treePositions
       SpiralRibbon.position_array SpiralRibbon.size_array
       SpiralRibbon.alpha_array fst snd] in *.
  set (point := fun i : nat =>
         V3.mk (treeBaseRadius CONFIG
                * (1 - INR i / INR n * treeHeight CONFIG / treeHeight CONFIG)
                * 0.9 * cos (INR i / INR n * 5 * PI * 2))
               (INR i / INR n * treeHeight CONFIG - treeHeight CONFIG / 2)
               (treeBaseRadius CONFIG
                * (1 - INR i / INR n * treeHeight CONFIG / treeHeight CONFIG)
                * 0.9 * sin (INR i / INR n * 5 * PI * 2))).
  assert (Hpts : foldl (SpiralRibbon.point_round CONFIG) [] (seq 0 n)
                 = point <$> seq 0 n).
  { change (SpiralRibbon.point_round CONFIG)
      with (fun (acc : list V3.t) (i : nat) => acc ++ [point i]).
    rewrite foldl_push. reflexivity. }
  rewrite Hpts.
  split; [reflexivity|]. split; [reflexivity|].
  split; [rewrite setFromPoints_length, length_fmap, length_seq; reflexivity|].
  intros i Hi. cbv zeta.
  destruct (Hw i) as (_ & _ & H1 & H2).
  rewrite decide_True in H1, H2 by lia.
  rewrite lookup_replicate_2 in H1, H2 by lia.
  split; [exact H1|]. split; [exact H2|].
  assert (Hp : (point <$> seq 0 n) !! i = Some (point i)).
  { rewrite list_lookup_fmap, lookup_seq_lt by lia. reflexivity. }
  destruct (setFromPoints_lookup _ i _ Hp) as (Px & Py & Pz).
  eexists _, _. split; [exact Px|]. split; [|split; [exact Pz|]].
  - rewrite Py. f_equal. f_equal. cbn [point V3.y]. lra.
  - cbn [point V3.x V3.z]. rewrite polar_square.
    replace (INR i / INR n * treeHeight CONFIG / treeHeight CONFIG)
      with (INR i / INR n) by (field; split; [apply not_0_INR; lia|exact HH]).
    ring.
Qed.

Lemma createSpiralRibbon_inside_cone_witness :
  SpiralRibbon.visible (SpiralRibbon.createSpiralRibbon SCENE_CONFIG) = false
  /\ length (SpiralRibbon.position_array
               (SpiralRibbon.createSpiralRibbon SCENE_CONFIG)) = 600%nat.
Proof.
  destruct (createSpiralRibbon_inside_cone SCENE_CONFIG) as (H1 & _ & H2 & _).
  - cbn. lia.
  - cbn. lra.
  - split; [exact H1|exact H2].
Defined.

(** *** The running light *)

Lemma Math_abs_cases (a : Num.num) :
  (exists d, Math_abs a = Num.Fin d /\ 0 <= d)
  \/ Math_abs a = Num.PInf \/ Math_abs a = Num.NaN.
Proof.
  destruct a as [r| | |]; cbn; auto.
  left. exists (Rabs r). split; [reflexivity|apply Rabs_pos].
Qed.

(** The intensity is a number between 0 and 1. *)
Lemma intensity_range (positions : list Num.num) (wave : Num.num) (i : nat) :
  exists c, SpiralRibbon.intensity positions wave i = Num.Fin c /\ 0 <= c <= 1.
Proof.
  unfold SpiralRibbon.intensity.
  destruct (Math_abs_cases (Snow.read positions (i * 3 + 1) - wave)%num)
    as [(d & -> & Hd)|[-> | ->]].
  - cbn [Num.ltb]. destruct (Rltb d (5 / 2)) eqn:E.
    + apply Rltb_true in E.
      assert (Hs : Num.sign (5 / 2) = Gt).
      { unfold Num.sign. destruct (Rlt_dec 0 (5 / 2)); [reflexivity|lra]. }
      cbn [Num.div]. rewrite Hs. cbn [Num.sub Num.neg Num.add Math_pow_int].
      eexists. split; [reflexivity|].
      assert (Hx : 0 <= 1 + - (d / (5 / 2)) <= 1).
      { split.
        - assert (d / (5 / 2) <= 1); [|lra].
          apply (Rmult_le_reg_r (5 / 2)); [lra|].
          unfold Rdiv at 1. rewrite Rmult_assoc, Rinv_l by lra. lra.
        - assert (0 <= d / (5 / 2)); [|lra].
          apply Rmult_le_pos; [exact Hd|].
          left. apply Rinv_0_lt_compat. lra. }
      split; [apply pow_le; lra|].
      rewrite <- (pow1 3). apply pow_incr. lra.
    + exists 0. split; [reflexivity|lra].
  - exists 0. split; [reflexivity|lra].
  - exists 0. split; [reflexivity|lra].
Qed.

(** [updateSpiralRibbon] keeps every dot within its range: on a visible
    ribbon each of the first [spiralDotCount] sizes becomes a number
    between 0.5 and 3 and each alpha a number between 0.5 and 1, whatever
    the time, the positions and the earlier values are; the other entries,
    the positions and the lengths of the arrays are kept; an invisible
    ribbon is left as it is. *)
Theorem updateSpiralRibbon_ranges (ribbon : SpiralRibbon.Points) (time : R)
  (CONFIG : SceneConfig) :
  let ribbon' := SpiralRibbon.updateSpiralRibbon ribbon time CONFIG in
  (SpiralRibbon.visible ribbon = false -> ribbon' = ribbon)
  /\ SpiralRibbon.position_array ribbon' = SpiralRibbon.position_array ribbon
  /\ SpiralRibbon.visible ribbon' = SpiralRibbon.visible ribbon
  /\ length (SpiralRibbon.size_array ribbon')
     = length (SpiralRibbon.size_array ribbon)
  /\ length (SpiralRibbon.alpha_array ribbon')
     = length (SpiralRibbon.alpha_array ribbon)
  /\ (SpiralRibbon.visible ribbon = true ->
      forall i,
        ((i < spiralDotCount CONFIG)%nat ->
         (i < length (SpiralRibbon.size_array ribbon))%nat ->
         exists s, SpiralRibbon.size_array ribbon' !! i = Some (Num.Fin s)
                   /\ 0.5 <= s <= 3)
        /\ ((i < spiralDotCount CONFIG)%nat ->
            (i < length (SpiralRibbon.alpha_array ribbon))%nat ->
            exists a, SpiralRibbon.alpha_array ribbon' !! i = Some (Num.Fin a)
                      /\ 0.5 <= a <= 1)
        /\ ((spiralDotCount CONFIG <= i)%nat ->
            SpiralRibbon.size_array ribbon' !! i
            = SpiralRibbon.size_array ribbon !! i
            /\ SpiralRibbon.alpha_array ribbon' !! i
               = SpiralRibbon.alpha_array ribbon !! i)).
Proof.
  intros ribbon'. subst ribbon'. unfold SpiralRibbon.updateSpiralRibbon.
  destruct (SpiralRibbon.visible ribbon) eqn:Hv; cbn [negb];
    [|do 5 (split; [intros; (reflexivity || exact Hv)|]); discriminate].
  cbv zeta.
  set (positions := SpiralRibbon.position_array ribbon).
  set (wave := SpiralRibbon.wavePosition CONFIG time).
  pose proof (write_loop_lookup
                (fun i => (Num.Fin 0.5
                           + SpiralRibbon.intensity positions wave i
                             * Num.Fin 2.5)%num)
                (fun i => (Num.Fin 0.5
                           + SpiralRibbon.intensity positions wave i
                             * Num.Fin 0.5)%num)
                (SpiralRibbon.light_round positions wave)) as Hw.
  specialize (Hw ltac:(intros [s a] i; reflexivity) (spiralDotCount CONFIG)
                0%nat
                (SpiralRibbon.size_array ribbon, SpiralRibbon.alpha_array ribbon)).
  destruct (foldl (SpiralRibbon.light_round positions wave) _ _)
    as [sizes alphas] eqn:E.
  cbn [SpiralRibbon.visible SpiralRibbon.position_array
       SpiralRibbon.size_array SpiralRibbon.alpha_array fst snd] in *.
  split; [discriminate|]. split; [reflexivity|]. split; [reflexivity|].
  split; [apply (Hw 0%nat)|]. split; [apply (Hw 0%nat)|].
  intros _ i. destruct (Hw i) as (_ & _ & H1 & H2).
  destruct (intensity_range positions wave i) as (c & Hc & Hcr).
  rewrite Hc in H1, H2. cbn [Num.mul Num.add] in H1, H2.
  split; [|split].
  - intros Hi Hl. rewrite decide_True in H1 by lia.
    destruct (lookup_lt_is_Some_2 _ _ Hl) as [s0 Hs0]. rewrite Hs0 in H1.
    eexists. split; [exact H1|]. lra.
  - intros Hi Hl. rewrite decide_True in H2 by lia.
    destruct (lookup_lt_is_Some_2 _ _ Hl) as [a0 Ha0]. rewrite Ha0 in H2.
    eexists. split; [exact H2|]. lra.
  - intros Hi. rewrite decide_False in H1, H2 by lia. auto.
Qed.

(** The remainder of a non-negative number by a positive one. *)
Lemma Math_rem_pos (a b : R) :
  0 <= a -> 0 < b ->
  exists q : Z,
    (0 <= q)%Z /\ Math_rem a b = Num.Fin (a - b * IZR q)
    /\ 0 <= a - b * IZR q < b.
Proof.
  intros Ha Hb. unfold Math_rem, Math_trunc.
  destruct (Req_dec_T b 0) as [E|_]; [lra|].
  assert (Hq : 0 <= a / b).
  { apply Rmult_le_pos; [exact Ha|]. left. apply Rinv_0_lt_compat. exact Hb. }
  destruct (Rlt_dec (a / b) 0) as [H|_]; [lra|].
  exists (Zfloor (a / b)).
  split; [apply (Zfloor_lub 0); exact Hq|]. split; [reflexivity|].
  destruct (Zfloor_bound (a / b)) as [H1 H2].
  assert (E : a = a / b * b) by (field; lra).
  split; nra.
Qed.

(** The light runs along the ribbon as a sawtooth: at a time that is not
    negative, on a tree with [H + 5 > 0], the wave position is
    [0.8 * time] minus a whole number of periods [H + 5], shifted to start
    at [-H/2 - 5]; it stays in [[-H/2 - 5, H/2)], and it is the same one
    period, [(H + 5) / 0.8] seconds, later. *)
Theorem wavePosition_sawtooth (CONFIG : SceneConfig) (time : R) :
  0 <= time -> 0 < treeHeight CONFIG + 5 ->
  exists (periods : Z) (w : R),
    (0 <= periods)%Z
    /\ SpiralRibbon.wavePosition CONFIG time = Num.Fin w
    /\ w = time * 0.8 - IZR periods * (treeHeight CONFIG + 5)
           - treeHeight CONFIG / 2 - 5
    /\ - (treeHeight CONFIG / 2) - 5 <= w < treeHeight CONFIG / 2
    /\ SpiralRibbon.wavePosition CONFIG
         (time + (treeHeight CONFIG + 5) / 0.8)
       = Num.Fin w.
Proof.
  intros Ht HH. unfold SpiralRibbon.wavePosition. cbv zeta.
  destruct (Math_rem_pos (time * 0.8) (treeHeight CONFIG + 5))
    as (q & Hq & E & Hr); [lra|exact HH|].
  exists q. eexists. split; [exact Hq|].
  rewrite E. cbn [Num.sub Num.neg Num.add].
  split; [reflexivity|]. split; [lra|]. split; [lra|].
  unfold Math_rem, Math_trunc.
  destruct (Req_dec_T (treeHeight CONFIG + 5) 0) as [E0|_]; [lra|].
  replace ((time + (treeHeight CONFIG + 5) / 0.8) * 0.8
           / (treeHeight CONFIG + 5))
    with (time * 0.8 / (treeHeight CONFIG + 5) + IZR 1) by (field; lra).
  assert (Hpos : 0 <= time * 0.8 / (treeHeight CONFIG + 5)).
  { apply Rmult_le_pos; [lra|]. left. apply Rinv_0_lt_compat. exact HH. }
  destruct (Rlt_dec _ 0) as [H|_]; [lra|].
  rewrite Zfloor_addz.
  unfold Math_rem, Math_trunc in E.
  destruct (Req_dec_T (treeHeight CONFIG + 5) 0) as [E0|_]; [lra|].
  destruct (Rlt_dec _ 0) as [H|_]; [lra|].
  injection E as E. cbn [Num.sub Num.neg Num.add]. f_equal.
  rewrite plus_IZR. lra.
Qed.

Lemma wavePosition_sawtooth_witness :
  exists (periods : Z) (w : R),
    (0 <= periods)%Z
    /\ SpiralRibbon.wavePosition SCENE_CONFIG 100 = Num.Fin w
    /\ - (20 / 2) - 5 <= w < 20 / 2.
Proof.
  destruct (wavePosition_sawtooth SCENE_CONFIG 100)
    as (q & w & Hq & E & _ & Hr & _).
  - lra.
  - cbn. lra.
  - exists q, w. split; [exact Hq|]. split; [exact E|exact Hr].
Defined.

(** ** The clouds (js/scene/scene-setup.js) *)

Module Clouds.

(** A cloud mesh: its position, its rotation about z and the drift kept
    in [userData.velocity]; [plane] and [opacity] are the size of its
    geometry and the opacity of its material. *)
Record Cloud : Type := {
  plane : R * R;
  opacity : R;
  position : V3.t;
  rotation_z : R;
  velocity : V3.t
}.

(** The arrow function of [updateCloudLayer]. *)
Definition update_cloud (cloud : Cloud) : Cloud :=
  let x := V3.x (position cloud) + V3.x (velocity cloud) in
  let z := V3.z (position cloud) + V3.z (velocity cloud) in
  let boundary := 80 in
  let x := if Rgtb x boundary then - boundary else x in
  let x := if Rltb x (- boundary) then boundary else x in
  let z := if Rgtb z boundary then - boundary else z in
  let z := if Rltb z (- boundary) then boundary else z in
  {| plane := plane cloud; opacity := opacity cloud;
     position := V3.mk x (V3.y (position cloud)) z;
     rotation_z := rotation_z cloud + 0.0002;
     velocity := velocity cloud |}.

(** [updateCloudLayer(cloudLayer)] *)
Definition updateCloudLayer (cloudLayer : list Cloud) : list Cloud :=
  update_cloud <$> cloudLayer.

(** The body of the loop of [createCloudTexture] of geometry-helpers.js:
    the centre and the radius of one circle. *)
Definition texture_round (i : nat) (circles : list (R * R * R))
  : Rand (list (R * R * R)) :=
  let* u := Math_random in
  let x := u * 256 in
  let* u := Math_random in
  let y := u * 256 in
  let* u := Math_random in
  let radius := 30 + u * 60 in
  rand_ret (circles ++ [(x, y, radius)]).

(** [createCloudTexture()]: the circles drawn on the canvas. *)
Definition createCloudTexture : Rand (list (R * R * R)) :=
  for_each texture_round (seq 0 8) [].

(** The body of the loop of [createCloudLayer]. *)
Definition cloud_round (createCloudTexture : Rand (list (R * R * R)))
  (i : nat) (cloudLayer : list Cloud) : Rand (list Cloud) :=
  let* cloudTexture := createCloudTexture in
  let* u := Math_random in
  let width := 8 + u * 4 in
  let* u := Math_random in
  let height := 5 + u * 3 in
  let* u := Math_random in
  let opacity := 0.1 + u * 0.1 in
  let* u := Math_random in
  let x := (u - 0.5) * 160 in
  let* u := Math_random in
  let y := 30 + u * 10 in
  let* u := Math_random in
  let z := (u - 0.5) * 160 in
  let* u := Math_random in
  let rotation_z := u * PI * 2 in
  let* u := Math_random in
  let vx := (u - 0.5) * 0.02 in
  let* u := Math_random in
  let vz := (u - 0.5) * 0.02 in
  rand_ret (cloudLayer
            ++ [ {| plane := (width, height); opacity := opacity;
                    position := V3.mk x y z; rotation_z := rotation_z;
                    velocity := V3.mk vx 0 vz |} ]).

(** [createCloudLayer(scene, createCloudTexture)] *)
Definition createCloudLayer (createCloudTexture : Rand (list (R * R * R)))
  : Rand (list Cloud) :=
  let cloudCount := 25%nat in
  for_each (cloud_round createCloudTexture) (seq 0 cloudCount) [].

(** A cloud within the square of the boundary. *)
Definition in_bounds (cloud : Cloud) : Prop :=
  -80 <= V3.x (position cloud) <= 80 /\ -80 <= V3.z (position cloud) <= 80.

End Clouds.

(** The two wrap-around tests, one after the other. *)
Lemma wrap_cases (c : R) :
  let c1 := if Rgtb c 80 then - 80 else c in
  let c2 := if Rltb c1 (- 80) then 80 else c1 in
  -80 <= c2 <= 80
  /\ (80 < c -> c2 = -80) /\ (c < -80 -> c2 = 80)
  /\ (-80 <= c <= 80 -> c2 = c).
Proof.
  cbv zeta. unfold Rgtb.
  destruct (Rltb 80 c) eqn:E1.
  - apply Rltb_true in E1. rewrite Rltb_ge by lra.
    repeat split; intros; lra.
  - apply Rltb_false in E1. destruct (Rltb c (- 80)) eqn:E2.
    + apply Rltb_true in E2. repeat split; intros; lra.
    + apply Rltb_false in E2. repeat split; intros; lra.
Qed.

(** [updateCloudLayer] keeps the clouds in the square of side 160 around
    the tree: wherever a cloud was, after the call its x and z are
    between -80 and 80; a cloud whose drift takes it beyond 80 comes back
    at -80 (and beyond -80 at 80), one that stays within the boundary
    moves by its velocity; height and velocity are kept and the rotation
    grows by 0.0002. *)
Theorem updateCloudLayer_wraps (cloudLayer : list Clouds.Cloud) :
  length (Clouds.updateCloudLayer cloudLayer) = length cloudLayer
  /\ forall i cloud,
       cloudLayer !! i = Some cloud ->
       exists cloud',
         Clouds.updateCloudLayer cloudLayer !! i = Some cloud'
         /\ Clouds.in_bounds cloud'
         /\ V3.y (Clouds.position cloud') = V3.y (Clouds.position cloud)
         /\ Clouds.velocity cloud' = Clouds.velocity cloud
         /\ Clouds.rotation_z cloud' = Clouds.rotation_z cloud + 0.0002
         /\ (let x := V3.x (Clouds.position cloud)
                      + V3.x (Clouds.velocity cloud) in
             (80 < x -> V3.x (Clouds.position cloud') = -80)
             /\ (x < -80 -> V3.x (Clouds.position cloud') = 80)
             /\ (-80 <= x <= 80 -> V3.x (Clouds.position cloud') = x))
         /\ (let z := V3.z (Clouds.position cloud)
                      + V3.z (Clouds.velocity cloud) in
             (80 < z -> V3.z (Clouds.position cloud') = -80)
             /\ (z < -80 -> V3.z (Clouds.position cloud') = 80)
             /\ (-80 <= z <= 80 -> V3.z (Clouds.position cloud') = z)).
Proof.
  unfold Clouds.updateCloudLayer. split; [apply length_fmap|].
  intros i cloud Hc. exists (Clouds.update_cloud cloud).
  split; [rewrite list_lookup_fmap, Hc; reflexivity|].
  unfold Clouds.in_bounds, Clouds.update_cloud. cbv zeta.
  cbn [Clouds.position Clouds.velocity Clouds.rotation_z V3.x V3.y V3.z].
  set (x := V3.x (Clouds.position cloud) + V3.x (Clouds.velocity cloud)).
  set (z := V3.z (Clouds.position cloud) + V3.z (Clouds.velocity cloud)).
  destruct (wrap_cases x) as (X1 & X2 & X3 & X4).
  destruct (wrap_cases z) as (Z1 & Z2 & Z3 & Z4).
  cbv zeta in X1, X2, X3, X4, Z1, Z2, Z3, Z4.
  split; [split; assumption|]. split; [reflexivity|]. split; [reflexivity|].
  split; [reflexivity|]. split; (split; [|split]); assumption.
Qed.

(** A call of [updateCloudLayer] leaves every cloud within the boundary
    and at its height. *)
Lemma updateCloudLayer_bounds (cloudLayer : list Clouds.Cloud) :
  length (Clouds.updateCloudLayer cloudLayer) = length cloudLayer
  /\ forall i cloud,
       cloudLayer !! i = Some cloud ->
       exists cloud',
         Clouds.updateCloudLayer cloudLayer !! i = Some cloud'
         /\ Clouds.in_bounds cloud'
         /\ V3.y (Clouds.position cloud') = V3.y (Clouds.position cloud).
Proof.
  unfold Clouds.updateCloudLayer. split; [apply length_fmap|].
  intros i cloud Hc. exists (Clouds.update_cloud cloud).
  split; [rewrite list_lookup_fmap, Hc; reflexivity|].
  split; [|reflexivity].
  unfold Clouds.in_bounds, Clouds.update_cloud. cbv zeta.
  cbn [Clouds.position V3.x V3.z].
  split; apply wrap_cases.
Qed.

(** What [createCloudLayer] has put into the layer. *)
Definition cloud_created (cloud : Clouds.Cloud) : Prop :=
  -80 <= V3.x (Clouds.position cloud) < 80
  /\ 30 <= V3.y (Clouds.position cloud) < 40
  /\ -80 <= V3.z (Clouds.position cloud) < 80
  /\ 0.1 <= Clouds.opacity cloud < 0.2
  /\ -0.01 <= V3.x (Clouds.velocity cloud) < 0.01
  /\ V3.y (Clouds.velocity cloud) = 0
  /\ -0.01 <= V3.z (Clouds.velocity cloud) < 0.01.

Lemma createCloudTexture_returns (tape : list R) :
  (24 <= length tape)%nat ->
  exists circles,
    Clouds.createCloudTexture tape = Some (circles, drop 24 tape).
Proof.
  intros Hlen.
  do 24 (destruct tape as [|? tape]; [cbn [length] in Hlen; lia|]).
  eexists. reflexivity.
Qed.

Lemma cloud_round_created (i : nat) (layer : list Clouds.Cloud)
  (tape : list R) :
  Forall cloud_created layer /\ Forall (fun u => 0 <= u < 1) tape ->
  (33 <= length tape)%nat ->
  exists layer' tape',
    Clouds.cloud_round Clouds.createCloudTexture i layer tape
    = Some (layer', tape')
    /\ (Forall cloud_created layer' /\ Forall (fun u => 0 <= u < 1) tape')
    /\ length layer' = S (length layer)
    /\ length tape = (33 + length tape')%nat.
Proof.
  intros [Hl Hr] Hlen.
  destruct (createCloudTexture_returns tape) as (circles & E); [lia|].
  unfold Clouds.cloud_round. unfold rand_bind at 1. rewrite E.
  assert (Hd : Forall (fun u => 0 <= u < 1) (drop 24 tape))
    by (apply Forall_drop; exact Hr).
  assert (Ld : length tape = (24 + length (drop 24 tape))%nat)
    by (rewrite length_drop; lia).
  destruct (drop 24 tape) as [|u1 [|u2 [|u3 [|u4 [|u5 [|u6 [|u7 [|u8 [|u9 rest]]]]]]]]];
    try (cbn [length] in Ld; lia).
  repeat match goal with
         | H : Forall _ (_ :: _) |- _ => apply Forall_cons in H as [? H]
         end.
  unfold rand_bind, Math_random, rand_ret.
  eexists _, _. split; [reflexivity|].
  split; [split; [|exact Hd]|].
  - apply Forall_app. split; [exact Hl|].
    apply Forall_cons. split; [|apply Forall_nil_2].
    unfold cloud_created.
    cbn [Clouds.position Clouds.velocity Clouds.opacity V3.x V3.y V3.z].
    repeat split; lra.
  - split; [rewrite length_app; cbn [length]; lia|].
    cbn [length] in Ld. lia.
Qed.

(** The clouds never leave their layer: [createCloudLayer], on a tape of
    draws of [[0, 1)] that holds 33 draws for each of its 25 clouds (24 of
    them for the texture), returns 25 clouds within the boundary, between
    the heights 30 and 40 and with a horizontal drift of at most 0.01 a
    frame; and after any number of calls of [updateCloudLayer] every cloud
    is still within the boundary and between those heights. *)
Theorem createCloudLayer_stays (tape : list R) (frames : nat) :
  Forall (fun u => 0 <= u < 1) tape -> (33 * 25 <= length tape)%nat ->
  exists layer tape',
    Clouds.createCloudLayer Clouds.createCloudTexture tape
    = Some (layer, tape')
    /\ length tape = (33 * 25 + length tape')%nat
    /\ length layer = 25%nat
    /\ Forall cloud_created layer
    /\ length (Nat.iter frames Clouds.updateCloudLayer layer) = 25%nat
    /\ Forall (fun cloud =>
                 -80 <= V3.x (Clouds.position cloud) <= 80
                 /\ 30 <= V3.y (Clouds.position cloud) < 40
                 /\ -80 <= V3.z (Clouds.position cloud) <= 80)
         (Nat.iter frames Clouds.updateCloudLayer layer).
Proof.
  intros Hr Hlen. unfold Clouds.createCloudLayer. cbv zeta.
  destruct (for_each_returns (Clouds.cloud_round Clouds.createCloudTexture)
              (fun i layer tape =>
                 (Forall cloud_created layer
                  /\ Forall (fun u => 0 <= u < 1) tape)
                 /\ length layer = i)
              33 25 0)
    with (s := @nil Clouds.Cloud) (tape := tape)
    as (layer & tape' & E & ((Hc & _) & Hl) & L).
  - intros i layer tape0 _ [HP Hi] Hl.
    destruct (cloud_round_created i layer tape0 HP Hl)
      as (layer' & tape1 & E & HP' & Hl' & L).
    exists layer', tape1. split; [exact E|]. split; [|exact L].
    split; [exact HP'|lia].
  - split; [split; [apply Forall_nil_2|exact Hr]|reflexivity].
  - exact Hlen.
  - exists layer, tape'. split; [exact E|]. split; [exact L|].
    split; [exact Hl|]. split; [exact Hc|].
    assert (Hiter : forall n,
               length (Nat.iter n Clouds.updateCloudLayer layer) = 25%nat
               /\ Forall (fun cloud =>
                            -80 <= V3.x (Clouds.position cloud) <= 80
                            /\ 30 <= V3.y (Clouds.position cloud) < 40
                            /\ -80 <= V3.z (Clouds.position cloud) <= 80)
                    (Nat.iter n Clouds.updateCloudLayer layer)).
    { induction n as [|n [IH1 IH2]].
      - change (Nat.iter 0 Clouds.updateCloudLayer layer) with layer.
        split; [exact Hl|].
        eapply Forall_impl; [exact Hc|].
        intros c (H1 & H2 & H3 & _). repeat split; lra.
      - rewrite Nat.iter_succ.
        destruct (updateCloudLayer_bounds
                    (Nat.iter n Clouds.updateCloudLayer layer)) as [L1 Hb].
        split; [rewrite L1; exact IH1|].
        apply Forall_lookup. intros i c' Hc'.
        destruct (lookup_lt_is_Some_2
                    (Nat.iter n Clouds.updateCloudLayer layer) i)
          as [c Hci].
        { rewrite <- L1. apply lookup_lt_is_Some. eauto. }
        destruct (Hb i c Hci) as (c'' & E'' & [Bx Bz] & Hy).
        rewrite Hc' in E''. injection E'' as <-.
        pose proof (proj1 (Forall_lookup _ _) IH2 i c Hci) as (_ & H2 & _).
        rewrite Hy. repeat split; lra. }
    apply Hiter.
Qed.

Lemma createCloudLayer_stays_witness :
  exists layer tape',
    Clouds.createCloudLayer Clouds.createCloudTexture (replicate 825 0.5)
    = Some (layer, tape')
    /\ length layer = 25%nat
    /\ length (Nat.iter 10 Clouds.updateCloudLayer layer) = 25%nat.
Proof.
  destruct (createCloudLayer_stays (replicate 825 0.5) 10)
    as (layer & tape' & E & _ & L & _ & L' & _).
  - apply Forall_replicate. lra.
  - rewrite length_replicate. lia.
  - exists layer, tape'. split; [exact E|]. split; [exact L|exact L'].
Defined.

(** ** The snow field: creation (js/entities/snow.js) *)

Module SnowSystem.

Import Num.

(** What [createSnowSystem] returns: the position array of the points
    object, and the two plain arrays; [size_attribute] is the typed array
    handed to the geometry. *)
Record t : Type := {
  snowParticles : list num;
  size_attribute : list num;
  snowVelocities : list Vel.t;
  snowSizes : list num
}.

(** The body of the loop of [createSnowSystem]: five draws per flake. *)
Definition flake_round (i : nat)
  (st : list num * list num * list Vel.t * list num)
  : Rand (list num * list num * list Vel.t * list num) :=
  let '(positions, sizes, snowVelocities, snowSizes) := st in
  let i3 := (i * 3)%nat in
  let* u := Math_random in
  let positions := <[i3 := Fin ((u - 0.5) * 100)]> positions in
  let* u := Math_random in
  let positions := <[(i3 + 1)%nat := Fin (u * 80 - 10)]> positions in
  let* u := Math_random in
  let positions := <[(i3 + 2)%nat := Fin ((u - 0.5) * 100)]> positions in
  let* u := Math_random in
  let sizes := <[i := Fin (u * 0.6 + 0.2)]> sizes in
  let snowSizes := snowSizes ++ [Snow.read sizes i] in
  let* u := Math_random in
  let snowVelocities :=
    snowVelocities ++ [Vel.mk (Fin 0) (Fin (- (u * 0.06 + 0.02))) (Fin 0)] in
  rand_ret (positions, sizes, snowVelocities, snowSizes).

(** [createSnowSystem(scene, CONFIG, createSnowTexture)] *)
Definition createSnowSystem (CONFIG : Config) : Rand t :=
  let snowCount := snowCount CONFIG in
  let positions := replicate (snowCount * 3) (Fin 0) in
  let sizes := replicate snowCount (Fin 0) in
  let* st := for_each flake_round (seq 0 snowCount)
               (positions, sizes, [], []) in
  let '(positions, sizes, snowVelocities, snowSizes) := st in
  rand_ret {| snowParticles := positions; size_attribute := sizes;
              snowVelocities := snowVelocities; snowSizes := snowSizes |}.

End SnowSystem.

(** Flake [i] of a field is at [(px, py, pz)] with velocity
    [(vx, vy, vz)]. *)
Definition flake_at (positions : list Num.num) (vels : list Vel.t) (i : nat)
  (px py pz vx vy vz : R) : Prop :=
  positions !! (i * 3)%nat = Some (Num.Fin px)
  /\ positions !! (i * 3 + 1)%nat = Some (Num.Fin py)
  /\ positions !! (i * 3 + 2)%nat = Some (Num.Fin pz)
  /\ vels !! i = Some (Vel.mk (Num.Fin vx) (Num.Fin vy) (Num.Fin vz)).

(** A field of [n] flakes, all of whose numbers are finite. *)
Definition finite_field (n : nat) (positions : list Num.num)
  (vels : list Vel.t) : Prop :=
  length positions = (n * 3)%nat /\ length vels = n
  /\ forall i, (i < n)%nat ->
       exists px py pz vx vy vz, flake_at positions vels i px py pz vx vy vz.

(** A flake as [createSnowSystem] drops it: somewhere above the ground in
    the square of side 100, falling straight down. *)
Definition flake_created (positions : list Num.num) (vels : list Vel.t)
  (i : nat) : Prop :=
  exists px py pz vy,
    flake_at positions vels i px py pz 0 vy 0
    /\ -50 <= px < 50 /\ -10 <= py < 70 /\ -50 <= pz < 50
    /\ -0.08 < vy <= -0.02.

Definition snow_filled (n k : nat)
  (st : list Num.num * list Num.num * list Vel.t * list Num.num)
  (tape : list R) : Prop :=
  length st.1.1.1 = (n * 3)%nat /\ length st.1.1.2 = n
  /\ length st.1.2 = k /\ length st.2 = k
  /\ Forall (fun u => 0 <= u < 1) tape
  /\ forall i, (i < k)%nat ->
       flake_created st.1.1.1 st.1.2 i
       /\ exists size, st.1.1.2 !! i = Some (Num.Fin size)
                       /\ st.2 !! i = Some (Num.Fin size)
                       /\ 0.2 <= size < 0.8.

Lemma flake_round_filled (n i : nat)
  (st : list Num.num * list Num.num * list Vel.t * list Num.num)
  (tape : list R) :
  (i < n)%nat -> snow_filled n i st tape -> (5 <= length tape)%nat ->
  exists st' tape',
    SnowSystem.flake_round i st tape = Some (st', tape')
    /\ snow_filled n (S i) st' tape'
    /\ length tape = (5 + length tape')%nat.
Proof.
  intros Hi (L1 & L2 & L3 & L4 & Hr & Hok) Hlen.
  destruct st as [[[ps ss] vs] zs]. cbn [fst snd] in *.
  destruct tape as [|u1 [|u2 [|u3 [|u4 [|u5 tape]]]]];
    try (cbn [length] in Hlen; lia).
  repeat match goal with
         | H : Forall _ (_ :: _) |- _ => apply Forall_cons in H as [? H]
         end.
  unfold SnowSystem.flake_round, rand_bind, Math_random, rand_ret.
  eexists _, _. split; [reflexivity|]. split; [|cbn [length]; lia].
  unfold snow_filled. cbn [fst snd].
  rewrite !length_insert, !length_app. cbn [length].
  split; [exact L1|]. split; [exact L2|]. split; [lia|]. split; [lia|].
  split; [exact Hr|].
  intros j Hj. unfold flake_created, flake_at.
  destruct (decide (j = i)) as [->|Hne].
  - split.
    + exists ((u1 - 0.5) * 100), (u2 * 80 - 10), ((u3 - 0.5) * 100),
        (- (u5 * 0.06 + 0.02)).
      lookup_insert. rewrite lookup_app_r by lia.
      replace (i - length vs)%nat with 0%nat by lia.
      repeat split; try reflexivity; lra.
    + exists (u4 * 0.6 + 0.2). lookup_insert.
      rewrite lookup_app_r by lia.
      replace (i - length zs)%nat with 0%nat by lia.
      rewrite read_insert_eq by lia.
      repeat split; try reflexivity; lra.
  - destruct (Hok j) as ((px & py & pz & vy & (F1 & F2 & F3 & F4) & Hrange)
                         & size & S1 & S2 & S3); [lia|].
    split.
    + exists px, py, pz, vy. lookup_insert.
      rewrite lookup_app_l by lia. auto.
    + exists size. lookup_insert. rewrite lookup_app_l by lia. auto.
Qed.

(** [createSnowSystem] on a tape of draws of [[0, 1)] with five draws per
    flake: it returns and takes exactly those draws; the field has three
    coordinates and one velocity per flake; every flake starts with x and
    z in [[-50, 50)] and y in [[-10, 70)], not below the ground, and
    falls straight down at a speed between 0.02 and 0.08 a frame; its size
    is between 0.2 and 0.8 and is the same in the attribute and in
    [snowSizes]. *)
Theorem createSnowSystem_field (CONFIG : Config) (tape : list R) :
  Forall (fun u => 0 <= u < 1) tape ->
  (5 * snowCount CONFIG <= length tape)%nat ->
  exists snow tape',
    SnowSystem.createSnowSystem CONFIG tape = Some (snow, tape')
    /\ length tape = (5 * snowCount CONFIG + length tape')%nat
    /\ finite_field (snowCount CONFIG) (SnowSystem.snowParticles snow)
         (SnowSystem.snowVelocities snow)
    /\ forall i, (i < snowCount CONFIG)%nat ->
         flake_created (SnowSystem.snowParticles snow)
           (SnowSystem.snowVelocities snow) i
         /\ exists size,
              SnowSystem.size_attribute snow !! i = Some (Num.Fin size)
              /\ SnowSystem.snowSizes snow !! i = Some (Num.Fin size)
              /\ 0.2 <= size < 0.8.
Proof.
  intros Hr Hlen. unfold SnowSystem.createSnowSystem. cbv zeta.
  set (n := snowCount CONFIG) in *.
  destruct (for_each_returns SnowSystem.flake_round (snow_filled n) 5 n 0)
    with (s := (replicate (n * 3) (Num.Fin 0), replicate n (Num.Fin 0),
                @nil Vel.t, @nil Num.num))
         (tape := tape)
    as (st & tape' & E & (L1 & L2 & L3 & L4 & _ & Hok) & L).
  - intros i st tape0 Hi HP Hl.
    apply flake_round_filled; [lia|exact HP|exact Hl].
  - unfold snow_filled. cbn [fst snd length].
    rewrite !length_replicate.
    repeat split; try reflexivity; try exact Hr; lia.
  - exact Hlen.
  - unfold rand_bind at 1. rewrite E. destruct st as [[[ps ss] vs] zs].
    cbn [fst snd] in *. unfold rand_ret.
    eexists _, _. split; [reflexivity|].
    cbn [SnowSystem.snowParticles SnowSystem.snowVelocities
         SnowSystem.size_attribute SnowSystem.snowSizes].
    split; [exact L|]. split.
    + split; [exact L1|]. split; [exact L3|].
      intros i Hi. destruct (Hok i Hi) as ((px & py & pz & vy & F & _) & _).
      exists px, py, pz, 0, vy, 0. exact F.
    + intros i Hi. apply Hok. exact Hi.
Qed.

Lemma createSnowSystem_field_witness :
  exists snow tape',
    SnowSystem.createSnowSystem CONFIG (replicate 3500 0.5)
    = Some (snow, tape')
    /\ finite_field 700 (SnowSystem.snowParticles snow)
         (SnowSystem.snowVelocities snow).
Proof.
  destruct (createSnowSystem_field CONFIG (replicate 3500 0.5))
    as (snow & tape' & E & _ & F & _).
  - apply Forall_replicate. lra.
  - rewrite length_replicate. cbn. lia.
  - exists snow, tape'. split; [exact E|exact F].
Defined.

(** ** The snow field: a frame of [updateSnowSystem] *)

Module SnowSpec.

Import Num.

(** The velocity of a flake that the frame has moved to [(x, y, z)],
    after the push of the hand and the decay. *)
Definition blown (handDetected : bool) (handPosition : V3.t)
  (CONFIG : Config) (x y z : R) (velocity : Vel.t) : Vel.t :=
  let velocity :=
    if handDetected then
      let dx := (Fin x - Fin (V3.x handPosition))%num in
      let dy := (Fin y - Fin (V3.y handPosition))%num in
      let dz := (Fin z - Fin (V3.z handPosition))%num in
      let distance := Num.sqrt (dx * dx + dy * dy + dz * dz)%num in
      if (distance <? Fin (snowInteractionRadius CONFIG))%num then
        let force := ((Fin (snowInteractionRadius CONFIG) - distance)
                      / Fin (snowInteractionRadius CONFIG))%num in
        Vel.mk (Vel.x velocity + dx / distance * force * Fin 0.2)%num
               (Vel.y velocity)
               (Vel.z velocity + dz / distance * force * Fin 0.2)%num
      else velocity
    else velocity in
  Vel.mk (Vel.x velocity * Fin 0.98)%num
         (Vel.y velocity)
         (Vel.z velocity * Fin 0.98)%num.

(** The three coordinates of flake [i] written into the array. *)
Definition place (i : nat) (x y z : R) (positions : list num) : list num :=
  <[(i * 3 + 2)%nat := Fin z]>
    (<[(i * 3 + 1)%nat := Fin y]> (<[(i * 3)%nat := Fin x]> positions)).

(** What a frame makes of flake [i], which it found at [(px, py, pz)] with
    velocity [(vx, vy, vz)]: moved by its velocity and, if that does not
    take it below the ground, blown by the hand; dropped again from above
    otherwise, with draws that satisfy [Q]. *)
Definition stepped (Q : R -> Prop) (handDetected : bool)
  (handPosition : V3.t) (CONFIG : Config) (px py pz vx vy vz : R)
  (positions : list num) (vels : list Vel.t) (i : nat) : Prop :=
  (-10 <= py + vy
   /\ positions !! (i * 3)%nat = Some (Fin (px + vx))
   /\ positions !! (i * 3 + 1)%nat = Some (Fin (py + vy))
   /\ positions !! (i * 3 + 2)%nat = Some (Fin (pz + vz))
   /\ vels !! i
      = Some (blown handDetected handPosition CONFIG
                (px + vx) (py + vy) (pz + vz)
                (Vel.mk (Fin vx) (Fin vy) (Fin vz))))
  \/ (py + vy < -10
      /\ exists u1 u2 u3 u4,
           Q u1 /\ Q u2 /\ Q u3 /\ Q u4
           /\ flake_at positions vels i
                ((u1 - 0.5) * 100) (u2 * 30 + 50) ((u3 - 0.5) * 100)
                0 (- (u4 * 0.06 + 0.02)) 0).

End SnowSpec.

Lemma place_length (i : nat) (x y z : R) (positions : list Num.num) :
  length (SnowSpec.place i x y z positions) = length positions.
Proof. unfold SnowSpec.place. rewrite !length_insert. reflexivity. Qed.

Lemma place_lookup_other (i j o : nat) (x y z : R) (positions : list Num.num) :
  i <> j -> (o < 3)%nat ->
  SnowSpec.place i x y z positions !! (j * 3 + o)%nat
  = positions !! (j * 3 + o)%nat.
Proof.
  intros Hne Ho. unfold SnowSpec.place. lookup_insert. reflexivity.
Qed.

(** A round of the loop of [updateSnowSystem] on a flake with finite
    coordinates and velocity. *)
Lemma update_particle_spec (handDetected : bool) (handPosition : V3.t)
  (CONFIG : Config) (positions : list Num.num) (vels : list Vel.t) (i : nat)
  (tape : list R) (px py pz vx vy vz : R) :
  flake_at positions vels i px py pz vx vy vz ->
  Snow.update_particle handDetected handPosition CONFIG i (positions, vels)
    tape
  = if Rltb (py + vy) (-10) then
      match tape with
      | u1 :: u2 :: u3 :: u4 :: rest =>
          Some ((SnowSpec.place i ((u1 - 0.5) * 100) (u2 * 30 + 50)
                   ((u3 - 0.5) * 100)
                   (SnowSpec.place i (px + vx) (py + vy) (pz + vz) positions),
                 <[i := Vel.mk (Num.Fin 0) (Num.Fin (- (u4 * 0.06 + 0.02)))
                          (Num.Fin 0)]> vels), rest)
      | _ => None
      end
    else
      Some ((SnowSpec.place i (px + vx) (py + vy) (pz + vz) positions,
             <[i := SnowSpec.blown handDetected handPosition CONFIG
                      (px + vx) (py + vy) (pz + vz)
                      (Vel.mk (Num.Fin vx) (Num.Fin vy) (Num.Fin vz))]> vels),
            tape).
Proof.
  intros (Hx & Hy & Hz & Hv).
  assert (L0 : (i * 3 < length positions)%nat)
    by (apply lookup_lt_is_Some; eauto).
  assert (L1 : (i * 3 + 1 < length positions)%nat)
    by (apply lookup_lt_is_Some; eauto).
  assert (L2 : (i * 3 + 2 < length positions)%nat)
    by (apply lookup_lt_is_Some; eauto).
  unfold Snow.update_particle, rand_bind, rand_lift. rewrite Hv.
  cbv zeta. cbn [Vel.x Vel.y Vel.z].
  rewrite (read_Some _ _ _ Hx).
  rewrite !(read_insert_ne _ (i * 3) (i * 3 + 1)) by lia.
  rewrite (read_Some _ _ _ Hy).
  rewrite !(read_insert_ne _ (i * 3 + 1) (i * 3 + 2)) by lia.
  rewrite !(read_insert_ne _ (i * 3) (i * 3 + 2)) by lia.
  rewrite (read_Some _ _ _ Hz).
  rewrite !(read_insert_ne _ (i * 3 + 2) (i * 3 + 1)) by lia.
  rewrite !(read_insert_ne _ (i * 3 + 2) (i * 3)) by lia.
  rewrite !(read_insert_ne _ (i * 3 + 1) (i * 3)) by lia.
  rewrite !read_insert_eq by (rewrite ?length_insert; lia).
  cbn [Num.add Num.ltb].
  destruct (Rltb (py + vy) (-10)).
  - unfold Math_random, rand_ret.
    destruct tape as [|u1 [|u2 [|u3 [|u4 rest]]]]; reflexivity.
  - reflexivity.
Qed.

(** The state of the loop of [updateSnowSystem] before round [k], on a
    field that was finite when the frame began. *)
Definition snow_stepped (Q : R -> Prop) (handDetected : bool)
  (handPosition : V3.t) (CONFIG : Config) (n : nat)
  (positions0 : list Num.num) (vels0 : list Vel.t) (k : nat)
  (st : list Num.num * list Vel.t) (tape : list R) : Prop :=
  length st.1 = (n * 3)%nat /\ length st.2 = n
  /\ Forall Q tape
  /\ (forall i px py pz vx vy vz,
        (k <= i < n)%nat ->
        flake_at positions0 vels0 i px py pz vx vy vz ->
        flake_at st.1 st.2 i px py pz vx vy vz)
  /\ (forall i px py pz vx vy vz,
        (i < k)%nat ->
        flake_at positions0 vels0 i px py pz vx vy vz ->
        SnowSpec.stepped Q handDetected handPosition CONFIG
          px py pz vx vy vz st.1 st.2 i).

Lemma update_particle_stepped (Q : R -> Prop) (handDetected : bool)
  (handPosition : V3.t) (CONFIG : Config) (n : nat)
  (positions0 : list Num.num) (vels0 : list Vel.t) (i : nat)
  (st st' : list Num.num * list Vel.t) (tape tape' : list R) :
  finite_field n positions0 vels0 -> (i < n)%nat ->
  snow_stepped Q handDetected handPosition CONFIG n positions0 vels0 i st tape ->
  Snow.update_particle handDetected handPosition CONFIG i st tape
  = Some (st', tape') ->
  snow_stepped Q handDetected handPosition CONFIG n positions0 vels0 (S i)
    st' tape'
  /\ (length tape' <= length tape <= 4 + length tape')%nat.
Proof.
  intros (_ & _ & Hfin) Hi (L1 & L2 & HQ & Hrest & Hdone) E.
  destruct st as [ps vs]. cbn [fst snd] in *.
  destruct (Hfin i Hi) as (px & py & pz & vx & vy & vz & F0).
  pose proof (Hrest i px py pz vx vy vz ltac:(lia) F0) as F.
  rewrite (update_particle_spec _ _ _ _ _ _ _ _ _ _ _ _ _ F) in E.
  assert (Hother : forall x y z x' y' z' v j a b c d e f,
             j <> i ->
             flake_at ps vs j a b c d e f ->
             flake_at (SnowSpec.place i x y z ps) (<[i := v]> vs) j a b c d e f
             /\ flake_at (SnowSpec.place i x' y' z'
                            (SnowSpec.place i x y z ps))
                  (<[i := v]> vs) j a b c d e f).
  { intros x y z x' y' z' v j a b c d e f Hne (A1 & A2 & A3 & A4).
    unfold flake_at, SnowSpec.place. lookup_insert. auto 10. }
  assert (Hother' : forall x y z x' y' z' v j a b c d e f,
             j <> i ->
             SnowSpec.stepped Q handDetected handPosition CONFIG
               a b c d e f ps vs j ->
             SnowSpec.stepped Q handDetected handPosition CONFIG
               a b c d e f (SnowSpec.place i x y z ps) (<[i := v]> vs) j
             /\ SnowSpec.stepped Q handDetected handPosition CONFIG
                  a b c d e f
                  (SnowSpec.place i x' y' z' (SnowSpec.place i x y z ps))
                  (<[i := v]> vs) j).
  { intros x y z x' y' z' v j a b c d e f Hne
      [(B0 & B1 & B2 & B3 & B4)|(B0 & u1 & u2 & u3 & u4 & Q1 & Q2 & Q3 & Q4 & G)].
    - split; left; (split; [exact B0|]);
        unfold SnowSpec.place; lookup_insert; auto.
    - destruct (Hother x y z x' y' z' v j _ _ _ _ _ _ Hne G) as [G1 G2].
      split; right; (split; [exact B0|]);
        exists u1, u2, u3, u4; auto 10. }
  destruct (Rltb (py + vy) (-10)) eqn:Efloor.
  - apply Rltb_true in Efloor.
    destruct tape as [|u1 [|u2 [|u3 [|u4 rest]]]]; try discriminate.
    injection E as <- <-.
    repeat match goal with
           | H : Forall _ (_ :: _) |- _ => apply Forall_cons in H as [? H]
           end.
    split; [|cbn [length]; lia].
    unfold snow_stepped. cbn [fst snd].
    rewrite !place_length, length_insert.
    split; [exact L1|]. split; [exact L2|]. split; [exact HQ|]. split.
    + intros j a b c d e f Hj Fj.
      apply (Hother _ _ _ _ _ _ _ j); [lia|]. apply Hrest; [lia|exact Fj].
    + intros j a b c d e f Hj Fj.
      destruct (decide (j = i)) as [->|Hne].
      * destruct F0 as (A1 & A2 & A3 & A4), Fj as (C1 & C2 & C3 & C4).
        rewrite A1 in C1. rewrite A2 in C2. rewrite A3 in C3. rewrite A4 in C4.
        injection C1 as <-. injection C2 as <-. injection C3 as <-.
        injection C4 as <- <- <-.
        right. split; [exact Efloor|].
        exists u1, u2, u3, u4. repeat (split; [assumption|]).
        unfold flake_at, SnowSpec.place. lookup_insert.
        repeat split; reflexivity.
      * apply (Hother' _ _ _ _ _ _ _ j); [exact Hne|].
        apply Hdone; [lia|exact Fj].
  - apply Rltb_false in Efloor. injection E as <- <-.
    split; [|lia].
    unfold snow_stepped. cbn [fst snd].
    rewrite !place_length, length_insert.
    split; [exact L1|]. split; [exact L2|]. split; [exact HQ|]. split.
    + intros j a b c d e f Hj Fj.
      apply (Hother _ _ _ 0 0 0 _ j); [lia|]. apply Hrest; [lia|exact Fj].
    + intros j a b c d e f Hj Fj.
      destruct (decide (j = i)) as [->|Hne].
      * destruct F0 as (A1 & A2 & A3 & A4), Fj as (C1 & C2 & C3 & C4).
        rewrite A1 in C1. rewrite A2 in C2. rewrite A3 in C3. rewrite A4 in C4.
        injection C1 as <-. injection C2 as <-. injection C3 as <-.
        injection C4 as <- <- <-.
        left. split; [lra|].
        unfold SnowSpec.place. lookup_insert.
        repeat split; reflexivity.
      * apply (Hother' _ _ _ 0 0 0 _ j); [exact Hne|].
        apply Hdone; [lia|exact Fj].
Qed.

(** A frame on a finite field, if it returns: the field keeps its shape
    and every flake has been stepped, each from where the frame found
    it. *)
Lemma updateSnowSystem_stepped (Q : R -> Prop) (handDetected : bool)
  (handPosition : V3.t) (CONFIG : Config) (n : nat)
  (positions : list Num.num) (vels : list Vel.t) (tape : list R)
  (result : option (list Num.num) * list Vel.t) (tape' : list R) :
  finite_field n positions vels -> Forall Q tape ->
  Snow.updateSnowSystem (Some positions) vels n handDetected handPosition
    CONFIG tape = Some (result, tape') ->
  exists positions',
    result.1 = Some positions'
    /\ length positions' = (n * 3)%nat /\ length result.2 = n
    /\ Forall Q tape'
    /\ forall i px py pz vx vy vz,
         (i < n)%nat ->
         flake_at positions vels i px py pz vx vy vz ->
         SnowSpec.stepped Q handDetected handPosition CONFIG
           px py pz vx vy vz positions' result.2 i.
Proof.
  intros Hfin HQ E. unfold Snow.updateSnowSystem, rand_bind in E.
  destruct (for_each _ _ _ tape) as [[st tape1]|] eqn:Eloop; [|discriminate].
  unfold rand_ret in E. injection E as <- <-.
  pose proof (for_each_invariant
                (Snow.update_particle handDetected handPosition CONFIG)
                (snow_stepped Q handDetected handPosition CONFIG n
                   positions vels) n 0) as Hinv.
  destruct (Hinv) with (s := (positions, vels)) (tape := tape)
                       (s' := st) (tape' := tape1)
    as (L1 & L2 & HQ' & _ & Hdone).
  - intros i s tp s' tp' Hi HP Eb.
    apply (update_particle_stepped Q handDetected handPosition CONFIG n
             positions vels i s s' tp tp' Hfin ltac:(lia) HP Eb).
  - destruct Hfin as (F1 & F2 & _).
    split; [exact F1|]. split; [exact F2|]. split; [exact HQ|].
    split; [auto|]. intros i; intros; lia.
  - exact Eloop.
  - exists st.1. cbn [fst snd]. split; [reflexivity|].
    split; [exact L1|]. split; [exact L2|]. split; [exact HQ'|].
    intros i px py pz vx vy vz Hi F. apply Hdone; [lia|exact F].
Qed.

(** A loop whose rounds each take at most [k] draws returns on a tape of
    [k * n] draws or more. *)
Lemma for_each_returns_upto {St : Type} (body : nat -> St -> Rand St)
  (P : nat -> St -> list R -> Prop) (k n : nat) :
  forall a : nat,
  (forall i s tape,
     (a <= i < a + n)%nat -> P i s tape -> (k <= length tape)%nat ->
     exists s' tape', body i s tape = Some (s', tape')
                      /\ P (S i) s' tape'
                      /\ (length tape' <= length tape <= k + length tape')%nat) ->
  forall s tape,
  P a s tape -> (k * n <= length tape)%nat ->
  exists s' tape', for_each body (seq a n) s tape = Some (s', tape')
                   /\ P (a + n)%nat s' tape'
                   /\ (length tape' <= length tape <= k * n + length tape')%nat.
Proof.
  induction n as [|n IH]; intros a Hbody s tape HP Hlen.
  - exists s, tape. rewrite Nat.add_0_r. split; [reflexivity|].
    split; [exact HP|lia].
  - destruct (Hbody a s tape) as (s1 & tape1 & E1 & HP1 & L1);
      [lia|exact HP|lia|].
    destruct (IH (S a)) with (s := s1) (tape := tape1)
      as (s' & tape' & E & HP' & L').
    + intros i s0 tape0 Hi. apply Hbody. lia.
    + exact HP1.
    + lia.
    + exists s', tape'. cbn [seq for_each]. unfold rand_bind. rewrite E1.
      split; [exact E|].
      replace (a + S n)%nat with (S a + n)%nat by lia.
      split; [exact HP'|lia].
Qed.

(** A frame on a finite field returns when the tape holds four draws per
    flake; it takes at most that many. *)
Lemma updateSnowSystem_returns (Q : R -> Prop) (handDetected : bool)
  (handPosition : V3.t) (CONFIG : Config) (n : nat)
  (positions : list Num.num) (vels : list Vel.t) (tape : list R) :
  finite_field n positions vels -> Forall Q tape ->
  (4 * n <= length tape)%nat ->
  exists positions' vels' tape',
    Snow.updateSnowSystem (Some positions) vels n handDetected handPosition
      CONFIG tape = Some ((Some positions', vels'), tape')
    /\ (length tape' <= length tape <= 4 * n + length tape')%nat.
Proof.
  intros Hfin HQ Hlen.
  destruct (for_each_returns_upto
              (Snow.update_particle handDetected handPosition CONFIG)
              (snow_stepped Q handDetected handPosition CONFIG n
                 positions vels) 4 n 0)
    with (s := (positions, vels)) (tape := tape)
    as (st & tape' & E & _ & L).
  - intros i st tp Hi HP Hl.
    assert (Hret : exists st' tp',
               Snow.update_particle handDetected handPosition CONFIG i st tp
               = Some (st', tp')).
    { destruct Hfin as (_ & _ & Hf).
      destruct (Hf i ltac:(lia)) as (px & py & pz & vx & vy & vz & F0).
      destruct HP as (_ & _ & _ & Hrest & _). destruct st as [ps vs].
      pose proof (Hrest i px py pz vx vy vz ltac:(lia) F0) as F.
      rewrite (update_particle_spec _ _ _ _ _ _ _ _ _ _ _ _ _ F).
      destruct (Rltb (py + vy) (-10)); [|eauto].
      destruct tp as [|u1 [|u2 [|u3 [|u4 rest]]]];
        try (cbn [length] in Hl; lia).
      eauto. }
    destruct Hret as (st' & tp' & Eb).
    exists st', tp'. split; [exact Eb|].
    apply (update_particle_stepped Q handDetected handPosition CONFIG n
             positions vels i st st' tp tp' Hfin ltac:(lia) HP Eb).
  - destruct Hfin as (F1 & F2 & _).
    split; [exact F1|]. split; [exact F2|]. split; [exact HQ|].
    split; [auto|]. intros i; intros; lia.
  - exact Hlen.
  - exists st.1, st.2, tape'. unfold Snow.updateSnowSystem, rand_bind.
    rewrite E. split; [reflexivity|exact L].
Qed.



(** A field of one flake that falls at 0.05 a frame from the height 5. *)
Definition one_flake_positions : list Num.num :=
  [Num.Fin 0; Num.Fin 5; Num.Fin 0].

Definition one_flake_velocities : list Vel.t :=
  [Vel.mk (Num.Fin 0) (Num.Fin (-0.05)) (Num.Fin 0)].

Lemma one_flake_finite :
  finite_field 1 one_flake_positions one_flake_velocities.
Proof.
  split; [reflexivity|]. split; [reflexivity|].
  intros i Hi. assert (i = 0%nat) as -> by lia.
  exists 0, 5, 0, 0, (-0.05), 0. repeat split; reflexivity.
Qed.


(** What a frame of [updateSnowSystem] does to each flake of a finite
    field, on a tape of draws of [[0, 1)]: a flake that its velocity does
    not take below the height -10 is moved by its velocity and keeps its
    vertical velocity; without a hand its horizontal velocity is
    multiplied by 0.98; a flake taken below -10 is dropped again at a
    height in [[50, 80)], x and z in [[-50, 50)], falling straight down
    at a speed between 0.02 and 0.08.  In every case the flake ends the
    frame at a height of -10 or more. *)
Theorem updateSnowSystem_frame (n : nat) (handDetected : bool)
  (handPosition : V3.t) (CONFIG : Config) (positions : list Num.num)
  (vels : list Vel.t) (tape : list R)
  (positions' : list Num.num) (vels' : list Vel.t) (tape' : list R) :
  finite_field n positions vels -> Forall (fun u => 0 <= u < 1) tape ->
  Snow.updateSnowSystem (Some positions) vels n handDetected handPosition
    CONFIG tape = Some ((Some positions', vels'), tape') ->
  forall i px py pz vx vy vz,
    (i < n)%nat -> flake_at positions vels i px py pz vx vy vz ->
    (-10 <= py + vy ->
     positions' !! (i * 3)%nat = Some (Num.Fin (px + vx))
     /\ positions' !! (i * 3 + 1)%nat = Some (Num.Fin (py + vy))
     /\ positions' !! (i * 3 + 2)%nat = Some (Num.Fin (pz + vz))
     /\ Vel.y <$> vels' !! i = Some (Num.Fin vy)
     /\ (handDetected = false ->
         flake_at positions' vels' i (px + vx) (py + vy) (pz + vz)
           (vx * 0.98) vy (vz * 0.98)))
    /\ (py + vy < -10 ->
        exists x y z v,
          flake_at positions' vels' i x y z 0 v 0
          /\ -50 <= x < 50 /\ 50 <= y < 80 /\ -50 <= z < 50
          /\ -0.08 < v <= -0.02)
    /\ exists y, positions' !! (i * 3 + 1)%nat = Some (Num.Fin y)
                 /\ -10 <= y.
Proof.
  intros Hfin HQ E i px py pz vx vy vz Hi F.
  destruct (updateSnowSystem_stepped (fun u => 0 <= u < 1) handDetected
              handPosition CONFIG n positions vels tape _ tape' Hfin HQ E)
    as (ps & E1 & _ & _ & _ & Hstep).
  cbn [fst snd] in E1, Hstep. injection E1 as <-.
  destruct (Hstep i px py pz vx vy vz Hi F)
    as [(B0 & B1 & B2 & B3 & B4)
       |(B0 & u1 & u2 & u3 & u4 & Q1 & Q2 & Q3 & Q4 & G)].
  - split; [|split].
    + intros _. split; [exact B1|]. split; [exact B2|]. split; [exact B3|].
      split.
      * rewrite B4. unfold SnowSpec.blown.
        destruct handDetected; [|reflexivity].
        cbv zeta. destruct (Num.ltb _ _); reflexivity.
      * intros ->. repeat split; assumption.
    + intros H. lra.
    + exists (py + vy). split; [exact B2|exact B0].
  - split; [|split].
    + intros H. lra.
    + intros _. eexists _, _, _, _. split; [exact G|].
      repeat split; lra.
    + destruct G as (_ & G2 & _). eexists. split; [exact G2|]. lra.
Qed.

Lemma updateSnowSystem_frame_witness :
  exists positions' vels' tape',
    Snow.updateSnowSystem (Some one_flake_positions) one_flake_velocities 1
      false (V3.mk 0 0 20) CONFIG [0.5; 0.5; 0.5; 0.5]
    = Some ((Some positions', vels'), tape')
    /\ positions' !! 1%nat = Some (Num.Fin (5 + -0.05)).
Proof.
  destruct (updateSnowSystem_returns (fun u => 0 <= u < 1) false
              (V3.mk 0 0 20) CONFIG 1 one_flake_positions
              one_flake_velocities [0.5; 0.5; 0.5; 0.5] one_flake_finite)
    as (ps & vs & tape' & E & _).
  { repeat (apply Forall_cons; split; [lra|]). apply Forall_nil_2. }
  { cbn [length]. lia. }
  exists ps, vs, tape'. split; [exact E|].
  destruct (updateSnowSystem_frame 1 false (V3.mk 0 0 20) CONFIG
              one_flake_positions one_flake_velocities [0.5; 0.5; 0.5; 0.5]
              ps vs tape' one_flake_finite) with (i := 0%nat)
      (px := 0) (py := 5) (pz := 0) (vx := 0) (vy := (-0.05)) (vz := 0)
    as (H & _).
  - repeat (apply Forall_cons; split; [lra|]). apply Forall_nil_2.
  - exact E.
  - lia.
  - repeat split; reflexivity.
  - destruct H as (_ & H2 & _); [lra|]. exact H2.
Defined.

(** *** Frames without a hand *)

(** [k] frames of [updateSnowSystem], one after the other, while no hand
    is detected, as the animation loop runs them. *)
Fixpoint snow_frames (k : nat) (CONFIG : Config) (n : nat)
  (handPosition : V3.t) (st : list Num.num * list Vel.t)
  : Rand (list Num.num * list Vel.t) :=
  match k with
  | O => rand_ret st
  | S k' =>
      let* r := Snow.updateSnowSystem (Some st.1) st.2 n false handPosition
                  CONFIG in
      match r.1 with
      | Some positions => snow_frames k' CONFIG n handPosition (positions, r.2)
      | None => rand_ret (st.1, r.2)
      end
  end.

(** A frame without a hand, on a finite field: the field stays finite, and
    a flake that stays above the ground falls freely. *)
Lemma frame_no_hand (n : nat) (handPosition : V3.t) (CONFIG : Config)
  (positions : list Num.num) (vels : list Vel.t) (tape : list R)
  (result : option (list Num.num) * list Vel.t) (tape' : list R) :
  finite_field n positions vels ->
  Snow.updateSnowSystem (Some positions) vels n false handPosition CONFIG tape
  = Some (result, tape') ->
  exists positions',
    result.1 = Some positions'
    /\ finite_field n positions' result.2
    /\ forall i px py pz vx vy vz,
         (i < n)%nat -> flake_at positions vels i px py pz vx vy vz ->
         -10 <= py + vy ->
         flake_at positions' result.2 i (px + vx) (py + vy) (pz + vz)
           (vx * 0.98) vy (vz * 0.98).
Proof.
  intros Hfin E.
  destruct (updateSnowSystem_stepped (fun _ => True) false handPosition
              CONFIG n positions vels tape result tape' Hfin)
    as (ps & E1 & L1 & L2 & _ & Hstep); [apply Forall_true; auto|exact E|].
  exists ps. split; [exact E1|]. split.
  - split; [exact L1|]. split; [exact L2|].
    intros i Hi. destruct Hfin as (_ & _ & Hf).
    destruct (Hf i Hi) as (px & py & pz & vx & vy & vz & F).
    destruct (Hstep i px py pz vx vy vz Hi F)
      as [(_ & B1 & B2 & B3 & B4)|(_ & u1 & u2 & u3 & u4 & _ & _ & _ & _ & G)].
    + exists (px + vx), (py + vy), (pz + vz), (vx * 0.98), vy, (vz * 0.98).
      repeat split; assumption.
    + eexists _, _, _, _, _, _. exact G.
  - intros i px py pz vx vy vz Hi F Hfloor.
    destruct (Hstep i px py pz vx vy vz Hi F)
      as [(_ & B1 & B2 & B3 & B4)|(B0 & _)]; [|lra].
    repeat split; assumption.
Qed.

(** [updateSnowSystem] never changes the vertical velocity of a flake
    that stays above the ground, so a flake that is not falling never
    falls again: on a finite field, a flake at a height of -10 or more
    with a vertical velocity [vy >= 0] (a flake lifted by the wave) is,
    after [k] frames without a hand, at the height [py + k * vy] with the
    same vertical velocity, whatever the draws; it never comes back to
    the ground and is never dropped again.  The frames return whenever
    the tape holds four draws per flake and frame. *)
Theorem snow_lifted_flake_never_falls (k : nat) (CONFIG : Config) (n : nat)
  (handPosition : V3.t) :
  forall (positions : list Num.num) (vels : list Vel.t) (tape : list R)
         (i : nat) (px py pz vx vy vz : R),
  finite_field n positions vels -> (i < n)%nat ->
  flake_at positions vels i px py pz vx vy vz ->
  0 <= vy -> -10 <= py ->
  ((4 * n * k <= length tape)%nat ->
   exists st tape',
     snow_frames k CONFIG n handPosition (positions, vels) tape
     = Some (st, tape'))
  /\ (forall st tape',
        snow_frames k CONFIG n handPosition (positions, vels) tape
        = Some (st, tape') ->
        finite_field n st.1 st.2
        /\ st.1 !! (i * 3 + 1)%nat = Some (Num.Fin (py + INR k * vy))
        /\ Vel.y <$> st.2 !! i = Some (Num.Fin vy)).
Proof.
  induction k as [|k IH];
    intros positions vels tape i px py pz vx vy vz Hfin Hi F Hvy Hpy.
  - split.
    + intros _. eexists _, _. reflexivity.
    + intros st tape' E. cbn in E. injection E as <- <-. cbn [fst snd].
      split; [exact Hfin|]. destruct F as (_ & F2 & _ & F4).
      split; [rewrite F2; f_equal; f_equal; cbn [INR]; lra|].
      rewrite F4. reflexivity.
  - split.
    + intros Hlen.
      destruct (updateSnowSystem_returns (fun _ => True) false handPosition
                  CONFIG n positions vels tape Hfin)
        as (ps & vs & tape1 & E & L); [apply Forall_true; auto|nia|].
      destruct (frame_no_hand n handPosition CONFIG positions vels tape _
                  tape1 Hfin E) as (ps' & E1 & Hfin' & Hfall).
      cbn [fst snd] in E1, Hfin', Hfall. injection E1 as <-.
      destruct (IH ps vs tape1 i (px + vx) (py + vy) (pz + vz)
                  (vx * 0.98) vy (vz * 0.98) Hfin' Hi) as [Hret _];
        [apply Hfall; [exact Hi|exact F|lra]|exact Hvy|lra|].
      destruct Hret as (st & tape' & E'); [nia|].
      exists st, tape'. cbn [snow_frames]. unfold rand_bind at 1.
      cbn [fst snd]. rewrite E. cbn [fst snd]. exact E'.
    + intros st tape' E. cbn [snow_frames] in E. unfold rand_bind at 1 in E.
      cbn [fst snd] in E.
      destruct (Snow.updateSnowSystem _ _ _ _ _ _ tape)
        as [[r tape1]|] eqn:E0; [|discriminate].
      destruct (frame_no_hand n handPosition CONFIG positions vels tape r
                  tape1 Hfin E0) as (ps' & E1 & Hfin' & Hfall).
      rewrite E1 in E.
      destruct (IH ps' r.2 tape1 i (px + vx) (py + vy) (pz + vz)
                  (vx * 0.98) vy (vz * 0.98) Hfin' Hi) as [_ Hres];
        [apply Hfall; [exact Hi|exact F|lra]|exact Hvy|lra|].
      destruct (Hres st tape' E) as (H1 & H2 & H3).
      split; [exact H1|]. split; [|exact H3].
      rewrite H2. f_equal. f_equal. rewrite S_INR. lra.
Qed.

(** A flake that a wave has lifted: it rises at 0.25 a frame. *)
Definition lifted_velocities : list Vel.t :=
  [Vel.mk (Num.Fin 0) (Num.Fin 0.25) (Num.Fin 0)].

Lemma lifted_finite : finite_field 1 one_flake_positions lifted_velocities.
Proof.
  split; [reflexivity|]. split; [reflexivity|].
  intros i Hi. assert (i = 0%nat) as -> by lia.
  exists 0, 5, 0, 0, 0.25, 0. repeat split; reflexivity.
Qed.

Lemma snow_lifted_flake_never_falls_witness :
  exists st tape',
    snow_frames 2 CONFIG 1 (V3.mk 0 0 20)
      (one_flake_positions, lifted_velocities) (replicate 8 0.5)
    = Some (st, tape')
    /\ st.1 !! 1%nat = Some (Num.Fin (5 + INR 2 * 0.25)).
Proof.
  destruct (snow_lifted_flake_never_falls 2 CONFIG 1 (V3.mk 0 0 20)
              one_flake_positions lifted_velocities (replicate 8 0.5)
              0 0 5 0 0 0.25 0 lifted_finite) as [Hret Hres].
  - lia.
  - repeat split; reflexivity.
  - lra.
  - lra.
  - destruct Hret as (st & tape' & E); [cbn; lia|].
    exists st, tape'. split; [exact E|].
    destruct (Hres st tape' E) as (_ & H & _). exact H.
Defined.

(** ** The snow field: the spiral of the fist *)

Module SpiralSpec.

Import Num.

(** The square of the distance of the point [(px, py, pz)] from the
    hand. *)
Definition distance2 (position : V3.t) (px py pz : R) : R :=
  (px + - V3.x position) * (px + - V3.x position)
  + (py + - V3.y position) * (py + - V3.y position)
  + (pz + - V3.z position) * (pz + - V3.z position).

(** The strength of the push on a flake at distance [d]. *)
Definition force (CONFIG : Config) (d : R) : R :=
  (snowSpiralRadius CONFIG + - d) / snowSpiralRadius CONFIG * 0.1.

(** The direction of the push. *)
Definition angle (position : V3.t) (px pz : R) : R :=
  Ratan2 (pz + - V3.z position) (px + - V3.x position) + 0.1.

(** The velocity of flake [i] after its round. *)
Definition pushed (position : V3.t) (CONFIG : Config) (time : R) (i : nat)
  (px py pz vx vy vz : R) : Vel.t :=
  let d := R_sqrt.sqrt (distance2 position px py pz) in
  if Rltb d (snowSpiralRadius CONFIG) then
    Vel.mk (Fin (vx + Rtrigo_def.cos (angle position px pz) * force CONFIG d))
           (Fin (vy + Rtrigo_def.sin (time + INR i * 0.1) * 0.05))
           (Fin (vz + Rtrigo_def.sin (angle position px pz) * force CONFIG d))
  else Vel.mk (Fin vx) (Fin vy) (Fin vz).

End SpiralSpec.

(** A round of [createSnowSpiral] on a flake with finite coordinates and
    velocity: no draw is taken, and only the velocity of the flake is
    written. *)
Lemma spiral_round_spec (positions : list Num.num) (position : V3.t)
  (CONFIG : Config) (time : R) (i : nat) (vels : list Vel.t) (tape : list R)
  (px py pz vx vy vz : R) :
  flake_at positions vels i px py pz vx vy vz ->
  Snow.spiral_round positions position CONFIG time i vels tape
  = Some (<[i := SpiralSpec.pushed position CONFIG time i px py pz vx vy vz]>
            vels, tape).
Proof.
  intros (Hx & Hy & Hz & Hv).
  unfold Snow.spiral_round, SpiralSpec.pushed. cbv zeta.
  rewrite (read_Some _ _ _ Hx), (read_Some _ _ _ Hy), (read_Some _ _ _ Hz).
  cbn [Num.sub Num.neg Num.add Num.mul].
  fold (SpiralSpec.distance2 position px py pz).
  rewrite sqrt_finite by (unfold SpiralSpec.distance2; apply sum_squares_nonneg).
  cbn [Num.ltb].
  destruct (Rltb _ (snowSpiralRadius CONFIG)) eqn:E.
  - apply Rltb_true in E.
    assert (Hd : 0 <= sqrt (SpiralSpec.distance2 position px py pz))
      by apply sqrt_pos.
    unfold rand_bind, rand_lift, rand_ret. rewrite Hv.
    cbn [Vel.x Vel.y Vel.z Num.atan2 Num.add Num.cos Num.sin Num.sub Num.neg].
    rewrite div_finite by lra.
    cbn [Num.mul Num.add]. reflexivity.
  - unfold rand_ret. f_equal. f_equal.
    symmetry. apply list_insert_id. exact Hv.
Qed.

(** The push of a round is small: at most 0.1 sideways and 0.05 up or
    down, and nothing at the radius or beyond. *)
Lemma pushed_bounds (position : V3.t) (CONFIG : Config) (time : R) (i : nat)
  (px py pz vx vy vz : R) :
  exists ax ay az,
    SpiralSpec.pushed position CONFIG time i px py pz vx vy vz
    = Vel.mk (Num.Fin (vx + ax)) (Num.Fin (vy + ay)) (Num.Fin (vz + az))
    /\ ax * ax + az * az <= 0.1 * 0.1 /\ -0.05 <= ay <= 0.05
    /\ (snowSpiralRadius CONFIG
        <= sqrt (SpiralSpec.distance2 position px py pz) ->
        ax = 0 /\ ay = 0 /\ az = 0).
Proof.
  unfold SpiralSpec.pushed. cbv zeta.
  destruct (Rltb _ (snowSpiralRadius CONFIG)) eqn:E.
  - apply Rltb_true in E.
    set (d := sqrt (SpiralSpec.distance2 position px py pz)) in *.
    assert (Hd : 0 <= d) by apply sqrt_pos.
    eexists _, _, _. split; [reflexivity|].
    assert (Hf : 0 <= SpiralSpec.force CONFIG d <= 0.1).
    { unfold SpiralSpec.force.
      assert (H1 : 0 <= (snowSpiralRadius CONFIG + - d)
                         / snowSpiralRadius CONFIG <= 1).
      { split.
        - apply Rmult_le_pos; [lra|]. left. apply Rinv_0_lt_compat. lra.
        - apply (Rmult_le_reg_r (snowSpiralRadius CONFIG)); [lra|].
          unfold Rdiv. rewrite Rmult_assoc, Rinv_l by lra. lra. }
      lra. }
    split; [|split].
    + set (a := SpiralSpec.angle position px pz).
      set (f := SpiralSpec.force CONFIG d) in *.
      pose proof (sin2_cos2 a) as Hsc. unfold Rsqr in Hsc.
      replace (cos a * f * (cos a * f) + sin a * f * (sin a * f))
        with (f * f * (sin a * sin a + cos a * cos a)) by ring.
      rewrite Hsc. nra.
    + pose proof (SIN_bound (time + INR i * 0.1)). lra.
    + intros H. lra.
  - exists 0, 0, 0. rewrite !Rplus_0_r. split; [reflexivity|].
    split; [lra|]. split; [lra|]. auto.
Qed.

Definition spiral_pushed (position : V3.t) (CONFIG : Config) (time : R)
  (n : nat) (positions : list Num.num) (vels0 : list Vel.t) (tape0 : list R)
  (k : nat) (vels : list Vel.t) (tape : list R) : Prop :=
  tape = tape0 /\ length vels = n
  /\ (forall i, (k <= i < n)%nat -> vels !! i = vels0 !! i)
  /\ (forall i px py pz vx vy vz,
        (i < k)%nat -> flake_at positions vels0 i px py pz vx vy vz ->
        vels !! i
        = Some (SpiralSpec.pushed position CONFIG time i px py pz vx vy vz)).

(** [createSnowSpiral] never writes a number that is not finite and never
    fails on a finite field: whatever the configuration, the hand
    position and the clock are, the call returns without taking a draw;
    the field keeps its shape and stays finite; the velocity of every
    flake changes by at most 0.1 sideways and by at most 0.05 up or down,
    and not at all for a flake at the spiral radius or beyond. *)
Theorem createSnowSpiral_finite (n : nat) (position : V3.t) (CONFIG : Config)
  (Date_now : R) (positions : list Num.num) (vels : list Vel.t)
  (tape : list R) :
  finite_field n positions vels ->
  exists vels',
    Snow.createSnowSpiral (Some positions) vels n position CONFIG Date_now
      tape = Some (vels', tape)
    /\ finite_field n positions vels'
    /\ forall i px py pz vx vy vz,
         (i < n)%nat -> flake_at positions vels i px py pz vx vy vz ->
         exists ax ay az,
           flake_at positions vels' i px py pz (vx + ax) (vy + ay) (vz + az)
           /\ ax * ax + az * az <= 0.1 * 0.1 /\ -0.05 <= ay <= 0.05
           /\ (snowSpiralRadius CONFIG
               <= sqrt (SpiralSpec.distance2 position px py pz) ->
               ax = 0 /\ ay = 0 /\ az = 0).
Proof.
  intros Hfin. unfold Snow.createSnowSpiral. cbv zeta.
  set (time := Date_now * 0.003).
  destruct (for_each_returns
              (Snow.spiral_round positions position CONFIG time)
              (spiral_pushed position CONFIG time n positions vels tape)
              0 n 0)
    with (s := vels) (tape := tape)
    as (vels' & tape' & E & (-> & L & _ & Hdone) & _).
  - intros i vs tp Hi (-> & L & Hrest & Hdone) _.
    destruct Hfin as (_ & _ & Hf).
    destruct (Hf i ltac:(lia)) as (px & py & pz & vx & vy & vz & F).
    assert (F' : flake_at positions vs i px py pz vx vy vz).
    { destruct F as (F1 & F2 & F3 & F4). repeat split; try assumption.
      rewrite Hrest by lia. exact F4. }
    rewrite (spiral_round_spec _ _ _ _ _ _ _ _ _ _ _ _ _ F').
    eexists _, _. split; [reflexivity|]. split; [|reflexivity].
    split; [reflexivity|]. split; [rewrite length_insert; exact L|]. split.
    + intros j Hj. rewrite list_lookup_insert_ne by lia. apply Hrest. lia.
    + intros j a b c d e f Hj Fj.
      destruct (decide (j = i)) as [->|Hne].
      * destruct F as (A1 & A2 & A3 & A4), Fj as (C1 & C2 & C3 & C4).
        rewrite A1 in C1. rewrite A2 in C2. rewrite A3 in C3. rewrite A4 in C4.
        injection C1 as <-. injection C2 as <-. injection C3 as <-.
        injection C4 as <- <- <-.
        apply list_lookup_insert_eq. lia.
      * rewrite list_lookup_insert_ne by lia. apply Hdone; [lia|exact Fj].
  - destruct Hfin as (_ & F2 & _).
    split; [reflexivity|]. split; [exact F2|]. split; [auto|].
    intros i; intros; lia.
  - lia.
  - exists vels'. split; [exact E|].
    assert (Hflake : forall i px py pz vx vy vz,
               (i < n)%nat -> flake_at positions vels i px py pz vx vy vz ->
               exists ax ay az,
                 flake_at positions vels' i px py pz
                   (vx + ax) (vy + ay) (vz + az)
                 /\ ax * ax + az * az <= 0.1 * 0.1 /\ -0.05 <= ay <= 0.05
                 /\ (snowSpiralRadius CONFIG
                     <= sqrt (SpiralSpec.distance2 position px py pz) ->
                     ax = 0 /\ ay = 0 /\ az = 0)).
    { intros i px py pz vx vy vz Hi F.
      destruct (pushed_bounds position CONFIG time i px py pz vx vy vz)
        as (ax & ay & az & Ep & B).
      exists ax, ay, az. split; [|exact B].
      destruct F as (F1 & F2 & F3 & F4). repeat split; try assumption.
      rewrite <- Ep. apply Hdone; [lia|]. repeat split; assumption. }
    split; [|exact Hflake].
    destruct Hfin as (F1 & _ & Hf). split; [exact F1|]. split; [exact L|].
    intros i Hi. destruct (Hf i Hi) as (px & py & pz & vx & vy & vz & F).
    destruct (Hflake i px py pz vx vy vz Hi F) as (ax & ay & az & F' & _).
    eexists _, _, _, _, _, _. exact F'.
Qed.

Lemma createSnowSpiral_finite_witness :
  exists vels',
    Snow.createSnowSpiral (Some one_flake_positions) one_flake_velocities 1
      (V3.mk 0 5 0) CONFIG 0 [] = Some (vels', [])
    /\ finite_field 1 one_flake_positions vels'.
Proof.
  destruct (createSnowSpiral_finite 1 (V3.mk 0 5 0) CONFIG 0
              one_flake_positions one_flake_velocities [] one_flake_finite)
    as (vels' & E & F & _).
  exists vels'. split; [exact E|exact F].
Defined.

(** ** The snow field: the reach of the wave *)

Lemma apply_draws_length positions snowCount position CONFIG
  (draws : list R) :
  forall vels : list Vel.t,
  length (WaveLoop.apply_draws positions snowCount position CONFIG draws vels)
  = length vels.
Proof.
  unfold WaveLoop.apply_draws.
  induction draws as [|u draws IH]; intros vels; [reflexivity|].
  cbn [foldl]. rewrite IH. apply apply_draw_length.
Qed.

(** The wave reaches no further than its radius and takes one draw per
    round: on a tape of draws of [[0, 1)] that holds [min(200, snowCount)]
    draws, [createSnowWave] returns and takes exactly those draws; the
    velocity array keeps its length; and a flake that is not within the
    wave radius of the origin (its distance is not below the radius, or is
    not a number) keeps its velocity whatever the draws are.  With no
    flake to draw from, or before the snow exists, nothing is drawn and
    nothing changes. *)
Theorem createSnowWave_reach (positions : list Num.num) (vels : list Vel.t)
  (snowCount : nat) (position : V3.t) (CONFIG : Config) (tape : list R) :
  length vels = snowCount -> Forall (fun u => 0 <= u < 1) tape ->
  (Nat.min 200 snowCount <= length tape)%nat ->
  (exists vels',
     Snow.createSnowWave (Some positions) vels snowCount position CONFIG tape
     = Some (vels', drop (Nat.min 200 snowCount) tape)
     /\ length vels' = snowCount
     /\ (forall i,
           WaveLoop.in_wave positions position CONFIG i = false ->
           vels' !! i = vels !! i)
     /\ (snowCount = 0%nat -> vels' = vels))
  /\ Snow.createSnowWave None vels snowCount position CONFIG tape
     = Some (vels, tape).
Proof.
  intros Hlen Hr Htape. split; [|reflexivity].
  unfold Snow.createSnowWave.
  destruct snowCount as [|n].
  - exists vels. split; [reflexivity|]. split; [exact Hlen|]. auto.
  - rewrite wave_loop_spec;
      [|exact Hlen|lia|rewrite length_seq; exact Htape|exact Hr].
    rewrite length_seq. eexists. split; [reflexivity|].
    split; [rewrite apply_draws_length; exact Hlen|].
    split; [|intros H; discriminate].
    intros i Hi. apply apply_draws_lookup_outside. exact Hi.
Qed.

Lemma createSnowWave_reach_witness :
  exists vels',
    Snow.createSnowWave (Some field_positions) field_velocities 2
      wave_origin CONFIG [0.25; 0.25] = Some (vels', [])
    /\ vels' !! 1%nat = field_velocities !! 1%nat.
Proof.
  destruct (createSnowWave_reach field_positions field_velocities 2
              wave_origin CONFIG [0.25; 0.25]) as [(vels' & E & _ & H & _) _].
  - reflexivity.
  - repeat (apply Forall_cons; split; [lra|]). apply Forall_nil_2.
  - cbn. lia.
  - exists vels'. split; [exact E|]. apply H. apply field_second_outside.
Defined.

(** ** The classifier on frames of any length *)

Lemma detectGesture_result (landmarks : list Gesture.Landmark) (g : Gesture.t) :
  Gesture.detectGesture landmarks = Some g ->
  g = Gesture.open \/ g = Gesture.fist \/ g = Gesture.partial.
Proof.
  unfold Gesture.detectGesture.
  destruct (landmarks !! 4%nat); [|discriminate].
  destruct (landmarks !! 0%nat); [|discriminate].
  cbn [mbind option_bind].
  destruct (Gesture.finger_loop _ _ _) as [n|]; [|discriminate].
  cbn [mbind option_bind]. intros [= <-].
  destruct n as [|[|[|[|n]]]];
    [right; left|right; left|right; right|right; right|left]; reflexivity.
Qed.

(** [detectGesture] reads the landmarks up to index 20: it returns a
    gesture exactly on the frames that hold 21 landmarks or more, and
    throws on shorter ones; the gesture is ['open'], ['fist'] or
    ['partial'], never ['none']. *)
Theorem detectGesture_defined (landmarks : list Gesture.Landmark) :
  ((21 <= length landmarks)%nat ->
   exists g, Gesture.detectGesture landmarks = Some g)
  /\ ((length landmarks < 21)%nat -> Gesture.detectGesture landmarks = None)
  /\ (forall g, Gesture.detectGesture landmarks = Some g ->
        (21 <= length landmarks)%nat
        /\ (g = Gesture.open \/ g = Gesture.fist \/ g = Gesture.partial)).
Proof.
  assert (Hshort : (length landmarks < 21)%nat ->
                   Gesture.detectGesture landmarks = None).
  { intros Hlen.
    assert (H20 : landmarks !! 20%nat = None)
      by (apply lookup_ge_None_2; lia).
    assert (E4 : forall n, Gesture.finger_round landmarks n 4 = None).
    { intros n. unfold Gesture.finger_round.
      cbn [nth Gesture.fingerTips]. rewrite H20. reflexivity. }
    unfold Gesture.detectGesture.
    destruct (landmarks !! 4%nat); [|reflexivity].
    destruct (landmarks !! 0%nat); [|reflexivity].
    cbn [mbind option_bind Gesture.finger_loop].
    destruct (Gesture.finger_round landmarks _ 1) as [n1|];
      cbn [mbind option_bind]; [|reflexivity].
    destruct (Gesture.finger_round landmarks n1 2) as [n2|];
      cbn [mbind option_bind]; [|reflexivity].
    destruct (Gesture.finger_round landmarks n2 3) as [n3|];
      cbn [mbind option_bind]; [|reflexivity].
    rewrite E4. reflexivity. }
  split; [|split; [exact Hshort|]].
  - intros Hlen.
    assert (Hround : forall n i, (1 <= i <= 4)%nat ->
               exists m, Gesture.finger_round landmarks n i = Some m).
    { intros n i Hi. unfold Gesture.finger_round.
      assert (Hcase : (i = 1 \/ i = 2 \/ i = 3 \/ i = 4)%nat) by lia.
      destruct Hcase as [-> | [-> | [-> | ->]]];
        cbn [nth Gesture.fingerTips Gesture.fingerPIPs Gesture.fingerMCPs];
        repeat match goal with
               | |- context [landmarks !! ?k] =>
                   let l := fresh "l" in
                   let E := fresh "E" in
                   destruct (lookup_lt_is_Some_2 landmarks k) as [l E];
                     [lia|rewrite !E; cbn [mbind option_bind]]
               end;
        eexists; reflexivity. }
    unfold Gesture.detectGesture.
    destruct (lookup_lt_is_Some_2 landmarks 4) as [l4 ->]; [lia|].
    destruct (lookup_lt_is_Some_2 landmarks 0) as [l0 ->]; [lia|].
    cbn [mbind option_bind Gesture.finger_loop].
    destruct (Hround (if Rgtb (Rabs (Gesture.x l4 - Gesture.x l0)) 0.1
                      then 1%nat else 0%nat) 1%nat) as [n1 ->]; [lia|].
    cbn [mbind option_bind].
    destruct (Hround n1 2%nat) as [n2 ->]; [lia|]. cbn [mbind option_bind].
    destruct (Hround n2 3%nat) as [n3 ->]; [lia|]. cbn [mbind option_bind].
    destruct (Hround n3 4%nat) as [n4 ->]; [lia|]. cbn [mbind option_bind].
    eexists. reflexivity.
  - intros g Hg. split; [|exact (detectGesture_result landmarks g Hg)].
    destruct (Nat.lt_ge_cases (length landmarks) 21) as [Hlt|Hge];
      [|exact Hge].
    rewrite (Hshort Hlt) in Hg. discriminate.
Qed.

(** ** The guard, the button and the two entry points *)

Section WorldInvariant.

Variable parseEase : string -> R -> R.
Variable CONFIG : Config.

(** A property of the world that moving the clock, replacing the scene,
    the tweens or the timers does not touch, and that the closure which
    releases the guard preserves. *)
Variable P : World -> Prop.
Hypothesis P_scene : forall w sc, P w -> P (with_scene w sc).
Hypothesis P_now : forall w t, P w -> P (with_now w t).
Hypothesis P_tweens : forall w tws, P w -> P (with_tweens w tws).
Hypothesis P_timers : forall w tms, P w -> P (with_timers w tms).
Hypothesis P_release :
  forall w b, P w -> P (fire CONFIG (EnableButton b) w).

Lemma resume_invariant (k : Continuation) (w : World) :
  P w -> P (resume CONFIG k w).
Proof. destruct k; [auto|]. intros H. apply P_timers. exact H. Qed.

Lemma fire_invariant (cb : Callback) (w : World) :
  P w -> P (fire CONFIG cb w).
Proof.
  intros H. destruct cb as [k|k|k|b].
  - apply P_tweens. apply P_scene. exact H.
  - apply resume_invariant. exact H.
  - apply resume_invariant. apply P_scene. exact H.
  - apply P_release. exact H.
Qed.

Lemma fire_all_invariant (cbs : list Callback) :
  forall w : World, P w -> P (fire_all CONFIG cbs w).
Proof.
  unfold fire_all. induction cbs as [|cb cbs IH]; intros w H; [exact H|].
  cbn [foldl]. apply IH. apply fire_invariant. exact H.
Qed.

Lemma tick_invariant (t : R) (w : World) :
  P w -> P (tick parseEase CONFIG t w).
Proof.
  intros H. unfold tick.
  set (w1 := fire_all CONFIG _ _).
  assert (H1 : P w1).
  { apply fire_all_invariant. apply P_timers. apply P_now. exact H. }
  destruct (render_all parseEase t (tweens w1) (scene w1)) as [[sc keep] cbs].
  apply fire_all_invariant. apply P_tweens. apply P_scene. exact H1.
Qed.

Lemma advance_fuel_invariant (fuel : nat) (t : R) :
  forall w : World, P w -> P (advance_fuel parseEase CONFIG fuel t w).
Proof.
  induction fuel as [|fuel IH]; intros w H; cbn [advance_fuel];
    destruct (next_event t w); try exact H; try (apply tick_invariant; exact H).
  apply IH. apply tick_invariant. exact H.
Qed.

Lemma advance_invariant (t : R) (w : World) :
  P w -> P (advance parseEase CONFIG t w).
Proof.
  intros H. unfold advance. destruct (Rltb t (now w)); [exact H|].
  apply advance_fuel_invariant. exact H.
Qed.

End WorldInvariant.

(** The toggle button is disabled exactly while the guard is set. *)
Definition button_locked (w : World) : Prop :=
  disabled (toggleBtn w) = animating w.

Lemma gatherAll_button (CONFIG : Config) (k : Continuation) (w w' : World) :
  gatherAll CONFIG k w = Some w' ->
  toggleBtn w' = toggleBtn w /\ animating w' = animating w.
Proof.
  unfold gatherAll.
  set (wl := match starLight (scene w) with Some _ => _ | None => w end).
  assert (Hl : toggleBtn wl = toggleBtn w /\ animating wl = animating w)
    by (unfold wl; destruct (starLight (scene w)); auto).
  destruct (forEach (gather_mesh CONFIG) _ wl) as [w2|] eqn:E; [|discriminate].
  cbn [mbind option_bind]. intros [= <-].
  apply (forEach_preserves
           (fun w0 => toggleBtn w0 = toggleBtn w /\ animating w0 = animating w))
    in E; [exact E| |exact Hl].
  intros i w0 w0' Eg H0. unfold gather_mesh in Eg.
  destruct (ornaments (scene w0) !! i); [|discriminate].
  injection Eg as <-. exact H0.
Qed.

Lemma scatterAll_button (CONFIG : Config) (k : Continuation) (w w' : World) :
  scatterAll CONFIG k w = Some w' ->
  toggleBtn w' = toggleBtn w /\ animating w' = animating w.
Proof.
  unfold scatterAll.
  set (wl := match starLight (scene w) with Some _ => _ | None => w end).
  assert (Hl : toggleBtn wl = toggleBtn w /\ animating wl = animating w)
    by (unfold wl; destruct (starLight (scene w)); auto).
  destruct (forEach (scatter_mesh CONFIG) _ wl) as [w2|] eqn:E; [|discriminate].
  cbn [mbind option_bind]. intros [= <-].
  apply (forEach_preserves
           (fun w0 => toggleBtn w0 = toggleBtn w /\ animating w0 = animating w))
    in E; [exact E| |exact Hl].
  intros i w0 w0' Es H0. unfold scatter_mesh in Es.
  destruct (Placement.calculateScatterPosition CONFIG (tape w0))
    as [[p tape']|]; [|discriminate].
  injection Es as <-. exact H0.
Qed.

(** A request made while the guard is clear, if it returns: the guard is
    set, the button is disabled with its label kept, and [isGathered] is
    as the caller left it. *)
Lemma transitionState_accepted (toGathered : bool) (CONFIG : Config)
  (w w' : World) :
  animating w = false -> transitionState toGathered CONFIG w = Some w' ->
  animating w' = true
  /\ toggleBtn w' = {| disabled := true;
                       showsScatter := showsScatter (toggleBtn w) |}
  /\ isGathered w' = isGathered w.
Proof.
  intros Han E.
  pose proof (transitionState_isGathered _ _ _ _ E) as Hg.
  unfold transitionState in E. rewrite Han in E.
  destruct toGathered.
  - apply gatherAll_button in E as [Hb Ha]. auto.
  - apply scatterAll_button in E as [Hb Ha]. auto.
Qed.

Lemma transitionState_button_locked (toGathered : bool) (CONFIG : Config)
  (w w' : World) :
  button_locked w -> transitionState toGathered CONFIG w = Some w' ->
  button_locked w'.
Proof.
  intros H E. destruct (animating w) eqn:Han.
  - rewrite transitionState_refused in E by exact Han.
    injection E as <-. exact H.
  - destruct (transitionState_accepted _ _ _ _ Han E) as (Ha & Hb & _).
    unfold button_locked. rewrite Ha, Hb. reflexivity.
Qed.

Lemma advance_button_locked (parseEase : string -> R -> R) (CONFIG : Config)
  (t : R) (w : World) :
  button_locked w -> button_locked (advance parseEase CONFIG t w).
Proof.
  apply (advance_invariant parseEase CONFIG button_locked); try (intros; assumption).
  intros w0 b _. reflexivity.
Qed.

Lemma Gesture_eqb_eq (a b : Gesture.t) : Gesture.eqb a b = true -> a = b.
Proof. destruct a, b; (reflexivity || discriminate). Qed.

(** The four ways out of the three-way [if] of [onHandResults]. *)
Lemma trigger_outcome (CONFIG : Config) (g : Gesture.t) (t : R) (a a' : App) :
  HandTracking.trigger CONFIG g t a = Some a' ->
  lastGesture a' = lastGesture a
  /\ ((g = Gesture.fist /\ isGathered (world a) = false
       /\ animating (world a) = false
       /\ calls a' = calls a ++ [CallTransitionState true]
       /\ isGathered (world a') = true /\ animating (world a') = true
       /\ toggleBtn (world a') = {| disabled := true; showsScatter := true |}
       /\ lastGestureTime a' = t)
      \/ (g = Gesture.open /\ isGathered (world a) = true
          /\ animating (world a) = false
          /\ calls a' = calls a ++ [CallTransitionState false;
                                    CallCreateSnowWave]
          /\ isGathered (world a') = false /\ animating (world a') = true
          /\ toggleBtn (world a')
             = {| disabled := true; showsScatter := false |}
          /\ lastGestureTime a' = t)
      \/ (g = Gesture.open
          /\ (isGathered (world a) = false \/ animating (world a) = true)
          /\ calls a' = calls a ++ [CallCreateSnowWave]
          /\ isGathered (world a') = isGathered (world a)
          /\ animating (world a') = animating (world a)
          /\ toggleBtn (world a') = toggleBtn (world a)
          /\ lastGestureTime a' = t)
      \/ (g <> Gesture.open
          /\ (g = Gesture.fist ->
              isGathered (world a) = true \/ animating (world a) = true)
          /\ a' = a)).
Proof.
  unfold HandTracking.trigger.
  destruct (Gesture.eqb g Gesture.fist && negb (isGathered (world a))
            && negb (animating (world a))) eqn:B1.
  - apply andb_true_iff in B1 as [B1 B1c].
    apply andb_true_iff in B1 as [B1a B1b].
    apply Gesture_eqb_eq in B1a. apply negb_true_iff in B1b, B1c.
    unfold HandTracking.call_transitionState. cbn [world with_world].
    destruct (transitionState true CONFIG _) as [w|] eqn:E; [|discriminate].
    cbn [mbind option_bind]. intros [= <-].
    destruct (transitionState_accepted true CONFIG
                (with_isGathered (world a) true) w B1c E)
      as (Ha & Hb & Hg).
    split; [reflexivity|]. left.
    cbn [calls world lastGestureTime with_lastGestureTime with_world
         record_call updateButtonState with_toggleBtn isGathered animating
         toggleBtn disabled showsScatter] in *.
    rewrite Hb. cbn [disabled].
    repeat split; assumption.
  - destruct (Gesture.eqb g Gesture.open && isGathered (world a)
              && negb (animating (world a))) eqn:B2.
    + apply andb_true_iff in B2 as [B2 B2c].
      apply andb_true_iff in B2 as [B2a B2b].
      apply Gesture_eqb_eq in B2a. apply negb_true_iff in B2c.
      unfold HandTracking.call_transitionState. cbn [world with_world].
      destruct (transitionState false CONFIG _) as [w|] eqn:E; [|discriminate].
      cbn [mbind option_bind].
      destruct (transitionState_accepted false CONFIG
                  (with_isGathered (world a) false) w B2c E)
        as (Ha & Hb & Hg).
      unfold HandTracking.call_createSnowWave.
      destruct (Snow.createSnowWave _ _ _ _ _ _) as [[vs tape']|];
        [|discriminate].
      cbn [mbind option_bind]. intros [= <-].
      split; [reflexivity|]. right; left.
      cbn [calls world lastGestureTime with_lastGestureTime with_world
           record_call updateButtonState with_toggleBtn isGathered animating
           toggleBtn disabled showsScatter with_snowVelocities with_tape] in *.
      rewrite Hb, <- app_assoc. cbn [disabled app].
      repeat split; assumption.
    + destruct (Gesture.eqb g Gesture.open) eqn:B3.
      * apply Gesture_eqb_eq in B3.
        unfold HandTracking.call_createSnowWave.
        destruct (Snow.createSnowWave _ _ _ _ _ _) as [[vs tape']|];
          [|discriminate].
        cbn [mbind option_bind]. intros [= <-].
        split; [reflexivity|]. right; right; left.
        split; [exact B3|]. split; [|repeat split].
        cbn [andb] in B2.
        destruct (isGathered (world a)); [|left; reflexivity].
        destruct (animating (world a)); [right; reflexivity|discriminate].
      * intros [= <-]. split; [reflexivity|]. right; right; right.
        split; [intros ->; discriminate|]. split; [|reflexivity].
        intros ->. cbn [Gesture.eqb andb] in B1.
        destruct (isGathered (world a)); [left; reflexivity|].
        destruct (animating (world a)); [right; reflexivity|discriminate].
Qed.

(** A frame of hand results, if it returns: either nothing was triggered
    ([isGathered], the guard, the button and the two debounce variables
    are as they were and at most the spiral was called), or the gate was
    open, the gesture became the last gesture, and the three-way [if] ran
    on the state the frame found. *)
Lemma onHandResults_outcome (CONFIG : Config)
  (landmarks : list Gesture.Landmark) (rest : list (list Gesture.Landmark))
  (g : Gesture.t) (a a' : App) :
  Gesture.detectGesture landmarks = Some g ->
  HandTracking.onHandResults (landmarks :: rest) CONFIG a = Some a' ->
  exists a1 a2,
    calls a1 = calls a ++ (if Gesture.eqb g Gesture.fist
                           then [CallCreateSnowSpiral] else [])
    /\ SameControl a a1 /\ toggleBtn (world a1) = toggleBtn (world a)
    /\ ((a2 = a1 /\ lastGesture a' = lastGesture a
         /\ (lastGesture a = Some g
             \/ HandTracking.Date_now a - lastGestureTime a
                <= gestureDebounceTime (handTracking CONFIG)))
        \/ (HandTracking.trigger CONFIG g (HandTracking.Date_now a) a1
            = Some a2
            /\ lastGesture a <> Some g
            /\ HandTracking.Date_now a - lastGestureTime a
               > gestureDebounceTime (handTracking CONFIG)
            /\ lastGesture a' = Some g))
    /\ calls a' = calls a2 /\ world a' = world a2
    /\ lastGestureTime a' = lastGestureTime a2.
Proof.
  intros Hg. unfold HandTracking.onHandResults.
  destruct (landmarks !! 9%nat) as [palm|]; [|discriminate].
  cbn [mbind option_bind]. rewrite Hg. cbn [mbind option_bind].
  set (a0 := with_handTrackingState _ _).
  assert (Hsp : forall a1,
            (if Gesture.eqb g Gesture.fist
             then HandTracking.call_createSnowSpiral CONFIG a0
             else Some a0) = Some a1 ->
            calls a1 = calls a ++ (if Gesture.eqb g Gesture.fist
                                   then [CallCreateSnowSpiral] else [])
            /\ SameControl a a1 /\ toggleBtn (world a1) = toggleBtn (world a)).
  { intros a1. destruct (Gesture.eqb g Gesture.fist).
    - unfold HandTracking.call_createSnowSpiral.
      destruct (Snow.createSnowSpiral _ _ _ _ _ _ _) as [[vs tape']|];
        [|discriminate].
      intros [= <-]. split; [reflexivity|]. split; [split|]; reflexivity.
    - intros [= <-]. rewrite app_nil_r.
      split; [reflexivity|]. split; [split|]; reflexivity. }
  destruct (if Gesture.eqb g Gesture.fist then _ else _) as [a1|];
    [|discriminate].
  cbn [mbind option_bind].
  destruct (Hsp a1 eq_refl) as (C1 & [L1 T1 G1 A1] & B1).
  change (HandTracking.Date_now a0) with (HandTracking.Date_now a).
  destruct (negb (HandTracking.same_gesture g (lastGesture a1))
            && Rgtb (HandTracking.Date_now a - lastGestureTime a1)
                 (gestureDebounceTime (handTracking CONFIG))) eqn:Gate.
  - destruct (HandTracking.trigger CONFIG g (HandTracking.Date_now a) a1)
      as [a2|] eqn:E2; [|discriminate].
    cbn [mbind option_bind]. intros [= <-]. exists a1, a2.
    split; [exact C1|]. split; [split; assumption|]. split; [exact B1|].
    split; [|repeat split].
    right. apply andb_true_iff in Gate as [Gate1 Gate2].
    split; [exact E2|]. split; [|split; [|reflexivity]].
    + rewrite L1 in Gate1. intros Hl. rewrite Hl in Gate1. cbn in Gate1.
      destruct g; discriminate.
    + unfold Rgtb in Gate2. apply Rltb_true in Gate2.
      rewrite T1 in Gate2. exact Gate2.
  - intros [= <-]. exists a1, a1.
    split; [exact C1|]. split; [split; assumption|]. split; [exact B1|].
    split; [|repeat split].
    left. split; [reflexivity|]. split; [exact L1|].
    apply andb_false_iff in Gate as [Gate|Gate].
    + left. apply negb_false_iff in Gate. rewrite L1 in Gate.
      unfold HandTracking.same_gesture in Gate.
      destruct (lastGesture a) as [g'|]; [|discriminate].
      apply Gesture_eqb_eq in Gate. congruence.
    + right. unfold Rgtb in Gate. apply Rltb_false in Gate.
      rewrite T1 in Gate. exact Gate.
Qed.

Lemma onHandResults_no_gesture (CONFIG : Config)
  (landmarks : list Gesture.Landmark) (rest : list (list Gesture.Landmark))
  (a : App) :
  Gesture.detectGesture landmarks = None ->
  HandTracking.onHandResults (landmarks :: rest) CONFIG a = None.
Proof.
  intros Hg. unfold HandTracking.onHandResults.
  destruct (landmarks !! 9%nat); [|reflexivity].
  cbn [mbind option_bind]. rewrite Hg. reflexivity.
Qed.

(** The toggle button is disabled exactly while the guard is set, and
    stays so whatever happens: over any sequence of calls of
    [toggleState], transition requests and animation frames, and over
    any frame of hand results, a world in which [btn.disabled] equals
    [animating] is left as one.  A click on the enabled button therefore
    always finds the guard clear. *)
Theorem button_disabled_while_animating :
  (forall (parseEase : string -> R -> R) (CONFIG : Config)
          (cs : list Command) (w w' : World),
     button_locked w -> run parseEase CONFIG cs w = Some w' ->
     button_locked w')
  /\ (forall (CONFIG : Config)
             (multiHandLandmarks : list (list Gesture.Landmark))
             (a a' : App),
        button_locked (world a) ->
        HandTracking.onHandResults multiHandLandmarks CONFIG a = Some a' ->
        button_locked (world a')).
Proof.
  split.
  - intros parseEase CONFIG cs.
    induction cs as [|c cs IH]; intros w w' H E.
    + injection E as <-. exact H.
    + cbn [run] in E.
      destruct (step parseEase CONFIG c w) as [w1|] eqn:E1; [|discriminate].
      cbn [mbind option_bind] in E. apply (IH w1 w'); [|exact E].
      destruct c as [|b|t]; cbn [step] in E1.
      * unfold toggleState in E1.
        apply (transitionState_button_locked _ _
                 (with_isGathered w (negb (isGathered w))) _ H E1).
      * apply (transitionState_button_locked _ _ _ _ H E1).
      * injection E1 as <-. apply advance_button_locked. exact H.
  - intros CONFIG mh a a' H E. destruct mh as [|landmarks rest].
    + injection E as <-. exact H.
    + destruct (Gesture.detectGesture landmarks) as [g|] eqn:Hg;
        [|rewrite onHandResults_no_gesture in E by exact Hg; discriminate].
      destruct (onHandResults_outcome CONFIG landmarks rest g a a' Hg E)
        as (a1 & a2 & _ & [_ _ _ A1] & B1 & Hcase & _ & Hw & _).
      unfold button_locked in *. rewrite Hw.
      destruct Hcase as [(-> & _)|(Et & _)]; [congruence|].
      destruct (trigger_outcome CONFIG g _ a1 a2 Et) as (_ & Hout).
      destruct Hout as [(_ & _ & _ & _ & _ & -> & -> & _)
                       |[(_ & _ & _ & _ & _ & -> & -> & _)
                        |[(_ & _ & _ & _ & -> & -> & _)|(_ & _ & ->)]]];
        try reflexivity; congruence.
Qed.

(** The gesture path never requests a transition that is refused, and
    never moves [isGathered] without one: whenever a frame of hand results
    calls [transitionState(b)], the guard was clear and [isGathered] was
    the opposite of [b] when the frame began, and when it ends
    [isGathered] is [b], the guard is set, the button is labelled for [b]
    and the debounce clock is set to the time of the frame; a frame that
    calls no [transitionState] leaves [isGathered] and the guard as they
    were. *)
Theorem gesture_transitions_accepted (CONFIG : Config)
  (multiHandLandmarks : list (list Gesture.Landmark)) (a a' : App) :
  HandTracking.onHandResults multiHandLandmarks CONFIG a = Some a' ->
  exists added,
    calls a' = calls a ++ added
    /\ (forall b, CallTransitionState b ∈ added ->
          animating (world a) = false
          /\ isGathered (world a) = negb b
          /\ isGathered (world a') = b
          /\ animating (world a') = true
          /\ showsScatter (toggleBtn (world a')) = b
          /\ lastGestureTime a' = HandTracking.Date_now a)
    /\ ((forall b, CallTransitionState b ∉ added) ->
        isGathered (world a') = isGathered (world a)
        /\ animating (world a') = animating (world a)).
Proof.
  intros E. destruct multiHandLandmarks as [|landmarks rest].
  - injection E as <-. exists []. rewrite app_nil_r.
    split; [reflexivity|]. split; [|auto].
    intros b Hb. apply elem_of_nil in Hb. contradiction.
  - destruct (Gesture.detectGesture landmarks) as [g|] eqn:Hg;
      [|rewrite onHandResults_no_gesture in E by exact Hg; discriminate].
    destruct (onHandResults_outcome CONFIG landmarks rest g a a' Hg E)
      as (a1 & a2 & C1 & [_ _ G1 A1] & _ & Hcase & Hc & Hw & Ht).
    set (spiral := if Gesture.eqb g Gesture.fist
                   then [CallCreateSnowSpiral] else []) in *.
    assert (Hsp : forall b, CallTransitionState b ∉ spiral).
    { intros b Hb. unfold spiral in Hb. destruct (Gesture.eqb g Gesture.fist).
      - apply list_elem_of_singleton in Hb. discriminate.
      - apply elem_of_nil in Hb. contradiction. }
    rewrite Hw, Hc, Ht.
    destruct Hcase as [(-> & _)|(Et & _)].
    { exists spiral. split; [exact C1|]. split; [|auto].
      intros b Hb. destruct (Hsp b Hb). }
    destruct (trigger_outcome CONFIG g _ a1 a2 Et) as (_ & Hout).
    destruct Hout as [(_ & G & A & C & G' & A' & B' & T')
                     |[(_ & G & A & C & G' & A' & B' & T')
                      |[(_ & _ & C & G' & A' & _ & _)|(_ & _ & ->)]]].
    + exists (spiral ++ [CallTransitionState true]).
      split; [rewrite C, C1, app_assoc; reflexivity|]. split.
      * intros b Hb. apply elem_of_app in Hb as [Hb|Hb]; [destruct (Hsp b Hb)|].
        apply list_elem_of_singleton in Hb. injection Hb as ->.
        rewrite B'. cbn [showsScatter negb].
        repeat split; congruence.
      * intros Hno. exfalso. apply (Hno true).
        apply elem_of_app. right. apply list_elem_of_here.
    + exists (spiral ++ [CallTransitionState false; CallCreateSnowWave]).
      split; [rewrite C, C1, app_assoc; reflexivity|]. split.
      * intros b Hb. apply elem_of_app in Hb as [Hb|Hb]; [destruct (Hsp b Hb)|].
        apply elem_of_cons in Hb as [Hb|Hb];
          [|apply list_elem_of_singleton in Hb; discriminate].
        injection Hb as ->.
        rewrite B'. cbn [showsScatter negb].
        repeat split; congruence.
      * intros Hno. exfalso. apply (Hno false).
        apply elem_of_app. right. apply list_elem_of_here.
    + exists (spiral ++ [CallCreateSnowWave]).
      split; [rewrite C, C1, app_assoc; reflexivity|]. split.
      * intros b Hb. apply elem_of_app in Hb as [Hb|Hb]; [destruct (Hsp b Hb)|].
        apply list_elem_of_singleton in Hb. discriminate.
      * intros _. split; congruence.
    + exists spiral. split; [exact C1|]. split; [|auto].
      intros b Hb. destruct (Hsp b Hb).
Qed.

(** A first fist on a scattered world at rest returns. *)
Lemma first_fist_returns :
  exists a',
    HandTracking.onHandResults [frame_folded] CONFIG app_at_2s = Some a'.
Proof.
  destruct (onHandResults_first_fist CONFIG frame_folded []
              {| Gesture.x := 0.5; Gesture.y := 0.5 |} app_at_2s)
    as (a1 & E1 & _); try reflexivity.
  - apply detectGesture_folded.
  - unfold HandTracking.Date_now. cbn. lra.
  - exists a1. exact E1.
Qed.

Lemma gesture_transitions_accepted_witness :
  exists a' added,
    HandTracking.onHandResults [frame_folded] CONFIG app_at_2s = Some a'
    /\ calls a' = calls app_at_2s ++ added.
Proof.
  destruct first_fist_returns as (a' & E).
  destruct (gesture_transitions_accepted CONFIG [frame_folded] app_at_2s a' E)
    as (added & C & _).
  exists a', added. split; [exact E|exact C].
Defined.

(** *** A fist shown during a transition *)

(** The fist is held: frames of hand results that classify a fist come
    in, and the animation runs on between them. *)
Inductive fist_held (parseEase : string -> R -> R) (CONFIG : Config)
  : App -> App -> Prop :=
| fist_held_now (a : App) : fist_held parseEase CONFIG a a
| fist_held_frame (a a1 a2 : App) (landmarks : list Gesture.Landmark)
    (rest : list (list Gesture.Landmark)) :
    fist_held parseEase CONFIG a a1 ->
    Gesture.detectGesture landmarks = Some Gesture.fist ->
    HandTracking.onHandResults (landmarks :: rest) CONFIG a1 = Some a2 ->
    fist_held parseEase CONFIG a a2
| fist_held_tick (a a1 : App) (t : R) :
    fist_held parseEase CONFIG a a1 ->
    fist_held parseEase CONFIG a
      (with_world a1 (advance parseEase CONFIG t (world a1))).

Lemma advance_isGathered (parseEase : string -> R -> R) (CONFIG : Config)
  (t : R) (w : World) :
  isGathered (advance parseEase CONFIG t w) = isGathered w.
Proof.
  apply (advance_invariant parseEase CONFIG
           (fun w0 => isGathered w0 = isGathered w));
    try (intros; assumption); try reflexivity.
Qed.

(** While the last gesture is the fist and the fist is held, nothing but
    the spiral is called. *)
Lemma fist_held_quiet (parseEase : string -> R -> R) (CONFIG : Config)
  (a a' : App) :
  fist_held parseEase CONFIG a a' ->
  lastGesture a = Some Gesture.fist ->
  lastGesture a' = Some Gesture.fist
  /\ lastGestureTime a' = lastGestureTime a
  /\ isGathered (world a') = isGathered (world a)
  /\ exists spirals,
       calls a' = calls a ++ spirals /\ discrete_actions spirals = [].
Proof.
  intros Hheld Hlast.
  induction Hheld as [a|a a1 a2 landmarks rest _ IH Hg E|a a1 t _ IH].
  - split; [exact Hlast|]. split; [reflexivity|]. split; [reflexivity|].
    exists []. rewrite app_nil_r. auto.
  - destruct (IH Hlast) as (L1 & T1 & G1 & spirals & C1 & D1).
    destruct (onHandResults_outcome CONFIG landmarks rest Gesture.fist a1 a2
                Hg E)
      as (a3 & a4 & C3 & [_ T3 G3 _] & _ & Hcase & Hc & Hw & Ht).
    destruct Hcase as [(-> & L2 & _)|(_ & Hne & _)]; [|congruence].
    rewrite Hw, Hc, Ht, L2, T3, G3, C3, C1.
    split; [exact L1|]. split; [exact T1|]. split; [exact G1|].
    exists (spirals ++ [CallCreateSnowSpiral]).
    cbn [Gesture.eqb]. rewrite app_assoc. split; [reflexivity|].
    rewrite discrete_actions_app, D1. reflexivity.
  - destruct (IH Hlast) as (L1 & T1 & G1 & spirals & C1 & D1).
    cbn [lastGesture lastGestureTime world calls with_world].
    rewrite advance_isGathered.
    split; [exact L1|]. split; [exact T1|]. split; [exact G1|].
    exists spirals. auto.
Qed.

(** A fist first shown while a transition is in flight is lost: the frame
    passes the debounce gate, calls the spiral and nothing else, and
    records the fist as the last gesture without restarting the debounce
    clock; from then on, for as long as the fist is held, however many
    frames come in and however far the animation runs (the guard
    clears), no transition is requested and [isGathered] stays what it
    was.  The tree gathers only after another gesture has been seen. *)
Theorem fist_shown_in_flight_is_lost (parseEase : string -> R -> R)
  (CONFIG : Config) (landmarks : list Gesture.Landmark)
  (rest : list (list Gesture.Landmark)) (a a' : App) :
  Gesture.detectGesture landmarks = Some Gesture.fist ->
  animating (world a) = true ->
  lastGesture a <> Some Gesture.fist ->
  HandTracking.Date_now a - lastGestureTime a
  > gestureDebounceTime (handTracking CONFIG) ->
  HandTracking.onHandResults (landmarks :: rest) CONFIG a = Some a' ->
  calls a' = calls a ++ [CallCreateSnowSpiral]
  /\ lastGesture a' = Some Gesture.fist
  /\ lastGestureTime a' = lastGestureTime a
  /\ isGathered (world a') = isGathered (world a)
  /\ forall a'',
       fist_held parseEase CONFIG a' a'' ->
       lastGesture a'' = Some Gesture.fist
       /\ isGathered (world a'') = isGathered (world a)
       /\ exists spirals,
            calls a'' = calls a' ++ spirals
            /\ discrete_actions spirals = [].
Proof.
  intros Hg Han Hne Hgate E.
  destruct (onHandResults_outcome CONFIG landmarks rest Gesture.fist a a'
              Hg E)
    as (a1 & a2 & C1 & [_ T1 G1 A1] & _ & Hcase & Hc & Hw & Ht).
  cbn [Gesture.eqb] in C1.
  destruct Hcase as [(_ & _ & [Hl|Hl])|(Et & _ & _ & L')];
    [congruence|lra|].
  destruct (trigger_outcome CONFIG Gesture.fist _ a1 a2 Et) as (_ & Hout).
  destruct Hout as [(_ & _ & A & _)
                   |[(Hopen & _)|[(Hopen & _)|(_ & _ & ->)]]];
    [congruence|discriminate|discriminate|].
  assert (Hstate : calls a' = calls a ++ [CallCreateSnowSpiral]
                   /\ lastGesture a' = Some Gesture.fist
                   /\ lastGestureTime a' = lastGestureTime a
                   /\ isGathered (world a') = isGathered (world a)).
  { rewrite Hc, Ht, Hw. repeat split; congruence. }
  destruct Hstate as (S1 & S2 & S3 & S4).
  split; [exact S1|]. split; [exact S2|]. split; [exact S3|].
  split; [exact S4|].
  intros a'' Hheld.
  destruct (fist_held_quiet parseEase CONFIG a' a'' Hheld S2)
    as (Q1 & _ & Q3 & Q4).
  split; [exact Q1|]. split; [congruence|exact Q4].
Qed.

(** The program two seconds after start, a transition in flight. *)
Definition app_in_flight : App :=
  {| world := with_animating (with_now world400 2) true;
     snowParticles := None; snowVelocities := [];
     handTrackingState := {| detected := false; hand_position := V3.mk 0 0 0;
                             gesture := Gesture.none |};
     lastGesture := None; lastGestureTime := 0; calls := [] |}.

Lemma fist_in_flight_returns :
  exists a',
    HandTracking.onHandResults [frame_folded] CONFIG app_in_flight = Some a'.
Proof.
  unfold HandTracking.onHandResults.
  change (frame_folded !! 9%nat)
    with (Some {| Gesture.x := 0.5; Gesture.y := 0.5 |}).
  cbn [mbind option_bind]. rewrite detectGesture_folded.
  cbn [mbind option_bind Gesture.eqb].
  unfold HandTracking.call_createSnowSpiral at 1.
  cbn [snowParticles with_handTrackingState app_in_flight
       Snow.createSnowSpiral rand_ret mbind option_bind].
  cbn [lastGesture record_call with_snowVelocities with_world
       with_handTrackingState lastGestureTime
       HandTracking.same_gesture negb andb].
  unfold Rgtb. rewrite Rltb_lt by (unfold HandTracking.Date_now; cbn; lra).
  unfold HandTracking.trigger.
  cbn [Gesture.eqb world record_call with_snowVelocities with_world
       with_handTrackingState isGathered animating with_tape with_animating
       with_now world400 andb negb mbind option_bind].
  eexists. reflexivity.
Qed.

Lemma fist_shown_in_flight_is_lost_witness :
  exists a',
    HandTracking.onHandResults [frame_folded] CONFIG app_in_flight = Some a'
    /\ calls a' = [CallCreateSnowSpiral]
    /\ lastGesture a' = Some Gesture.fist.
Proof.
  destruct fist_in_flight_returns as (a' & E).
  destruct (fist_shown_in_flight_is_lost linear_ease CONFIG frame_folded []
              app_in_flight a' detectGesture_folded)
    as (H1 & H2 & _).
  - reflexivity.
  - discriminate.
  - unfold HandTracking.Date_now. cbn. lra.
  - exact E.
  - exists a'. split; [exact E|]. split; [exact H1|exact H2].
Defined.

(** ** The ornaments at start-up (js/entities/ornaments.js) *)

Module Ornaments.

(** An ornament as [createOrnaments] builds it: the mesh with its position
    and its two targets, the shape and size of its geometry, the colour of
    its material ([None] is a colour read outside the palette), and the
    rest of [userData]. *)
Record Ornament : Type := {
  mesh : Mesh;
  isBox : bool;
  size : R;
  color : option Z;
  rotationSpeed : V3.t;
  index : nat
}.

Definition colorArray (CONFIG : SceneConfig) : list Z :=
  [colors_red (colors CONFIG); colors_green (colors CONFIG);
   colors_gold (colors CONFIG); colors_brown (colors CONFIG)].

(** The draws shared by the two loops, in the order of the source: the
    shape, the colour, the three rotation speeds and the scatter position;
    the mesh starts at its scatter position. *)
Definition finish (CONFIG : SceneConfig) (size : R) (index : nat)
  (treePos : V3.t) (ornaments : list Ornament) : Rand (list Ornament) :=
  let* u := Math_random in
  let isBox := Rgtb u 0.5 in
  let* u := Math_random in
  let color :=
    Snow.lookupZ (colorArray CONFIG)
      (Zfloor (u * INR (length (colorArray CONFIG)))) in
  let* u := Math_random in
  let rx := (u - 0.5) * 0.02 in
  let* u := Math_random in
  let ry := (u - 0.5) * 0.02 in
  let* u := Math_random in
  let rz := (u - 0.5) * 0.02 in
  let* scatterPos := Placement.calculateScatterPosition CONFIG in
  rand_ret (ornaments
            ++ [ {| mesh := {| position := scatterPos;
                               treePosition := treePos;
                               scatterPosition := scatterPos |};
                    isBox := isBox; size := size; color := color;
                    rotationSpeed := V3.mk rx ry rz; index := index |} ]).

(** The body of the first loop of [createOrnaments]. *)
Definition ornament_round (CONFIG : SceneConfig) (i : nat)
  (ornaments : list Ornament) : Rand (list Ornament) :=
  let H := treeHeight CONFIG in
  let* treePos :=
    Placement.calculateTreePosition i (ornamentCount CONFIG) CONFIG in
  let y := V3.y treePos in
  let y_normalized := (y + H / 2) / H in
  let* skip :=
    if Rgtb y_normalized 0.75
    then let* u := Math_random in rand_ret (Rltb u 0.3)
    else rand_ret false in
  if skip then rand_ret ornaments
  else
    let sizeMultiplier := if Rltb y (-5) then 0.8 else 1.0 in
    let* u := Math_random in
    let baseSize := 0.3 + u * 0.4 in
    let size := baseSize * sizeMultiplier in
    finish CONFIG size i treePos ornaments.

(** The body of the second loop: 100 more ornaments in the bottom third. *)
Definition extra_round (CONFIG : SceneConfig) (i : nat)
  (ornaments : list Ornament) : Rand (list Ornament) :=
  let H := treeHeight CONFIG in
  let R_base := treeBaseRadius CONFIG in
  let* u := Math_random in
  let y := - H / 2 + u * (H / 3) in
  let y_local := y + H / 2 in
  let r_at_y := R_base * (1 - y_local / H) in
  let* u := Math_random in
  let theta := u * PI * 2 in
  let* u := Math_random in
  let r_random := r_at_y * (0.7 + u * 0.5) in
  let x := r_random * cos theta in
  let z := r_random * sin theta in
  let* u := Math_random in
  let size := (0.25 + u * 0.3) * 0.8 in
  finish CONFIG size (ornamentCount CONFIG + i) (V3.mk x y z) ornaments.

(** [createOrnaments(scene, CONFIG)] *)
Definition createOrnaments (CONFIG : SceneConfig) : Rand (list Ornament) :=
  let* ornaments :=
    for_each (ornament_round CONFIG) (seq 0 (ornamentCount CONFIG)) [] in
  for_each (extra_round CONFIG) (seq 0 100) ornaments.

End Ornaments.

(** The loop of [calculateScatterPosition] leaves a rest of the tape. *)
Lemma rejection_loop_rest (Q : R -> Prop) (radius : R) (tape rest : list R)
  (p : V3.t) :
  Placement.rejection_loop radius tape = Some (p, rest) ->
  Forall Q tape -> Forall Q rest.
Proof.
  revert p rest.
  induction tape as [tape IH] using (induction_ltof1 _ (@length R)).
  intros p rest H HQ.
  destruct tape as [|u1 [|u2 [|u3 tape']]]; try discriminate.
  rewrite rejection_loop_round in H. cbv zeta in H.
  apply Forall_cons in HQ as [_ HQ]. apply Forall_cons in HQ as [_ HQ].
  apply Forall_cons in HQ as [_ HQ].
  destruct (Rgtb _ _).
  - eapply IH; [|exact H|exact HQ]. unfold ltof. simpl. lia.
  - injection H as <- <-. exact HQ.
Qed.

(** The colour read from the palette is one of its four colours. *)
Definition palette_color (CONFIG : SceneConfig) (color : option Z) : Prop :=
  exists c, color = Some c /\ In c (Ornaments.colorArray CONFIG).

Lemma palette_pick (CONFIG : SceneConfig) (u : R) :
  0 <= u < 1 ->
  palette_color CONFIG
    (Snow.lookupZ (Ornaments.colorArray CONFIG)
       (Zfloor (u * INR (length (Ornaments.colorArray CONFIG))))).
Proof.
  intros Hu.
  pose proof (random_index_range u (length (Ornaments.colorArray CONFIG)) Hu)
    as Hj.
  set (j := Zfloor _) in *. cbn [Ornaments.colorArray length] in Hj.
  specialize (Hj ltac:(lia)).
  unfold Snow.lookupZ. destruct (Z.ltb_spec j 0); [lia|].
  destruct (lookup_lt_is_Some_2 (Ornaments.colorArray CONFIG) (Z.to_nat j))
    as [c Hc]; [cbn [Ornaments.colorArray length]; lia|].
  exists c. split; [exact Hc|].
  apply list_elem_of_In. eapply list_elem_of_lookup_2. exact Hc.
Qed.

(** An ornament as it is when the program starts: at its scatter
    position, inside the scatter sphere, its tree position between the
    base and the tip of the tree, its size between 0.2 and 0.7, its colour
    one of the palette. *)
Definition ornament_ok (CONFIG : SceneConfig) (o : Ornaments.Ornament)
  : Prop :=
  position (Ornaments.mesh o) = scatterPosition (Ornaments.mesh o)
  /\ (let p := position (Ornaments.mesh o) in
      V3.x p * V3.x p + V3.y p * V3.y p + V3.z p * V3.z p
      <= scatterRadius CONFIG * scatterRadius CONFIG)
  /\ - (treeHeight CONFIG / 2) <= V3.y (treePosition (Ornaments.mesh o))
     <= treeHeight CONFIG / 2
  /\ 0.2 <= Ornaments.size o < 0.7
  /\ palette_color CONFIG (Ornaments.color o).

Lemma finish_ok (CONFIG : SceneConfig) (size : R) (index : nat)
  (treePos : V3.t) (ornaments ornaments' : list Ornaments.Ornament)
  (tape tape' : list R) :
  Ornaments.finish CONFIG size index treePos ornaments tape
  = Some (ornaments', tape') ->
  Forall (fun u => 0 <= u < 1) tape ->
  exists o,
    ornaments' = ornaments ++ [o]
    /\ Forall (fun u => 0 <= u < 1) tape'
    /\ Ornaments.index o = index /\ Ornaments.size o = size
    /\ treePosition (Ornaments.mesh o) = treePos
    /\ position (Ornaments.mesh o) = scatterPosition (Ornaments.mesh o)
    /\ (let p := position (Ornaments.mesh o) in
        V3.x p * V3.x p + V3.y p * V3.y p + V3.z p * V3.z p
        <= scatterRadius CONFIG * scatterRadius CONFIG)
    /\ palette_color CONFIG (Ornaments.color o).
Proof.
  intros E Hr. unfold Ornaments.finish, rand_bind, Math_random in E.
  destruct tape as [|u1 [|u2 [|u3 [|u4 [|u5 tape]]]]]; try discriminate.
  apply Forall_cons in Hr as [_ Hr]. apply Forall_cons in Hr as [Hu2 Hr].
  do 3 (apply Forall_cons in Hr as [_ Hr]).
  destruct (Placement.calculateScatterPosition CONFIG tape)
    as [[p rest]|] eqn:Es; [|discriminate].
  unfold rand_ret in E. injection E as <- <-.
  eexists. split; [reflexivity|].
  split; [exact (rejection_loop_rest _ _ _ _ _ Es Hr)|].
  cbn [Ornaments.index Ornaments.size Ornaments.mesh Ornaments.color
       position treePosition scatterPosition].
  do 4 (split; [reflexivity|]).
  split; [exact (rejection_loop_inside _ _ _ _ Es)|].
  apply palette_pick. exact Hu2.
Qed.

(** The state of the loops of [createOrnaments]. *)
Definition ornaments_built (CONFIG : SceneConfig) (lo hi : nat)
  (ornaments : list Ornaments.Ornament) (tape : list R) : Prop :=
  Forall (ornament_ok CONFIG) ornaments
  /\ (lo <= length ornaments <= hi)%nat
  /\ Forall (fun u => 0 <= u < 1) tape.

Lemma ornament_round_built (CONFIG : SceneConfig) (i k : nat)
  (ornaments ornaments' : list Ornaments.Ornament) (tape tape' : list R) :
  0 < treeHeight CONFIG -> (i < ornamentCount CONFIG)%nat ->
  ornaments_built CONFIG 0 k ornaments tape ->
  Ornaments.ornament_round CONFIG i ornaments tape
  = Some (ornaments', tape') ->
  ornaments_built CONFIG 0 (S k) ornaments' tape'.
Proof.
  intros HH Hi (Hok & Hlen & Hr) E.
  unfold Ornaments.ornament_round in E. cbv zeta in E.
  unfold rand_bind at 1 in E.
  destruct tape as [|u_theta [|u_r tape]]; try discriminate.
  destruct (calculateTreePosition_y i (ornamentCount CONFIG) CONFIG
              u_theta u_r tape) as (p & Ep & Hy).
  rewrite Ep in E.
  apply Forall_cons in Hr as [_ Hr]. apply Forall_cons in Hr as [_ Hr].
  assert (Hpy : - (treeHeight CONFIG / 2) <= V3.y p <= treeHeight CONFIG / 2).
  { rewrite Hy.
    set (tw := Math_pow (INR i / INR (ornamentCount CONFIG)) 1.7).
    assert (Htw : 0 <= tw <= 1).
    { split; [apply Math_pow_nonneg|].
      apply Math_pow_le_1; [|lra].
      split; [apply ratio_nonneg; lia|apply ratio_le_1; lia]. }
    split; nra. }
  unfold rand_bind at 1 in E.
  assert (Hkeep : forall tape0 : list R,
             Forall (fun u => 0 <= u < 1) tape0 ->
             (let* u := Math_random in
              Ornaments.finish CONFIG
                ((0.3 + u * 0.4) * (if Rltb (V3.y p) (-5) then 0.8 else 1.0))
                i p ornaments) tape0 = Some (ornaments', tape') ->
             ornaments_built CONFIG 0 (S k) ornaments' tape').
  { intros tape0 Hr0 E0. unfold rand_bind, Math_random in E0.
    destruct tape0 as [|u tape0]; [discriminate|].
    apply Forall_cons in Hr0 as [Hu Hr0].
    destruct (finish_ok _ _ _ _ _ _ _ _ E0 Hr0)
      as (o & -> & Hr' & _ & Hs & Ht & Hp & Hin & Hc).
    split; [|split; [rewrite length_app; cbn [length]; lia|exact Hr']].
    apply Forall_app. split; [exact Hok|].
    apply Forall_cons. split; [|apply Forall_nil_2].
    unfold ornament_ok. rewrite Ht, Hs.
    split; [exact Hp|]. split; [exact Hin|]. split; [exact Hpy|].
    split; [|exact Hc].
    destruct (Rltb (V3.y p) (-5)); lra. }
  destruct (Rgtb _ 0.75).
  - unfold rand_bind at 1 in E. unfold Math_random at 1 in E.
    destruct tape as [|u tape]; [discriminate|].
    unfold rand_ret at 1 in E.
    apply Forall_cons in Hr as [_ Hr].
    destruct (Rltb u 0.3).
    + unfold rand_ret in E. injection E as <- <-.
      split; [exact Hok|]. split; [lia|exact Hr].
    + apply (Hkeep tape Hr E).
  - unfold rand_ret at 1 in E. apply (Hkeep tape Hr E).
Qed.

(** What the second loop adds: an ornament of the bottom third. *)
Definition ornament_low (CONFIG : SceneConfig) (o : Ornaments.Ornament)
  : Prop :=
  - (treeHeight CONFIG / 2) <= V3.y (treePosition (Ornaments.mesh o))
  < - (treeHeight CONFIG / 6)
  /\ (ornamentCount CONFIG <= Ornaments.index o)%nat.

Lemma extra_round_built (CONFIG : SceneConfig) (i lo hi : nat)
  (ornaments ornaments' : list Ornaments.Ornament) (tape tape' : list R) :
  0 < treeHeight CONFIG ->
  ornaments_built CONFIG lo hi ornaments tape ->
  Ornaments.extra_round CONFIG i ornaments tape = Some (ornaments', tape') ->
  ornaments_built CONFIG (S lo) (S hi) ornaments' tape'
  /\ exists o, ornaments' = ornaments ++ [o] /\ ornament_low CONFIG o.
Proof.
  intros HH (Hok & Hlen & Hr) E.
  unfold Ornaments.extra_round, rand_bind, Math_random in E. cbv zeta in E.
  destruct tape as [|u1 [|u2 [|u3 [|u4 tape]]]]; try discriminate.
  apply Forall_cons in Hr as [Hu1 Hr]. apply Forall_cons in Hr as [_ Hr].
  apply Forall_cons in Hr as [_ Hr]. apply Forall_cons in Hr as [Hu4 Hr].
  destruct (finish_ok _ _ _ _ _ _ _ _ E Hr)
    as (o & -> & Hr' & Hi & Hs & Ht & Hp & Hin & Hc).
  split.
  - split; [|split; [rewrite length_app; cbn [length]; lia|exact Hr']].
    apply Forall_app. split; [exact Hok|].
    apply Forall_cons. split; [|apply Forall_nil_2].
    unfold ornament_ok. rewrite Ht, Hs. cbn [V3.y].
    split; [exact Hp|]. split; [exact Hin|]. split; [nra|].
    split; [lra|exact Hc].
  - exists o. split; [reflexivity|].
    unfold ornament_low. rewrite Ht, Hi. cbn [V3.y]. split; [nra|lia].
Qed.

(** The ornaments [createOrnaments] has built when it returns, on a tape
    of draws of [[0, 1)] and a tree of positive height: there are at least
    100 and at most [ornamentCount + 100] of them; each starts at its
    scatter position, inside the scatter sphere, has a tree position
    between the base and the tip of the tree, a size between 0.2 and 0.7
    and a colour of the palette; and the last 100 are the extra
    ornaments, with a tree position in the bottom third of the tree and
    an index of [ornamentCount] or more. *)
Theorem createOrnaments_layout (CONFIG : SceneConfig) (tape tape' : list R)
  (ornaments : list Ornaments.Ornament) :
  0 < treeHeight CONFIG -> Forall (fun u => 0 <= u < 1) tape ->
  Ornaments.createOrnaments CONFIG tape = Some (ornaments, tape') ->
  (100 <= length ornaments <= ornamentCount CONFIG + 100)%nat
  /\ Forall (ornament_ok CONFIG) ornaments
  /\ Forall (ornament_low CONFIG) (drop (length ornaments - 100) ornaments).
Proof.
  intros HH Hr E. unfold Ornaments.createOrnaments, rand_bind in E.
  destruct (for_each (Ornaments.ornament_round CONFIG) _ [] tape)
    as [[os1 tape1]|] eqn:E1; [|discriminate].
  assert (H1 : ornaments_built CONFIG 0 (ornamentCount CONFIG) os1 tape1).
  { refine (for_each_invariant (Ornaments.ornament_round CONFIG)
              (fun i os tp => ornaments_built CONFIG 0 i os tp)
              (ornamentCount CONFIG) 0 _ [] tape os1 tape1 _ E1).
    - intros i s tp s' tp' Hi HP Eb.
      apply (ornament_round_built CONFIG i i s s' tp tp' HH ltac:(lia) HP Eb).
    - split; [apply Forall_nil_2|split; [cbn; lia|exact Hr]]. }
  pose proof (for_each_invariant (Ornaments.extra_round CONFIG)
                (fun i os tp =>
                   ornaments_built CONFIG i (ornamentCount CONFIG + i) os tp
                   /\ (length os1 + i = length os)%nat
                   /\ Forall (ornament_low CONFIG) (drop (length os1) os))
                100 0) as Hinv.
  destruct (Hinv) with (s := os1) (tape := tape1) (s' := ornaments)
                       (tape' := tape')
    as ((Hok & Hlen & _) & Hl & Hlow).
  - intros i s tp s' tp' Hi (HP & Hl & Hlow) Eb.
    destruct (extra_round_built CONFIG i _ _ s s' tp tp' HH HP Eb)
      as (HP' & o & -> & Ho).
    split; [replace (ornamentCount CONFIG + S i)%nat
              with (S (ornamentCount CONFIG + i)) by lia; exact HP'|].
    split; [rewrite length_app; cbn [length]; lia|].
    rewrite drop_app_le by lia. apply Forall_app. split; [exact Hlow|].
    apply Forall_cons. split; [exact Ho|apply Forall_nil_2].
  - destruct H1 as (A & B & C).
    split; [split; [exact A|split; [lia|exact C]]|].
    split; [lia|]. rewrite drop_all. apply Forall_nil_2.
  - exact E.
  - split; [lia|]. split; [exact Hok|].
    replace (length ornaments - 100)%nat with (length os1) by lia.
    exact Hlow.
Qed.

(** On a tape of draws 0.5 every candidate of the rejection loop is the
    centre of the sphere, so each ornament takes at most twelve draws and
    [createOrnaments] returns. *)
Lemma finish_returns (CONFIG : SceneConfig) (size : R) (index : nat)
  (treePos : V3.t) (ornaments : list Ornaments.Ornament) (tape : list R) :
  Forall (eq 0.5) tape -> (8 <= length tape)%nat ->
  exists o tape',
    Ornaments.finish CONFIG size index treePos ornaments tape
    = Some (ornaments ++ [o], tape')
    /\ Forall (eq 0.5) tape' /\ length tape = (8 + length tape')%nat.
Proof.
  intros Hh Hl.
  destruct tape as [|u1 [|u2 [|u3 [|u4 [|u5 [|u6 [|u7 [|u8 tape]]]]]]]];
    cbn [length] in Hl; try lia.
  do 5 (apply Forall_cons in Hh as [_ Hh]).
  apply Forall_cons in Hh as [<- Hh]. apply Forall_cons in Hh as [<- Hh].
  apply Forall_cons in Hh as [<- Hh].
  unfold Ornaments.finish, rand_bind, Math_random.
  unfold Placement.calculateScatterPosition.
  rewrite rejection_loop_first_inside by (cbv zeta; nra).
  eexists _, tape. split; [reflexivity|]. split; [exact Hh|cbn [length]; lia].
Qed.

Lemma createOrnaments_returns (CONFIG : SceneConfig) (tape : list R) :
  Forall (eq 0.5) tape ->
  (12 * (ornamentCount CONFIG + 100) <= length tape)%nat ->
  exists ornaments tape',
    Ornaments.createOrnaments CONFIG tape = Some (ornaments, tape').
Proof.
  intros Hh Hl. unfold Ornaments.createOrnaments, rand_bind.
  destruct (for_each_returns_upto (Ornaments.ornament_round CONFIG)
              (fun _ _ tp => Forall (eq 0.5) tp) 12 (ornamentCount CONFIG) 0)
    with (s := @nil Ornaments.Ornament) (tape := tape)
    as (os1 & tape1 & E1 & Hh1 & Hl1); [|exact Hh|lia|].
  { intros i s tp _ Hp Hlen.
    unfold Ornaments.ornament_round. cbv zeta.
    destruct tp as [|u_theta [|u_r tp]]; cbn [length] in Hlen; try lia.
    unfold rand_bind at 1.
    destruct (calculateTreePosition_y i (ornamentCount CONFIG) CONFIG
                u_theta u_r tp) as (p & -> & _).
    apply Forall_cons in Hp as [_ Hp]. apply Forall_cons in Hp as [_ Hp].
    assert (Hkeep : forall tp0 : list R,
               Forall (eq 0.5) tp0 -> (9 <= length tp0)%nat ->
               exists s' tape',
                 (let* u := Math_random in
                  Ornaments.finish CONFIG
                    ((0.3 + u * 0.4)
                     * (if Rltb (V3.y p) (-5) then 0.8 else 1.0))
                    i p s) tp0 = Some (s', tape')
                 /\ Forall (eq 0.5) tape'
                 /\ length tp0 = (9 + length tape')%nat).
    { intros tp0 Hp0 Hl0. destruct tp0 as [|u tp0]; cbn [length] in Hl0;
        [lia|].
      apply Forall_cons in Hp0 as [_ Hp0].
      unfold rand_bind, Math_random.
      destruct (finish_returns CONFIG
                  ((0.3 + u * 0.4) * (if Rltb (V3.y p) (-5) then 0.8 else 1.0))
                  i p s tp0 Hp0 ltac:(lia)) as (o & tape' & E & Hh' & Hl').
      exists (s ++ [o]), tape'. split; [exact E|]. split; [exact Hh'|].
      cbn [length]. lia. }
    unfold rand_bind at 1.
    destruct (Rgtb _ 0.75).
    - unfold rand_bind at 1. unfold Math_random at 1.
      destruct tp as [|u tp]; cbn [length] in Hlen; [lia|].
      apply Forall_cons in Hp as [<- Hp]. unfold rand_ret at 1.
      replace (Rltb 0.5 0.3) with false
        by (symmetry; apply Rltb_ge; lra).
      destruct (Hkeep tp Hp ltac:(lia)) as (s' & tape' & E & Hh' & Hl').
      exists s', tape'. split; [exact E|]. split; [exact Hh'|].
      cbn [length]. lia.
    - unfold rand_ret at 1.
      destruct (Hkeep tp Hp ltac:(lia)) as (s' & tape' & E & Hh' & Hl').
      exists s', tape'. split; [exact E|]. split; [exact Hh'|].
      cbn [length]. lia. }
  rewrite E1.
  destruct (for_each_returns_upto (Ornaments.extra_round CONFIG)
              (fun _ _ tp => Forall (eq 0.5) tp) 12 100 0)
    with (s := os1) (tape := tape1)
    as (os2 & tape2 & E2 & _); [|exact Hh1|lia|].
  { intros i s tp _ Hp Hlen.
    destruct tp as [|u1 [|u2 [|u3 [|u4 tp]]]]; cbn [length] in Hlen; try lia.
    do 4 (apply Forall_cons in Hp as [_ Hp]).
    unfold Ornaments.extra_round, rand_bind, Math_random. cbv zeta.
    match goal with
    | |- context [Ornaments.finish CONFIG ?sz ?ix ?tp' s tp] =>
        destruct (finish_returns CONFIG sz ix tp' s tp Hp ltac:(lia))
          as (o & tape' & E & Hh' & Hl')
    end.
    exists (s ++ [o]), tape'. split; [exact E|]. split; [exact Hh'|].
    cbn [length]. lia. }
  exists os2, tape2. exact E2.
Qed.

Lemma createOrnaments_layout_witness :
  exists ornaments tape',
    Ornaments.createOrnaments SCENE_CONFIG (replicate (12 * 500) 0.5)
    = Some (ornaments, tape')
    /\ (100 <= length ornaments <= 500)%nat
    /\ Forall (ornament_ok SCENE_CONFIG) ornaments.
Proof.
  destruct (createOrnaments_returns SCENE_CONFIG (replicate (12 * 500) 0.5))
    as (ornaments & tape' & E).
  - apply Forall_replicate. reflexivity.
  - rewrite length_replicate.
    change (ornamentCount SCENE_CONFIG) with 400%nat. lia.
  - exists ornaments, tape'. split; [exact E|].
    destruct (createOrnaments_layout SCENE_CONFIG (replicate (12 * 500) 0.5)
                tape' ornaments) as (Hn & Hok & _).
    + change (treeHeight SCENE_CONFIG) with 20. lra.
    + apply Forall_replicate. lra.
    + exact E.
    + split; [|exact Hok].
      change (ornamentCount SCENE_CONFIG) with 400%nat in Hn. lia.
Defined.

(** ** The timeline of a scatter request (js/animations/scatter.js) *)

(** A scatter requested at [t0] resolves its promise when the ribbon has
    faded, 0.3 seconds later, and the guard is released one animation
    duration after that. *)
Definition fade_time (t0 : R) : R := t0 + 0 + 0.3.

Definition scatter_release_time (CONFIG : Config) (t0 : R) : R :=
  fade_time t0 + animationDuration CONFIG * 1000 / 1000.

(** The stretches of the timeline, as the schedule shows them. *)
Inductive ScatterPhase (CONFIG : Config) (t0 : R) (s : Sched) : Prop :=
| Fading :
    t0 <= s_now s < fade_time t0 ->
    s_timers s = [] ->
    s_pending s = [(t0 + 0, 0.3, HideRibbon (AfterAwait false))] ->
    s_animating s = true ->
    ScatterPhase CONFIG t0 s
| Faded :
    fade_time t0 <= s_now s < scatter_release_time CONFIG t0 ->
    s_timers s = [(scatter_release_time CONFIG t0, EnableButton false)] ->
    s_pending s = [] -> s_animating s = true ->
    ScatterPhase CONFIG t0 s
| Scattered :
    scatter_release_time CONFIG t0 <= s_now s ->
    s_timers s = [] -> s_pending s = [] -> s_animating s = false ->
    ScatterPhase CONFIG t0 s.

Ltac rltb_all :=
  repeat match goal with
         | |- context [Rltb ?a ?b] =>
             first [ rewrite (Rltb_lt a b) by lra
                   | rewrite (Rltb_ge a b) by lra ]
         end.

Ltac schedule_step :=
  cbn [filter list_filter fmap list_fmap app foldl fst snd
       SchedModel.fire_all SchedModel.fire SchedModel.resume
       s_now s_timers s_pending s_animating completes negb andb];
  unfold completes; cbn [fst snd];
  rltb_all; cbn [negb andb];
  repeat first [ rewrite decide_True by reflexivity
               | rewrite decide_False by discriminate ];
  cbn [filter list_filter fmap list_fmap app foldl fst snd
       SchedModel.fire_all SchedModel.fire SchedModel.resume
       s_now s_timers s_pending s_animating completes negb andb].

Ltac schedule_eval := do 3 schedule_step.

Lemma advance_scattered (CONFIG : Config) (t0 : R) (fuel : nat) (t : R)
  (s : Sched) :
  s_now s <= t -> scatter_release_time CONFIG t0 <= s_now s ->
  s_timers s = [] -> s_pending s = [] -> s_animating s = false ->
  let s' := SchedModel.advance_fuel CONFIG fuel t s in
  ScatterPhase CONFIG t0 s' /\ s_now s' = t.
Proof.
  intros Ht Hnow Htm Hpd Han s'. subst s'.
  assert (E : SchedModel.advance_fuel CONFIG fuel t s
              = {| s_now := t; s_timers := []; s_pending := [];
                   s_animating := false |}).
  { destruct fuel; cbn [SchedModel.advance_fuel];
      unfold SchedModel.next_event, SchedModel.event_times, SchedModel.tick;
      rewrite Htm, Hpd, Han; reflexivity. }
  rewrite E. split; [|reflexivity].
  apply Scattered; cbn [s_now s_timers s_pending s_animating];
    try reflexivity. lra.
Qed.

Lemma advance_faded (CONFIG : Config) (t0 : R) (fuel : nat) (t : R)
  (s : Sched) :
  0 < animationDuration CONFIG -> (1 <= fuel)%nat -> s_now s <= t ->
  fade_time t0 <= s_now s < scatter_release_time CONFIG t0 ->
  s_timers s = [(scatter_release_time CONFIG t0, EnableButton false)] ->
  s_pending s = [] -> s_animating s = true ->
  let s' := SchedModel.advance_fuel CONFIG fuel t s in
  ScatterPhase CONFIG t0 s' /\ s_now s' = t.
Proof.
  intros HD Hfuel Ht Hnow Htm Hpd Han s'. subst s'.
  destruct (Rlt_dec t (scatter_release_time CONFIG t0)) as [Hlt|Hge].
  - rewrite advance_fuel_idle.
    + unfold SchedModel.tick. rewrite Htm, Hpd, Han. schedule_eval.
      split; [|reflexivity].
      apply Faded; cbn [s_now s_timers s_pending s_animating];
        try reflexivity. lra.
    + unfold SchedModel.next_event, SchedModel.event_times.
      rewrite Htm, Hpd. schedule_eval. reflexivity.
  - destruct fuel as [|fuel]; [lia|].
    rewrite (advance_fuel_event _ _ _ (scatter_release_time CONFIG t0)).
    + rewrite Rmax_right by lra.
      apply advance_scattered.
      * unfold SchedModel.tick. rewrite Htm, Hpd, Han. schedule_eval. lra.
      * unfold SchedModel.tick. rewrite Htm, Hpd, Han. schedule_eval. lra.
      * unfold SchedModel.tick. rewrite Htm, Hpd, Han. schedule_eval. reflexivity.
      * unfold SchedModel.tick. rewrite Htm, Hpd, Han. schedule_eval. reflexivity.
      * unfold SchedModel.tick. rewrite Htm, Hpd, Han. schedule_eval. reflexivity.
    + unfold SchedModel.next_event, SchedModel.event_times.
      rewrite Htm, Hpd. schedule_eval. reflexivity.
Qed.

Lemma advance_fading (CONFIG : Config) (t0 : R) (fuel : nat) (t : R)
  (s : Sched) :
  0 < animationDuration CONFIG -> (2 <= fuel)%nat -> s_now s <= t ->
  t0 <= s_now s < fade_time t0 ->
  s_timers s = [] ->
  s_pending s = [(t0 + 0, 0.3, HideRibbon (AfterAwait false))] ->
  s_animating s = true ->
  let s' := SchedModel.advance_fuel CONFIG fuel t s in
  ScatterPhase CONFIG t0 s' /\ s_now s' = t.
Proof.
  intros HD Hfuel Ht Hnow Htm Hpd Han s'. subst s'.
  destruct (Rlt_dec t (fade_time t0)) as [Hlt|Hge].
  - rewrite advance_fuel_idle.
    + unfold SchedModel.tick. rewrite Htm, Hpd, Han.
      unfold fade_time in *. schedule_eval.
      split; [|reflexivity].
      apply Fading; cbn [s_now s_timers s_pending s_animating];
        try reflexivity. unfold fade_time. lra.
    + unfold SchedModel.next_event, SchedModel.event_times.
      rewrite Htm, Hpd. unfold fade_time in *. schedule_eval. reflexivity.
  - destruct fuel as [|fuel]; [lia|].
    rewrite (advance_fuel_event _ _ _ (fade_time t0)).
    + rewrite Rmax_right by lra.
      assert (E : SchedModel.tick CONFIG (fade_time t0) s
                  = {| s_now := fade_time t0;
                       s_timers := [(scatter_release_time CONFIG t0,
                                     EnableButton false)];
                       s_pending := []; s_animating := true |}).
      { unfold SchedModel.tick. rewrite Htm, Hpd, Han.
        unfold scatter_release_time, fade_time in *. schedule_eval.
        reflexivity. }
      rewrite E.
      apply advance_faded; cbn [s_now s_timers s_pending s_animating];
        try reflexivity; try assumption; try lia; try lra.
      unfold scatter_release_time. lra.
    + unfold SchedModel.next_event, SchedModel.event_times.
      rewrite Htm, Hpd. unfold fade_time in *. schedule_eval. reflexivity.
Qed.

(** A frame keeps the schedule on the timeline and moves the clock to the
    time of the frame (an earlier time is ignored). *)
Lemma advance_scatter_phase (CONFIG : Config) (t0 : R) (t : R) (s : Sched) :
  0 < animationDuration CONFIG ->
  ScatterPhase CONFIG t0 s ->
  ScatterPhase CONFIG t0 (SchedModel.advance CONFIG t s)
  /\ s_now (SchedModel.advance CONFIG t s) = Rmax (s_now s) t.
Proof.
  intros HD Hs. unfold SchedModel.advance.
  destruct (Rltb t (s_now s)) eqn:E.
  - apply Rltb_true in E. rewrite Rmax_left by lra. auto.
  - apply Rltb_false in E. rewrite Rmax_right by lra.
    destruct Hs as [Hnow Htm Hpd Han|Hnow Htm Hpd Han|Hnow Htm Hpd Han].
    + apply advance_fading; try assumption.
      unfold SchedModel.pending_rank. rewrite Htm, Hpd. cbn. lia.
    + apply advance_faded; try assumption.
      unfold SchedModel.pending_rank. rewrite Htm, Hpd. cbn. lia.
    + apply advance_scattered; assumption.
Qed.

Lemma scatter_phase_guard (CONFIG : Config) (t0 : R) (s : Sched) :
  0 < animationDuration CONFIG ->
  ScatterPhase CONFIG t0 s ->
  (s_now s < scatter_release_time CONFIG t0 -> s_animating s = true)
  /\ (scatter_release_time CONFIG t0 <= s_now s -> s_animating s = false).
Proof.
  intros HD [Hnow _ _ Han|Hnow _ _ Han|Hnow _ _ Han];
    unfold scatter_release_time, fade_time in *;
    split; intros H; (exact Han || lra).
Qed.

Lemma scatter_frames (parseEase : string -> R -> R) (CONFIG : Config)
  (t0 : R) (ts : list R) :
  0 < animationDuration CONFIG ->
  forall w : World,
  ScatterPhase CONFIG t0 (sched_of w) ->
  ScatterPhase CONFIG t0 (sched_of (frames parseEase CONFIG ts w))
  /\ now (frames parseEase CONFIG ts w) = foldl Rmax (now w) ts
  /\ isGathered (frames parseEase CONFIG ts w) = isGathered w.
Proof.
  intros HD. induction ts as [|t ts IH]; intros w Hs.
  - cbn. auto.
  - unfold frames in *. cbn [foldl].
    destruct (advance_scatter_phase CONFIG t0 t (sched_of w) HD Hs)
      as [Hs' Hn'].
    rewrite <- sched_of_advance with (parseEase := parseEase) in Hs', Hn'.
    destruct (IH _ Hs') as (A & B & C).
    split; [exact A|]. split.
    + rewrite B. f_equal. exact Hn'.
    + rewrite C. apply advance_isGathered.
Qed.

(** *** The tweens a scatter starts *)

(** A round of [scatterAll] leaves the clock, the number of ornaments and
    the other ornaments alone; it gives its ornament a new scatter
    position inside the sphere and adds one tween, towards it. *)
Lemma scatter_mesh_round (CONFIG : Config) (i : nat) (w w' : World) :
  scatter_mesh CONFIG i w = Some w' ->
  exists p,
    V3.x p * V3.x p + V3.y p * V3.y p + V3.z p * V3.z p
    <= scatterRadius CONFIG * scatterRadius CONFIG
    /\ now w' = now w
    /\ ornaments (scene w')
       = alter (fun m => with_scatterPosition m p) i (ornaments (scene w))
    /\ tweens w' = tweens w ++ [mesh_tween CONFIG (now w) i p].
Proof.
  unfold scatter_mesh.
  destruct (Placement.calculateScatterPosition CONFIG (tape w))
    as [[p tape']|] eqn:E; [|discriminate].
  cbn [mbind option_bind]. intros [= <-]. exists p.
  split; [exact (rejection_loop_inside _ _ _ _ E)|].
  split; [reflexivity|]. split; reflexivity.
Qed.

Lemma forEach_scatter (CONFIG : Config) (n : nat) :
  forall (a : nat) (w w' : World),
  forEach (scatter_mesh CONFIG) (seq a n) w = Some w' ->
  now w' = now w
  /\ length (ornaments (scene w')) = length (ornaments (scene w))
  /\ (exists tws, tweens w' = tweens w ++ tws)
  /\ (forall i, (i < a \/ a + n <= i)%nat ->
        ornaments (scene w') !! i = ornaments (scene w) !! i)
  /\ (forall i m, (a <= i < a + n)%nat ->
        ornaments (scene w) !! i = Some m ->
        exists p,
          ornaments (scene w') !! i = Some (with_scatterPosition m p)
          /\ V3.x p * V3.x p + V3.y p * V3.y p + V3.z p * V3.z p
             <= scatterRadius CONFIG * scatterRadius CONFIG
          /\ mesh_tween CONFIG (now w) i p ∈ tweens w').
Proof.
  induction n as [|n IH]; intros a w w' E.
  - cbn in E. injection E as <-.
    split; [reflexivity|]. split; [reflexivity|].
    split; [exists []; rewrite app_nil_r; reflexivity|].
    split; [reflexivity|]. intros i m Hi. lia.
  - cbn [seq forEach] in E.
    destruct (scatter_mesh CONFIG a w) as [w1|] eqn:E1; [|discriminate].
    cbn [mbind option_bind] in E.
    destruct (scatter_mesh_round CONFIG a w w1 E1) as (p & Hp & N1 & O1 & T1).
    destruct (IH (S a) w1 w' E) as (N & L & (tws & T) & Hout & Hin).
    split; [congruence|].
    split; [rewrite L, O1, length_alter; reflexivity|].
    split; [exists (mesh_tween CONFIG (now w) a p :: tws);
            rewrite T, T1, <- app_assoc; reflexivity|].
    split.
    + intros i Hi. rewrite Hout by lia. rewrite O1.
      apply list_lookup_alter_ne. lia.
    + intros i m Hi Hm.
      destruct (decide (i = a)) as [->|Hne].
      * exists p. split; [|split; [exact Hp|]].
        -- rewrite Hout by lia. rewrite O1, list_lookup_alter_eq, Hm.
           reflexivity.
        -- rewrite T, T1. apply elem_of_app. left.
           apply elem_of_app. right. apply list_elem_of_here.
      * destruct (Hin i m ltac:(lia)) as (q & Hq & Hs & Ht).
        { rewrite O1, list_lookup_alter_ne by congruence. exact Hm. }
        exists q. split; [exact Hq|]. split; [exact Hs|].
        rewrite <- N1. exact Ht.
Qed.

(** What [scatterAll] does to the ornaments and the clock. *)
Lemma scatterAll_ornaments (CONFIG : Config) (k : Continuation)
  (w w' : World) :
  scatterAll CONFIG k w = Some w' ->
  now w' = now w
  /\ length (ornaments (scene w')) = length (ornaments (scene w))
  /\ forall i m,
       ornaments (scene w) !! i = Some m ->
       exists p,
         ornaments (scene w') !! i = Some (with_scatterPosition m p)
         /\ V3.x p * V3.x p + V3.y p * V3.y p + V3.z p * V3.z p
            <= scatterRadius CONFIG * scatterRadius CONFIG
         /\ mesh_tween CONFIG (now w) i p ∈ tweens w'.
Proof.
  unfold scatterAll.
  set (wl := match starLight (scene w) with Some _ => _ | None => w end).
  assert (Hl : now wl = now w /\ ornaments (scene wl) = ornaments (scene w)).
  { unfold wl. destruct (starLight (scene w)); split; reflexivity. }
  destruct Hl as [Nl Ol].
  destruct (forEach (scatter_mesh CONFIG) _ wl) as [w2|] eqn:E;
    [|discriminate].
  cbn [mbind option_bind]. intros [= <-].
  destruct (forEach_scatter CONFIG _ 0 wl w2 E) as (N & L & _ & _ & Hin).
  cbn [gsap_to with_tweens now scene tweens].
  split; [congruence|]. split; [congruence|].
  intros i m Hm.
  destruct (Hin i m) as (p & Hp & Hs & Ht).
  { split; [lia|]. rewrite Ol. cbn [Nat.add].
    apply lookup_lt_is_Some. eauto. }
  { rewrite Ol. exact Hm. }
  exists p. split; [exact Hp|]. split; [exact Hs|].
  rewrite <- Nl. apply elem_of_app. left. apply elem_of_app. left. exact Ht.
Qed.

(** The timeline of a scatter request made at rest, at a time [t0], seen
    at any later frames: [isGathered] is not touched; the guard is set,
    and the button disabled, exactly before [t0 + 0.3 + animationDuration]
    (the promise resolves when the ribbon has faded, not when the
    ornaments have arrived).  Every ornament is given a new scatter
    position inside the scatter sphere and a tween towards it that runs
    from [t0 + 0.002 * i] for one animation duration, so the tweens of
    the ornaments beyond index 150 are not over when the guard is
    released. *)
Theorem scatter_releases_after_fade (parseEase : string -> R -> R)
  (CONFIG : Config) (w w1 : World) (ts : list R) :
  0 < animationDuration CONFIG ->
  tweens w = [] -> timers w = [] -> animating w = false ->
  disabled (toggleBtn w) = false ->
  transitionState false CONFIG w = Some w1 ->
  let w' := frames parseEase CONFIG ts w1 in
  let release := now w + 0.3 + animationDuration CONFIG in
  now w' = foldl Rmax (now w) ts
  /\ isGathered w' = isGathered w
  /\ (now w' < release ->
      animating w' = true /\ disabled (toggleBtn w') = true)
  /\ (release <= now w' ->
      animating w' = false /\ disabled (toggleBtn w') = false)
  /\ (forall i m,
        ornaments (scene w) !! i = Some m ->
        exists p tw,
          ornaments (scene w1) !! i = Some (with_scatterPosition m p)
          /\ V3.x p * V3.x p + V3.y p * V3.y p + V3.z p * V3.z p
             <= scatterRadius CONFIG * scatterRadius CONFIG
          /\ tw ∈ tweens w1
          /\ vars tw = MeshPosition i p
          /\ start tw = now w + INR i * 0.002
          /\ duration tw = animationDuration CONFIG
          /\ ((150 < i)%nat -> release < start tw + duration tw)).
Proof.
  intros HD Htw Htm Han Hbtn E w' release.
  pose proof E as E0. unfold transitionState in E0. rewrite Han in E0.
  set (w0 := with_toggleBtn _ _) in E0.
  destruct (scatterAll_sched CONFIG _ w0 w1 E0) as [Hg Hs].
  destruct (scatterAll_ornaments CONFIG _ w0 w1 E0) as (Hn & _ & Ho).
  assert (Hphase : ScatterPhase CONFIG (now w) (sched_of w1)).
  { rewrite Hs. apply Fading; cbn [s_now s_timers s_pending s_animating].
    - unfold w0. cbn. unfold fade_time. lra.
    - unfold w0. cbn. exact Htm.
    - unfold w0. cbn. rewrite Htw. reflexivity.
    - reflexivity. }
  destruct (scatter_frames parseEase CONFIG (now w) ts HD w1 Hphase)
    as (Hphase' & Hnow' & Hgat').
  destruct (scatter_phase_guard CONFIG (now w) _ HD Hphase') as [G1 G2].
  assert (Hlock : button_locked w').
  { unfold w', frames. clear -E Han Hbtn.
    assert (H1 : button_locked w1).
    { apply (transitionState_button_locked false CONFIG w w1); [|exact E].
      unfold button_locked. congruence. }
    revert w1 H1 E. induction ts as [|t ts IH]; intros w1 H1 E.
    - exact H1.
    - cbn [foldl].
      generalize (advance_button_locked parseEase CONFIG t w1 H1).
      generalize (advance parseEase CONFIG t w1). clear.
      induction ts as [|t' ts IH]; intros w2 H2; [exact H2|].
      cbn [foldl]. apply IH. apply advance_button_locked. exact H2. }
  unfold button_locked in Hlock.
  cbn [sched_of s_now s_animating] in G1, G2.
  unfold scatter_release_time, fade_time in G1, G2.
  fold w' in G1, G2, Hnow', Hgat'.
  split; [rewrite Hnow', Hn; reflexivity|].
  split; [rewrite Hgat', Hg; reflexivity|].
  split; [intros H; rewrite Hlock; split; apply G1; unfold release in H; lra|].
  split; [intros H; rewrite Hlock; split; apply G2; unfold release in H; lra|].
  intros i m Hm.
  destruct (Ho i m Hm) as (p & Hp & Hin & Ht).
  exists p, (mesh_tween CONFIG (now w0) i p).
  split; [exact Hp|]. split; [exact Hin|]. split; [exact Ht|].
  cbn [mesh_tween vars start duration]. repeat split.
  intros Hi. unfold release. change (now w0) with (now w).
  assert (H : INR 151 <= INR i) by (apply le_INR; lia).
  rewrite (INR_IZR_INZ 151) in H. change (IZR (Z.of_nat 151)) with 151 in H.
  lra.
Qed.

(** On a tape of draws 0.5 every ornament takes the centre of the sphere
    as its scatter position, and [scatterAll] returns. *)
Lemma forEach_scatter_returns (CONFIG : Config) (n : nat) :
  forall (a : nat) (w : World),
  Forall (eq 0.5) (tape w) -> (3 * n <= length (tape w))%nat ->
  exists w', forEach (scatter_mesh CONFIG) (seq a n) w = Some w'.
Proof.
  induction n as [|n IH]; intros a w Hh Hl.
  - exists w. reflexivity.
  - destruct (tape w) as [|u1 [|u2 [|u3 rest]]] eqn:Et;
      cbn [length] in Hl; try lia.
    apply Forall_cons in Hh as [<- Hh]. apply Forall_cons in Hh as [<- Hh].
    apply Forall_cons in Hh as [<- Hh].
    assert (E : exists w1, scatter_mesh CONFIG a w = Some w1
                           /\ tape w1 = rest).
    { unfold scatter_mesh. rewrite Et.
      unfold Placement.calculateScatterPosition.
      rewrite rejection_loop_first_inside by (cbv zeta; nra).
      cbn [mbind option_bind]. eexists. split; reflexivity. }
    destruct E as (w1 & E & Et1).
    cbn [seq forEach]. rewrite E. cbn [mbind option_bind].
    apply IH; rewrite Et1; [exact Hh|lia].
Qed.

Lemma transitionState_scatter_returns (CONFIG : Config) (w : World) :
  Forall (eq 0.5) (tape w) ->
  (3 * length (ornaments (scene w)) <= length (tape w))%nat ->
  exists w1, transitionState false CONFIG w = Some w1.
Proof.
  intros Hh Hl. unfold transitionState.
  destruct (animating w); [exists w; reflexivity|].
  unfold scatterAll.
  set (wl := match starLight _ with Some _ => _ | None => _ end).
  assert (Hwl : tape wl = tape w
                /\ ornaments (scene wl) = ornaments (scene w)).
  { unfold wl. cbn. destruct (starLight (scene w)); split; reflexivity. }
  destruct Hwl as [Tl Ol].
  destruct (forEach_scatter_returns CONFIG (length (ornaments (scene wl))) 0
              wl) as [w2 E].
  - rewrite Tl. exact Hh.
  - rewrite Tl, Ol. exact Hl.
  - rewrite E. cbn [mbind option_bind]. eexists. reflexivity.
Qed.

(** A gathered world at rest with 400 ornaments, the clock at 0, and
    three draws of 0.5 for every ornament. *)
Definition world400_gathered : World :=
  with_tape (with_isGathered world400 true) (replicate (3 * 400) 0.5).

Lemma scatter_releases_after_fade_witness :
  exists w1,
    transitionState false CONFIG world400_gathered = Some w1
    /\ animating (frames linear_ease CONFIG [1; 2] w1) = true
    /\ animating (frames linear_ease CONFIG [1; 2.1] w1) = false.
Proof.
  destruct (transitionState_scatter_returns CONFIG world400_gathered)
    as [w1 E].
  - apply Forall_replicate. reflexivity.
  - cbn [world400_gathered with_tape with_isGathered world400 tape scene
         ornaments].
    rewrite !length_replicate. lia.
  - exists w1. split; [exact E|]. split.
    + destruct (scatter_releases_after_fade linear_ease CONFIG
                  world400_gathered w1 [1; 2])
        as (Hn & _ & H & _); try reflexivity; try exact E.
      * simpl. lra.
      * apply H. rewrite Hn. cbn [foldl now world400_gathered with_tape
                                   with_isGathered world400].
        rewrite (Rmax_right 0 1) by lra. rewrite Rmax_right by lra.
        simpl. lra.
    + destruct (scatter_releases_after_fade linear_ease CONFIG
                  world400_gathered w1 [1; 2.1])
        as (Hn & _ & _ & H & _); try reflexivity; try exact E.
      * simpl. lra.
      * apply H. rewrite Hn. cbn [foldl now world400_gathered with_tape
                                   with_isGathered world400].
        rewrite (Rmax_right 0 1) by lra. rewrite Rmax_right by lra.
        simpl. lra.
Defined.

(** ** Rejection sampling (js/utils/geometry-helpers.js, ornaments.js) *)

Module Sampling.

(** The candidate of round [k] of the [do ... while] loop: the point made
    of the draws [3k], [3k + 1] and [3k + 2] of the tape. *)
Definition candidate (radius : R) (tape : list R) (k : nat) : option V3.t :=
  match tape !! (3 * k)%nat, tape !! (3 * k + 1)%nat,
        tape !! (3 * k + 2)%nat with
  | Some u1, Some u2, Some u3 =>
      Some (V3.mk ((u1 - 0.5) * 2 * radius) ((u2 - 0.5) * 2 * radius)
              ((u3 - 0.5) * 2 * radius))
  | _, _, _ => None
  end.

(** The test that ends the loop. *)
Definition inside (radius : R) (p : V3.t) : Prop :=
  V3.x p * V3.x p + V3.y p * V3.y p + V3.z p * V3.z p <= radius * radius.

Definition scale (radius : R) (p : V3.t) : V3.t :=
  V3.mk (radius * V3.x p) (radius * V3.y p) (radius * V3.z p).

End Sampling.

Lemma candidate_first (radius u1 u2 u3 : R) (rest : list R) :
  Sampling.candidate radius (u1 :: u2 :: u3 :: rest) 0
  = Some (V3.mk ((u1 - 0.5) * 2 * radius) ((u2 - 0.5) * 2 * radius)
            ((u3 - 0.5) * 2 * radius)).
Proof. reflexivity. Qed.

Lemma candidate_next (radius u1 u2 u3 : R) (rest : list R) (k : nat) :
  Sampling.candidate radius (u1 :: u2 :: u3 :: rest) (S k)
  = Sampling.candidate radius rest k.
Proof.
  unfold Sampling.candidate.
  replace (3 * S k)%nat with (S (S (S (3 * k)))) by lia.
  replace (S (S (S (3 * k))) + 1)%nat with (S (S (S (3 * k + 1)))) by lia.
  replace (S (S (S (3 * k))) + 2)%nat with (S (S (S (3 * k + 2)))) by lia.
  reflexivity.
Qed.

Lemma candidate_short (radius : R) (tape : list R) (k : nat) (q : V3.t) :
  Sampling.candidate radius tape k = Some q -> (3 <= length tape)%nat.
Proof.
  unfold Sampling.candidate. intros H.
  destruct (tape !! (3 * k + 2)%nat) as [u3|] eqn:E3.
  - apply lookup_lt_Some in E3. lia.
  - destruct (tape !! (3 * k)%nat), (tape !! (3 * k + 1)%nat); discriminate.
Qed.

Lemma drop_round (u1 u2 u3 : R) (rest : list R) (k : nat) :
  drop (3 * S (S k)) (u1 :: u2 :: u3 :: rest) = drop (3 * S k) rest.
Proof.
  replace (3 * S (S k))%nat with (S (S (S (3 * S k)))) by lia. reflexivity.
Qed.

(** A returned point is the first candidate inside the sphere. *)
Lemma rejection_loop_first (radius : R) (tape rest : list R) (p : V3.t) :
  Placement.rejection_loop radius tape = Some (p, rest) ->
  exists k,
    Sampling.candidate radius tape k = Some p
    /\ Sampling.inside radius p
    /\ rest = drop (3 * S k) tape
    /\ forall j q, (j < k)%nat -> Sampling.candidate radius tape j = Some q ->
                   ~ Sampling.inside radius q.
Proof.
  revert p rest.
  induction tape as [tape IH] using (induction_ltof1 _ (@length R)).
  intros p rest H.
  destruct tape as [|u1 [|u2 [|u3 tape']]]; try discriminate.
  rewrite rejection_loop_round in H. cbv zeta in H.
  destruct (Rgtb _ _) eqn:E.
  - destruct (IH tape') with (p := p) (rest := rest)
      as (k & Hc & Hi & Hr & Hb); [unfold ltof; simpl; lia|exact H|].
    exists (S k). rewrite candidate_next, drop_round.
    split; [exact Hc|]. split; [exact Hi|]. split; [exact Hr|].
    intros [|j] q Hj Hq.
    + rewrite candidate_first in Hq. injection Hq as <-.
      unfold Sampling.inside. cbn [V3.x V3.y V3.z].
      unfold Rgtb in E. apply Rltb_true in E. lra.
    + rewrite candidate_next in Hq. apply (Hb j q); [lia|exact Hq].
  - injection H as <- <-. exists 0%nat.
    split; [apply candidate_first|].
    split; [unfold Sampling.inside; cbn [V3.x V3.y V3.z];
            unfold Rgtb in E; apply Rltb_false in E; exact E|].
    split; [reflexivity|]. intros j q Hj. lia.
Qed.

(** The loop returns as soon as a candidate is inside. *)
Lemma rejection_loop_hit (radius : R) (k : nat) :
  forall (tape : list R) (p : V3.t),
  Sampling.candidate radius tape k = Some p -> Sampling.inside radius p ->
  (forall j q, (j < k)%nat -> Sampling.candidate radius tape j = Some q ->
               ~ Sampling.inside radius q) ->
  Placement.rejection_loop radius tape = Some (p, drop (3 * S k) tape).
Proof.
  induction k as [|k IH]; intros tape p Hc Hi Hb.
  - pose proof (candidate_short _ _ _ _ Hc) as Hl.
    destruct tape as [|u1 [|u2 [|u3 tape']]]; cbn [length] in Hl; try lia.
    rewrite candidate_first in Hc. injection Hc as <-.
    apply rejection_loop_first_inside. exact Hi.
  - pose proof (candidate_short _ _ _ _ Hc) as Hl.
    destruct tape as [|u1 [|u2 [|u3 tape']]]; cbn [length] in Hl; try lia.
    rewrite candidate_next in Hc. rewrite drop_round.
    rewrite rejection_loop_round. cbv zeta.
    assert (Hout : ~ Sampling.inside radius
                     (V3.mk ((u1 - 0.5) * 2 * radius)
                        ((u2 - 0.5) * 2 * radius) ((u3 - 0.5) * 2 * radius))).
    { apply (Hb 0%nat); [lia|apply candidate_first]. }
    unfold Sampling.inside in Hout. cbn [V3.x V3.y V3.z] in Hout.
    unfold Rgtb. rewrite Rltb_lt by lra.
    apply IH; [exact Hc|exact Hi|].
    intros j q Hj Hq. apply (Hb (S j)); [lia|].
    rewrite candidate_next. exact Hq.
Qed.

(** [randomInSphere] (and [calculateScatterPosition], the same loop on
    [CONFIG.scatterRadius]) returns the first candidate that is inside the
    sphere: it returns [p] and leaves [rest] exactly when [p] is the
    candidate of some round [k], inside the sphere, every candidate of an
    earlier round is outside, and [rest] is the tape without its first
    [3 * (k + 1)] draws.  It never returns exactly when no candidate of the
    tape is inside. *)
Theorem randomInSphere_first_candidate (radius : R) (tape : list R) :
  (forall p rest,
     Placement.randomInSphere radius tape = Some (p, rest)
     <-> exists k,
           Sampling.candidate radius tape k = Some p
           /\ Sampling.inside radius p
           /\ rest = drop (3 * S k) tape
           /\ forall j q, (j < k)%nat ->
                Sampling.candidate radius tape j = Some q ->
                ~ Sampling.inside radius q)
  /\ (Placement.randomInSphere radius tape = None
      <-> forall k q, Sampling.candidate radius tape k = Some q ->
                      ~ Sampling.inside radius q)
  /\ (forall CONFIG : Config,
        Placement.calculateScatterPosition CONFIG tape
        = Placement.randomInSphere (scatterRadius CONFIG) tape).
Proof.
  unfold Placement.randomInSphere, Placement.calculateScatterPosition.
  split; [|split; [|reflexivity]].
  - intros p rest. split.
    + apply rejection_loop_first.
    + intros (k & Hc & Hi & -> & Hb). apply rejection_loop_hit; assumption.
  - split.
    + intros Hnone k. induction k as [k IHk] using lt_wf_ind.
      intros q Hq Hi.
      assert (Hfirst : exists k0 q0,
                 (k0 <= k)%nat
                 /\ Sampling.candidate radius tape k0 = Some q0
                 /\ Sampling.inside radius q0
                 /\ forall j q', (j < k0)%nat ->
                      Sampling.candidate radius tape j = Some q' ->
                      ~ Sampling.inside radius q').
      { exists k, q. split; [lia|]. split; [exact Hq|]. split; [exact Hi|].
        intros j q' Hj Hq' Hi'. exact (IHk j Hj q' Hq' Hi'). }
      destruct Hfirst as (k0 & q0 & _ & Hc0 & Hi0 & Hb0).
      rewrite (rejection_loop_hit radius k0 tape q0 Hc0 Hi0 Hb0) in Hnone.
      discriminate.
    + intros Hall.
      destruct (Placement.rejection_loop radius tape) as [[p rest]|] eqn:E;
        [|reflexivity].
      destruct (rejection_loop_first _ _ _ _ E) as (k & Hc & Hi & _).
      exfalso. exact (Hall k p Hc Hi).
Qed.

Lemma rejection_loop_scales (radius : R) (tape : list R) :
  radius <> 0 ->
  Placement.rejection_loop radius tape
  = match Placement.rejection_loop 1 tape with
    | Some (p, rest) => Some (Sampling.scale radius p, rest)
    | None => None
    end.
Proof.
  intros Hr.
  induction tape as [tape IH] using (induction_ltof1 _ (@length R)).
  destruct tape as [|u1 [|u2 [|u3 tape']]]; try reflexivity.
  rewrite !rejection_loop_round. cbv zeta.
  set (a := (u1 - 0.5) * 2). set (b := (u2 - 0.5) * 2).
  set (c := (u3 - 0.5) * 2).
  assert (Hr2 : 0 < radius * radius) by nra.
  assert (Hsq : a * radius * (a * radius) + b * radius * (b * radius)
                + c * radius * (c * radius)
                = (a * a + b * b + c * c) * (radius * radius)) by ring.
  destruct (Rlt_dec 1 (a * a + b * b + c * c)) as [Hout|Hin].
  - unfold Rgtb. rewrite (Rltb_lt (radius * radius)) by (rewrite Hsq; nra).
    rewrite (Rltb_lt (1 * 1)) by lra.
    apply IH. unfold ltof. simpl. lia.
  - unfold Rgtb. rewrite (Rltb_ge (radius * radius)) by (rewrite Hsq; nra).
    rewrite (Rltb_ge (1 * 1)) by lra.
    unfold Sampling.scale. cbn [V3.x V3.y V3.z].
    do 2 f_equal. f_equal; ring.
Qed.

(** The radius only scales the result of [randomInSphere]: for a radius
    that is not zero the loop takes the draws it takes for the unit
    sphere and returns that point multiplied by the radius, so the number
    of draws does not depend on the radius; for the radius zero it
    returns the origin after one round. *)
Theorem randomInSphere_scales (radius : R) (tape : list R) :
  (radius <> 0 ->
   Placement.randomInSphere radius tape
   = match Placement.randomInSphere 1 tape with
     | Some (p, rest) => Some (Sampling.scale radius p, rest)
     | None => None
     end)
  /\ (forall u1 u2 u3 rest,
        tape = u1 :: u2 :: u3 :: rest ->
        Placement.randomInSphere 0 tape = Some (V3.mk 0 0 0, rest)).
Proof.
  split.
  - apply rejection_loop_scales.
  - intros u1 u2 u3 rest ->. unfold Placement.randomInSphere.
    rewrite rejection_loop_first_inside by (cbv zeta; nra).
    do 2 f_equal. f_equal; ring.
Qed.

(** ** The sky (js/scene/scene-setup.js) *)

Module Sky.

(** The attributes of the points [createTwinklingStars] returns. *)
Record TwinklingStars : Type := {
  positions : list R;
  sizes : list R;
  phases : list R;
  speeds : list R
}.

(** The body of the loop of [createTwinklingStars]: six draws a star. *)
Definition star_round (i : nat)
  (st : list R * list R * list R * list R)
  : Rand (list R * list R * list R * list R) :=
  let '(positions, sizes, phases, speeds) := st in
  let* u := Math_random in
  let theta := u * PI * 2 in
  let* u := Math_random in
  let phi := u * PI * 0.5 in
  let radius := 149 in
  let positions :=
    <[(i * 3)%nat := radius * sin phi * cos theta]> positions in
  let positions := <[(i * 3 + 1)%nat := radius * cos phi]> positions in
  let positions :=
    <[(i * 3 + 2)%nat := radius * sin phi * sin theta]> positions in
  let* u := Math_random in
  let* sizes :=
    if Rltb u 0.05
    then let* u := Math_random in rand_ret (<[i := 3.0 + u * 2.0]> sizes)
    else let* u := Math_random in rand_ret (<[i := 0.5 + u * 1.5]> sizes) in
  let* u := Math_random in
  let phases := <[i := u * PI * 2]> phases in
  let* u := Math_random in
  let speeds := <[i := if Rltb u 0.2 then 2.0 else 1.0]> speeds in
  rand_ret (positions, sizes, phases, speeds).

(** [createTwinklingStars(scene)] *)
Definition createTwinklingStars : Rand TwinklingStars :=
  let starCount := 2000%nat in
  let positions := replicate (starCount * 3) 0 in
  let sizes := replicate starCount 0 in
  let phases := replicate starCount 0 in
  let speeds := replicate starCount 0 in
  let* st :=
    for_each star_round (seq 0 starCount) (positions, sizes, phases, speeds) in
  let '(positions, sizes, phases, speeds) := st in
  rand_ret {| positions := positions; sizes := sizes; phases := phases;
              speeds := speeds |}.

End Sky.

(** What [createTwinklingStars] has written for star [i]. *)
Definition star_placed (st : list R * list R * list R * list R) (i : nat)
  : Prop :=
  exists x y z size phase speed : R,
    st.1.1.1 !! (i * 3)%nat = Some x
    /\ st.1.1.1 !! (i * 3 + 1)%nat = Some y
    /\ st.1.1.1 !! (i * 3 + 2)%nat = Some z
    /\ x * x + y * y + z * z = 149 * 149 /\ 0 < y
    /\ st.1.1.2 !! i = Some size
    /\ (0.5 <= size < 2 \/ 3 <= size < 5)
    /\ st.1.2 !! i = Some phase /\ 0 <= phase < 2 * PI
    /\ st.2 !! i = Some speed /\ (speed = 1 \/ speed = 2).

Definition stars_filled (n k : nat) (st : list R * list R * list R * list R)
  (tape : list R) : Prop :=
  length st.1.1.1 = (n * 3)%nat /\ length st.1.1.2 = n
  /\ length st.1.2 = n /\ length st.2 = n
  /\ Forall (fun u => 0 <= u < 1) tape
  /\ forall i, (i < k)%nat -> star_placed st i.

Lemma star_round_filled (n i : nat) (st : list R * list R * list R * list R)
  (tape : list R) :
  (i < n)%nat -> stars_filled n i st tape -> (6 <= length tape)%nat ->
  exists st' tape',
    Sky.star_round i st tape = Some (st', tape')
    /\ stars_filled n (S i) st' tape'
    /\ length tape = (6 + length tape')%nat.
Proof.
  intros Hi (L1 & L2 & L3 & L4 & Hr & Hok) Hlen.
  destruct st as [[[ps ss] phs] sps]. cbn [fst snd] in *.
  destruct tape as [|u1 [|u2 [|u3 [|u4 [|u5 [|u6 tape]]]]]];
    try (cbn [length] in Hlen; lia).
  apply Forall_cons in Hr as [R1 Hr]. apply Forall_cons in Hr as [R2 Hr].
  apply Forall_cons in Hr as [R3 Hr]. apply Forall_cons in Hr as [R4 Hr].
  apply Forall_cons in Hr as [R5 Hr]. apply Forall_cons in Hr as [R6 Hr].
  pose proof PI_RGT_0 as Hpi.
  assert (Hy : 0 < 149 * cos (u2 * PI * 0.5)).
  { assert (0 < cos (u2 * PI * 0.5)); [|lra].
    apply cos_gt_0; nra. }
  set (size := if Rltb u3 0.05 then 3.0 + u4 * 2.0 else 0.5 + u4 * 1.5).
  assert (E : Sky.star_round i (ps, ss, phs, sps)
                (u1 :: u2 :: u3 :: u4 :: u5 :: u6 :: tape)
              = Some ((<[(i * 3 + 2)%nat :=
                           149 * sin (u2 * PI * 0.5) * sin (u1 * PI * 2)]>
                         (<[(i * 3 + 1)%nat := 149 * cos (u2 * PI * 0.5)]>
                            (<[(i * 3)%nat :=
                                 149 * sin (u2 * PI * 0.5)
                                 * cos (u1 * PI * 2)]> ps)),
                       <[i := size]> ss, <[i := u5 * PI * 2]> phs,
                       <[i := if Rltb u6 0.2 then 2.0 else 1.0]> sps),
                      tape)).
  { unfold Sky.star_round, rand_bind, Math_random, rand_ret, size.
    destruct (Rltb u3 0.05); reflexivity. }
  eexists _, _. split; [exact E|]. split; [|cbn [length]; lia].
  split; [cbn [fst snd]; rewrite !length_insert; exact L1|].
  split; [cbn [fst snd]; rewrite !length_insert; exact L2|].
  split; [cbn [fst snd]; rewrite !length_insert; exact L3|].
  split; [cbn [fst snd]; rewrite !length_insert; exact L4|].
  split; [exact Hr|].
  intros j Hj. unfold star_placed. cbn [fst snd].
  destruct (decide (j = i)) as [->|Hne].
  - exists (149 * sin (u2 * PI * 0.5) * cos (u1 * PI * 2)),
      (149 * cos (u2 * PI * 0.5)),
      (149 * sin (u2 * PI * 0.5) * sin (u1 * PI * 2)),
      size, (u5 * PI * 2), (if Rltb u6 0.2 then 2.0 else 1.0).
    lookup_insert.
    split; [reflexivity|]. split; [reflexivity|]. split; [reflexivity|].
    split; [apply spherical_square|]. split; [exact Hy|].
    split; [reflexivity|].
    split; [unfold size; destruct (Rltb u3 0.05); [right|left]; lra|].
    split; [reflexivity|]. split; [nra|]. split; [reflexivity|].
    destruct (Rltb u6 0.2); [right|left]; lra.
  - destruct (Hok j) as (x & y & z & s & p & v & H); [lia|].
    exists x, y, z, s, p, v. lookup_insert. exact H.
Qed.

(** The stars [createTwinklingStars] places, on a tape of draws of
    [[0, 1)] that holds six draws for each of its 2000 stars: it returns
    and takes exactly those draws; every star lies on the sphere of
    radius 149 and above the horizon; its size is between 0.5 and 2, or
    between 3 and 5; its phase is between 0 and a full turn; its speed is
    1 or 2. *)
Theorem createTwinklingStars_hemisphere (tape : list R) :
  Forall (fun u => 0 <= u < 1) tape -> (6 * 2000 <= length tape)%nat ->
  exists stars tape',
    Sky.createTwinklingStars tape = Some (stars, tape')
    /\ length tape = (6 * 2000 + length tape')%nat
    /\ length (Sky.positions stars) = (2000 * 3)%nat
    /\ length (Sky.sizes stars) = 2000%nat
    /\ length (Sky.phases stars) = 2000%nat
    /\ length (Sky.speeds stars) = 2000%nat
    /\ forall i, (i < 2000)%nat ->
         star_placed (Sky.positions stars, Sky.sizes stars,
                      Sky.phases stars, Sky.speeds stars) i.
Proof.
  intros Hr Hlen. unfold Sky.createTwinklingStars. cbv zeta.
  generalize dependent 2000%nat. intros n Hlen.
  destruct (for_each_returns Sky.star_round (stars_filled n) 6 n 0)
    with (s := (replicate (n * 3) 0, replicate n 0, replicate n 0,
                replicate n 0))
         (tape := tape)
    as (st & tape' & E & (L1 & L2 & L3 & L4 & _ & Hok) & L).
  - intros i st tape0 Hi HP Hl.
    apply star_round_filled; [lia|exact HP|exact Hl].
  - split; [cbn [fst snd]; apply length_replicate|].
    split; [cbn [fst snd]; apply length_replicate|].
    split; [cbn [fst snd]; apply length_replicate|].
    split; [cbn [fst snd]; apply length_replicate|].
    split; [exact Hr|]. intros i Hi. lia.
  - exact Hlen.
  - unfold rand_bind at 1. rewrite E. destruct st as [[[ps ss] phs] sps].
    cbn [fst snd] in *. unfold rand_ret.
    eexists _, _. split; [reflexivity|].
    cbn [Sky.positions Sky.sizes Sky.phases Sky.speeds].
    repeat split; assumption.
Qed.

Lemma createTwinklingStars_hemisphere_witness :
  exists stars tape',
    Sky.createTwinklingStars (replicate (6 * 2000) 0.5) = Some (stars, tape')
    /\ length (Sky.positions stars) = (2000 * 3)%nat.
Proof.
  destruct (createTwinklingStars_hemisphere (replicate (6 * 2000) 0.5))
    as (stars & tape' & E & _ & L & _).
  - apply Forall_replicate. lra.
  - rewrite length_replicate. lia.
  - exists stars, tape'. split; [exact E|exact L].
Defined.

(** ** Shooting stars (js/scene/scene-setup.js, main.js) *)

Module ShootingStars.

(** The objects a tween of [createShootingStar] animates. *)
Inductive Target : Type := material_opacity | glowMaterial_opacity | position.

(** The end values of a tween. *)
Inductive Vars : Type := opacity (value : R) | xyz (p : V3.t).

(** A call of [gsap.to]: the target, the end values, the duration, the
    delay, the ease, and whether its [onComplete] removes the star. *)
Record Animation : Type := {
  target : Target;
  vars : Vars;
  duration : R;
  delay : R;
  ease : string;
  removes : bool
}.

(** A shooting star: the mesh with its start position, the length of its
    cylinder, and the tweens started on it. *)
Record ShootingStar : Type := {
  startPos : V3.t;
  endPos : V3.t;
  cylinderLength : R;
  speed : R;
  animations : list Animation
}.

(** [startPos.distanceTo(endPos)] *)
Definition distanceTo (a b : V3.t) : R :=
  let dx := V3.x a - V3.x b in
  let dy := V3.y a - V3.y b in
  let dz := V3.z a - V3.z b in
  sqrt (dx * dx + dy * dy + dz * dz).

(** The [switch (side)]: the start on an edge of the view and the end;
    a side that is no case leaves both vectors at the origin. *)
Definition edge (side : Z) : Rand (V3.t * V3.t) :=
  match side with
  | 0%Z =>
      let* u1 := Math_random in
      let* u2 := Math_random in
      let startPos := V3.mk ((u1 - 0.5) * 100) 60 ((u2 - 0.5) * 100) in
      rand_ret (startPos,
                V3.mk (V3.x startPos - 30) (V3.y startPos - 40)
                  (V3.z startPos - 30))
  | 1%Z =>
      let* u1 := Math_random in
      let* u2 := Math_random in
      let startPos := V3.mk 60 ((u1 - 0.5) * 60 + 30) ((u2 - 0.5) * 100) in
      rand_ret (startPos,
                V3.mk (V3.x startPos - 40) (V3.y startPos - 30)
                  (V3.z startPos - 30))
  | 2%Z =>
      let* u1 := Math_random in
      let* u2 := Math_random in
      let startPos := V3.mk (-60) ((u1 - 0.5) * 60 + 30) ((u2 - 0.5) * 100) in
      rand_ret (startPos,
                V3.mk (V3.x startPos + 40) (V3.y startPos - 30)
                  (V3.z startPos - 30))
  | 3%Z =>
      let* u1 := Math_random in
      let* u2 := Math_random in
      let startPos := V3.mk ((u1 - 0.5) * 100) ((u2 - 0.5) * 60 + 40) 60 in
      rand_ret (startPos,
                V3.mk (V3.x startPos - 30) (V3.y startPos - 30)
                  (V3.z startPos - 50))
  | _ => rand_ret (V3.mk 0 0 0, V3.mk 0 0 0)
  end.

(** [createShootingStar(scene, shootingStars)]; the orientation of the
    mesh and its materials are left out. *)
Definition createShootingStar (shootingStars : list ShootingStar)
  : Rand (list ShootingStar) :=
  if (3 <=? length shootingStars)%nat then rand_ret shootingStars
  else
    let* u := Math_random in
    let side := Zfloor (u * 4) in
    let* ends := edge side in
    let '(startPos, endPos) := ends in
    let* u := Math_random in
    let length := 5 + u * 5 in
    let* u := Math_random in
    let speed := 20 + u * 10 in
    let duration := distanceTo startPos endPos / speed in
    let shootingStar :=
      {| startPos := startPos; endPos := endPos; cylinderLength := length;
         speed := speed;
         animations :=
           [ {| target := material_opacity; vars := opacity 1;
                duration := 0.1; delay := 0; ease := defaultEase;
                removes := false |};
             {| target := glowMaterial_opacity; vars := opacity 0.6;
                duration := 0.1; delay := 0; ease := defaultEase;
                removes := false |};
             {| target := position; vars := xyz endPos;
                duration := duration; delay := 0; ease := "none";
                removes := false |};
             {| target := material_opacity; vars := opacity 0;
                duration := 0.5; delay := duration - 0.5;
                ease := defaultEase; removes := false |};
             {| target := glowMaterial_opacity; vars := opacity 0;
                duration := 0.5; delay := duration - 0.5;
                ease := defaultEase; removes := true |} ] |} in
    rand_ret (shootingStars ++ [shootingStar]).

(** The shooting-star lines of [animate]: the timer counts the frame, a
    fresh threshold is drawn, and a star is created when the timer is
    beyond it. *)
Definition spawn_frame (st : R * list ShootingStar)
  : Rand (R * list ShootingStar) :=
  let '(shootingStarTimer, shootingStars) := st in
  let shootingStarTimer := shootingStarTimer + 0.016 in
  let* u := Math_random in
  let nextShootingStarTime := 3 + u * 3 in
  if Rgtb shootingStarTimer nextShootingStarTime
  then
    let* shootingStars := createShootingStar shootingStars in
    rand_ret (0, shootingStars)
  else rand_ret (shootingStarTimer, shootingStars).

(** [n] frames of [animate], one after the other. *)
Fixpoint spawn_frames (n : nat) (st : R * list ShootingStar)
  : Rand (R * list ShootingStar) :=
  match n with
  | O => rand_ret st
  | S n' => let* st := spawn_frames n' st in spawn_frame st
  end.

(** The flight of a star as its tweens describe it. *)
Definition flight_time (s : ShootingStar) : R :=
  distanceTo (startPos s) (endPos s) / speed s.

End ShootingStars.

Lemma sqrt_between (x lo hi : R) :
  0 <= lo -> lo * lo < x -> x < hi * hi -> 0 < hi -> lo < sqrt x < hi.
Proof.
  intros Hlo H1 H2 Hhi.
  assert (Hx : 0 <= x) by nra.
  pose proof (sqrt_pos x) as Hs. pose proof (sqrt_sqrt x Hx) as Hss.
  split; nra.
Qed.

(** The two lengths of a flight: 58.3 on three sides, 65.6 on the
    fourth. *)
Lemma edge_flight (side : Z) (u1 u2 : R) (rest : list R) :
  (0 <= side < 4)%Z ->
  exists a b,
    ShootingStars.edge side (u1 :: u2 :: rest) = Some ((a, b), rest)
    /\ 58 < ShootingStars.distanceTo a b < 66
    /\ ((V3.y a = 60 /\ b = V3.mk (V3.x a - 30) (V3.y a - 40) (V3.z a - 30))
        \/ (V3.x a = 60
            /\ b = V3.mk (V3.x a - 40) (V3.y a - 30) (V3.z a - 30))
        \/ (V3.x a = -60
            /\ b = V3.mk (V3.x a + 40) (V3.y a - 30) (V3.z a - 30))
        \/ (V3.z a = 60
            /\ b = V3.mk (V3.x a - 30) (V3.y a - 30) (V3.z a - 50))).
Proof.
  intros Hs.
  assert (Hc : side = 0%Z \/ side = 1%Z \/ side = 2%Z \/ side = 3%Z) by lia.
  destruct Hc as [-> | [-> | [-> | ->]]];
    unfold ShootingStars.edge, rand_bind, Math_random, rand_ret;
    eexists _, _; (split; [reflexivity|]);
    (split; [unfold ShootingStars.distanceTo; cbn [V3.x V3.y V3.z];
             apply sqrt_between; nra|]);
    cbn [V3.x V3.y V3.z].
  - left. split; reflexivity.
  - right; left. split; reflexivity.
  - right; right; left. split; reflexivity.
  - right; right; right. split; reflexivity.
Qed.

(** [createShootingStar] keeps at most three stars alive and plans every
    flight the same way: with three stars or more in the array it
    changes nothing and takes no draw; otherwise, on five draws of
    [[0, 1)], it appends one star, which starts on one of the four edges
    and ends at a fixed offset from its start; its cylinder is between 5
    and 10 long; its flight lasts between 1.9 and 3.3 seconds; the star
    fades in during the first 0.1 seconds, fades out during the last 0.5
    seconds, and the tween that removes it from the array ends exactly
    when the flight ends. *)
Theorem createShootingStar_flight (shootingStars : list ShootingStars.ShootingStar)
  (tape : list R) :
  ((3 <= length shootingStars)%nat ->
   ShootingStars.createShootingStar shootingStars tape
   = Some (shootingStars, tape))
  /\ ((length shootingStars < 3)%nat ->
      Forall (fun u => 0 <= u < 1) tape -> (5 <= length tape)%nat ->
      exists star,
        ShootingStars.createShootingStar shootingStars tape
        = Some (shootingStars ++ [star], drop 5 tape)
        /\ (length (shootingStars ++ [star]) <= 3)%nat
        /\ 5 <= ShootingStars.cylinderLength star < 10
        /\ 1.9 < ShootingStars.flight_time star < 3.3
        /\ (let a := ShootingStars.startPos star in
            let b := ShootingStars.endPos star in
            (V3.y a = 60
             /\ b = V3.mk (V3.x a - 30) (V3.y a - 40) (V3.z a - 30))
            \/ (V3.x a = 60
                /\ b = V3.mk (V3.x a - 40) (V3.y a - 30) (V3.z a - 30))
            \/ (V3.x a = -60
                /\ b = V3.mk (V3.x a + 40) (V3.y a - 30) (V3.z a - 30))
            \/ (V3.z a = 60
                /\ b = V3.mk (V3.x a - 30) (V3.y a - 30) (V3.z a - 50)))
        /\ Forall (fun an =>
                     0 <= ShootingStars.delay an
                     /\ ShootingStars.delay an + ShootingStars.duration an
                        <= ShootingStars.flight_time star
                     /\ (ShootingStars.removes an = true ->
                         ShootingStars.delay an + ShootingStars.duration an
                         = ShootingStars.flight_time star)
                     /\ (ShootingStars.delay an = 0
                         \/ 0.1 < ShootingStars.delay an))
             (ShootingStars.animations star)
        /\ exists an, an ∈ ShootingStars.animations star
                      /\ ShootingStars.removes an = true).
Proof.
  split.
  - intros H. unfold ShootingStars.createShootingStar.
    destruct (Nat.leb_spec 3 (length shootingStars)); [reflexivity|lia].
  - intros Hlen Hr Hl. unfold ShootingStars.createShootingStar.
    destruct (Nat.leb_spec 3 (length shootingStars)); [lia|].
    destruct tape as [|u0 [|u1 [|u2 [|u3 [|u4 tape]]]]];
      cbn [length] in Hl; try lia.
    apply Forall_cons in Hr as [R0 Hr]. apply Forall_cons in Hr as [_ Hr].
    apply Forall_cons in Hr as [_ Hr]. apply Forall_cons in Hr as [R3 Hr].
    apply Forall_cons in Hr as [R4 _].
    pose proof (random_index_range u0 4 R0 ltac:(lia)) as Hside.
    rewrite INR_IZR_INZ in Hside. change (IZR (Z.of_nat 4)) with 4 in Hside.
    destruct (edge_flight (Zfloor (u0 * 4)) u1 u2 (u3 :: u4 :: tape))
      as (a & b & E & Hd & Hedge); [lia|].
    unfold rand_bind at 1. unfold Math_random at 1.
    unfold rand_bind at 1. rewrite E.
    unfold rand_bind, Math_random, rand_ret.
    eexists. split; [reflexivity|].
    cbn [ShootingStars.cylinderLength ShootingStars.startPos
         ShootingStars.endPos ShootingStars.animations].
    unfold ShootingStars.flight_time.
    cbn [ShootingStars.startPos ShootingStars.endPos ShootingStars.speed].
    set (d := ShootingStars.distanceTo a b) in *.
    assert (Hsp : 20 <= 20 + u4 * 10 < 30) by lra.
    set (sp := 20 + u4 * 10) in *.
    assert (Hf : 1.9 < d / sp < 3.3).
    { unfold Rdiv. assert (Hinv : 0 < / sp) by (apply Rinv_0_lt_compat; lra).
      assert (Hone : sp * / sp = 1) by (apply Rinv_r; lra).
      split; nra. }
    split; [rewrite length_app; cbn [length]; lia|].
    split; [lra|]. split; [exact Hf|]. split; [exact Hedge|].
    split.
    + repeat (apply Forall_cons; split);
        [..|apply Forall_nil_2];
        cbn [ShootingStars.delay ShootingStars.duration
             ShootingStars.removes];
        (split; [lra|]); (split; [lra|]);
        (split; [intros; first [discriminate|lra]|]);
        first [left; reflexivity|right; lra].
    + eexists. split; [do 4 apply list_elem_of_further;
                       apply list_elem_of_here|reflexivity].
Qed.

(** [createShootingStar] returns whenever the tape holds five draws of
    [[0, 1)]. *)
Lemma createShootingStar_returns
  (stars : list ShootingStars.ShootingStar) (tape : list R) :
  Forall (fun u => 0 <= u < 1) tape -> (5 <= length tape)%nat ->
  exists stars' tape',
    ShootingStars.createShootingStar stars tape = Some (stars', tape').
Proof.
  intros Hr Hl. unfold ShootingStars.createShootingStar.
  destruct (3 <=? length stars)%nat; [eexists _, _; reflexivity|].
  destruct tape as [|u0 [|u1 [|u2 [|u3 [|u4 tape]]]]];
    cbn [length] in Hl; try lia.
  apply Forall_cons in Hr as [R0 _].
  pose proof (random_index_range u0 4 R0 ltac:(lia)) as Hside.
  rewrite INR_IZR_INZ in Hside. change (IZR (Z.of_nat 4)) with 4 in Hside.
  destruct (edge_flight (Zfloor (u0 * 4)) u1 u2 (u3 :: u4 :: tape))
    as (a & b & E & _); [lia|].
  unfold rand_bind at 1. unfold Math_random at 1.
  unfold rand_bind at 1. rewrite E.
  unfold rand_bind, Math_random, rand_ret.
  eexists _, _. reflexivity.
Qed.

(** *** The spawn timer *)

(** A frame that does not spawn. *)
Lemma spawn_frame_waits (timer u : R)
  (stars : list ShootingStars.ShootingStar) (rest : list R) :
  timer + 0.016 <= 3 + u * 3 ->
  ShootingStars.spawn_frame (timer, stars) (u :: rest)
  = Some ((timer + 0.016, stars), rest).
Proof.
  intros H. unfold ShootingStars.spawn_frame, rand_bind, Math_random.
  unfold Rgtb. rewrite Rltb_ge by lra. reflexivity.
Qed.

(** A frame that spawns. *)
Lemma spawn_frame_spawns (timer u : R)
  (stars : list ShootingStars.ShootingStar) (rest : list R) :
  3 + u * 3 < timer + 0.016 ->
  ShootingStars.spawn_frame (timer, stars) (u :: rest)
  = match ShootingStars.createShootingStar stars rest with
    | Some (stars', tape') => Some ((0, stars'), tape')
    | None => None
    end.
Proof.
  intros H. unfold ShootingStars.spawn_frame, rand_bind, Math_random.
  unfold Rgtb. rewrite Rltb_lt by lra. unfold rand_ret.
  destruct (ShootingStars.createShootingStar stars rest) as [[s t]|];
    reflexivity.
Qed.

(** No star has been created yet after [j] frames: the timer has counted
    them and every frame has taken its draw. *)
Definition waiting (stars : list ShootingStars.ShootingStar) (tape : list R)
  (j : nat) : Prop :=
  exists timer,
    ShootingStars.spawn_frames j (0, stars) tape
    = Some ((timer, stars), drop j tape)
    /\ timer = INR j * 0.016.

Lemma INR_187 : INR 187 = 187.
Proof. rewrite INR_IZR_INZ. reflexivity. Qed.

Lemma INR_375 : INR 375 = 375.
Proof. rewrite INR_IZR_INZ. reflexivity. Qed.

Lemma spawn_search (stars : list ShootingStars.ShootingStar) (tape : list R) :
  Forall (fun u => 0 <= u < 1) tape -> (375 <= length tape)%nat ->
  forall m j : nat,
  (j + m = 375)%nat -> (1 <= m)%nat ->
  (forall i, (i <= j)%nat -> waiting stars tape i) ->
  exists k u,
    (188 <= k <= 375)%nat
    /\ (forall i, (i < k)%nat -> waiting stars tape i)
    /\ tape !! (k - 1)%nat = Some u
    /\ 3 + u * 3 < INR k * 0.016.
Proof.
  intros Hr Hl m. induction m as [|m IH]; intros j Hj Hm Hw; [lia|].
  destruct (lookup_lt_is_Some_2 tape j) as [u Hu]; [lia|].
  pose proof (proj1 (Forall_lookup _ _) Hr j u Hu) as Hu01.
  destruct (Rlt_dec (3 + u * 3) (INR (S j) * 0.016)) as [Hspawn|Hwait].
  - exists (S j), u.
    assert (Hk : (188 <= S j)%nat).
    { destruct (Nat.le_gt_cases 188 (S j)) as [H|H]; [exact H|].
      exfalso. assert (Hle : INR (S j) <= INR 187) by (apply le_INR; lia).
      rewrite INR_187 in Hle. lra. }
    split; [lia|]. split; [intros i Hi; apply Hw; lia|].
    split; [rewrite Nat.sub_succ, Nat.sub_0_r; exact Hu|exact Hspawn].
  - assert (Hlt : (S j < 375)%nat).
    { destruct (Nat.le_gt_cases 375 (S j)) as [H|H]; [|exact H].
      exfalso. assert (Hle : INR 375 <= INR (S j)) by (apply le_INR; lia).
      rewrite INR_375 in Hle. lra. }
    apply (IH (S j)); [lia|lia|].
    intros i Hi. destruct (decide (i = S j)) as [->|Hne]; [|apply Hw; lia].
    destruct (Hw j ltac:(lia)) as (timer & E & Ht).
    exists (timer + 0.016). split.
    + cbn [ShootingStars.spawn_frames]. unfold rand_bind. rewrite E.
      rewrite (drop_S _ _ _ Hu).
      apply spawn_frame_waits. rewrite Ht. rewrite S_INR in Hwait. lra.
    + rewrite Ht, S_INR. lra.
Qed.

(** A shooting star is due every 3 to 6 seconds of the frame timer,
    which counts 0.016 a frame: counted from the start, or from the frame
    that last reset the timer, the first 187 frames never call
    [createShootingStar], whatever the draws of [[0, 1)] are, and some
    frame between the 188th and the 375th does, with the array as it was,
    and resets the timer to 0. *)
Theorem shooting_star_timer_window
  (stars : list ShootingStars.ShootingStar) (tape : list R) :
  Forall (fun u => 0 <= u < 1) tape -> (380 <= length tape)%nat ->
  exists k stars' tape',
    (188 <= k <= 375)%nat
    /\ (forall i, (i < k)%nat ->
          ShootingStars.spawn_frames i (0, stars) tape
          = Some ((INR i * 0.016, stars), drop i tape))
    /\ ShootingStars.createShootingStar stars (drop k tape)
       = Some (stars', tape')
    /\ ShootingStars.spawn_frames k (0, stars) tape = Some ((0, stars'), tape').
Proof.
  intros Hr Hl.
  destruct (spawn_search stars tape Hr ltac:(lia) 375 0)
    as (k & u & Hk & Hw & Hu & Hspawn); [lia|lia| |].
  { intros i Hi. assert (i = 0%nat) as -> by lia.
    exists 0. split; [reflexivity|]. cbn. lra. }
  destruct k as [|k]; [lia|].
  rewrite Nat.sub_succ, Nat.sub_0_r in Hu.
  destruct (Hw k ltac:(lia)) as (timer & E & Ht).
  destruct (createShootingStar_returns stars (drop (S k) tape))
    as (stars' & tape' & Ec).
  { apply Forall_drop. exact Hr. }
  { rewrite length_drop. lia. }
  exists (S k), stars', tape'. split; [exact Hk|].
  split.
  - intros i Hi. destruct (Hw i Hi) as (t & Ei & ->). exact Ei.
  - split; [exact Ec|].
    cbn [ShootingStars.spawn_frames]. unfold rand_bind. rewrite E.
    rewrite (drop_S _ _ _ Hu).
    rewrite spawn_frame_spawns by (rewrite Ht; rewrite S_INR in Hspawn; lra).
    rewrite Ec. reflexivity.
Qed.

Lemma shooting_star_timer_window_witness :
  exists k stars' tape',
    (188 <= k <= 375)%nat
    /\ ShootingStars.spawn_frames k (0, []) (replicate 380 0.5)
       = Some ((0, stars'), tape').
Proof.
  destruct (shooting_star_timer_window [] (replicate 380 0.5))
    as (k & stars' & tape' & Hk & _ & _ & E).
  - apply Forall_replicate. lra.
  - rewrite length_replicate. lia.
  - exists k, stars', tape'. split; [exact Hk|exact E].
Defined.
